(* ===== verification/_CoqProject ===== *)
-Q . S2P
Prelude.v
Explore.v
CppString.v
Support.v
Platform.v
Wire.v
Nmea.v
Pghp2.v
Messages.v
ProxyFilter.v
Plugin.v
DataFlow.v
ProxyLog.v
Json.v
Endpoints.v
Activation.v
Certs.v
Thread.v
BaseClient.v
RemoteHost.v
Session.v
HostThread.v
SessionRun.v
Config.v
Tls.v
ProviderClient.v
ProviderStop.v
LocalHost.v
LocalThread.v
LocalStop.v
EndToEnd.v
HttpClient.v
Status.v
Errors.v
WebApp.v
Exchange.v
ActivationStop.v
Main.v
Types.v
