(* ===== verification/Prelude.v ===== *)
(** * Uniproxy: a verification development

    Uniproxy carries data between two sites over mutually authenticated TLS.
    One site runs hosts, which listen for other proxies and connect them to
    local systems; the other runs clients, which connect local programs
    ([LocalHost]) or local providers of data ([ProviderClient]) to a host.
    Proxies learn each other's certificates while an activation window is open.
    A web application shows the status, takes commands and stores the
    configuration.  The source is under [src/src], with the gatehouse protocol
    library under [src/libs/gatehouse].

    ** The way the code is modelled

    Every file below follows one or two source files, function by function, and
    keeps their names.  A function that may fail has the result type [out] of
    this file: a value, a thrown exception ([exn], with [std::exception] and the
    two classes outside it told apart, since only the former are caught), or
    [UB] for undefined behaviour.  A function that changes an object is a
    [st S A]: what it changed stays changed when it throws.  Integers have the
    width they have with GCC on x86-64 ([wrap], [swrap]); strings and buffers
    are lists of bytes, and reading outside of them is [UB].  Objects with
    identity (hosts, clients, sessions, sockets) are named by their ids.
    Threads that share an object meet under its mutex, so one locked region is
    one step and an interleaving is a sequence of steps.  Where it matters how
    threads start, stop and join each other, they are a transition system with a
    place in the code per thread, which is explored.  Whatever comes from
    outside (readings of the clock and of a stop flag, what a socket delivers,
    random choices) is an argument: a script, over which the theorems quantify.

    Third-party code is an interface, a type class whose laws are what its
    documentation says, with an instance the witnesses compute with: JSON values
    ([Json.Json], instance [tree]), certificates and their files ([Certs.X509],
    instance [letters]), the web framework ([WebApp.Environment]); or else a
    parameter (regular expressions, tokenizer, doubles, the parser of time spans,
    the OpenSSL command, connecting and resolving).

    ** The files

    - [Prelude]: outcomes, state, integers, bytes; what a call preserves
      ([preserves], tactic [frames]) and what it ends with ([triple]).
    - [Explore]: lists the reachable states of a finite system and shows what is
      checked of them.
    - [CppString]: [std::string], streams and string helpers ([applutil]).
      [Support]: the text of a time, connecting by name, a read with a time
      limit, external programs ([applutil]).
    - [Platform]: socket options ([applutil]) and the rule of the Windows
      firewall ([win_util]).
    - [Wire]: the type-length-value codec ([pghpinternalbase]); encoding then
      decoding gives the value back, with the exceptions the code has, and
      [ParseString] is characterised where it leaves its buffer.
    - [Nmea], [Pghp2], [Messages], [ProxyFilter]: sentences and their checksum
      ([pghpnmeamsg]), mails cut into sentences and read back ([pghp2]), the
      mails of the logon and the filter ([pghplogonrequest] and the like).
    - [Plugin]: the logon dialogue over a local socket ([pghpplugin]).
    - [DataFlow], [ProxyLog], [Activation]: three shared objects ([data_flow],
      [proxy_log], the list of [activate_host]), each with an abstract
      specification and a refinement theorem over all sequences of operations.
    - [Json], [Endpoints]: reading and writing configuration values.
    - [Thread]: [mylib::thread] and its interruptible sleep.
    - [Certs]: certificate files, names, both sides of the exchange.
      [HttpClient]: the client of another proxy's web application.
      [Exchange]: the two threads around them: which certificates come and go.
      [ActivationStop]: the activation thread and the caller that stops it.
    - [BaseClient], [LocalHost], [LocalThread], [ProviderClient]: the clients.
      [LocalHost] has one connection as a step relation on the pending
      operations, with invariants by rule induction; [LocalThread] runs its
      handlers over all connections of the thread; [LocalStop] has the thread
      and [stop] side by side; [ProviderClient] has every
      interleaving of reader and writer over their buffer; [ProviderStop] has
      the two threads, [stop] and the destructor side by side.
    - [RemoteHost]: hosts, the opening of a session, its two data loops and the
      reaping of ended sessions.  [Session]: its two threads and a caller of
      [stop] side by side.  [HostThread]: the thread of a host and its handlers.
      [SessionRun]: the two thread functions of a session from beginning to end,
      over the data of [RemoteHost]; they refine the moves of [Session].
    - [EndToEnd]: a connection of [LocalHost] and the data loops of [RemoteHost]
      put together.
    - [Config]: [proxy_global], the lists of hosts and clients, how a
      configuration builds them, how the next one takes them down, the commands.
      [Errors]: what these throw.  [Status]: what is shown and saved of them.
      [Tls]: the settings of a context and the judgement of a certificate.
    - [WebApp]: the handlers of the web application and its files.
    - [Main]: [load_configuration] and [main]; [Types]: the invariant of the
      whole state, over the whole program.

    The components meet in [Main.main]: a round loads the configuration
    ([Config], [Certs], [Tls]), starts hosts and clients, serves requests
    ([WebApp], which calls [Config] and [Status]), and stops everything.
    [Main.GlobalSteps] lists the operations on the state, so that a property is
    shown of the whole program by showing it of each of them ([main_steps]).

    ** What the theorems show

    - A reload keeps exactly what did not change: threads, sessions, order
      ([Config]); the state stays well typed over the whole program ([Types]).
    - Who may talk to whom: a session needs a verified certificate of a
      configured remote ([RemoteHost]); contexts refuse old protocols and bad
      certificates ([Tls]); certificates only come and go in their windows
      ([Certs], [Exchange]); hosts and clients need the own certificate
      ([Main]).
    - Data is relayed in order and unchanged, within the buffers' bounds
      ([LocalHost], [LocalThread], [ProviderClient], [RemoteHost], and from end
      to end in [EndToEnd]); where it is not, a theorem shows the run that loses
      it.
    - A host goes on serving while its accepts succeed ([HostThread]).  Threads
      that are told to stop end in a bounded number of their moves, and never wait
      for each other ([Session], [LocalStop], [ProviderStop], [ActivationStop]); what can hold
      a stop up is listed, and the runs in which a thread survives its stop are
      shown.  A session that nobody stops comes to its end ([SessionRun]).
    - What is encoded is decoded, and what is saved is read back ([Wire],
      [Pghp2], [Status]); reading a response in pieces is reading it whole
      ([HttpClient]).
    - Whatever the system answers, the rule of the firewall is added or nothing
      is, and what a failure leaves behind is listed ([Platform]).
    - The program ends when nothing asks for a reload, and asks for it at most
      twice to make its certificate ([Main]); loops end ([Pghp2], [Thread]).

    ** Fuel

    A loop that is not structural runs on fuel that is computed from its input:
    the length of the text ([replace_loop], [decode_loop], [checksum_loop],
    [scan], [script_loop], [skip_headers]), of the list ([delete_loop]), the
    number of digits or bytes of an integer ([digits], [hex_digits],
    [truncate]), the seconds of the meter ([cleanup_loop]), the bytes a script
    still has ([read_fuel], [pump_fuel]), the time to sleep ([sleep_loop]).
    Every pass uses up one of these.  Running out is [UB] where the loop's
    result is an [out], so that the theorems that exclude [UB], or give the
    result, show that it is enough.  [explore] has more fuel than there are
    moves; that it was enough is checked of the list it gives ([closed]).  The
    threads' loops run over scripts, and end with them.

    ** Not modelled, and why

    - Pure input and output: what the external program does, the installer.
      [platform.h] has includes and type names only; of the code for Windows the
      rule of the firewall is modelled, the branches that replace calls of Linux
      are not.
      In the files on data, that a socket was shut down is an error in the script
      of who reads it; the files on stopping have the shutting itself.
    - Third-party code: [libs/boost-ext], the templates of the web framework.
    - [XmlEncode], [HtmlDecode] and [XmlTag] of [pghpxmlutil], which are declared
      and never defined.
    - Data races: the members that are read without the mutex that guards them
      elsewhere.  A thread switch is only modelled where the code locks, and in
      the files on stopping between the calls of a thread. *)

From Stdlib Require Export ZArith Lia Ascii String.
From stdpp Require Export base numbers list strings gmap tactics.

#[global] Open Scope Z_scope.

(** ** Machine integers

    An integer of width [w] is a [Z]; every place where the source stores into
    a variable of a narrower or unsigned type applies [wrap] (unsigned) or
    [swrap] (two's complement). *)

Definition wrap (w z : Z) : Z := z mod 2 ^ w.

Definition swrap (w z : Z) : Z := (z + 2 ^ (w - 1)) mod 2 ^ w - 2 ^ (w - 1).

Definition in_uint (w z : Z) : Prop := 0 <= z < 2 ^ w.

Definition in_sint (w z : Z) : Prop := - 2 ^ (w - 1) <= z < 2 ^ (w - 1).

(** ** Bytes

    [char] and [uint8_t] are both the eight bits of an [ascii]; [u8] is the
    unsigned reading, [s8] the signed one ([char] is signed on the target). *)

Definition u8 (c : ascii) : Z := Z.of_N (N_of_ascii c).

Definition s8 (c : ascii) : Z := swrap 8 (u8 c).

Definition chr (z : Z) : ascii := ascii_of_N (Z.to_N (wrap 8 z)).

(** A [std::string] is the list of its bytes; [lit] reads a literal. *)

Definition lit (s : string) : list ascii := list_ascii_of_string s.

Definition zlen {A} (l : list A) : Z := Z.of_nat (length l).

(** ** Exceptions and undefined behaviour *)

(** The enumeration of [error_codes.h]. *)
Inductive error_t :=
  | success | certificate_invalid | certificate_name_invalid
  | certificate_name_unknown | certificate_names_mismatch
  | connection_name_unknown | connection_name_invalid
  | certificate_not_found | url_unknown | parse_file_failed
  | logon_username_password_invalid | logon_account_blocked | logon_failed
  | logon_no_response | thread_already_running | socket_invalid
  | file_failed_copy | unknown_error.

#[export] Instance error_t_eq_dec : EqDecision error_t.
Proof. solve_decision. Defined.

(** What a C++ function of the program can throw.  [InterruptException] and
    [ReloadException] are [mylib::interrupt_exception] and
    [mylib::reload_exception], which do not derive from [std::exception]. *)
Inductive exn :=
  | SystemError (code : error_t) (what : list ascii)
  | BoostError (code : Z)
  | RuntimeError (what : list ascii)
  | OutOfRange
  | BadCast
  | InterruptException
  | ReloadException.

(** The handlers [catch (std::exception&)] match. *)
Definition is_std_exception (e : exn) : bool :=
  match e with
  | InterruptException | ReloadException => false
  | _ => true
  end.

(** The outcome of a call: a value, an exception, or undefined behaviour
    (reading outside a buffer, using an indeterminate value, ...). *)
Inductive out (A : Type) : Type :=
  | Ok (a : A)
  | Throw (e : exn)
  | UB.

Arguments Ok {_} _.
Arguments Throw {_} _.
Arguments UB {_}.

#[export] Instance out_ret : MRet out := fun A a => Ok a.

#[export] Instance out_bind : MBind out := fun A B f m =>
  match m with
  | Ok a => f a
  | Throw e => Throw e
  | UB => UB
  end.

(** A call that changes a state [S]: what it changed stays changed when it
    throws. *)
Definition st (S A : Type) : Type := S -> S * out A.

#[export] Instance st_ret {S} : MRet (st S) := fun A a s => (s, Ok a).

#[export] Instance st_bind {S} : MBind (st S) := fun A B f m s =>
  match m s with
  | (s', Ok a) => f a s'
  | (s', Throw e) => (s', Throw e)
  | (s', UB) => (s', UB)
  end.

(** A call without effect on the state, reading it, changing it. *)
Definition lift {S A} (m : out A) : st S A := fun s => (s, m).
Definition gets {S A} (f : S -> A) : st S A := fun s => (s, Ok (f s)).
Definition modify {S} (f : S -> S) : st S unit := fun s => (f s, Ok tt).

(** [try { m } catch (std::exception &exc) { h(exc) }]. *)
Definition st_catch {S A} (m : st S A) (h : exn -> st S A) : st S A := fun s =>
  match m s with
  | (s', Throw e) => if is_std_exception e then h e s' else (s', Throw e)
  | r => r
  end.

(** The same for a call without state. *)
Definition try_catch {A} (m : out A) (h : exn -> out A) : out A :=
  match m with
  | Throw e => if is_std_exception e then h e else Throw e
  | _ => m
  end.

(** [ASSERTE(c, code, what)]: throw a [std::system_error] unless [c]. *)
Definition ASSERTE (c : bool) (code : error_t) (what : list ascii) : out unit :=
  if c then Ok tt else Throw (SystemError code what).

(** [ASSERTD(c, what)]: throw a [std::runtime_error] unless [c]. *)
Definition ASSERTD (c : bool) (what : list ascii) : out unit :=
  if c then Ok tt else Throw (RuntimeError what).

(** ** Indexing *)

(** [v[i]] of a [std::vector], or [p[i]] inside an array: out of range is
    undefined. *)
Definition rd {A} (l : list A) (i : Z) : out A :=
  if i <? 0 then UB
  else match l !! Z.to_nat i with Some a => Ok a | None => UB end.

(** [s[i]] of a [const std::string], or [s.c_str()[i]]: index [size()] reads
    the terminating NUL. *)
Definition rdz (l : list ascii) (i : Z) : out ascii :=
  if i =? zlen l then Ok zero else rd l i.

(** The bytes of a buffer up to its first NUL: what a [const char*]
    conversion sees. *)
Fixpoint c_str (l : list ascii) : list ascii :=
  match l with
  | [] => []
  | c :: l' => if Ascii.eqb c zero then [] else c :: c_str l'
  end.

(** Erase the first element that satisfies [p]
    ([find_if] followed by [erase], or an iterator loop that breaks). *)
Fixpoint erase_first {A} (p : A -> bool) (l : list A) : list A :=
  match l with
  | [] => []
  | a :: l' => if p a then l' else a :: erase_first p l'
  end.

(** ** Automation *)

Create Rewrite HintDb zlen.
Create Rewrite HintDb outs.
Create HintDb uniproxy.
Create HintDb ints.

(** Reduce the binds of an equation about outcomes and split on what they
    scrutinise. *)
Ltac out_simpl := unfold mbind, out_bind, mret, out_ret in *; simpl in *.

Ltac out_inv :=
  repeat (out_simpl;
    match goal with
    | H : Ok _ = Ok _ |- _ => injection H as H; subst
    | H : Throw _ = Throw _ |- _ => injection H as H; subst
    | H : Ok _ = Throw _ |- _ => discriminate H
    | H : Throw _ = Ok _ |- _ => discriminate H
    | H : UB = Ok _ |- _ => discriminate H
    | H : Ok _ = UB |- _ => discriminate H
    | H : UB = Throw _ |- _ => discriminate H
    | H : Throw _ = UB |- _ => discriminate H
    | H : match ?m with _ => _ end = _ |- _ => destruct m eqn:?
    end).

(** Case on a comparison of integers, keeping it as an arithmetic fact. *)
Ltac zcase :=
  match goal with
  | |- context [?a <? ?b] => destruct (Z.ltb_spec a b)
  | |- context [?a <=? ?b] => destruct (Z.leb_spec a b)
  | |- context [?a =? ?b] => destruct (Z.eqb_spec a b)
  | |- context [?a >? ?b] => rewrite (Z.gtb_ltb a b); destruct (Z.ltb_spec b a)
  | |- context [?a >=? ?b] => rewrite (Z.geb_leb a b); destruct (Z.leb_spec b a)
  end.

(** Arithmetic with quotients and remainders. *)
Ltac divlia := Z.to_euclidean_division_equations; lia.

(** ** Lemmas on outcomes *)

Lemma bind_Ok {A B} (a : A) (f : A -> out B) : (Ok a ≫= f) = f a.
Proof. reflexivity. Qed.

Lemma bind_Throw {A B} e (f : A -> out B) : (Throw e ≫= f) = Throw e.
Proof. reflexivity. Qed.

Lemma bind_UB {A B} (f : A -> out B) : (UB ≫= f) = UB.
Proof. reflexivity. Qed.

Lemma st_bind_Ok {S A B} (m : st S A) (f : A -> st S B) s s' a :
  m s = (s', Ok a) -> (m ≫= f) s = f a s'.
Proof. unfold mbind, st_bind. by intros ->. Qed.

Lemma st_bind_Throw {S A B} (m : st S A) (f : A -> st S B) s s' e :
  m s = (s', Throw e) -> (m ≫= f) s = (s', Throw e).
Proof. unfold mbind, st_bind. by intros ->. Qed.

Lemma st_bind_lift {S A B} (a : A) (f : A -> st S B) s :
  (lift (Ok a) ≫= f) s = f a s.
Proof. done. Qed.

Lemma st_bind_gets {S A B} (g : S -> A) (f : A -> st S B) s :
  (gets g ≫= f) s = f (g s) s.
Proof. done. Qed.

Lemma st_bind_modify {S B} (g : S -> S) (f : unit -> st S B) s :
  (modify g ≫= f) s = f tt (g s).
Proof. done. Qed.

Lemma st_bind_inv {S A B} (m : st S A) (f : A -> st S B) s s' b :
  (m ≫= f) s = (s', Ok b) -> exists s1 a, m s = (s1, Ok a) /\ f a s1 = (s', Ok b).
Proof. unfold mbind, st_bind. destruct (m s) as [s1 [a| |]]; [eauto|done..]. Qed.

Lemma bind_Ok_inv {A B} (m : out A) (f : A -> out B) b :
  (m ≫= f) = Ok b -> exists a, m = Ok a /\ f a = Ok b.
Proof. destruct m; simpl; [eauto|done..]. Qed.

Lemma st_bind_split {S A B} (m : st S A) (f : A -> st S B) s s' r :
  (m ≫= f) s = (s', r) ->
  (exists s1 a, m s = (s1, Ok a) /\ f a s1 = (s', r)) \/
  exists r', m s = (s', r') /\ forall a, r' <> Ok a.
Proof.
  unfold mbind, st_bind. destruct (m s) as [s1 [a|e|]]; [intros; left; eauto|..];
    (intros [= <- _]; right; by eexists).
Qed.

(** A sequence goes on after a value, and ends with anything else. *)
Lemma st_bind_cases {S A B} (m : st S A) (f : A -> st S B) s s' r :
  (m ≫= f) s = (s', r) ->
  (exists s1 a, m s = (s1, Ok a) /\ f a s1 = (s', r)) \/
  (exists e, m s = (s', Throw e) /\ r = Throw e) \/ m s = (s', UB) /\ r = UB.
Proof.
  unfold mbind, st_bind. destruct (m s) as [s1 [a|e|]].
  - intros E. left. by exists s1, a.
  - intros [= <- <-]. right. left. by exists e.
  - intros [= <- <-]. by right; right.
Qed.

Lemma st_catch_inv {S A} (m : st S A) h s s' r :
  st_catch m h s = (s', r) ->
  (exists s1 e, m s = (s1, Throw e) /\ is_std_exception e = true /\ h e s1 = (s', r)) \/
  m s = (s', r) /\ forall e, r = Throw e -> is_std_exception e = false.
Proof.
  unfold st_catch. destruct (m s) as [s1 [a|e|]]; [intros [= <- <-]; by right| |intros [= <- <-]; by right].
  destruct (is_std_exception e) eqn:He; [intros E; left; by exists s1, e|].
  intros [= <- <-]. right. split; [done|]. by intros ? [= <-].
Qed.

(** ** What a call leaves alone *)

(** Everything [m] does is in [R]. *)
Definition preserves {S A} (R : S -> S -> Prop) (m : st S A) : Prop :=
  forall s s' r, m s = (s', r) -> R s s'.

Section preserves.
Context {S : Type} (R : S -> S -> Prop) `{!PreOrder R}.

Lemma preserves_lift {A} (m : out A) : preserves R (lift m).
Proof. intros s s' r [= <- _]. reflexivity. Qed.

Lemma preserves_gets {A} (f : S -> A) : preserves R (gets f).
Proof. intros s s' r [= <- _]. reflexivity. Qed.

Lemma preserves_modify f : (forall s, R s (f s)) -> preserves R (modify f).
Proof. intros Hf s s' r [= <- _]. apply Hf. Qed.

Lemma preserves_ret {A} (a : A) : preserves R (mret a).
Proof. intros s s' r [= <- _]. reflexivity. Qed.

Lemma preserves_bind {A B} (m : st S A) (f : A -> st S B) :
  preserves R m -> (forall a, preserves R (f a)) -> preserves R (m ≫= f).
Proof.
  intros Hm Hf s s' r. unfold mbind, st_bind.
  destruct (m s) as [s1 [a|e|]] eqn:E; [|intros [= <- _]; by eapply Hm..].
  intros E'. transitivity s1; [by eapply Hm|by eapply Hf].
Qed.

Lemma preserves_catch {A} (m : st S A) h :
  preserves R m -> (forall e, preserves R (h e)) -> preserves R (st_catch m h).
Proof.
  intros Hm Hh s s' r. unfold st_catch.
  destruct (m s) as [s1 [a|e|]] eqn:E; [intros [= <- _]; by eapply Hm| |intros [= <- _]; by eapply Hm].
  destruct (is_std_exception e); [|intros [= <- _]; by eapply Hm].
  intros E'. transitivity s1; [by eapply Hm|by eapply Hh].
Qed.

End preserves.

Create HintDb frames.

(** Take a program apart; what is left are its own calls. *)
Ltac frames :=
  repeat first
    [ solve [auto with frames]
    | lazymatch goal with
      | |- forall _, _ => intros ?
      | |- preserves _ (lift _) => apply preserves_lift; exact _
      | |- preserves _ (gets _) => apply preserves_gets; exact _
      | |- preserves _ (mret _) => apply preserves_ret; exact _
      | |- preserves _ (mbind _ _) => apply preserves_bind; [exact _|..]
      | |- preserves _ (st_catch _ _) => apply preserves_catch; [exact _|..]
      | |- preserves _ (match ?x with _ => _ end) => destruct x
      end ].

(** ** What a call ends with *)

(** From a state in [P] the call is defined; with a value it ends in [Q], with
    an exception in [E]. *)
Definition triple {S A} (P : S -> Prop) (m : st S A) (Q : A -> S -> Prop)
    (E : exn -> S -> Prop) : Prop :=
  forall s, P s ->
    match m s with
    | (s', Ok a) => Q a s'
    | (s', Throw e) => E e s'
    | (_, UB) => False
    end.

Section triple.
Context {S : Type}.
Implicit Types P : S -> Prop.
Implicit Types E : exn -> S -> Prop.

Lemma triple_bind {A B} P (R : A -> S -> Prop) (Q : B -> S -> Prop) E (m : st S A) f :
  triple P m R E -> (forall a, triple (R a) (f a) Q E) -> triple P (m ≫= f) Q E.
Proof.
  intros Hm Hf s Hs. unfold mbind, st_bind. specialize (Hm s Hs).
  destruct (m s) as [s1 [a|e|]]; [by apply Hf|done..].
Qed.

Lemma triple_weaken {A} P P' (Q Q' : A -> S -> Prop) E E' (m : st S A) :
  triple P m Q E -> (forall s, P' s -> P s) -> (forall a s, Q a s -> Q' a s) ->
  (forall e s, E e s -> E' e s) -> triple P' m Q' E'.
Proof.
  intros Hm HP HQ HE s Hs. specialize (Hm s (HP s Hs)).
  destruct (m s) as [s1 [a|e|]]; auto.
Qed.

Lemma triple_ret {A} P E (a : A) : triple P (mret a) (fun a' s => a' = a /\ P s) E.
Proof. by intros s Hs. Qed.

Lemma triple_gets {A} P E (f : S -> A) : triple P (gets f) (fun a s => a = f s /\ P s) E.
Proof. by intros s Hs. Qed.

Lemma triple_modify P (Q : unit -> S -> Prop) E f :
  (forall s, P s -> Q tt (f s)) -> triple P (modify f) Q E.
Proof. intros Hf s Hs. by apply Hf. Qed.

Lemma triple_lift {A} P (Q : A -> S -> Prop) E (m : out A) :
  m <> UB -> (forall a s, m = Ok a -> P s -> Q a s) -> (forall e s, m = Throw e -> P s -> E e s) ->
  triple P (lift m) Q E.
Proof.
  intros Hm HQ HE s Hs. cbn. destruct m as [a|e|]; [by apply HQ|by apply HE|done].
Qed.

Lemma triple_catch {A} P (Q : A -> S -> Prop) E E' (m : st S A) h :
  triple P m Q E' -> (forall e, is_std_exception e = true -> triple (E' e) (h e) Q E) ->
  (forall e s, is_std_exception e = false -> E' e s -> E e s) -> triple P (st_catch m h) Q E.
Proof.
  intros Hm Hh HE s Hs. unfold st_catch. specialize (Hm s Hs).
  destruct (m s) as [s1 [a|e|]]; [done| |done].
  destruct (is_std_exception e) eqn:He; [by apply Hh|by apply HE].
Qed.

End triple.

(** ** Lemmas on integers *)

Lemma wrap_range w z : 0 <= w -> in_uint w (wrap w z).
Proof. intros. unfold in_uint, wrap. apply Z.mod_pos_bound. lia. Qed.

Lemma wrap_small w z : in_uint w z -> wrap w z = z.
Proof. intros. unfold wrap. by apply Z.mod_small. Qed.

Lemma swrap_range w z : 0 < w -> in_sint w (swrap w z).
Proof.
  intros. unfold in_sint, swrap.
  pose proof (Z.mod_pos_bound (z + 2 ^ (w - 1)) (2 ^ w) ltac:(lia)).
  replace (2 ^ w) with (2 * 2 ^ (w - 1)) in *; [lia|].
  rewrite <- Z.pow_succ_r by lia. f_equal; lia.
Qed.

Lemma swrap_small w z : 0 < w -> in_sint w z -> swrap w z = z.
Proof.
  intros Hw [H1 H2]. unfold swrap.
  rewrite Z.mod_small; [lia|].
  replace (2 ^ w) with (2 * 2 ^ (w - 1)); [lia|].
  rewrite <- Z.pow_succ_r by lia. f_equal; lia.
Qed.

Lemma swrap_wrap w z : 0 < w -> swrap w (wrap w z) = swrap w z.
Proof.
  intros. unfold swrap, wrap. f_equal.
  by rewrite Z.add_mod_idemp_l by lia.
Qed.

Lemma wrap_swrap w z : 0 < w -> wrap w (swrap w z) = wrap w z.
Proof.
  intros. unfold swrap, wrap.
  rewrite Zminus_mod_idemp_l. f_equal; lia.
Qed.

Lemma wrap_neg w z : 0 < w -> - 2 ^ (w - 1) <= z < 0 -> wrap w z = z + 2 ^ w.
Proof.
  intros. unfold wrap. symmetry. apply (Z.mod_unique _ _ (-1)); [|lia].
  left. replace (2 ^ w) with (2 * 2 ^ (w - 1)); [lia|].
  rewrite <- Z.pow_succ_r by lia. f_equal; lia.
Qed.

(** ** Lemmas on bytes *)

Lemma u8_range c : 0 <= u8 c < 256.
Proof. unfold u8. pose proof (N_ascii_bounded c). lia. Qed.

Lemma u8_chr z : u8 (chr z) = wrap 8 z.
Proof.
  unfold u8, chr. pose proof (wrap_range 8 z ltac:(lia)) as [??].
  rewrite N_ascii_embedding; lia.
Qed.

Lemma u8_chr_small z : 0 <= z < 256 -> u8 (chr z) = z.
Proof. intros. rewrite u8_chr. by apply wrap_small. Qed.

Lemma chr_u8 c : chr (u8 c) = c.
Proof.
  unfold chr. rewrite wrap_small by apply u8_range.
  unfold u8. by rewrite N2Z.id, ascii_N_embedding.
Qed.

Lemma u8_inj c1 c2 : u8 c1 = u8 c2 -> c1 = c2.
Proof. intros E. by rewrite <- (chr_u8 c1), E, chr_u8. Qed.

(** ** Lemmas on lists and indexing *)

Lemma zlen_nil {A} : zlen (@nil A) = 0.
Proof. reflexivity. Qed.

Lemma zlen_cons {A} (a : A) l : zlen (a :: l) = 1 + zlen l.
Proof. unfold zlen. simpl length. lia. Qed.

Lemma zlen_app {A} (l1 l2 : list A) : zlen (l1 ++ l2) = zlen l1 + zlen l2.
Proof. unfold zlen. rewrite length_app. lia. Qed.

Lemma zlen_nonneg {A} (l : list A) : 0 <= zlen l.
Proof. unfold zlen. lia. Qed.


#[export] Hint Rewrite @bind_Ok @bind_Throw @bind_UB : outs.
#[export] Hint Rewrite @zlen_nil @zlen_cons @zlen_app : zlen.

(** Arithmetic with list lengths. *)
Ltac zlen_lia :=
  autorewrite with zlen in *;
  repeat match goal with
  | l : list _ |- _ => lazymatch goal with
                       | H : 0 <= zlen l |- _ => fail
                       | _ => pose proof (zlen_nonneg l)
                       end
  end; lia.

Lemma rd_app {A} (pre post : list A) a :
  rd (pre ++ a :: post) (zlen pre) = Ok a.
Proof.
  unfold rd, zlen. zcase; [lia|].
  by rewrite Nat2Z.id, list_lookup_middle.
Qed.

Lemma rd_Ok {A} (l : list A) i a :
  rd l i = Ok a -> 0 <= i < zlen l /\ l !! Z.to_nat i = Some a.
Proof.
  unfold rd, zlen. zcase; [done|]. case_match eqn:E; [|done].
  intros [= ->]. pose proof (lookup_lt_Some _ _ _ E). split; [lia|done].
Qed.

Lemma rd_oob {A} (l : list A) i : i < 0 \/ zlen l <= i -> rd l i = UB.
Proof.
  unfold rd, zlen. intros. zcase; [done|].
  rewrite lookup_ge_None_2 by lia. done.
Qed.

Lemma rd_in {A} (l : list A) i : 0 <= i < zlen l -> exists a, rd l i = Ok a.
Proof.
  unfold rd, zlen. intros. zcase; [lia|].
  destruct (lookup_lt_is_Some_2 l (Z.to_nat i)) as [a ->]; [lia|eauto].
Qed.

Lemma rdz_rd l i a : rd l i = Ok a -> rdz l i = Ok a.
Proof.
  intros E. apply rd_Ok in E as HE. unfold rdz. zcase; [lia|done].
Qed.

Lemma rdz_end l : rdz l (zlen l) = Ok zero.
Proof. unfold rdz. by rewrite Z.eqb_refl. Qed.

Lemma c_str_no_nul l : zero ∉ l -> c_str l = l.
Proof.
  induction l as [|c l IH]; [done|]. simpl. intros H.
  destruct (Ascii.eqb_spec c zero) as [->|]; [set_solver|].
  rewrite IH; set_solver.
Qed.

Lemma c_str_split l : exists rest, l = c_str l ++ rest /\
  (rest = [] \/ exists r, rest = zero :: r).
Proof.
  induction l as [|c l (rest & E & Hr)]; simpl.
  - exists []. eauto.
  - destruct (Ascii.eqb_spec c zero) as [->|].
    + exists (zero :: l). eauto.
    + exists rest. simpl. by rewrite <- E.
Qed.

Lemma erase_first_elem_of {A} (p : A -> bool) l a :
  a ∈ erase_first p l -> a ∈ l.
Proof.
  induction l as [|b l IH]; simpl; [done|].
  destruct (p b); set_solver.
Qed.

Lemma erase_first_none {A} (p : A -> bool) l :
  Forall (fun a => p a = false) l -> erase_first p l = l.
Proof. induction 1 as [|a l Ha _ IH]; simpl; [done|]. by rewrite Ha, IH. Qed.

Lemma erase_first_sublist {A} (p : A -> bool) l :
  erase_first p l `sublist_of` l.
Proof.
  induction l as [|b l IH]; simpl; [done|].
  destruct (p b); [by constructor|by constructor].
Qed.

#[export] Hint Resolve u8_range wrap_range swrap_range zlen_nonneg : ints.
#[export] Hint Resolve erase_first_sublist : uniproxy.
