(* ===== verification/Explore.v ===== *)
(** * Exploring a finite system

    Components whose threads share a state with finitely many reachable values
    are explored: [explore] lists the states, [closed] checks that no move leads
    out of the list, and what holds of every state of the list, or of every move
    from one of them, then holds of the reachable states. *)

From S2P Require Import Prelude.
From stdpp Require Import relations pmap.

Section explore.
Context {S M : Type} `{EqDecision S}.
Context (exec : M -> S -> option S) (moves : list M).
Hypothesis all_moves : forall m, m ∈ moves.

Definition moves_to (s s' : S) : Prop := exists m, exec m s = Some s'.

Definition successors (s : S) : list S := omap (fun m => exec m s) moves.

(** States in a table, by a number that few of them share. *)
Context (key : S -> positive).

Definition mem (table : Pmap (list S)) (s : S) : bool :=
  match table !! key s with Some bucket => bool_decide (s ∈ bucket) | None => false end.

Definition put (s : S) (table : Pmap (list S)) : Pmap (list S) :=
  <[key s := s :: default [] (table !! key s)]> table.

Definition tabulate (states : list S) : Pmap (list S) := foldr put ∅ states.

(** The states found from [todo], those of [seen] included; [table] has those of
    [seen]. *)
Fixpoint explore (fuel : nat) (todo seen : list S) (table : Pmap (list S)) : list S :=
  match fuel, todo with
  | Datatypes.S fuel', s :: todo' =>
      if mem table s then explore fuel' todo' seen table
      else explore fuel' (successors s ++ todo') (s :: seen) (put s table)
  | _, _ => seen
  end.

Definition closed (states : list S) : bool :=
  let table := tabulate states in
  forallb (fun s => forallb (mem table) (successors s)) states.

Lemma mem_put table s s' : mem (put s table) s' = true -> s' = s \/ mem table s' = true.
Proof.
  unfold mem, put. destruct (decide (key s = key s')) as [->|Hk].
  - rewrite lookup_insert_eq, bool_decide_eq_true, elem_of_cons.
    intros [->|Hs]; [by left|right]. destruct (table !! key s'); [|set_solver].
    by apply bool_decide_eq_true.
  - rewrite lookup_insert_ne by done. by right.
Qed.

Lemma mem_tabulate states s : mem (tabulate states) s = true -> s ∈ states.
Proof.
  induction states as [|s' states IH]; [unfold mem; cbn; by rewrite lookup_empty|].
  intros [->|Hs]%mem_put; [set_solver|]. apply elem_of_cons. auto.
Qed.

Lemma forallb_elem {A} (p : A -> bool) l x : forallb p l = true -> x ∈ l -> p x = true.
Proof. rewrite forallb_forall. intros Hp Hx. apply Hp. by apply list_elem_of_In. Qed.

Lemma closed_step states s s' :
  closed states = true -> s ∈ states -> moves_to s s' -> s' ∈ states.
Proof.
  intros Hc Hs [m E]. pose proof (forallb_elem _ _ _ Hc Hs) as H.
  apply mem_tabulate, (forallb_elem _ _ _ H).
  apply list_elem_of_omap. by exists m.
Qed.

(** What is reachable is in a closed list that has the start. *)
Lemma closed_reachable states start s :
  closed states = true -> start ∈ states -> rtc moves_to start s -> s ∈ states.
Proof. intros Hc Hs. induction 1 as [|x y z Hxy _ IH]; [done|]. by apply IH, (closed_step states x). Qed.

(** A check of every state holds of the reachable ones. *)
Lemma always states start s (p : S -> bool) :
  closed states = true -> start ∈ states -> forallb p states = true ->
  rtc moves_to start s -> p s = true.
Proof. intros Hc Hs Hp Hr. apply (forallb_elem p states); [done|by apply (closed_reachable _ start)]. Qed.

(** A check of every move holds of the moves from reachable states. *)
Definition each_edge (p : M -> S -> S -> bool) (s : S) : bool :=
  forallb (fun m => match exec m s with Some s' => p m s s' | None => true end) moves.

Lemma always_edge states start s s' m (p : M -> S -> S -> bool) :
  closed states = true -> start ∈ states -> forallb (each_edge p) states = true ->
  rtc moves_to start s -> exec m s = Some s' -> p m s s' = true.
Proof.
  intros Hc Hs Hp Hr E. pose proof (always _ _ _ _ Hc Hs Hp Hr) as H.
  pose proof (forallb_elem _ _ _ H (all_moves m)) as H'. cbn in H'. by rewrite E in H'.
Qed.

Definition implies (p q : S -> bool) (s : S) : bool := negb (p s) || q s.

Lemma always_implies states start s (p q : S -> bool) :
  closed states = true -> start ∈ states -> forallb (implies p q) states = true ->
  rtc moves_to start s -> p s = true -> q s = true.
Proof.
  intros Hc Hs Hp Hr E. pose proof (always _ _ _ _ Hc Hs Hp Hr) as H. unfold implies in H.
  by rewrite E in H.
Qed.

(** Making given moves, one after the other. *)
Fixpoint play (l : list M) (s : S) : option S :=
  match l with
  | [] => Some s
  | m :: l' => s' ← exec m s; play l' s'
  end.

Lemma played start l s s' : rtc moves_to start s -> play l s = Some s' -> rtc moves_to start s'.
Proof.
  revert s. induction l as [|m l IH]; intros s Hr; [by intros [= <-]|]. cbn [play].
  destruct (exec m s) as [s1|] eqn:E; [|done]. cbn. apply IH.
  eapply rtc_r; [exact Hr|by exists m].
Qed.

Lemma play_app l l' s s1 s2 : play l s = Some s1 -> play l' s1 = Some s2 -> play (l ++ l') s = Some s2.
Proof.
  revert s. induction l as [|m l IH]; intros s; cbn [app play]; [by intros [= <-]|].
  destruct (exec m s) as [s'|]; [|done]. apply IH.
Qed.

(** Moves that lead back, made again and again. *)
Lemma play_repeat l s k : play l s = Some s -> play (mjoin (replicate k l)) s = Some s.
Proof.
  intros Hl. induction k as [|k IH]; [done|]. cbn [replicate mjoin list_join].
  by apply (play_app _ _ _ s).
Qed.

(** How often the moves counted by [weight] are made: no more often than the rank
    of the state, when they make it smaller and no other move makes it larger. *)
Lemma play_weight (P : S -> Prop) (allowed : M -> bool) (weight : M -> nat)
    (rank : S -> nat) l s s' :
  (forall s s' m, P s -> allowed m = true -> exec m s = Some s' ->
     P s' /\ (weight m + rank s' <= rank s)%nat) ->
  P s -> forallb allowed l = true -> play l s = Some s' ->
  (sum_list (weight <$> l) + rank s' <= rank s)%nat.
Proof.
  intros Hstep. revert s. induction l as [|m l IH]; intros s Hs Hl; [by intros [= <-]|].
  cbn [play forallb] in *. apply andb_true_iff in Hl as [Hm Hl].
  destruct (exec m s) as [s1|] eqn:E; [|done]. cbn. intros Hp.
  destruct (Hstep s s1 m Hs Hm E) as [H1 H2]. specialize (IH s1 H1 Hl Hp).
  cbn in *. lia.
Qed.

End explore.

(** ** Termination *)

(** Within [P], every step of [R] makes the rank smaller. *)
Lemma ranked_sn {S} (R : S -> S -> Prop) (P : S -> Prop) (rank : S -> nat) s :
  (forall x y, P x -> R x y -> P y /\ (rank y < rank x)%nat) -> P s -> sn R s.
Proof.
  intros HR. remember (rank s) as n eqn:E. revert s E.
  induction (lt_wf n) as [n _ IH]. intros s -> Hs. constructor. intros y Hy.
  destruct (HR s y Hs Hy) as [HP Hlt]. by apply (IH (rank y)).
Qed.
