(* ===== verification/CppString.v ===== *)
(** * Strings

    The members of [std::string] and the stream conversions the program uses,
    and the program's own string helpers: [mylib::strip], [mylib::split],
    [mylib::to_string], [mylib::from_string] ([applutil.h], [applutil.cpp]),
    [uniproxy::replace], [uniproxy::filename], [uniproxy::mask]
    ([applutil.cpp]), [check_arg], [check_ip4], [check_int] ([applutil.cpp]),
    [check_remove_substr] ([main.cpp]) and [TrimNmeaString]
    ([pghputils.cpp]). *)

From S2P Require Import Prelude.

(** ** [std::string] *)

Definition npos : Z := 2 ^ 64 - 1.

(** Does [l] start with [p]? *)
Fixpoint starts_with (p l : list ascii) : bool :=
  match p, l with
  | [], _ => true
  | c :: p', d :: l' => Ascii.eqb c d && starts_with p' l'
  | _ :: _, [] => false
  end.

(** The index of the first suffix of [l] that starts with [p], counted from
    [i]. *)
Fixpoint find_from (p l : list ascii) (i : Z) : Z :=
  if starts_with p l then i
  else match l with
       | [] => npos
       | _ :: l' => find_from p l' (i + 1)
       end.

(** [s.find(p, pos)] *)
Definition sfind (s p : list ascii) (pos : Z) : Z :=
  if pos >? zlen s then npos else find_from p (drop (Z.to_nat pos) s) pos.

(** The index of the first byte that satisfies [p], counted from [i]: what
    [find_first_of] of a set returns. *)
Fixpoint find_first (p : ascii -> bool) (l : list ascii) (i : Z) : Z :=
  match l with
  | [] => npos
  | c :: l' => if p c then i else find_first p l' (i + 1)
  end.

(** [s.find_last_of(set)] *)
Fixpoint find_last (p : ascii -> bool) (l : list ascii) (i acc : Z) : Z :=
  match l with
  | [] => acc
  | c :: l' => find_last p l' (i + 1) (if p c then i else acc)
  end.

Definition find_last_of (s set : list ascii) : Z :=
  find_last (fun c => bool_decide (c ∈ set)) s 0 npos.

(** [s.substr(pos, n)] *)
Definition substr (s : list ascii) (pos n : Z) : out (list ascii) :=
  if pos >? zlen s then Throw OutOfRange
  else Ok (take (Z.to_nat (Z.min n (zlen s - pos))) (drop (Z.to_nat pos) s)).

Definition string_eqb (s t : list ascii) : bool := bool_decide (s = t).

(** [isspace] in the C locale: TAB, LF, VT, FF, CR and the blank. *)
Definition isspace (c : ascii) : bool :=
  ((9 <=? u8 c) && (u8 c <=? 13)) || (u8 c =? 32).

Definition isdigit (c : ascii) : bool := (48 <=? u8 c) && (u8 c <=? 57).

(** [std::tolower] in the C locale. *)
Definition tolower (c : ascii) : ascii :=
  if (65 <=? u8 c) && (u8 c <=? 90) then chr (u8 c + 32) else c.

(** The macro [to_lower] of [pghpgeneral.h]. *)
Definition to_lower (s : list ascii) : list ascii := tolower <$> s.

(** ** Numbers *)

Definition digit (d : Z) : ascii := chr (48 + d).

Fixpoint digits (fuel : nat) (n : Z) (acc : list ascii) : list ascii :=
  match fuel with
  | O => acc
  | S fuel' =>
      let acc' := digit (n mod 10) :: acc in
      if n / 10 =? 0 then acc' else digits fuel' (n / 10) acc'
  end.

(** [mylib::to_string] of an integer: at most 20 digits for 64 bits. *)
Definition to_string (n : Z) : list ascii :=
  if n <? 0 then chr 45 :: digits 20 (- n) [] else digits 20 n [].

(** [if (ss >> n)]: the leading blanks are skipped; nothing left fails and
    leaves the variable alone; otherwise a sign and digits are read, and a
    value that does not fit is clamped. *)
Fixpoint skip_space (s : list ascii) : list ascii :=
  match s with
  | c :: s' => if isspace c then skip_space s' else s
  | [] => []
  end.

Fixpoint read_digits (s : list ascii) (acc : Z) : Z :=
  match s with
  | c :: s' => if isdigit c then read_digits s' (10 * acc + (u8 c - 48)) else acc
  | [] => acc
  end.

Definition clamp32 (z : Z) : Z := Z.max (- 2 ^ 31) (Z.min z (2 ^ 31 - 1)).

Definition parse_int (s : list ascii) : Z :=
  match s with
  | c :: s' =>
      if u8 c =? 45 then clamp32 (- read_digits s' 0)
      else if u8 c =? 43 then clamp32 (read_digits s' 0)
      else clamp32 (read_digits s 0)
  | [] => 0
  end.

(** [mylib::from_string<int>(sz, t)]; [old] is the value of [t] before, [None]
    when it is indeterminate. *)
Definition from_string (s : list ascii) (old : option Z) : option Z :=
  match skip_space s with
  | [] => old
  | s' => Some (parse_int s')
  end.

(** Reading an [int] variable that may be indeterminate. *)
Definition use_int (v : option Z) : out Z :=
  match v with Some z => Ok z | None => UB end.

(** [check_int] of a C string; [None] is the null pointer. *)
Definition check_int_cstr (input : option (list ascii)) : out Z :=
  match input with
  | Some s =>
      if 0 <? zlen (c_str s) then use_int (from_string (c_str s) None)
      else Throw (RuntimeError (lit "check_int failed"))
  | None => Throw (RuntimeError (lit "check_int failed"))
  end.

(** [check_ip4] *)
Definition check_ip4 (input : list ascii) : out (list ascii) :=
  if 0 <? zlen input then Ok input
  else Throw (RuntimeError (lit "check_ip4 failed: ")).

(** ** Hexadecimal *)

Definition hex_digit (d : Z) : ascii :=
  if d <? 10 then chr (48 + d) else chr (55 + d).

Fixpoint hex_digits (fuel : nat) (n : Z) (acc : list ascii) : list ascii :=
  match fuel with
  | O => acc
  | S fuel' =>
      let acc' := hex_digit (n mod 16) :: acc in
      if n / 16 =? 0 then acc' else hex_digits fuel' (n / 16) acc'
  end.

(** [sprintf(buf, "%02X", n)] of an [int]: the unsigned reading, at least two
    digits. *)
Definition sprintf_02X (n : Z) : list ascii :=
  let ds := hex_digits 8 (wrap 32 n) [] in
  if zlen ds <? 2 then chr 48 :: ds else ds.

Definition hex_value (c : ascii) : option Z :=
  if isdigit c then Some (u8 c - 48)
  else if (65 <=? u8 c) && (u8 c <=? 70) then Some (u8 c - 55)
  else if (97 <=? u8 c) && (u8 c <=? 102) then Some (u8 c - 87)
  else None.

Fixpoint read_hex (s : list ascii) (acc : Z) : Z :=
  match s with
  | c :: s' =>
      match hex_value c with
      | Some d => read_hex s' (16 * acc + d)
      | None => acc
      end
  | [] => acc
  end.

(** An optional [0x] before the digits. *)
Definition read_hex_prefixed (s : list ascii) : Z :=
  match s with
  | c :: d :: s' =>
      if (u8 c =? 48) && ((u8 d =? 120) || (u8 d =? 88)) then read_hex s' 0
      else read_hex s 0
  | _ => read_hex s 0
  end.

(** Whether a conversion of [sscanf] with [%X] finds a number. *)
Definition hex_starts (s : list ascii) : bool :=
  match s with
  | c :: _ => bool_decide (is_Some (hex_value c))
  | [] => false
  end.

(** [sscanf(s, "%<w>X", &n)] into an [int] that holds [old]: blanks are
    skipped, then at most [w] bytes (a sign, [0x], digits) are converted to an
    [unsigned int], saturating like [strtoul] and stored in 32 bits. *)
Definition sscanf_X (w : nat) (s : list ascii) (old : Z) : Z :=
  let field := take w (skip_space s) in
  let strtoul (neg : bool) (z : Z) := if z >? 2 ^ 64 - 1 then 2 ^ 64 - 1 else if neg then - z else z in
  let convert (neg : bool) (digits_ : list ascii) :=
    if hex_starts digits_
    then swrap 32 (strtoul neg (read_hex_prefixed digits_))
    else old in
  match field with
  | c :: s' =>
      if u8 c =? 45 then convert true s'
      else if u8 c =? 43 then convert false s'
      else convert false field
  | [] => old
  end.

(** ** Helpers of the program *)

(** [uniproxy::replace]: the loop of [applutil.cpp], whose [start] advances by
    at least the length of [what] in each turn. *)
Fixpoint replace_loop (fuel : nat) (source what with_ : list ascii)
    (end_ : Z) (result : list ascii) : out (list ascii) :=
  match fuel with
  | O => Ok result
  | S fuel' =>
      if end_ =? npos then Ok result
      else
        let result1 := result ++ with_ in
        let start := end_ + zlen what in
        if start >=? zlen source then Ok result1
        else
          let end1 := sfind source what start in
          piece ← substr source start (wrap 64 (end1 - start));
          replace_loop fuel' source what with_ end1 (result1 ++ piece)
  end.

Definition replace (source what with_ : list ascii) : out (list ascii) :=
  let end_ := sfind source what 0 in
  piece ← substr source 0 (wrap 64 (end_ - 0));
  replace_loop (S (length source)) source what with_ end_ piece.

(** [uniproxy::filename] *)
Definition filename (filepath : list ascii) : out (list ascii) :=
  let a := find_last_of filepath [chr 92; chr 47] in
  let b := find_last_of filepath (lit ".") in
  if negb (a =? npos) && negb (b =? npos) && (b >? a)
  then substr filepath (a + 1) (b - a - 1)
  else Ok [].

(** [uniproxy::mask], on the printed thread id. *)
Definition mask (sz : list ascii) : out (list ascii) :=
  if zlen sz >? 4 then substr sz (zlen sz - 4) npos else Ok sz.

(** [mylib::strip] *)
Fixpoint strip_front (space s : list ascii) : list ascii :=
  match s with
  | c :: s' => if bool_decide (c ∈ space) then strip_front space s' else s
  | [] => []
  end.

Definition strip_back (space s : list ascii) : list ascii :=
  rev (strip_front space (rev s)).

Definition strip (s space : list ascii) : list ascii :=
  strip_back space (strip_front space s).

(** [mylib::split]: [std::getline] with a delimiter until the stream fails. *)
Fixpoint split_go (delim : ascii) (s item : list ascii) : list (list ascii) :=
  match s with
  | [] => match item with [] => [] | _ => [item] end
  | c :: s' =>
      if Ascii.eqb c delim then item :: split_go delim s' []
      else split_go delim s' (item ++ [c])
  end.

Definition split (s : list ascii) (delim : ascii) : list (list ascii) :=
  split_go delim s [].

(** [check_remove_substr] of [main.cpp]: the output is only written on a
    match. *)
Definition check_remove_substr (input pattern output : list ascii)
    : out (bool * list ascii) :=
  pre ← substr input 0 (zlen pattern);
  if string_eqb pre pattern
  then rest ← substr input (zlen pattern) npos; Ok (true, rest)
  else Ok (false, output).

(** [TrimNmeaString] of [pghputils.cpp]: [find]'s result is an [int]. *)
Definition TrimNmeaString (s0 : list ascii) : out (list ascii) :=
  let s := strip s0 [chr 32; chr 9] in
  let iPos := swrap 32 (sfind s (lit "@") 0) in
  if iPos >=? 0 then substr s iPos npos else Ok s.

(** [check_arg(argc, argv, short, long)]; a null short name is the NUL
    character, a null long name is [None]. *)
Definition short_matches (short : ascii) (arg : list ascii) : bool :=
  negb (Ascii.eqb short zero) && string_eqb (lit "-" ++ [short]) arg.

Definition long_matches (long : option (list ascii)) (arg : list ascii) : bool :=
  match long with
  | Some l => string_eqb (lit "--" ++ l) arg
  | None => false
  end.

Fixpoint check_arg (argv : list (list ascii)) (short : ascii)
    (long : option (list ascii)) : bool :=
  match argv with
  | [] => false
  | a :: argv' =>
      if short_matches short a then true
      else if long_matches long a then true
      else check_arg argv' short long
  end.

(** The overload that fetches a value: [-d value] or [--dir=value]. *)
Fixpoint check_arg_value (argv : list (list ascii)) (short : ascii)
    (long : option (list ascii)) (result : list ascii) : bool * list ascii :=
  match argv with
  | [] => (false, result)
  | a :: argv' =>
      if short_matches short a then
        match argv' with
        | [] => (false, result)
        | v :: _ =>
            if match v with c :: _ => Ascii.eqb c (chr 45) | [] => false end
            then (false, result) else (true, v)
        end
      else
        match long with
        | Some l =>
            if sfind a (lit "--") 0 =? 0 then
              match split a (chr 61) with
              | s0 :: s1 :: _ =>
                  if string_eqb (lit "--" ++ l) s0 then (true, s1)
                  else check_arg_value argv' short long result
              | _ => check_arg_value argv' short long result
              end
            else check_arg_value argv' short long result
        | None => check_arg_value argv' short long result
        end
  end.

(** [operator<<] of a vector: the elements with a blank between. *)
Fixpoint print_vector (show : list ascii -> list ascii) (t : list (list ascii))
    : list ascii :=
  match t with
  | [] => []
  | [a] => show a
  | a :: t' => show a ++ chr 32 :: print_vector show t'
  end.

(** ** Lemmas: searching *)

Lemma string_eqb_refl s : string_eqb s s = true.
Proof. unfold string_eqb. by apply bool_decide_true. Qed.

Lemma string_eqb_eq s t : string_eqb s t = true <-> s = t.
Proof. unfold string_eqb. apply bool_decide_eq_true. Qed.

Lemma find_first_none p l i :
  Forall (fun c => p c = false) l -> find_first p l i = npos.
Proof. intros H. revert i. induction H as [|c l Hc _ IH]; simpl; [done|]. intros. by rewrite Hc. Qed.

Lemma find_first_app p pre c post i :
  Forall (fun c => p c = false) pre -> p c = true ->
  find_first p (pre ++ c :: post) i = i + zlen pre.
Proof.
  intros H Hc. revert i. induction H as [|d l Hd _ IH]; intros i; simpl.
  - rewrite Hc. zlen_lia.
  - rewrite Hd, IH. zlen_lia.
Qed.

Lemma starts_with_one w c l : starts_with [w] (c :: l) = Ascii.eqb w c.
Proof. simpl. by rewrite andb_true_r. Qed.

Lemma starts_with_spec p l : starts_with p l = true <-> exists r, l = p ++ r.
Proof.
  revert l. induction p as [|c p IH]; intros [|d l]; simpl.
  - split; [by exists []|done].
  - split; [by eexists|done].
  - split; [done|by intros [? [=]]].
  - rewrite andb_true_iff, Ascii.eqb_eq, IH. split.
    + intros [-> [r ->]]. by exists r.
    + intros [r [= -> ->]]. eauto.
Qed.

Lemma find_from_one w l i :
  find_from [w] l i = find_first (Ascii.eqb w) l i.
Proof.
  revert i. induction l as [|c l IH]; intros i; [done|].
  cbn [find_from]. rewrite starts_with_one. cbn [find_first].
  destruct (Ascii.eqb w c); [done|apply IH].
Qed.

Lemma sfind_0 s p : sfind s p 0 = find_from p s 0.
Proof. unfold sfind. zcase; [zlen_lia|]. by rewrite Z2Nat.inj_0, drop_0. Qed.

(** Searching for a single byte. *)
Lemma sfind_one_app w pre post :
  Forall (fun c => Ascii.eqb w c = false) pre ->
  sfind (pre ++ w :: post) [w] 0 = zlen pre.
Proof.
  intros H. rewrite sfind_0, find_from_one.
  rewrite find_first_app; [lia|done|apply Ascii.eqb_refl].
Qed.

Lemma sfind_one_none w l :
  Forall (fun c => Ascii.eqb w c = false) l -> sfind l [w] 0 = npos.
Proof.
  intros H. rewrite sfind_0, find_from_one. by apply find_first_none.
Qed.

Lemma substr_Ok s pos n :
  0 <= pos <= zlen s -> 0 <= n ->
  substr s pos n = Ok (take (Z.to_nat n) (drop (Z.to_nat pos) s)).
Proof.
  intros Hp Hn. unfold substr. zcase; [lia|]. f_equal.
  destruct (Z.le_ge_cases n (zlen s - pos)).
  - by rewrite Z.min_l.
  - rewrite Z.min_r by lia. unfold zlen in *.
    rewrite !take_ge; [done|rewrite length_drop; lia..].
Qed.

Lemma substr_mid pre mid post :
  substr (pre ++ mid ++ post) (zlen pre) (zlen mid) = Ok mid.
Proof.
  rewrite substr_Ok by zlen_lia. unfold zlen. rewrite !Nat2Z.id.
  by rewrite drop_app_length, take_app_length.
Qed.

Lemma substr_suffix pre post n :
  zlen post <= n -> substr (pre ++ post) (zlen pre) n = Ok post.
Proof.
  intros. rewrite substr_Ok by zlen_lia. unfold zlen in *. rewrite Nat2Z.id.
  rewrite drop_app_length, take_ge; [done|lia].
Qed.

Lemma substr_prefix pre post :
  substr (pre ++ post) 0 (zlen pre) = Ok pre.
Proof. apply (substr_mid []). Qed.

(** Positions beyond the end throw, and only those. *)
Lemma substr_throws s pos n : zlen s < pos <-> substr s pos n = Throw OutOfRange.
Proof. unfold substr. zcase; split; first [done|lia]. Qed.

(** ** Lemmas: [replace] of one byte *)

(** Split a list at the first occurrence of [w]. *)
Lemma split_at_first (w : ascii) l : exists seg tail,
  l = seg ++ tail /\ Forall (fun c => Ascii.eqb w c = false) seg /\
  (tail = [] \/ exists t, tail = w :: t).
Proof.
  induction l as [|c l (seg & tail & -> & Hs & Ht)].
  - exists [], []. eauto.
  - destruct (Ascii.eqb_spec w c) as [->|Hne].
    + exists [], (c :: seg ++ tail). eauto.
    + exists (c :: seg), tail. split; [done|]. split; [|done].
      constructor; [|done]. by apply Ascii.eqb_neq.
Qed.

(** What replacing every [w] means. *)
Definition subst_byte (w : ascii) (with_ s : list ascii) : list ascii :=
  flat_map (fun c => if Ascii.eqb w c then with_ else [c]) s.

Lemma subst_byte_app w v s t : subst_byte w v (s ++ t) = subst_byte w v s ++ subst_byte w v t.
Proof. apply flat_map_app. Qed.

Lemma subst_byte_free w v s :
  Forall (fun c => Ascii.eqb w c = false) s -> subst_byte w v s = s.
Proof.
  unfold subst_byte. induction 1 as [|c l Hc _ IH]; [done|].
  cbn. rewrite Hc. cbn. by rewrite IH.
Qed.

Lemma subst_byte_hit w v t : subst_byte w v (w :: t) = v ++ subst_byte w v t.
Proof. unfold subst_byte. cbn. by rewrite Ascii.eqb_refl. Qed.

Lemma subst_byte_skip w v c t : c <> w -> subst_byte w v (c :: t) = c :: subst_byte w v t.
Proof. intros. unfold subst_byte. cbn. by rewrite (proj2 (Ascii.eqb_neq w c)). Qed.

Lemma sfind_at w pre rest :
  sfind (pre ++ rest) [w] (zlen pre) = find_first (Ascii.eqb w) rest (zlen pre).
Proof.
  unfold sfind. zcase; [zlen_lia|].
  unfold zlen. by rewrite Nat2Z.id, drop_app_length, find_from_one.
Qed.

(** The segment up to the next [w], as the loop cuts it out. *)
Lemma next_piece w pre seg tail :
  Forall (fun c => Ascii.eqb w c = false) seg ->
  (tail = [] \/ exists t, tail = w :: t) ->
  zlen (pre ++ seg ++ tail) < npos ->
  let end1 := sfind (pre ++ seg ++ tail) [w] (zlen pre) in
  end1 = (if decide (tail = []) then npos else zlen (pre ++ seg)) /\
  substr (pre ++ seg ++ tail) (zlen pre) (wrap 64 (end1 - zlen pre)) = Ok seg.
Proof.
  intros Hs Ht Hlen end1. subst end1. rewrite sfind_at.
  destruct Ht as [->|[t ->]]; case_decide; try done.
  - rewrite find_first_none; [|by rewrite app_nil_r]. split; [done|].
    rewrite app_nil_r in *. unfold npos in *.
    rewrite wrap_small; [|unfold in_uint; zlen_lia].
    apply substr_suffix. zlen_lia.
  - rewrite find_first_app; [|done|apply Ascii.eqb_refl].
    split; [zlen_lia|]. rewrite Z.add_simpl_l.
    unfold npos in *. rewrite wrap_small; [|unfold in_uint; zlen_lia].
    apply substr_mid.
Qed.

Lemma replace_loop_byte w v fuel pre seg tail r :
  (length tail < fuel)%nat ->
  (tail = [] \/ exists t, tail = w :: t) ->
  zlen (pre ++ seg ++ tail) < npos ->
  replace_loop fuel (pre ++ seg ++ tail) [w] v
    (if decide (tail = []) then npos else zlen (pre ++ seg)) r
  = Ok (r ++ subst_byte w v tail).
Proof.
  revert pre seg tail r. induction fuel as [|fuel IH]; intros pre seg tail r Hf Ht Hlen.
  { lia. }
  cbn [replace_loop]. destruct Ht as [->|[t ->]]; case_decide; try done.
  { rewrite Z.eqb_refl. simpl. by rewrite app_nil_r. }
  zcase; [unfold npos in *; zlen_lia|].
  rewrite (zlen_cons w []), zlen_nil. rewrite subst_byte_hit.
  destruct (split_at_first w t) as (seg' & tail' & -> & Hs' & Ht').
  assert (E : pre ++ seg ++ w :: seg' ++ tail' = (pre ++ seg ++ [w]) ++ seg' ++ tail').
  { by rewrite <- !app_assoc. }
  assert (Hp : zlen (pre ++ seg) + (1 + 0) = zlen (pre ++ seg ++ [w])) by zlen_lia.
  rewrite Hp, E in *.
  destruct (next_piece w (pre ++ seg ++ [w]) seg' tail') as [-> Hpiece]; [done..|].
  zcase.
  - assert (seg' ++ tail' = []) as [-> ->]%app_eq_nil.
    { apply length_zero_iff_nil. unfold zlen in *. rewrite !length_app in *. simpl in *. lia. }
    simpl. by rewrite app_nil_r.
  - rewrite Hpiece, bind_Ok.
    rewrite IH; [|simpl in Hf; rewrite length_app in Hf; lia|done|done].
    rewrite subst_byte_app, (subst_byte_free _ _ seg') by done.
    by rewrite <- !app_assoc.
Qed.

Lemma replace_byte w v source :
  zlen source < npos -> replace source [w] v = Ok (subst_byte w v source).
Proof.
  intros Hlen. unfold replace.
  destruct (split_at_first w source) as (seg & tail & -> & Hs & Ht).
  destruct (next_piece w [] seg tail) as [He Hp]; [done..|].
  rewrite zlen_nil in *. simpl app in *. rewrite Hp, bind_Ok, He.
  rewrite subst_byte_app, (subst_byte_free _ _ seg) by done.
  apply (replace_loop_byte w v _ [] seg tail seg); [|done..].
  rewrite length_app. lia.
Qed.

(** ** Lemmas: [split] *)

(** The elements with the delimiter between them. *)
Fixpoint join (d : ascii) (l : list (list ascii)) : list ascii :=
  match l with
  | [] => []
  | [a] => a
  | a :: l' => a ++ d :: join d l'
  end.

Lemma split_go_free d s item :
  d ∉ item -> Forall (fun p => d ∉ p) (split_go d s item).
Proof.
  revert item. induction s as [|c s IH]; intros item H; simpl.
  - destruct item; repeat constructor; done.
  - destruct (Ascii.eqb_spec c d) as [->|]; [constructor|]; try apply IH; set_solver.
Qed.

Lemma split_go_nil d s item :
  split_go d s item = [] -> s = [] /\ item = [].
Proof.
  revert item. induction s as [|c s IH]; intros item; simpl.
  - by destruct item.
  - destruct (Ascii.eqb c d); [done|]. intros [_ H]%IH. by destruct item.
Qed.

Lemma join_cons d a l : join d (a :: l) = if decide (l = []) then a else a ++ d :: join d l.
Proof. by destruct l. Qed.

Lemma split_go_join d s item :
  item ++ s = join d (split_go d s item) \/
  item ++ s = join d (split_go d s item) ++ [d].
Proof.
  revert item. induction s as [|c s IH]; intros item.
  - left. simpl. rewrite app_nil_r. by destruct item.
  - simpl. destruct (Ascii.eqb_spec c d) as [->|Hne].
    + rewrite join_cons. case_decide as E.
      * apply split_go_nil in E as [-> _]. by right.
      * destruct (IH []) as [H|H]; simpl in H; [left|right]; rewrite H at 1;
          by rewrite <- ?app_assoc.
    + specialize (IH (item ++ [c])). by rewrite <- app_assoc in IH.
Qed.

(** ** Lemmas: decimal numbers *)

Lemma u8_digit d : 0 <= d <= 9 -> u8 (digit d) = 48 + d.
Proof. intros. apply u8_chr_small. lia. Qed.

Lemma isdigit_digit d : 0 <= d <= 9 -> isdigit (digit d) = true.
Proof. intros. unfold isdigit. rewrite u8_digit by done. repeat zcase; lia || done. Qed.

(** [digits] writes the decimal expansion in front of [acc]; reading it back
    from [a] gives the number behind [a]'s digits. *)
Lemma read_digits_digits fuel n acc a :
  0 <= n < 10 ^ Z.of_nat fuel -> (0 < fuel)%nat ->
  exists k, 0 <= k /\ read_digits (digits fuel n acc) a
            = read_digits acc (a * 10 ^ k + n) /\ n < 10 ^ k.
Proof.
  revert n acc a. induction fuel as [|fuel IH]; intros n acc a Hn Hf; [lia|].
  cbn [digits]. pose proof (Z.mod_pos_bound n 10 ltac:(lia)).
  assert (Hd : forall l x, read_digits (digit (n mod 10) :: l) x
             = read_digits l (10 * x + n mod 10)).
  { intros. cbn. rewrite isdigit_digit, u8_digit by lia. f_equal. lia. }
  rewrite Nat2Z.inj_succ, Z.pow_succ_r in Hn by lia.
  zcase.
  - exists 1. rewrite Hd. change (10 ^ 1) with 10. split; [lia|]. split; [|divlia].
    f_equal. divlia.
  - destruct fuel as [|fuel']; [change (10 ^ Z.of_nat 0) with 1 in Hn; divlia|].
    destruct (IH (n / 10) (digit (n mod 10) :: acc) a) as (k & Hk & -> & Hlt); [divlia|lia|].
    exists (k + 1). rewrite Hd, Z.pow_add_r by lia. change (10 ^ 1) with 10.
    pose proof (Z.div_mod n 10 ltac:(lia)).
    split; [lia|]. split; [f_equal; lia|lia].
Qed.

Lemma digits_head fuel n acc :
  (0 < fuel)%nat -> 0 <= n -> exists c l, digits fuel n acc = c :: l /\ isdigit c = true.
Proof.
  revert n acc. induction fuel as [|fuel IH]; intros n acc Hf Hn; [lia|].
  cbn [digits]. pose proof (Z.mod_pos_bound n 10 ltac:(lia)).
  zcase.
  - eexists _, _. split; [done|]. apply isdigit_digit. lia.
  - destruct fuel as [|fuel'].
    + cbn [digits]. eexists _, _. split; [done|]. apply isdigit_digit. lia.
    + apply IH; [lia|]. apply Z.div_pos; lia.
Qed.

Lemma isdigit_not_sign c : isdigit c = true ->
  isspace c = false /\ (u8 c =? 45) = false /\ (u8 c =? 43) = false.
Proof. unfold isdigit, isspace. intros. repeat zcase; simpl in *; lia || done. Qed.

Lemma skip_space_solid c l : isspace c = false -> skip_space (c :: l) = c :: l.
Proof. intros E. cbn [skip_space]. by rewrite E. Qed.

Lemma parse_int_minus l : parse_int (chr 45 :: l) = clamp32 (- read_digits l 0).
Proof. reflexivity. Qed.

Lemma parse_int_digits c l :
  isdigit c = true -> parse_int (c :: l) = clamp32 (read_digits (c :: l) 0).
Proof.
  intros (_ & Hm & Hp)%isdigit_not_sign. cbn [parse_int]. by rewrite Hm, Hp.
Qed.

Lemma read_digits_to_string m : 0 <= m <= 2 ^ 31 -> read_digits (digits 20 m []) 0 = m.
Proof.
  intros Hm. destruct (read_digits_digits 20 m [] 0) as (k & ? & -> & ?); [|lia|].
  - change (10 ^ Z.of_nat 20) with 100000000000000000000. lia.
  - cbn [read_digits]. lia.
Qed.

(** A number printed by [to_string] is read back by [from_string]. *)
Lemma from_string_to_string n old :
  in_sint 32 n -> from_string (to_string n) old = Some n.
Proof.
  unfold in_sint. change (2 ^ (32 - 1)) with (2 ^ 31). intros Hn.
  unfold from_string, to_string. zcase.
  - rewrite skip_space_solid by reflexivity.
    rewrite parse_int_minus, read_digits_to_string by lia. unfold clamp32. f_equal. lia.
  - destruct (digits_head 20 n []) as (c & l & E & Hc); [lia..|].
    rewrite E, skip_space_solid by by apply isdigit_not_sign.
    rewrite parse_int_digits, <- E, read_digits_to_string by done || lia.
    unfold clamp32. f_equal. lia.
Qed.

#[global] Arguments digits : simpl never.
