(* ===== verification/Support.v ===== *)
(** * Times, connections and commands

    Functions of [applutil.cpp] the other parts call: the text of a time, the
    connection to a host by name, the text of an end point, a read with a time
    limit, and the start of an external program, with [proxy_global::execute_openssl]. *)

From S2P Require Import Prelude CppString.

(** ** The text of a time *)

(** [sprintf] of ["%0wi"]: zeros between the sign and the digits up to the
    width. *)
Definition padded (w : nat) (n : Z) : list ascii :=
  let d := digits 20 (Z.abs n) [] in
  let sign := if n <? 0 then [chr 45] else [] in
  sign ++ replicate (w - length sign - length d) (digit 0) ++ d.

(** [struct tm] as [to_tm] fills it, and a [ptime]. *)
Record tm := {
  tm_year : Z;
  tm_mon : Z;
  tm_mday : Z;
  tm_hour : Z;
  tm_min : Z;
  tm_sec : Z }.

Inductive ptime := AtTime (t : tm) | PosInfinity | NegInfinity | NotADateTime.

Definition tm_text (t : tm) : list ascii :=
  padded 4 (tm_year t + 1900) ++ lit "-" ++ padded 2 (tm_mon t + 1) ++ lit "-" ++
  padded 2 (tm_mday t) ++ lit " " ++ padded 2 (tm_hour t) ++ lit ":" ++
  padded 2 (tm_min t) ++ lit ":" ++ padded 2 (tm_sec t).

(** [to_string] of a [ptime]; [sprintf] writes the text and a NUL into 40
    bytes. *)
Definition ptime_to_string (p : ptime) : out (list ascii) :=
  match p with
  | AtTime t => if zlen (tm_text t) <? 40 then Ok (c_str (tm_text t)) else UB
  | PosInfinity => Ok (lit "infinity")
  | NegInfinity => Ok (lit "infinity")
  | NotADateTime => Ok []
  end.

(** ** End points *)

(** [remote_address_port] and [local_address_port]: the end point of the socket,
    if it has one. *)
Definition address_port (endpoint : option (list ascii * Z)) : list ascii :=
  match endpoint with
  | Some (address, port) => address ++ lit ":" ++ to_string port
  | None => []
  end.

Definition host_not_found : Z := 1.

Section connect.
Context {endpoint : Type}.
Context (resolve : list ascii -> list ascii -> out (list endpoint)).
Context (connect : endpoint -> option Z).

(** The loop of [socket_connect]: the end points tried, and the last error. *)
Fixpoint connect_loop (eps : list endpoint) (error : option Z) : list endpoint * option Z :=
  match error, eps with
  | Some _, ep :: eps' =>
      let '(tried, error) := connect_loop eps' (connect ep) in (ep :: tried, error)
  | _, _ => ([], error)
  end.

Definition socket_connect (host : list ascii) (port : Z) : out (list endpoint) :=
  eps ← resolve host (to_string port);
  match connect_loop eps (Some host_not_found) with
  | (_, Some error) => Throw (BoostError error)
  | (tried, None) => Ok tried
  end.

End connect.

(** [read_with_timeout]: what the [io_service] completes first, a part of the read
    or its end, or the timer; [run_one] runs no more than that. *)
Inductive completion := Chunk (data : list ascii) | ReadFailed | TimedOut.

Record timed_read := {
  buffers : list ascii;
  read_result : bool;
  timer_result : bool;
  timer_cancelled : bool;
  socket_cancelled : bool }.

Definition read_with_timeout (size : Z) (first : option completion) : timed_read :=
  let r :=
    match first with
    | Some (Chunk data) =>
        let got := take (Z.to_nat size) data in
        {| buffers := got; read_result := zlen got =? size; timer_result := false;
           timer_cancelled := false; socket_cancelled := false |}
    | Some ReadFailed =>
        {| buffers := []; read_result := true; timer_result := false;
           timer_cancelled := false; socket_cancelled := false |}
    | Some TimedOut =>
        {| buffers := []; read_result := false; timer_result := true;
           timer_cancelled := false; socket_cancelled := false |}
    | None =>
        {| buffers := []; read_result := false; timer_result := false;
           timer_cancelled := false; socket_cancelled := false |}
    end in
  match first with
  | None => r
  | Some _ =>
      {| buffers := buffers r; read_result := read_result r; timer_result := timer_result r;
         timer_cancelled := read_result r;
         socket_cancelled := negb (read_result r) && timer_result r |}
  end.

(** ** Addresses *)

(** [check_url] of [main.cpp]: the first group of the match, [regex_match] of the
    library giving the whole match and its groups. *)
Definition check_url (regex_match : list ascii -> list ascii -> option (list (list ascii)))
    (input pattern output : list ascii) : bool * list ascii :=
  match regex_match (c_str input) pattern with
  | Some matches => (true, match matches with [] => output | _ => default [] (matches !! 1%nat) end)
  | None => (false, output)
  end.

(** ** External programs *)

(** [while (s && getline(s, line) && !line.empty()) out(line)]: the lines up to
    the first empty one are handed to [out]. *)
Fixpoint read_lines (lines : list (list ascii)) : list (list ascii) :=
  match lines with
  | [] => []
  | [] :: _ => []
  | line :: lines' => line :: read_lines lines'
  end.

(** A program that ran: what it wrote, and its exit code. *)
Record child := { c_out : list ascii; c_err : list ascii; c_exit_code : Z }.

(** The command line a Unix system is given. *)
Definition shell_command (command param : list ascii) : list ascii :=
  lit "/bin/bash" ++ lit " -c " ++ [chr 34] ++ command ++ lit " " ++ param ++ [chr 34].

Section process.
Context (run : list ascii -> out child).

(** [process::execute_process]: the lines for the two callbacks, and the exit
    code. *)
Definition execute_process (command param : list ascii)
    : out (list (list ascii) * list (list ascii) * Z) :=
  c ← run (shell_command command param);
  Ok (read_lines (split (c_out c) (chr 10)), read_lines (split (c_err c) (chr 10)), c_exit_code c).

Definition openssl_parameters (m_name : list ascii) : list ascii :=
  lit " req " ++ lit "-x509 -nodes -days 100000 -subj /C=DK/ST=Denmark/L=GateHouse/CN=" ++
  m_name ++ lit " -newkey rsa:3072 -keyout my_private_key.pem -out my_public_cert.pem ".

(** [proxy_global::execute_openssl]. *)
Definition execute_openssl (m_name : list ascii) : out bool :=
  '(_, _, res) ← execute_process (lit "openssl") (openssl_parameters m_name);
  Ok (res =? 0).

End process.

(** ** Lemmas: decimal numbers of a fixed width *)

(** The order of [std::string], of texts of the same length. *)
Fixpoint text_compare (s t : list ascii) : comparison :=
  match s, t with
  | c :: s', d :: t' => match u8 c ?= u8 d with Eq => text_compare s' t' | r => r end
  | _, _ => Eq
  end.

Definition then_compare (a b : comparison) : comparison := match a with Eq => b | _ => a end.

Lemma text_compare_app s s' t t' :
  length s = length t ->
  text_compare (s ++ s') (t ++ t') = then_compare (text_compare s t) (text_compare s' t').
Proof.
  revert t. induction s as [|c s IH]; intros [|d t] Hl; try done. cbn.
  destruct (u8 c ?= u8 d); [|done..]. apply IH. by injection Hl.
Qed.

Lemma text_compare_same s s' t' : text_compare (s ++ s') (s ++ t') = text_compare s' t'.
Proof. induction s as [|c s IH]; [done|]. cbn. by rewrite Z.compare_refl. Qed.

(** The last [w] digits of a number. *)
Fixpoint fixed (w : nat) (n : Z) : list ascii :=
  match w with O => [] | S w' => fixed w' (n / 10) ++ [digit (n mod 10)] end.

Lemma fixed_length w n : length (fixed w n) = w.
Proof. revert n. induction w; intros n; [done|]. cbn. rewrite length_app, IHw. cbn. lia. Qed.

Lemma compare_div_mod n m :
  (n ?= m) = then_compare (n / 10 ?= m / 10) (n mod 10 ?= m mod 10).
Proof.
  pose proof (Z.div_mod n 10 ltac:(lia)). pose proof (Z.div_mod m 10 ltac:(lia)).
  pose proof (Z.mod_pos_bound n 10 ltac:(lia)). pose proof (Z.mod_pos_bound m 10 ltac:(lia)).
  destruct (Z.compare_spec (n / 10) (m / 10)), (Z.compare_spec (n mod 10) (m mod 10)),
    (Z.compare_spec n m); cbn; done || lia.
Qed.

Lemma fixed_compare w n m :
  0 <= n < 10 ^ Z.of_nat w -> 0 <= m < 10 ^ Z.of_nat w ->
  text_compare (fixed w n) (fixed w m) = (n ?= m).
Proof.
  revert n m. induction w as [|w IH]; intros n m Hn Hm.
  - cbn in *. assert (n = 0) as -> by lia. by assert (m = 0) as -> by lia.
  - rewrite Nat2Z.inj_succ, Z.pow_succ_r in Hn, Hm by lia. cbn [fixed].
    rewrite text_compare_app by by rewrite !fixed_length. rewrite IH by divlia.
    rewrite (compare_div_mod n m). f_equal. cbn.
    pose proof (Z.mod_pos_bound n 10 ltac:(lia)). pose proof (Z.mod_pos_bound m 10 ltac:(lia)).
    rewrite !u8_digit by lia.
    destruct (Z.compare_spec (48 + n mod 10) (48 + m mod 10)), (Z.compare_spec (n mod 10) (m mod 10));
      done || lia.
Qed.

Lemma digits_S fuel n acc :
  digits (S fuel) n acc =
  if n / 10 =? 0 then digit (n mod 10) :: acc else digits fuel (n / 10) (digit (n mod 10) :: acc).
Proof. reflexivity. Qed.

(** The digits written are as many as the number has. *)
Lemma digits_fixed w fuel n acc :
  (w <= fuel)%nat -> 0 <= n < 10 ^ Z.of_nat w -> (0 < w)%nat ->
  exists k, (0 < k <= w)%nat /\ digits fuel n acc = fixed k n ++ acc /\
    fixed w n = replicate (w - k) (digit 0) ++ fixed k n.
Proof.
  revert fuel n acc. induction w as [|w IH]; intros fuel n acc Hf Hn Hw; [lia|].
  destruct fuel as [|fuel]; [lia|]. rewrite Nat2Z.inj_succ, Z.pow_succ_r in Hn by lia.
  rewrite digits_S. cbn [fixed]. destruct (Z.eqb_spec (n / 10) 0) as [E|E].
  - exists 1%nat. split; [lia|]. rewrite E. split; [done|]. cbn [fixed].
    assert (fixed w 0 = replicate w (digit 0)) as ->; [|by rewrite Nat.sub_succ, Nat.sub_0_r].
    clear. induction w as [|w IH]; [done|]. cbn [fixed]. change (0 / 10) with 0.
    rewrite IH. change (0 mod 10) with 0. by rewrite <- replicate_cons_app.
  - destruct w as [|w]; [change (10 ^ Z.of_nat 0) with 1 in Hn; exfalso; apply E; divlia|].
    destruct (IH fuel (n / 10) (digit (n mod 10) :: acc)) as (k & Hk & Hd & Hx); [lia|divlia|lia|].
    exists (S k). split; [lia|]. rewrite Hd, Hx. cbn [fixed]. rewrite <- !app_assoc. split; [done|].
    by replace (S (S w) - S k)%nat with (S w - k)%nat by lia.
Qed.

Lemma padded_fixed w n :
  (0 < w <= 20)%nat -> 0 <= n < 10 ^ Z.of_nat w -> padded w n = fixed w n.
Proof.
  intros Hw Hn. unfold padded. rewrite Z.abs_eq by lia.
  destruct (Z.ltb_spec n 0) as [|_]; [lia|].
  destruct (digits_fixed w 20 n []) as (k & Hk & -> & Hx); [lia|done|lia|].
  rewrite app_nil_r, Hx, fixed_length. cbn [length app]. by rewrite Nat.sub_0_r.
Qed.

(** ** Properties *)

(** What [to_tm] gives of a date the library can represent. *)
Definition valid_tm (t : tm) : Prop :=
  1400 <= tm_year t + 1900 < 10000 /\ 0 <= tm_mon t < 12 /\ 1 <= tm_mday t < 32 /\
  0 <= tm_hour t < 24 /\ 0 <= tm_min t < 60 /\ 0 <= tm_sec t < 60.

(** The order of two times. *)
Definition tm_compare (t u : tm) : comparison :=
  then_compare (tm_year t ?= tm_year u) (then_compare (tm_mon t ?= tm_mon u)
    (then_compare (tm_mday t ?= tm_mday u) (then_compare (tm_hour t ?= tm_hour u)
      (then_compare (tm_min t ?= tm_min u) (tm_sec t ?= tm_sec u))))).

Definition fixed_text (t : tm) : list ascii :=
  fixed 4 (tm_year t + 1900) ++ lit "-" ++ fixed 2 (tm_mon t + 1) ++ lit "-" ++
  fixed 2 (tm_mday t) ++ lit " " ++ fixed 2 (tm_hour t) ++ lit ":" ++
  fixed 2 (tm_min t) ++ lit ":" ++ fixed 2 (tm_sec t).

Lemma digit_not_zero n : digit (n mod 10) <> zero.
Proof.
  intros E. pose proof (Z.mod_pos_bound n 10 ltac:(lia)).
  apply (f_equal u8) in E. rewrite u8_digit in E by lia. vm_compute (u8 zero) in E. lia.
Qed.

Lemma fixed_no_nul w n : zero ∉ fixed w n.
Proof.
  revert n. induction w as [|w IH]; intros n; [set_solver|]. cbn.
  rewrite elem_of_app, elem_of_cons. intros [H|[H|H]]; [by apply (IH (n / 10))| |set_solver].
  by apply (digit_not_zero n).
Qed.

Lemma valid_text t : valid_tm t -> ptime_to_string (AtTime t) = Ok (fixed_text t).
Proof.
  intros (? & ? & ? & ? & ? & ?).
  assert (tm_text t = fixed_text t) as E
    by (unfold tm_text, fixed_text; rewrite !padded_fixed by (change (10 ^ Z.of_nat 4) with 10000;
          change (10 ^ Z.of_nat 2) with 100; lia); done).
  unfold ptime_to_string. rewrite E.
  assert (zlen (fixed_text t) = 19) as ->
    by (unfold zlen, fixed_text; by rewrite !length_app, !fixed_length).
  change (19 <? 40) with true. f_equal. apply c_str_no_nul. unfold fixed_text.
  rewrite !not_elem_of_app. split_and!; try apply fixed_no_nul; vm_compute; set_solver.
Qed.

Lemma compare_shift a n m : (n + a ?= m + a) = (n ?= m).
Proof. destruct (Z.compare_spec (n + a) (m + a)), (Z.compare_spec n m); done || lia. Qed.

(** The text of every date the library can represent fits into its buffer, it
    has nineteen characters, and the texts of two dates are in the order of the
    dates; so different dates have different texts, which sort like them. *)
Theorem time_text_order t u :
  valid_tm t -> valid_tm u ->
  exists s s', ptime_to_string (AtTime t) = Ok s /\ ptime_to_string (AtTime u) = Ok s' /\
    length s = 19%nat /\ length s' = 19%nat /\ text_compare s s' = tm_compare t u.
Proof.
  intros Ht Hu. exists (fixed_text t), (fixed_text u). rewrite !valid_text by done.
  split; [done|]. split; [done|]. unfold fixed_text.
  split; [by rewrite !length_app, !fixed_length|]. split; [by rewrite !length_app, !fixed_length|].
  destruct Ht as (? & ? & ? & ? & ? & ?), Hu as (? & ? & ? & ? & ? & ?).
  repeat (rewrite text_compare_app by (rewrite !fixed_length; reflexivity);
          rewrite ?text_compare_same).
  rewrite !fixed_compare by (change (10 ^ Z.of_nat 4) with 10000; change (10 ^ Z.of_nat 2) with 100; lia).
  by rewrite !compare_shift.
Qed.

(** The last second of a year, and the first of the next. *)
Definition before_new_year : tm :=
  {| tm_year := 119; tm_mon := 11; tm_mday := 31; tm_hour := 23; tm_min := 59; tm_sec := 59 |}.
Definition new_year : tm :=
  {| tm_year := 120; tm_mon := 0; tm_mday := 1; tm_hour := 0; tm_min := 0; tm_sec := 0 |}.

Lemma time_text_order_witness :
  valid_tm before_new_year /\ valid_tm new_year /\
  text_compare (lit "2019-12-31 23:59:59") (lit "2020-01-01 00:00:00") = Lt.
Proof.
  assert (valid_tm before_new_year) as Ht by (unfold valid_tm; cbn; lia).
  assert (valid_tm new_year) as Hu by (unfold valid_tm; cbn; lia).
  split; [exact Ht|]. split; [exact Hu|].
  destruct (time_text_order before_new_year new_year Ht Hu) as (s & s' & [= <-] & [= <-] & _ & _ & H).
  exact H.
Defined.

(** The first part of a longer text ends the read, with the rest still to come. *)
Lemma read_with_timeout_first size data :
  zlen data < size ->
  read_with_timeout size (Some (Chunk data)) =
  {| buffers := data; read_result := false; timer_result := false;
     timer_cancelled := false; socket_cancelled := false |}.
Proof.
  intros Hl. unfold read_with_timeout. rewrite take_ge by (unfold zlen in Hl; lia).
  destruct (Z.eqb_spec (zlen data) size); [lia|]. reflexivity.
Qed.

(** A connection is made to the first end point that accepts it, after all before
    it refused; when all refuse, the last one's error is thrown. *)
Lemma connect_loop_first {endpoint} (connect : endpoint -> option Z) eps error :
  let '(tried, e) := connect_loop connect eps (Some error) in
  match e with
  | None => exists pre ep post, eps = pre ++ ep :: post /\ tried = pre ++ [ep] /\
      connect ep = None /\ Forall (fun ep => is_Some (connect ep)) pre
  | Some e => tried = eps /\ Forall (fun ep => is_Some (connect ep)) eps /\
      ((exists ep, list.last eps = Some ep /\ connect ep = Some e) \/ eps = [] /\ e = error)
  end.
Proof.
  revert error. induction eps as [|ep eps IH]; intros error; [by repeat constructor; right|].
  cbn [connect_loop]. destruct (connect ep) as [e|] eqn:E.
  - specialize (IH e). destruct (connect_loop connect eps (Some e)) as [tried [e'|]].
    + destruct IH as (-> & Hall & Hl). split; [done|]. split; [by constructor|]. left.
      rewrite last_cons. destruct Hl as [(ep' & -> & Hc)|[-> ->]]; eauto.
    + destruct IH as (pre & ep' & post & -> & -> & Hc & Hpre).
      exists (ep :: pre), ep', post. split_and!; try done. by constructor.
  - destruct eps; cbn; exists [], ep; eexists; split_and!; done || constructor.
Qed.
