(* ===== verification/Platform.v ===== *)
(** * The platform: socket options and the Windows firewall

    [socket_set_keepalive_to] and [is_connected] ([applutil.cpp]), and
    [EnableFirewallRule] with the functions it calls ([win_util.cpp], the parts
    that are not commented out).

    The firewall is reached through COM.  Of COM the code uses what its
    documentation promises: a call that succeeds hands out a reference (or a
    string) that must be given back once, one that fails hands out none and sets
    its output to null; using a reference that is null or was given back is
    undefined.  What the calls return is a script, a [HRESULT] each.  What is
    printed is left out. *)

From S2P Require Import Prelude.

(** ** Socket options *)

Inductive socket_option := TCP_KEEPIDLE | TCP_KEEPCNT | TCP_KEEPINTVL | SO_KEEPALIVE.

(** The calls of [setsockopt], in order, on a system that is not Windows; the
    number of seconds is cut to 32 bits. *)
Definition socket_set_keepalive_to (timeout : Z) : list (socket_option * Z) :=
  if 0 <? timeout then
    [(TCP_KEEPIDLE, wrap 32 timeout); (TCP_KEEPCNT, 3); (TCP_KEEPINTVL, 10); (SO_KEEPALIVE, 1)]
  else [(SO_KEEPALIVE, 0)].

(** [is_open], and whether [remote_endpoint] succeeds. *)
Definition is_connected (is_open remote_endpoint : bool) : bool :=
  if is_open then remote_endpoint else false.

(** ** COM *)

(** A [HRESULT] is a failure when it is negative. *)
Definition FAILED (hr : Z) : bool := hr <? 0.
Definition SUCCEEDED (hr : Z) : bool := 0 <=? hr.

Definition S_OK : Z := 0.
Definition E_OUTOFMEMORY : Z := swrap 32 0x8007000E.
Definition RPC_E_CHANGED_MODE : Z := swrap 32 0x80010106.

(** The references held, by number, the strings allocated, how often COM was
    initialised, the applications added to the firewall, and the answers to
    come; no answer left is [S_OK]. *)
Record com := {
  c_held : gset Z;
  c_strings : gmap Z (list ascii);
  c_inits : Z;
  c_added : list (list ascii * list ascii);
  c_next : Z;
  c_answers : list Z }.

Definition set_held (h : gset Z) (w : com) : com :=
  {| c_held := h; c_strings := c_strings w; c_inits := c_inits w; c_added := c_added w;
     c_next := c_next w; c_answers := c_answers w |}.
Definition set_strings (m : gmap Z (list ascii)) (w : com) : com :=
  {| c_held := c_held w; c_strings := m; c_inits := c_inits w; c_added := c_added w;
     c_next := c_next w; c_answers := c_answers w |}.
Definition set_inits (n : Z) (w : com) : com :=
  {| c_held := c_held w; c_strings := c_strings w; c_inits := n; c_added := c_added w;
     c_next := c_next w; c_answers := c_answers w |}.
Definition set_added (l : list (list ascii * list ascii)) (w : com) : com :=
  {| c_held := c_held w; c_strings := c_strings w; c_inits := c_inits w; c_added := l;
     c_next := c_next w; c_answers := c_answers w |}.
Definition set_next (n : Z) (w : com) : com :=
  {| c_held := c_held w; c_strings := c_strings w; c_inits := c_inits w; c_added := c_added w;
     c_next := n; c_answers := c_answers w |}.
Definition set_answers (l : list Z) (w : com) : com :=
  {| c_held := c_held w; c_strings := c_strings w; c_inits := c_inits w; c_added := c_added w;
     c_next := c_next w; c_answers := l |}.

Definition answer : st com Z := fun w =>
  match c_answers w with
  | [] => (w, Ok S_OK)
  | hr :: l => (set_answers l w, Ok (swrap 32 hr))
  end.

(** A call through a reference. *)
Definition through (p : option Z) : st com unit := fun w =>
  match p with
  | Some h => (w, if bool_decide (h ∈ c_held w) then Ok tt else UB)
  | None => (w, UB)
  end.

Definition fresh : st com Z := fun w => (set_next (c_next w + 1) w, Ok (c_next w)).

(** A call that gives a reference when it succeeds. *)
Definition CoCreateInstance : st com (Z * option Z) :=
  hr ← answer;
  if FAILED hr then mret (hr, None)
  else h ← fresh; _ ← modify (fun w => set_held ({[h]} ∪ c_held w) w); mret (hr, Some h).

Definition get_interface (p : option Z) : st com (Z * option Z) :=
  _ ← through p; CoCreateInstance.

(** A call that gives no reference. *)
Definition call (p : option Z) : st com Z := _ ← through p; answer.

(** [if (p != NULL) p->Release();] *)
Definition release (p : option Z) : st com unit :=
  match p with
  | None => mret tt
  | Some h => _ ← through p; modify (fun w => set_held (c_held w ∖ {[h]}) w)
  end.

Definition SysAllocString (s : list ascii) : st com (option Z) :=
  hr ← answer;
  if FAILED hr then mret None
  else h ← fresh; _ ← modify (fun w => set_strings (<[h := s]> (c_strings w)) w); mret (Some h).

(** A null string may be freed, and has length zero. *)
Definition SysFreeString (s : option Z) : st com unit := fun w =>
  match s with
  | None => (w, Ok tt)
  | Some h => if bool_decide (is_Some (c_strings w !! h))
              then (set_strings (delete h (c_strings w)) w, Ok tt) else (w, UB)
  end.

Definition SysStringLen (s : option Z) : st com Z := fun w =>
  match s with
  | None => (w, Ok 0)
  | Some h => (w, match c_strings w !! h with Some t => Ok (zlen t) | None => UB end)
  end.

Definition CoInitializeEx : st com Z :=
  hr ← answer;
  _ ← modify (fun w => if SUCCEEDED hr then set_inits (c_inits w + 1) w else w);
  mret hr.

Definition CoUninitialize : st com unit := modify (fun w => set_inits (c_inits w - 1) w).

(** ** The firewall *)

(** [WindowsFirewallInitialize]: what is returned, and [*fwProfile]. *)
Definition WindowsFirewallInitialize : st com (Z * option Z) :=
  '(hr, fwMgr) ← CoCreateInstance;
  '(hr, fwPolicy, fwProfile) ←
    (if FAILED hr then mret (hr, None, None)
     else
       '(hr, fwPolicy) ← get_interface fwMgr;
       if FAILED hr then mret (hr, fwPolicy, None)
       else
         '(hr, fwProfile) ← get_interface fwPolicy;
         mret (hr, fwPolicy, fwProfile));
  _ ← release fwPolicy;
  _ ← release fwMgr;
  mret (hr, fwProfile).

Definition WindowsFirewallCleanup (fwProfile : option Z) : st com unit := release fwProfile.

(** [WindowsFirewallAppIsEnabled]: what is returned, and [*fwAppEnabled];
    [enabled] is what [get_Enabled] gives. *)
Definition WindowsFirewallAppIsEnabled (enabled : bool) (fwProfile : option Z)
    (fwProcessImageFileName : list ascii) : st com (Z * bool) :=
  '(hr, fwApps) ← get_interface fwProfile;
  '(hr, fwBstrProcessImageFileName, fwApp, fwAppEnabled) ←
    (if FAILED hr then mret (hr, None, None, false)
     else
       fwBstrProcessImageFileName ← SysAllocString fwProcessImageFileName;
       match fwBstrProcessImageFileName with
       | None => mret (E_OUTOFMEMORY, None, None, false)
       | Some _ =>
           '(hr, fwApp) ← get_interface fwApps;
           if SUCCEEDED hr then
             hr ← call fwApp;
             mret (hr, fwBstrProcessImageFileName, fwApp, if FAILED hr then false else enabled)
           else mret (S_OK, fwBstrProcessImageFileName, fwApp, false)
       end);
  _ ← SysFreeString fwBstrProcessImageFileName;
  _ ← release fwApp;
  _ ← release fwApps;
  mret (hr, fwAppEnabled).

(** The part of [WindowsFirewallAddApp] that fills the application in and adds
    it; the two strings. *)
Definition fill_and_add (fwApps fwApp : option Z) (fwProcessImageFileName fwName : list ascii)
    : st com (Z * option Z * option Z) :=
  fwBstrProcessImageFileName ← SysAllocString fwProcessImageFileName;
  match fwBstrProcessImageFileName with
  | None => mret (E_OUTOFMEMORY, None, None)
  | Some _ =>
      hr ← call fwApp;
      if FAILED hr then mret (hr, fwBstrProcessImageFileName, None)
      else
        fwBstrName ← SysAllocString fwName;
        len ← SysStringLen fwBstrName;
        if len =? 0 then mret (E_OUTOFMEMORY, fwBstrProcessImageFileName, fwBstrName)
        else
          hr ← call fwApp;
          if FAILED hr then mret (hr, fwBstrProcessImageFileName, fwBstrName)
          else
            hr ← call fwApps;
            _ ← (if FAILED hr then mret tt
                 else modify (fun w =>
                   set_added (c_added w ++ [(fwProcessImageFileName, fwName)]) w));
            mret (hr, fwBstrProcessImageFileName, fwBstrName)
  end.

Definition WindowsFirewallAddApp (enabled : bool) (fwProfile : option Z)
    (fwProcessImageFileName fwName : list ascii) : st com Z :=
  '(hr, fwAppEnabled) ← WindowsFirewallAppIsEnabled enabled fwProfile fwProcessImageFileName;
  '(hr, fwBstrProcessImageFileName, fwBstrName, fwApp, fwApps) ←
    (if FAILED hr || fwAppEnabled then mret (hr, None, None, None, None)
     else
       '(hr, fwApps) ← get_interface fwProfile;
       if FAILED hr then mret (hr, None, None, None, fwApps)
       else
         '(hr, fwApp) ← CoCreateInstance;
         if FAILED hr then mret (hr, None, None, fwApp, fwApps)
         else
           '(hr, image, name) ← fill_and_add fwApps fwApp fwProcessImageFileName fwName;
           mret (hr, image, name, fwApp, fwApps));
  _ ← SysFreeString fwBstrName;
  _ ← SysFreeString fwBstrProcessImageFileName;
  _ ← release fwApp;
  _ ← release fwApps;
  mret hr.

Definition uniproxy_image : list ascii := lit "%ProgramFiles%\uniproxy\uniproxy.exe".
Definition uniproxy_name : list ascii := lit "Uniproxy".

(** [EnableFirewallRule] returns without giving anything back when a call
    fails. *)
Definition EnableFirewallRule (enabled : bool) : st com bool :=
  comInit ← CoInitializeEx;
  if negb (comInit =? RPC_E_CHANGED_MODE) && FAILED comInit then mret false
  else
    '(hr, fwProfile) ← WindowsFirewallInitialize;
    if FAILED hr then mret false
    else
      hr ← WindowsFirewallAddApp enabled fwProfile uniproxy_image uniproxy_name;
      if FAILED hr then mret false
      else
        _ ← WindowsFirewallCleanup fwProfile;
        _ ← (if SUCCEEDED comInit then CoUninitialize else mret tt);
        mret true.

(** ** Lemmas: what is given back *)

Section balance.
(** What is held and allocated by others. *)
Context (H : gset Z) (B : gmap Z (list ascii)).

(** Beyond that, the references [ps] and the strings [ss], null or not. *)
Record owns (ps ss : list (option Z)) (inits : Z) (added : list (list ascii * list ascii))
    (w : com) : Prop := {
  owns_held : c_held w = list_to_set (omap id ps) ∪ H;
  owns_refs : NoDup (omap id ps) /\ Forall (fun h => h ∉ H) (omap id ps);
  owns_dom : dom (c_strings w) = list_to_set (omap id ss) ∪ dom B;
  owns_strings : NoDup (omap id ss) /\ Forall (fun h => B !! h = None) (omap id ss);
  owns_base : forall h, is_Some (B !! h) -> c_strings w !! h = B !! h;
  owns_inits : c_inits w = inits;
  owns_added : c_added w = added;
  owns_next : (forall h, h ∈ c_held w -> h < c_next w) /\ (forall h, h ∈ dom (c_strings w) -> h < c_next w) }.

Definition never : exn -> com -> Prop := fun _ _ => False.

(** A pointer that may be used. *)
Definition usable (p : option Z) (ps : list (option Z)) : Prop :=
  exists h, p = Some h /\ (h ∈ H \/ Some h ∈ ps).

#[local] Instance owns_perm :
  Proper ((≡ₚ) ==> (≡ₚ) ==> eq ==> eq ==> eq ==> iff) owns.
Proof.
  enough (forall ps ps' ss ss' i a w, ps ≡ₚ ps' -> ss ≡ₚ ss' -> owns ps ss i a w -> owns ps' ss' i a w) as He.
  { intros ps ps' Hp ss ss' Hs i _ <- a _ <- w _ <-. split; by apply He. }
  intros ps ps' ss ss' i a w Hp Hs [].
  assert (omap id ps ≡ₚ omap id ps') as Hp' by by rewrite Hp.
  assert (omap id ss ≡ₚ omap id ss') as Hs' by by rewrite Hs.
  split; rewrite <- ?Hp', <- ?Hs'; done.
Qed.

(** A null pointer owns nothing. *)
Lemma owns_null_ref ps ss i a w : owns (None :: ps) ss i a w <-> owns ps ss i a w.
Proof. by split; intros []; split. Qed.

Lemma owns_null_string ps ss i a w : owns ps (None :: ss) i a w <-> owns ps ss i a w.
Proof. by split; intros []; split. Qed.

Lemma answer_ok ps ss i a : triple (owns ps ss i a) answer (fun _ => owns ps ss i a) never.
Proof.
  intros w Hw. unfold answer. destruct (c_answers w) as [|hr l]; [done|]. by destruct Hw.
Qed.

Lemma through_ok ps ss i a p :
  usable p ps -> triple (owns ps ss i a) (through p) (fun _ => owns ps ss i a) never.
Proof.
  intros (h & -> & Hh) w Hw. unfold through. rewrite bool_decide_true; [done|].
  rewrite (owns_held _ _ _ _ _ Hw), elem_of_union, elem_of_list_to_set, list_elem_of_omap.
  destruct Hh as [Hh|Hh]; [by right|left; by exists (Some h)].
Qed.

Lemma call_ok ps ss i a p :
  usable p ps -> triple (owns ps ss i a) (call p) (fun _ => owns ps ss i a) never.
Proof.
  intros Hp. eapply triple_bind; [by apply through_ok|intros ?]. apply answer_ok.
Qed.

(** A new reference, or null. *)
Definition created ps ss i a : Z * option Z -> com -> Prop := fun '(hr, p) w =>
  owns (p :: ps) ss i a w /\ (FAILED hr = true <-> p = None).

Lemma create_ok ps ss i a : triple (owns ps ss i a) CoCreateInstance (created ps ss i a) never.
Proof.
  eapply triple_bind; [apply answer_ok|intros hr w Hw]. destruct (FAILED hr) eqn:E.
  { split; [by apply owns_null_ref|by rewrite E]. }
  destruct Hw as [Hh [H1 H2] Hd Hs Hb Hi Ha [N1 N2]]. split; [|by rewrite E].
  assert (c_next w ∉ c_held w) as Hn by (intros Hin%N1; lia).
  rewrite Hh, not_elem_of_union, elem_of_list_to_set in Hn. destruct Hn as [Hn Hn'].
  split; cbn; [set_solver| |done..|].
  - split; [by constructor|by constructor].
  - split; [intros h [->%elem_of_singleton|Hin%N1]%elem_of_union; lia|intros h Hin%N2; lia].
Qed.

Lemma get_interface_ok ps ss i a p :
  usable p ps -> triple (owns ps ss i a) (get_interface p) (created ps ss i a) never.
Proof. intros Hp. eapply triple_bind; [by apply through_ok|intros ?]. apply create_ok. Qed.

Lemma release_ok ps ss i a p :
  triple (owns (p :: ps) ss i a) (release p) (fun _ => owns ps ss i a) never.
Proof.
  destruct p as [h|]; [|intros w Hw; cbn; by apply owns_null_ref]. cbn [release].
  eapply triple_bind; [apply through_ok; exists h; split; [done|right; left]|intros ?].
  apply triple_modify. intros w [Hh [H1 H2] Hd Hs Hb Hi Ha [N1 N2]]. cbn in *.
  apply list.NoDup_cons in H1 as [Hn H1]. inversion_clear H2 as [|? ? Hh' H2'].
  split; cbn; [|done..|].
  - rewrite Hh. apply set_eq. intros x. rewrite !elem_of_difference, !elem_of_union, elem_of_singleton,
      elem_of_list_to_set. split; [tauto|].
    intros [Hx|Hx]; (split; [tauto|intros ->; done]).
  - split; [set_solver|done].
Qed.

(** A new string, or null. *)
Lemma alloc_ok ps ss i a s :
  triple (owns ps ss i a) (SysAllocString s) (fun p => owns ps (p :: ss) i a) never.
Proof.
  eapply triple_bind; [apply answer_ok|intros hr w Hw]. destruct (FAILED hr).
  { by apply owns_null_string. }
  destruct Hw as [Hh H1 Hd [S1 S2] Hb Hi Ha [N1 N2]].
  assert (c_next w ∉ dom (c_strings w)) as Hn by (intros Hin%N2; lia).
  rewrite Hd, not_elem_of_union, elem_of_list_to_set in Hn. destruct Hn as [Hn Hn'].
  split; cbn; [done..| | | |done|done|].
  - rewrite dom_insert_L. set_solver.
  - split; [by constructor|]. constructor; [by apply not_elem_of_dom|done].
  - intros h Hs. rewrite lookup_insert_ne; [by apply Hb|]. intros <-. by apply Hn', elem_of_dom.
  - split; [intros h Hin%N1; lia|].
    intros h. rewrite dom_insert_L. intros [->%elem_of_singleton|Hin%N2]%elem_of_union; lia.
Qed.

Lemma free_ok ps ss i a p :
  triple (owns ps (p :: ss) i a) (SysFreeString p) (fun _ => owns ps ss i a) never.
Proof.
  intros w Hw. destruct p as [h|]; cbn; [|by apply owns_null_string].
  destruct Hw as [Hh H1 Hd [S1 S2] Hb Hi Ha [N1 N2]]. cbn in *.
  apply list.NoDup_cons in S1 as [Hn S1]. inversion_clear S2 as [|? ? Hh' S2'].
  rewrite bool_decide_true by (apply elem_of_dom; set_solver).
  assert (h ∉ dom B) as HB by by apply not_elem_of_dom.
  split; cbn; [done..| |done| |done|done|].
  - rewrite dom_delete_L, Hd. set_solver.
  - intros h' Hs. rewrite lookup_delete_ne; [by apply Hb|]. intros <-. by apply HB, elem_of_dom.
  - split; [done|]. intros h'. rewrite dom_delete_L. intros [Hin%N2 _]%elem_of_difference. lia.
Qed.

Lemma len_ok ps ss i a p :
  triple (owns ps (p :: ss) i a) (SysStringLen p) (fun _ => owns ps (p :: ss) i a) never.
Proof.
  intros w Hw. destruct p as [h|]; cbn; [|done].
  assert (h ∈ dom (c_strings w)) as [t Ht]%elem_of_dom
    by (rewrite (owns_dom _ _ _ _ _ Hw); cbn; set_solver).
  by rewrite Ht.
Qed.

(** Null pointers own nothing, and the order does not matter. *)
Lemma owns_same ps ps' ss ss' i a w :
  owns ps ss i a w -> omap id ps ≡ₚ omap id ps' -> omap id ss ≡ₚ omap id ss' -> owns ps' ss' i a w.
Proof. intros [] Hp Hs. split; rewrite <- ?Hp, <- ?Hs; done. Qed.

Ltac same_owned :=
  eapply owns_same; [eassumption|..];
  repeat match goal with p : option Z |- _ => destruct p end; cbn; solve_Permutation.

(** What is known of the values comes out of a precondition. *)
Lemma triple_created {A} ps ss i a hr p (m : st com A) Q :
  ((FAILED hr = true <-> p = None) -> triple (owns (p :: ps) ss i a) m Q never) ->
  triple (created ps ss i a (hr, p)) m Q never.
Proof. intros Hm w [Hw Hp]. by apply Hm. Qed.

Lemma triple_pure {A} P (φ : Prop) (m : st com A) Q :
  (φ -> triple P m Q never) -> triple (fun w => P w /\ φ) m Q never.
Proof. intros Hm w [Hw Hp]. by apply Hm. Qed.

(** A value is returned with what is owned. *)
Lemma triple_done {A} ps ss i a (x : A) (Q : A -> com -> Prop) :
  (forall w, owns ps ss i a w -> Q x w) -> triple (owns ps ss i a) (mret x) Q never.
Proof. intros HQ w Hw. by apply HQ. Qed.

(** A call that succeeded gave a reference. *)
Lemma created_usable p ps : (false = true <-> p = None) -> usable p (p :: ps).
Proof.
  intros [_ Hp]. destruct p as [h|]; [exists h; split; [done|right; left]|].
  discriminate Hp. reflexivity.
Qed.

Lemma usable_more p q ps : usable p ps -> usable p (q :: ps).
Proof. intros (h & -> & Hh). exists h. split; [done|]. destruct Hh; [by left|by right; right]. Qed.

Lemma Initialize_ok ps ss i a :
  triple (owns ps ss i a) WindowsFirewallInitialize (created ps ss i a) never.
Proof.
  eapply triple_bind; [apply create_ok|intros [hr mgr]]. apply triple_created. intros Hm.
  eapply (triple_bind _ (fun '(hr, policy, profile) w =>
    owns (policy :: mgr :: profile :: ps) ss i a w /\ (FAILED hr = true <-> profile = None))).
  - destruct (FAILED hr) eqn:E.
    { apply triple_done. intros w Hw. split; [|by rewrite E].
      same_owned. }
    eapply triple_bind; [apply get_interface_ok; by apply created_usable|intros [hr1 pol]].
    apply triple_created. intros Hpol. destruct (FAILED hr1) eqn:E1.
    { apply triple_done. intros w Hw. split; [|by rewrite E1].
      same_owned. }
    eapply triple_bind; [apply get_interface_ok; by apply created_usable|intros [hr2 prof]].
    apply triple_created. intros Hprof. apply triple_done. intros w Hw. split; [|done].
    same_owned.
  - intros [[hr' pol] prof]. apply triple_pure. intros Hp.
    eapply triple_bind; [apply release_ok|intros ?].
    eapply triple_bind; [apply release_ok|intros ?]. by apply triple_done.
Qed.

Lemma AppIsEnabled_ok enabled profile image ps ss i a :
  usable profile ps ->
  triple (owns ps ss i a) (WindowsFirewallAppIsEnabled enabled profile image)
    (fun '(_, found) w => owns ps ss i a w /\ (found = true -> enabled = true)) never.
Proof.
  intros Hu. eapply triple_bind; [by apply get_interface_ok|intros [hr apps]].
  apply triple_created. intros Ha.
  eapply (triple_bind _ (fun '(_, name, app, found) w =>
    owns (app :: apps :: ps) (name :: ss) i a w /\ (found = true -> enabled = true))).
  - destruct (FAILED hr); [apply triple_done; intros; split; [same_owned|done]|].
    eapply triple_bind; [apply alloc_ok|intros [name|]];
      [|apply triple_done; intros; split; [same_owned|done]].
    eapply triple_bind; [apply get_interface_ok; by apply created_usable|intros [hr1 app]].
    apply triple_created. unfold SUCCEEDED, FAILED. rewrite Z.leb_antisym. intros Happ.
    destruct (hr1 <? 0); [apply triple_done; intros; split; [same_owned|done]|].
    eapply triple_bind; [apply call_ok; by apply created_usable|intros hr2].
    apply triple_done. intros w Hw. split; [done|]. by destruct (hr2 <? 0).
  - intros [[[hr' name] app] found]. apply triple_pure. intros He.
    eapply triple_bind; [apply free_ok|intros ?].
    eapply triple_bind; [apply release_ok|intros ?].
    eapply triple_bind; [apply release_ok|intros ?]. by apply triple_done.
Qed.

(** Whether the application was added. *)
Definition filled (image name : list ascii) (a : list (list ascii * list ascii)) (hr : Z) :=
  if FAILED hr then a else a ++ [(image, name)].

Lemma fill_and_add_ok apps app image name ps ss i a :
  usable apps ps -> usable app ps ->
  triple (owns ps ss i a) (fill_and_add apps app image name)
    (fun '(hr, s, t) w => owns ps (t :: s :: ss) i (filled image name a hr) w) never.
Proof.
  intros Hu Hu'. eapply triple_bind; [apply alloc_ok|intros [s|]];
    [|apply triple_done; intros; same_owned].
  eapply triple_bind; [by apply call_ok|intros hr]. unfold filled.
  destruct (FAILED hr) eqn:E; [apply triple_done; intros w Hw; rewrite E; same_owned|].
  eapply triple_bind; [apply alloc_ok|intros t]. eapply triple_bind; [apply len_ok|intros len].
  destruct (len =? 0); [by apply triple_done|].
  eapply triple_bind; [by apply call_ok|intros hr1].
  destruct (FAILED hr1) eqn:E1; [apply triple_done; intros w Hw; by rewrite E1|].
  eapply triple_bind; [by apply call_ok|intros hr2].
  eapply (triple_bind _ (fun _ => owns ps (t :: Some s :: ss) i (filled image name a hr2))).
  - unfold filled. destruct (FAILED hr2); [by apply triple_done|].
    apply triple_modify. intros w []. split; cbn; congruence || done.
  - intros ?. by apply triple_done.
Qed.

Lemma AddApp_ok enabled profile image name ps ss i a :
  usable profile ps ->
  triple (owns ps ss i a) (WindowsFirewallAddApp enabled profile image name)
    (fun hr w => owns ps ss i (filled image name a hr) w \/
                 enabled = true /\ owns ps ss i a w) never.
Proof.
  intros Hu. eapply triple_bind; [by apply AppIsEnabled_ok|intros [hr found]].
  apply triple_pure. intros He.
  eapply (triple_bind _ (fun '(hr, s, t, app, apps) w => exists a',
    owns (app :: apps :: ps) (t :: s :: ss) i a' w /\
    (a' = filled image name a hr \/ enabled = true /\ a' = a))).
  - destruct (FAILED hr) eqn:E; cbn [orb].
    { apply triple_done. intros w Hw. exists a. split; [same_owned|]. left. unfold filled. by rewrite E. }
    destruct found.
    { apply triple_done. intros w Hw. exists a. split; [same_owned|]. right. by split; [apply He|]. }
    eapply triple_bind; [by apply get_interface_ok|intros [hr1 apps]].
    apply triple_created. intros Ha. destruct (FAILED hr1) eqn:E1.
    { apply triple_done. intros w Hw. exists a. split; [same_owned|]. left. unfold filled. by rewrite E1. }
    eapply triple_bind; [apply create_ok|intros [hr2 app]].
    apply triple_created. intros Happ. destruct (FAILED hr2) eqn:E2.
    { apply triple_done. intros w Hw. exists a. split; [same_owned|]. left. unfold filled. by rewrite E2. }
    eapply triple_bind.
    { apply fill_and_add_ok; [apply usable_more|]; by apply created_usable. }
    intros [[hr3 s] t]. apply triple_done. intros w Hw. eexists. split; [exact Hw|by left].
  - intros [[[[hr' s] t] app] apps] w (a' & Hw & Ha'). revert w Hw.
    eapply triple_bind; [apply free_ok|intros ?].
    eapply triple_bind; [apply free_ok|intros ?].
    eapply triple_bind; [apply release_ok|intros ?].
    eapply triple_bind; [apply release_ok|intros ?].
    apply triple_done. intros w Hw. destruct Ha' as [->|[? ->]]; [by left|by right].
Qed.

Lemma CoInitializeEx_ok ps ss i a :
  triple (owns ps ss i a) CoInitializeEx
    (fun hr => owns ps ss (if SUCCEEDED hr then i + 1 else i) a) never.
Proof.
  eapply triple_bind; [apply answer_ok|intros hr].
  eapply (triple_bind _ (fun _ => owns ps ss (if SUCCEEDED hr then i + 1 else i) a)).
  - apply triple_modify. intros w []. destruct (SUCCEEDED hr); split; cbn; congruence || done.
  - intros ?. by apply triple_done.
Qed.

Lemma owns_end i a w :
  owns [] [] i a w -> c_held w = H /\ c_strings w = B /\ c_inits w = i /\ c_added w = a.
Proof.
  intros [Hh _ Hd _ Hb Hi Ha _]. cbn in *. rewrite union_empty_l_L in Hh, Hd.
  split_and!; try done. apply map_eq. intros h. destruct (B !! h) eqn:E.
  - rewrite Hb; [done|by rewrite E].
  - apply not_elem_of_dom. rewrite Hd. by apply not_elem_of_dom.
Qed.

End balance.

(** ** The theorem *)

(** New references and strings get numbers that are not in use. *)
Definition numbered (w : com) : Prop :=
  (forall h, h ∈ c_held w -> h < c_next w) /\ (forall h, h ∈ dom (c_strings w) -> h < c_next w).

Lemma owns_start w :
  numbered w -> owns (c_held w) (c_strings w) [] [] (c_inits w) (c_added w) w.
Proof.
  intros Hn. split; cbn; rewrite ?union_empty_l_L; try done; split; done || constructor.
Qed.

Lemma triple_run {A} P (m : st com A) Q w :
  triple P m Q never -> P w -> exists w' a, m w = (w', Ok a) /\ Q a w'.
Proof.
  intros Hm Hw. specialize (Hm w Hw). destruct (m w) as [w' [a|e|]]; [by eexists _, _|done..].
Qed.

(** The reference of a pointer. *)
Definition refs (p : option Z) : gset Z := list_to_set (omap id [p]).

Lemma owns_one H B p i a w :
  owns H B [p] [] i a w -> c_held w = refs p ∪ H /\ c_strings w = B /\ c_inits w = i /\ c_added w = a.
Proof.
  intros Hw. assert (exists w', c_held w' = H /\ c_strings w' = c_strings w /\ c_inits w' = c_inits w /\
    c_added w' = c_added w /\ owns H B [] [] i a w') as (w' & Hh & Hs & Hi & Ha & Ho).
  { exists (set_held H w). split_and!; try done. destruct Hw as [Hh _ Hd Hs Hb Hi Ha [N1 N2]].
    split; cbn; try done; [by rewrite union_empty_l_L|split; constructor|].
    split; [intros h Hin; apply N1; set_solver|done]. }
  apply owns_end in Ho as (_ & Hs' & Hi' & Ha'). split_and!; try congruence. apply Hw.
Qed.

(** C21. Enabling the firewall rule ends, uses no reference that is null or was
    given back, and frees every string it allocates, whatever the system
    answers.  When it succeeds, every reference is given back and COM is left
    as it was found, and uniproxy was added to the applications the firewall
    lets through, unless it was one already.  When it fails nothing was added,
    but COM stays initialised if this function initialised it, and the profile
    of the firewall stays held if it was obtained. *)
Theorem EnableFirewallRule_outcome enabled w (Hw : numbered w) :
  exists w' b, EnableFirewallRule enabled w = (w', Ok b) /\ c_strings w' = c_strings w /\
    if b then
      c_held w' = c_held w /\ c_inits w' = c_inits w /\
      (c_added w' = c_added w ++ [(uniproxy_image, uniproxy_name)] \/
       enabled = true /\ c_added w' = c_added w)
    else
      c_added w' = c_added w /\
      exists w1 comInit, CoInitializeEx w = (w1, Ok comInit) /\
        c_inits w' = (if SUCCEEDED comInit then c_inits w + 1 else c_inits w) /\
        (SUCCEEDED comInit = false /\ c_held w' = c_held w \/
         exists w2 hr p, WindowsFirewallInitialize w1 = (w2, Ok (hr, p)) /\
           (FAILED hr = true <-> p = None) /\ c_held w' = refs p ∪ c_held w).
Proof.
  set (H := c_held w). set (B := c_strings w). set (i := c_inits w). set (a := c_added w).
  destruct (triple_run _ _ _ w (CoInitializeEx_ok H B [] [] i a) (owns_start w Hw))
    as (w1 & comInit & E1 & Hw1).
  unfold EnableFirewallRule. rewrite (st_bind_Ok _ _ _ _ _ E1).
  destruct (negb (comInit =? RPC_E_CHANGED_MODE) && FAILED comInit) eqn:Ec.
  { apply owns_end in Hw1 as (Hh & Hs & Hi & Ha). exists w1, false. split_and!; try done.
    eexists _, _. split; [exact E1|]. split; [done|left]. split; [|done].
    apply andb_prop in Ec as [_ Ec]. unfold SUCCEEDED, FAILED in *. by rewrite Z.leb_antisym, Ec. }
  set (n := if SUCCEEDED comInit then i + 1 else i) in *.
  destruct (triple_run _ _ _ w1 (Initialize_ok H B [] [] n a) Hw1) as (w2 & [hr p] & E2 & Hw2 & Hp).
  rewrite (st_bind_Ok _ _ _ _ _ E2).
  destruct (FAILED hr) eqn:Ef.
  { apply owns_one in Hw2 as (Hh & Hs & Hi & Ha). exists w2, false. split_and!; try done.
    eexists _, _. split; [exact E1|]. split; [done|right]. exists w2, hr, p. by rewrite Ef. }
  destruct (triple_run _ _ _ w2 (AddApp_ok H B enabled p uniproxy_image uniproxy_name [p] [] n a
    (created_usable H p [] Hp)) Hw2) as (w3 & hr3 & E3 & Hw3).
  rewrite (st_bind_Ok _ _ _ _ _ E3). unfold filled in Hw3.
  destruct (FAILED hr3) eqn:E3f.
  { assert (owns H B [p] [] n a w3) as (Hh & Hs & Hi & Ha)%owns_one by by destruct Hw3 as [|[]].
    exists w3, false. split_and!; try done.
    eexists _, _. split; [exact E1|]. split; [done|right]. exists w2, hr, p. by rewrite Ef. }
  assert (exists a', owns H B [p] [] n a' w3 /\
    (a' = a ++ [(uniproxy_image, uniproxy_name)] \/ enabled = true /\ a' = a)) as (a' & Ho & Ha').
  { destruct Hw3 as [|[]]; eexists; (split; [eassumption|]); [by left|by right]. }
  destruct (triple_run _ _ _ w3 (release_ok H B [] [] n a' p) Ho) as (w4 & [] & E4 & Hw4).
  unfold WindowsFirewallCleanup. rewrite (st_bind_Ok _ _ _ _ _ E4).
  apply owns_end in Hw4 as (Hh & Hs & Hi & Ha). rewrite <- Ha in Ha'. unfold n in Hi.
  destruct (SUCCEEDED comInit); eexists _, true; (split; [reflexivity|]); cbn; split_and!; try done; lia.
Qed.

(** When the application cannot be added, the profile and the initialisation
    of COM are left behind. *)
Definition firewall_start : com :=
  {| c_held := {[ 5 ]}; c_strings := {[ 6 := lit "x" ]}; c_inits := 2; c_added := []; c_next := 10;
     c_answers := [0; 0; 0; 0; 0; 0; -1; 0; 0; 0; 0; 0; -1] |}.

Lemma EnableFirewallRule_outcome_witness :
  (exists w' b, EnableFirewallRule false firewall_start = (w', Ok b) /\
     c_strings w' = c_strings firewall_start /\ b = false /\ c_inits w' = 3 /\
     c_held w' = {[ 5; 12 ]}) /\
  exists w' b, EnableFirewallRule false (set_answers [] firewall_start) = (w', Ok b) /\ b = true.
Proof.
  split.
  - destruct (EnableFirewallRule_outcome false firewall_start) as (w' & b & E & Hs & _).
    { split; intros h Hin; cbn in Hin |- *; set_solver by lia. }
    exists w', b. split; [done|]. split; [done|]. revert E. vm_compute. intros [= <- <-]. done.
  - eexists _, _. split; vm_compute; reflexivity.
Defined.
