(* ===== verification/Wire.v ===== *)
(** * The type-length-value codec

    [TclAISMessageInternalBase] ([libs/gatehouse/pghpinternalbase.h],
    [pghpinternalbase.cpp]): the ASN.1-like encoding of integers, strings,
    doubles and dates into a byte buffer, its decoder, and the hexadecimal
    transport form.

    A [std::vector<uint8_t>] is the list of its bytes.  The decoder's reference
    parameters are threaded through: a [Parse...] function takes the current
    values of the offset and of its outputs and returns the boolean result with
    the values it leaves behind, because its callers ignore the boolean and go
    on with whatever offset and value they find.  Offsets are [int16_t], lengths
    [uint32_t]; their wrap-around is written out.  Reading outside the vector
    and shifting an [int] by its width or more are [UB]. *)

From S2P Require Import Prelude CppString.

(** ** Message types *)

Inductive AisMesgInternalType :=
  | AISMESGINT_UNKNOWN | AISMESGINT_LOGON_REQUEST | AISMESGINT_LOGON_REPLY
  | AISMESGINT_LOGOFF_REQUEST | AISMESGINT_STARTDATA_REQUEST
  | AISMESGINT_STOPDATA_REQUEST | AISMESGINT_UPDATE_INTERVAL
  | AISMESGINT_DROP_SSL_CONNECTION | AISMESGINT_ADD_SERVER
  | AISMESGINT_CLEAR_SERVERLIST | AISMESGINT_STATUS_SET_OBJECT_STATE
  | AISMESGINT_STATUS_REMOVE_OBJECT | AISMESGINT_STATUS_ADD_TEXTMSG
  | AISMESGINT_STATUS_REMOVE_TEXTMSG | AISMESGINT_CHANGE_PASSWORD_REQUEST
  | AISMESGINT_CHANGE_PASSWORD_REPLY | AISMESGINT_CHANGE_PASSWORD_COMMAND
  | AISMESGINT_HTMLSTAT_REPORT | AISMESGINT_LSSUSER_STATUS
  | AISMESGINT_LSS_STATUS | AISMESGINT_INTERNAL_CONNECTION
  | AISMESGINT_HTMLSTAT_CLIENTSTATE | AISMESGINT_PROXY_FILTER
  | AISMESGINT_PROXY_ACCESS_RIGHTS | AISMESGINT_AREA_LIST
  | AISMESGINT_LB_COMMAND | AISMESGINT_MOVE_PROXY
  | AISMESGINT_GAD_ACCESS_RIGHTS | AISMESGINT_GAD_PARAMETERS
  | AISMESGINT_WDOG_DATA | AISMESGINT_WDOG_CONTROL
  | AISMESGINT_ADD_SERVER_LIST | AISMESGINT_STATUS_MESSAGE
  | AISMESGINT_GAD_SEND_INFO | AISMESGINT_CLOCK_SYNC
  | AISMESGINT_CLOCK_SYNC_INTERVAL | AISMESGINT_TIME_STAMP_METHOD
  | AISMESGINT_DOWNSAMPLE_INTERVAL | AISMESGINT_MAPSERVER_STATUS
  | AISMESGINT_RADAR_HEADER | AISMESGINT_TRACK.

(** The enumerators in order; an enumerator's value is its position. *)
Definition AisMesgInternalTypes : list AisMesgInternalType :=
  [ AISMESGINT_UNKNOWN; AISMESGINT_LOGON_REQUEST; AISMESGINT_LOGON_REPLY;
    AISMESGINT_LOGOFF_REQUEST; AISMESGINT_STARTDATA_REQUEST;
    AISMESGINT_STOPDATA_REQUEST; AISMESGINT_UPDATE_INTERVAL;
    AISMESGINT_DROP_SSL_CONNECTION; AISMESGINT_ADD_SERVER;
    AISMESGINT_CLEAR_SERVERLIST; AISMESGINT_STATUS_SET_OBJECT_STATE;
    AISMESGINT_STATUS_REMOVE_OBJECT; AISMESGINT_STATUS_ADD_TEXTMSG;
    AISMESGINT_STATUS_REMOVE_TEXTMSG; AISMESGINT_CHANGE_PASSWORD_REQUEST;
    AISMESGINT_CHANGE_PASSWORD_REPLY; AISMESGINT_CHANGE_PASSWORD_COMMAND;
    AISMESGINT_HTMLSTAT_REPORT; AISMESGINT_LSSUSER_STATUS;
    AISMESGINT_LSS_STATUS; AISMESGINT_INTERNAL_CONNECTION;
    AISMESGINT_HTMLSTAT_CLIENTSTATE; AISMESGINT_PROXY_FILTER;
    AISMESGINT_PROXY_ACCESS_RIGHTS; AISMESGINT_AREA_LIST;
    AISMESGINT_LB_COMMAND; AISMESGINT_MOVE_PROXY;
    AISMESGINT_GAD_ACCESS_RIGHTS; AISMESGINT_GAD_PARAMETERS;
    AISMESGINT_WDOG_DATA; AISMESGINT_WDOG_CONTROL;
    AISMESGINT_ADD_SERVER_LIST; AISMESGINT_STATUS_MESSAGE;
    AISMESGINT_GAD_SEND_INFO; AISMESGINT_CLOCK_SYNC;
    AISMESGINT_CLOCK_SYNC_INTERVAL; AISMESGINT_TIME_STAMP_METHOD;
    AISMESGINT_DOWNSAMPLE_INTERVAL; AISMESGINT_MAPSERVER_STATUS;
    AISMESGINT_RADAR_HEADER; AISMESGINT_TRACK ].

#[export] Instance AisMesgInternalType_eq_dec : EqDecision AisMesgInternalType.
Proof. solve_decision. Defined.

(** The position of an element. *)
Fixpoint position {A} `{EqDecision A} (a : A) (l : list A) : Z :=
  match l with
  | [] => 0
  | b :: l' => if decide (a = b) then 0 else 1 + position a l'
  end.

(** A variable of the enumeration type holds an [unsigned int], which need not
    be the value of an enumerator after a cast. *)
Definition mesg_type (t : AisMesgInternalType) : Z := position t AisMesgInternalTypes.

(** ** Encoder *)

Definition ASN_INTEGER : Z := 0x02.
Definition ASN_DOUBLE : Z := 0x03.
Definition ASN_STR : Z := 0x06.
Definition ASN_DATETIME : Z := 0x07.
Definition ASN_LONG_LEN : Z := 0x80.

Definition BuildLength (clData : list ascii) (iLength : Z) : list ascii :=
  if iLength <? 0x80 then clData ++ [chr iLength]
  else if iLength <=? 0xFF then
    clData ++ [chr (Z.lor 0x01 ASN_LONG_LEN); chr iLength]
  else
    clData ++ [chr (Z.lor 0x02 ASN_LONG_LEN);
               chr (Z.land (Z.shiftr iLength 8) 0xFF);
               chr (Z.land iLength 0xFF)].

Definition BuildHeader (clData : list ascii) (iType iLength : Z) : list ascii :=
  BuildLength (clData ++ [chr iType]) iLength.

Definition BuildString (clData : list ascii) (iType : Z) (clStr : list ascii)
    : list ascii :=
  BuildHeader clData iType (wrap 32 (zlen clStr)) ++ clStr.

(** [0x1FF << ((8 * (sizeof(int32_t) - 1)) - 1)] and
    [0xFF << (8 * (sizeof(int32_t) - 1))], as [uint32_t]. *)
Definition iMask9 : Z := wrap 32 (Z.shiftl 0x1FF (8 * (4 - 1) - 1)).
Definition iMask8 : Z := wrap 32 (Z.shiftl 0xFF (8 * (4 - 1))).

(** [iRes &= ~iMask; iRes <<= 8] *)
Definition shift_out (iRes iMask : Z) : Z :=
  let iRes1 := swrap 32 (Z.land (wrap 32 iRes) (wrap 32 (Z.lnot iMask))) in
  swrap 32 (Z.shiftl iRes1 8).

(** The first loop: drop the redundant leading bytes; [iSize] starts at
    [sizeof(int32_t)] and the loop stops at 1. *)
Fixpoint truncate (fuel : nat) (iRes iSize : Z) : Z * Z :=
  match fuel with
  | O => (iRes, iSize)
  | S fuel' =>
      let top := Z.land (wrap 32 iRes) iMask9 in
      if ((top =? 0) || (top =? iMask9)) && (iSize >? 1)
      then truncate fuel' (shift_out iRes iMask9) (iSize - 1)
      else (iRes, iSize)
  end.

(** The second loop: [iSize] bytes from the most significant end. *)
Fixpoint emit (iSize : nat) (iRes : Z) : list ascii :=
  match iSize with
  | O => []
  | S n =>
      chr (Z.shiftr (Z.land (wrap 32 iRes) iMask8) (8 * (4 - 1)))
        :: emit n (shift_out iRes iMask8)
  end.

Definition BuildInt (clData : list ascii) (iType iIntData : Z) : list ascii :=
  let '(iRes, iSize) := truncate 4 iIntData 4 in
  BuildHeader clData iType iSize ++ emit (Z.to_nat iSize) iRes.

(** A [double] is the eight bytes of its representation. *)
Definition BuildDouble (data : list ascii) (type : Z) (val : list ascii) : list ascii :=
  data ++ chr type :: val.

Definition EncodeString (d clName clData : list ascii) : list ascii :=
  BuildString (BuildString d ASN_STR clName) ASN_STR clData.

Definition EncodeInteger (d clName : list ascii) (iData : Z) : list ascii :=
  BuildInt (BuildString d ASN_STR clName) ASN_INTEGER iData.

(** The space-optimized version, without a name. *)
Definition EncodeIntegerBare (d : list ascii) (iData : Z) : list ascii :=
  BuildInt d ASN_INTEGER iData.

Definition EncodeDouble (d : list ascii) (val : list ascii) : list ascii :=
  BuildDouble d ASN_DOUBLE val.

(** The calendar fields of a [boost::posix_time::ptime]. *)
Record date_time := {
  dt_year : Z; dt_month : Z; dt_day : Z;
  dt_hours : Z; dt_minutes : Z; dt_seconds : Z }.

Definition EncodeDateTime (d clName : list ascii) (clDT : date_time) : list ascii :=
  let d := BuildString d ASN_DATETIME clName in
  let d := BuildInt d ASN_INTEGER (dt_year clDT) in
  let d := BuildInt d ASN_INTEGER (dt_month clDT) in
  let d := BuildInt d ASN_INTEGER (dt_day clDT) in
  let d := BuildInt d ASN_INTEGER (dt_hours clDT) in
  let d := BuildInt d ASN_INTEGER (dt_minutes clDT) in
  let d := BuildInt d ASN_INTEGER (dt_seconds clDT) in
  BuildInt d ASN_INTEGER 0.

Definition EncodeHeader (d : list ascii) (type : Z) : list ascii :=
  BuildInt d ASN_INTEGER (swrap 32 type).

(** ** Decoder *)

(** [iOffset >= clData.size()]: the [int16_t] is converted to [size_t]. *)
Definition past_end (clData : list ascii) (iOffset : Z) : bool :=
  wrap 64 iOffset >=? zlen clData.

(** [iOffset++], in 16 bits. *)
Definition next (iOffset : Z) : Z := swrap 16 (iOffset + 1).

(** [sizeof(long)] on the 64-bit target. *)
Definition sizeof_long : Z := 8.

(** The length bytes from the last to the first, [iCnt] counting up; [n] is
    [i + 1]. *)
Fixpoint length_bytes (clData : list ascii) (iOffset : Z) (n : nat)
    (iCnt iLength : Z) : out Z :=
  match n with
  | O => Ok iLength
  | S i =>
      b ← rd clData (iOffset + 1 + Z.of_nat i);
      if 8 * iCnt >=? 32 then UB
      else length_bytes clData iOffset i (iCnt + 1)
             (Z.lor iLength (wrap 32 (Z.shiftl (u8 b) (8 * iCnt))))
  end.

(** Returns the flag, [_iOffset] and [_iLength]. *)
Definition ParseLength (clData : list ascii) (iOffset iLength : Z)
    : out (bool * Z * Z) :=
  if past_end clData iOffset then Ok (false, iOffset, iLength)
  else
    b ← rd clData iOffset;
    if Z.land (u8 b) ASN_LONG_LEN =? 0 then
      Ok (true, swrap 16 (iOffset + 1), u8 b)
    else
      let bLength := u8 b - ASN_LONG_LEN in
      if bLength =? 0 then Ok (false, iOffset, iLength)
      else if bLength >? sizeof_long then Ok (false, iOffset, iLength)
      else if past_end clData (iOffset + bLength) then Ok (false, iOffset, iLength)
      else
        l ← length_bytes clData iOffset (Z.to_nat bLength) 0 0;
        Ok (true, swrap 16 (iOffset + (bLength + 1)), l).

(** Returns the flag, the offset, the type and the length. *)
Definition ParseHeader (clData : list ascii) (iOffset iType iLength : Z)
    : out (bool * Z * Z * Z) :=
  if past_end clData iOffset then Ok (false, iOffset, iType, iLength)
  else
    t ← rd clData iOffset;
    r ← ParseLength clData (next iOffset) iLength;
    let '(ok, off, len) := r in Ok (ok, off, u8 t, len).

(** [iOffset + iParsedLength > clData.size()]: a [uint32_t] sum. *)
Definition overflows (clData : list ascii) (iOffset iParsedLength : Z) : bool :=
  wrap 32 (iOffset + iParsedLength) >? zlen clData.

(** [while (iParsedLength--) clString.append(1, clData[iOffset++])] *)
Fixpoint append_bytes (clData : list ascii) (n : nat) (iOffset : Z)
    (clString : list ascii) : out (Z * list ascii) :=
  match n with
  | O => Ok (iOffset, clString)
  | S n' =>
      c ← rd clData iOffset;
      append_bytes clData n' (next iOffset) (clString ++ [c])
  end.

(** Returns the flag, the offset, the type and the string, which is appended
    to. *)
Definition ParseString (clData : list ascii) (iOffset iType : Z)
    (clString : list ascii) : out (bool * Z * Z * list ascii) :=
  if past_end clData iOffset then Ok (false, iOffset, iType, clString)
  else
    t ← rd clData iOffset;
    r ← ParseLength clData (next iOffset) 0;
    let '(ok, off, len) := r in
    if negb ok then Ok (false, off, u8 t, clString)
    else if overflows clData off len then Ok (false, off, u8 t, clString)
    else
      s ← append_bytes clData (Z.to_nat len) off clString;
      let '(off', str) := s in Ok (true, off', u8 t, str).

(** [while (iParsedLength--) iInt = (iInt << 8) | clData[iOffset++]] *)
Fixpoint shift_in (clData : list ascii) (n : nat) (iOffset iInt : Z)
    : out (Z * Z) :=
  match n with
  | O => Ok (iOffset, iInt)
  | S n' =>
      b ← rd clData iOffset;
      shift_in clData n' (next iOffset)
        (Z.lor (swrap 32 (Z.shiftl iInt 8)) (u8 b))
  end.

(** Returns the flag, the offset, the type and the integer. *)
Definition ParseInt (clData : list ascii) (iOffset iType iInt : Z)
    : out (bool * Z * Z * Z) :=
  if past_end clData iOffset then Ok (false, iOffset, iType, iInt)
  else
    t ← rd clData iOffset;
    r ← ParseLength clData (next iOffset) 0;
    let '(ok, off, len) := r in
    if negb ok then Ok (false, off, u8 t, iInt)
    else if (len =? 0) || (len >? 4) then Ok (false, off, u8 t, iInt)
    else if overflows clData off len then Ok (false, off, u8 t, iInt)
    else
      b ← rd clData off;
      let start := if Z.land (u8 b) 0x80 =? 0 then 0 else -1 in
      s ← shift_in clData (Z.to_nat len) off start;
      let '(off', n) := s in Ok (true, off', u8 t, n).

(** Returns the flag, the offset, the type and the bytes of the double. *)
Definition ParseDouble (data : list ascii) (offset type : Z) (val : list ascii)
    : out (bool * Z * Z * list ascii) :=
  if past_end data offset then Ok (false, offset, type, val)
  else
    t ← rd data offset;
    let off := next offset in
    if overflows data off 8 then Ok (false, off, u8 t, val)
    else
      let v := take 8 (drop (Z.to_nat off) data) in
      if (off <? 0) || (zlen v <? 8) then UB
      else Ok (true, swrap 16 (off + 8), u8 t, v).

(** The [Decode...] functions ignore the flags.  Each returns the offset and
    the output variable. *)
Definition DecodeInteger (d : list ascii) (iOffset iData : Z) : out (Z * Z) :=
  r ← ParseString d iOffset 0 [];
  let '(_, off, iType, _) := r in
  r ← ParseInt d off iType iData;
  let '(_, off, _, n) := r in Ok (off, n).

Definition DecodeIntegerBare (d : list ascii) (offset data : Z) : out (Z * Z) :=
  r ← ParseInt d offset 0 data;
  let '(_, off, _, n) := r in Ok (off, n).

Definition DecodeDouble (d : list ascii) (offset : Z) (data : list ascii)
    : out (Z * list ascii) :=
  r ← ParseDouble d offset 0 data;
  let '(_, off, _, v) := r in Ok (off, v).

(** The name found is only compared to write a log line. *)
Definition DecodeString (d : list ascii) (iOffset : Z) (clData : list ascii)
    : out (Z * list ascii) :=
  r ← ParseString d iOffset 0 [];
  let '(_, off, iType, _) := r in
  r ← ParseString d off iType clData;
  let '(_, off, _, s) := r in Ok (off, s).

(** [DecodeHeader]: [enType] is replaced when it is still unknown. *)
Definition DecodeHeader (d : list ascii) (iOffset enType : Z) : out (Z * Z) :=
  r ← ParseInt d iOffset 0 0;
  let '(_, off, _, iMesgType) := r in
  Ok (off, if enType =? mesg_type AISMESGINT_UNKNOWN
           then wrap 32 iMesgType else enType).

(** ** The hexadecimal form *)

(** [buf = {clData[i], clData[i+1], 0}] and [sscanf(buf, "%02X", &iData)]. *)
Definition scan_byte (c d : ascii) : ascii :=
  chr (sscanf_X 2 (c_str [c; d; zero]) 0).

Fixpoint Ascii2Byte (clDataBuffer clData : list ascii) : list ascii :=
  match clData with
  | c :: d :: rest => Ascii2Byte (clDataBuffer ++ [scan_byte c d]) rest
  | [c] => clDataBuffer ++ [scan_byte c zero]
  | [] => clDataBuffer
  end.

Fixpoint Byte2Ascii (clDataBuffer clData : list ascii) : list ascii :=
  match clDataBuffer with
  | b :: rest => Byte2Ascii rest (clData ++ sprintf_02X (u8 b))
  | [] => clData
  end.

(** [TclAISMessageInternalBase::Decode]: always true; it leaves the type. *)
Definition InternalBase_Decode (enType : Z) (clData : list ascii) : out (bool * Z) :=
  r ← DecodeHeader (Ascii2Byte [] clData) 0 enType;
  Ok (true, snd r).

(** ** Specification of the encodings *)

(** The [k] low bytes of [n], most significant first. *)
Fixpoint be (k : nat) (n : Z) : list ascii :=
  match k with
  | O => []
  | S k' => chr (n / 256 ^ Z.of_nat k') :: be k' n
  end.

(** The integer an encoded [n] stands for: the first truncation step clears
    nine bits and shifts by eight, so a redundant sign byte takes the sign bit
    of the next byte with it. *)
Definition decoded (n : Z) : Z :=
  if (- 2 ^ 23 <=? n) && (n <? 0) then n + 2 ^ 23 else n.

(** The number of content bytes. *)
Definition int_size (m : Z) : Z :=
  if (m <? - 2 ^ 23) || (2 ^ 23 <=? m) then 4
  else if 2 ^ 15 <=? m then 3
  else if 2 ^ 7 <=? m then 2
  else 1.

Definition encoded_int (iType n : Z) : list ascii :=
  let m := decoded n in
  chr iType :: chr (int_size m) :: be (Z.to_nat (int_size m)) m.

(** ** Lemmas on the integer encoder *)

Lemma land_high x k h : 0 <= k -> 0 <= h -> 0 <= x < 2 ^ (k + h) ->
  Z.land x (2 ^ k * (2 ^ h - 1)) = x / 2 ^ k * 2 ^ k.
Proof.
  intros Hk Hh Hx.
  replace (2 ^ k * (2 ^ h - 1)) with (Z.shiftl (Z.ones h) k)
    by (rewrite Z.shiftl_mul_pow2, Z.ones_equiv; lia).
  rewrite <- Z.shiftl_mul_pow2, <- Z.shiftr_div_pow2 by lia.
  apply Z.bits_inj'. intros i Hi. rewrite Z.land_spec.
  destruct (decide (i < k)).
  - rewrite !Z.shiftl_spec_low by lia. by rewrite andb_false_r.
  - rewrite !Z.shiftl_spec, Z.shiftr_spec by lia.
    replace (i - k + k) with i by lia.
    destruct (decide (i - k < h)).
    + rewrite Z.ones_spec_low by lia. by rewrite andb_true_r.
    + rewrite Z.ones_spec_high by lia. rewrite andb_false_r.
      destruct (decide (x = 0)) as [->|]; [by rewrite Z.testbit_0_l|].
      symmetry. apply Z.bits_above_log2; [lia|].
      apply Z.log2_lt_pow2; [lia|].
      eapply Z.lt_le_trans; [apply Hx|]. apply Z.pow_le_mono_r; lia.
Qed.

(** The two tests of the truncation loop. *)
Lemma land_mask9 r : Z.land (wrap 32 r) iMask9 = wrap 32 r / 2 ^ 23 * 2 ^ 23.
Proof.
  change iMask9 with (2 ^ 23 * (2 ^ 9 - 1)). apply land_high; [lia..|].
  apply (wrap_range 32); lia.
Qed.

Lemma land_mask8 r : Z.land (wrap 32 r) iMask8 = wrap 32 r / 2 ^ 24 * 2 ^ 24.
Proof.
  change iMask8 with (2 ^ 24 * (2 ^ 8 - 1)). apply land_high; [lia..|].
  apply (wrap_range 32); lia.
Qed.

Lemma shift_out_spec r k iMask : 0 <= k < 32 ->
  wrap 32 (Z.lnot iMask) = Z.ones k ->
  shift_out r iMask = swrap 32 (wrap 32 r mod 2 ^ k * 256).
Proof.
  intros Hk HM. unfold shift_out. rewrite HM.
  rewrite Z.land_ones by lia.
  rewrite Z.shiftl_mul_pow2 by lia. change (2 ^ 8) with 256.
  rewrite <- (swrap_wrap 32 (swrap 32 _ * 256)) by lia.
  rewrite <- (swrap_wrap 32 (_ * 256)) by lia. f_equal.
  unfold wrap at 1 3. rewrite <- Zmult_mod_idemp_l.
  change (swrap 32 ?x mod 2 ^ 32) with (wrap 32 (swrap 32 x)).
  rewrite wrap_swrap by lia. unfold wrap at 1. by rewrite Zmult_mod_idemp_l.
Qed.

Lemma truncate_step fuel r iSize :
  truncate (S fuel) r iSize =
  let u := wrap 32 r in
  if ((u <? 2 ^ 23) || (2 ^ 32 - 2 ^ 23 <=? u)) && (iSize >? 1)
  then truncate fuel (u mod 2 ^ 23 * 256) (iSize - 1) else (r, iSize).
Proof.
  cbn [truncate]. rewrite land_mask9.
  pose proof (wrap_range 32 r ltac:(lia)) as Hu. unfold in_uint in Hu.
  rewrite (shift_out_spec r 23) by (lia || reflexivity).
  set (u := wrap 32 r) in *.
  rewrite (swrap_small 32) by (unfold in_sint; divlia).
  replace (u / 2 ^ 23 * 2 ^ 23 =? 0) with (u <? 2 ^ 23)
    by (repeat zcase; divlia).
  replace (u / 2 ^ 23 * 2 ^ 23 =? iMask9) with (2 ^ 32 - 2 ^ 23 <=? u); [done|].
  change iMask9 with (2 ^ 32 - 2 ^ 23). repeat zcase; divlia.
Qed.

Lemma truncate_pos m s f : 0 <= m * 256 < 2 ^ 31 ->
  truncate (S f) (m * 256) s =
  if (m * 256 <? 2 ^ 23) && (s >? 1) then truncate f (m * 256 * 256) (s - 1)
  else (m * 256, s).
Proof.
  intros Hm. rewrite truncate_step, wrap_small by (unfold in_uint; lia).
  cbv zeta. replace (2 ^ 32 - 2 ^ 23 <=? m * 256) with false by (zcase; lia).
  rewrite orb_false_r. zcase; [|done]. simpl andb.
  by rewrite (Z.mod_small (m * 256)) by lia.
Qed.

(** What is left of the loop after its first step. *)
Lemma truncate_rest m : 0 <= m < 2 ^ 23 ->
  truncate 3 (m * 256) 3 = (m * 2 ^ (8 * (4 - int_size m)), int_size m).
Proof.
  intros Hm. unfold int_size.
  replace (m <? - 2 ^ 23) with false by (zcase; lia).
  replace (2 ^ 23 <=? m) with false by (zcase; lia). simpl orb. cbv iota.
  rewrite truncate_pos by lia. change (3 >? 1) with true. rewrite andb_true_r.
  destruct (Z.ltb_spec (m * 256) (2 ^ 23)).
  2: { replace (2 ^ 15 <=? m) with true by (zcase; lia). f_equal; lia. }
  replace (2 ^ 15 <=? m) with false by (zcase; lia).
  rewrite truncate_pos by lia. change (3 - 1 >? 1) with true.
  rewrite andb_true_r.
  destruct (Z.ltb_spec (m * 256 * 256) (2 ^ 23)).
  2: { replace (2 ^ 7 <=? m) with true by (zcase; lia). f_equal; lia. }
  replace (2 ^ 7 <=? m) with false by (zcase; lia).
  rewrite truncate_step, wrap_small by (unfold in_uint; lia).
  change (3 - 1 - 1 >? 1) with false. cbv zeta.
  rewrite andb_false_r. f_equal; lia.
Qed.

(** A first step that does not shift leaves four bytes. *)
Lemma truncate_none n u :
  (u <? 2 ^ 23) || (2 ^ 32 - 2 ^ 23 <=? u) = false -> int_size n = 4 ->
  (if ((u <? 2 ^ 23) || (2 ^ 32 - 2 ^ 23 <=? u)) && (4 >? 1)
   then truncate 3 (u mod 2 ^ 23 * 256) 3 else (n, 4)) =
  (n * 2 ^ (8 * (4 - int_size n)), int_size n).
Proof. intros -> ->. simpl andb. cbv iota. f_equal; lia. Qed.

Lemma truncate_spec n : in_sint 32 n ->
  truncate 4 n 4 =
  (let m := decoded n in (m * 2 ^ (8 * (4 - int_size m)), int_size m)).
Proof.
  unfold in_sint. intros Hn.
  assert (wrap 32 n = if n <? 0 then n + 2 ^ 32 else n) as Hu.
  { zcase; [apply wrap_neg; lia|apply wrap_small; unfold in_uint; lia]. }
  rewrite truncate_step, Hu. cbv zeta. unfold decoded.
  change (2 ^ (32 - 1)) with (2 ^ 31) in Hn. change (4 - 1) with 3.
  destruct (Z.ltb_spec n 0); destruct (Z.leb_spec (- 2 ^ 23) n);
    simpl andb in *; cbv iota in *; try lia.
  - replace ((n + 2 ^ 32 <? 2 ^ 23) || _) with true by (repeat zcase; lia).
    change (true && (4 >? 1)) with true. cbv iota.
    replace ((n + 2 ^ 32) mod 2 ^ 23) with (n + 2 ^ 23) by divlia.
    apply truncate_rest; lia.
  - apply truncate_none; [repeat zcase; lia|].
    unfold int_size. zcase; [done|lia].
  - destruct (Z.ltb_spec n (2 ^ 23)) as [Hlt|Hge].
    + change ((true || _) && (4 >? 1)) with true. cbv iota.
      rewrite Z.mod_small by lia. apply truncate_rest; lia.
    + replace (false || (2 ^ 32 - 2 ^ 23 <=? n)) with false by (zcase; lia).
      simpl andb. cbv iota. unfold int_size.
      replace (2 ^ 23 <=? n) with true by (zcase; lia).
      rewrite orb_true_r. f_equal; lia.
Qed.

Lemma be_mod k a b : a mod 256 ^ Z.of_nat k = b mod 256 ^ Z.of_nat k ->
  be k a = be k b.
Proof.
  induction k as [|k IH]; [done|]. intros E. cbn [be].
  assert (0 < 256 ^ Z.of_nat k) by lia.
  rewrite Nat2Z.inj_succ, Z.pow_succ_r in E by lia.
  f_equal.
  - unfold chr. do 2 f_equal. unfold wrap. change (2 ^ 8) with 256.
    rewrite (Z.mul_comm 256) in E.
    rewrite !Z.rem_mul_r in E by lia.
    assert (a mod 256 ^ Z.of_nat k = b mod 256 ^ Z.of_nat k) as E1.
    { rewrite <- !Z.rem_mul_r in E by lia.
      rewrite <- (Z.mod_mod_divide a (256 ^ Z.of_nat k * 256))
        by (exists 256; lia).
      rewrite E. apply Z.mod_mod_divide. exists 256; lia. }
    rewrite E1 in E. nia.
  - apply IH. rewrite <- (Z.mod_mod_divide a (256 * 256 ^ Z.of_nat k))
      by (exists 256; lia).
    rewrite E. apply Z.mod_mod_divide. exists 256; lia.
Qed.

Lemma emit_spec k r : (k <= 4)%nat ->
  emit k r = be k (wrap 32 r / 2 ^ (8 * (4 - Z.of_nat k))).
Proof.
  revert r. induction k as [|k IH]; intros r Hk; [done|].
  cbn [emit be]. rewrite IH by lia. rewrite land_mask8.
  rewrite (shift_out_spec r 24) by (lia || reflexivity).
  pose proof (wrap_range 32 r ltac:(lia)) as Hu. unfold in_uint in Hu.
  rewrite wrap_swrap by lia. unfold wrap at 2.
  set (u := wrap 32 r) in *.
  rewrite Z.shiftr_div_pow2 by lia. f_equal.
  - f_equal. change (256 ^ Z.of_nat k) with ((2 ^ 8) ^ Z.of_nat k).
    rewrite <- Z.pow_mul_r, Z.div_div, <- Z.pow_add_r by lia.
    replace (8 * (4 - Z.of_nat (S k)) + 8 * Z.of_nat k) with 24 by lia.
    change (8 * (4 - 1)) with 24. divlia.
  - apply be_mod. do 4 (destruct k as [|k]; [cbn; divlia|]). lia.
Qed.

Lemma decoded_cases n : in_sint 32 n ->
  - 2 ^ 31 <= decoded n < - 2 ^ 23 \/ 0 <= decoded n < 2 ^ 31.
Proof.
  unfold decoded, in_sint. intros.
  destruct (Z.leb_spec (- 2 ^ 23) n); destruct (Z.ltb_spec n 0);
    simpl andb; cbv iota; lia.
Qed.

Lemma decoded_range n : in_sint 32 n -> in_sint 32 (decoded n).
Proof. intros H%decoded_cases. unfold in_sint. lia. Qed.

Lemma int_size_range m : 1 <= int_size m <= 4.
Proof. unfold int_size. repeat zcase; simpl; lia. Qed.

(** The content fits in its bytes with room for the sign. *)
Lemma int_size_fits n : in_sint 32 n ->
  let m := decoded n in
  - 2 ^ (8 * int_size m - 1) <= m < 2 ^ (8 * int_size m - 1).
Proof.
  intros [?|?]%decoded_cases; cbv zeta; set (m := decoded n) in *.
  - unfold int_size. replace (m <? - 2 ^ 23) with true by (zcase; lia).
    simpl orb. cbv iota. lia.
  - unfold int_size. replace (m <? - 2 ^ 23) with false by (zcase; lia).
    simpl orb. repeat (zcase; cbv iota; try lia).
Qed.

Lemma BuildInt_spec d iType n : in_sint 32 n ->
  BuildInt d iType n = d ++ encoded_int iType n.
Proof.
  intros Hn. unfold BuildInt, encoded_int. rewrite truncate_spec by done.
  cbv zeta beta iota.
  pose proof (int_size_range (decoded n)) as Hk.
  unfold BuildHeader, BuildLength.
  replace (int_size (decoded n) <? 0x80) with true by (zcase; lia).
  rewrite <- !app_assoc. do 2 f_equal. simpl app. f_equal.
  rewrite emit_spec by lia. rewrite Z2Nat.id by lia.
  set (m := decoded n) in *. set (k := int_size m) in *. apply be_mod.
  rewrite Z2Nat.id by lia. unfold wrap.
  change 256 with (2 ^ 8). rewrite <- Z.pow_mul_r by lia.
  assert (2 ^ 32 = 2 ^ (8 * (4 - k)) * 2 ^ (8 * k)) as ->.
  { rewrite <- Z.pow_add_r by lia. f_equal; lia. }
  rewrite (Z.mul_comm m).
  rewrite Zmult_mod_distr_l, Z.mul_comm.
  rewrite Z.div_mul by lia. by rewrite Z.mod_mod by lia.
Qed.

(** ** Lemmas on the readers *)

Lemma past_end_app pre c post : past_end (pre ++ c :: post) (zlen pre) = false.
Proof.
  unfold past_end. pose proof (zlen_nonneg pre). pose proof (zlen_nonneg post).
  unfold wrap. zcase; [|done]. autorewrite with zlen in *.
  pose proof (Z.mod_le (zlen pre) (2 ^ 64)). lia.
Qed.

Lemma past_end_in d off : 0 <= off < zlen d -> past_end d off = false.
Proof.
  intros. unfold past_end, wrap. zcase; [|done].
  pose proof (Z.mod_le off (2 ^ 64)). lia.
Qed.

Lemma next_small off : 0 <= off < 32767 -> next off = off + 1.
Proof. intros. unfold next. apply swrap_small; unfold in_sint; lia. Qed.

Lemma overflows_app pre s post n : zlen pre + n < 2 ^ 32 -> n = zlen s ->
  overflows (pre ++ s ++ post) (zlen pre) n = false.
Proof.
  intros H ->. unfold overflows. rewrite wrap_small.
  - zcase; [zlen_lia|done].
  - unfold in_uint. zlen_lia.
Qed.

(** Or-ing a byte into a shifted integer adds it, and stays in range. *)
Lemma swrap_256 x : exists y, swrap 32 (x * 256) = y * 256.
Proof.
  exists (swrap 32 (x * 256) / 256). unfold swrap.
  change (2 ^ (32 - 1)) with (256 * 2 ^ 23).
  change (2 ^ 32) with (256 * 2 ^ 24). divlia.
Qed.

Lemma lor_byte x b : 0 <= b < 256 ->
  Z.lor (swrap 32 (Z.shiftl x 8)) b = swrap 32 (x * 256) + b.
Proof.
  intros Hb. rewrite Z.shiftl_mul_pow2 by lia. change (2 ^ 8) with 256.
  destruct (swrap_256 x) as [y ->].
  replace (y * 256) with (Z.shiftl y 8) by (rewrite Z.shiftl_mul_pow2; lia).
  rewrite <- (Z.mod_small b 256) by lia. change 256 with (2 ^ 8).
  assert (Z.land (Z.shiftl y 8) (b mod 2 ^ 8) = 0) as H0.
  { apply Z.bits_inj'; intros i Hi; rewrite Z.land_spec, Z.bits_0.
    destruct (decide (i < 8)).
    - by rewrite Z.shiftl_spec_low by lia.
    - rewrite Z.mod_pow2_bits_high by lia. apply andb_false_r. }
  rewrite <- Z.lxor_lor by done. symmetry. by apply Z.add_nocarry_lxor.
Qed.

Lemma byte_in_range x b : 0 <= b < 256 -> in_sint 32 (swrap 32 (x * 256) + b).
Proof.
  intros Hb. pose proof (swrap_range 32 (x * 256) ltac:(lia)).
  destruct (swrap_256 x) as [y E]. rewrite E in *. unfold in_sint in *.
  change (2 ^ (32 - 1)) with (2 ^ 31) in *. lia.
Qed.

Lemma swrap_cong w a b x c : 0 < w -> wrap w a = wrap w b ->
  swrap w (a * x + c) = swrap w (b * x + c).
Proof.
  intros Hw E. rewrite <- (swrap_wrap w (a * x + c)), <- (swrap_wrap w (b * x + c))
    by done. f_equal. unfold wrap in *.
  rewrite <- (Zplus_mod_idemp_l (a * x)), <- (Zplus_mod_idemp_l (b * x)).
  rewrite <- (Zmult_mod_idemp_l a), <- (Zmult_mod_idemp_l b). by rewrite E.
Qed.

Lemma wrap_add_swrap w a b : 0 < w -> wrap w (swrap w a + b) = wrap w (a + b).
Proof.
  intros. unfold wrap. rewrite <- Zplus_mod_idemp_l.
  change (swrap w a mod 2 ^ w) with (wrap w (swrap w a)).
  rewrite wrap_swrap by done. unfold wrap. by rewrite Zplus_mod_idemp_l.
Qed.

Lemma shift_in_be k pre post m s :
  in_sint 32 s -> zlen pre + Z.of_nat k <= 32767 ->
  shift_in (pre ++ be k m ++ post) k (zlen pre) s =
  Ok (zlen pre + Z.of_nat k,
      swrap 32 (s * 256 ^ Z.of_nat k + m mod 256 ^ Z.of_nat k)).
Proof.
  revert pre s. induction k as [|k IH]; intros pre s Hs Hk.
  - cbn [shift_in]. do 2 f_equal; [lia|].
    simpl Z.of_nat. rewrite Z.pow_0_r, Z.mod_1_r.
    rewrite swrap_small by (lia || by replace (s * 1 + 0) with s by lia). lia.
  - cbn [shift_in be]. rewrite <- app_comm_cons, rd_app, bind_Ok.
    rewrite next_small by zlen_lia.
    set (c := chr (m / 256 ^ Z.of_nat k)).
    pose proof (u8_range c) as Hc. rewrite lor_byte by done.
    specialize (IH (pre ++ [c]) (swrap 32 (s * 256) + u8 c)
      (byte_in_range _ _ Hc) ltac:(zlen_lia)).
    rewrite <- app_assoc in IH. simpl app in IH.
    replace (zlen pre + 1) with (zlen (pre ++ [c])) by zlen_lia.
    rewrite IH. do 2 f_equal; [zlen_lia|].
    erewrite swrap_cong by (lia || apply wrap_add_swrap; lia).
    unfold c. rewrite u8_chr. unfold wrap. change (2 ^ 8) with 256.
    rewrite Nat2Z.inj_succ, Z.pow_succ_r by lia.
    rewrite (Z.mul_comm 256 (256 ^ _)), Z.rem_mul_r by lia. f_equal. lia.
Qed.

Lemma ParseLength_short pre b post l : u8 b < 0x80 -> zlen pre < 32767 ->
  ParseLength (pre ++ b :: post) (zlen pre) l = Ok (true, zlen pre + 1, u8 b).
Proof.
  intros Hb Hl. pose proof (u8_range b). unfold ParseLength.
  rewrite past_end_app, rd_app, bind_Ok.
  replace (Z.land (u8 b) ASN_LONG_LEN =? 0) with true.
  - change (swrap 16 (zlen pre + 1)) with (next (zlen pre)).
    rewrite next_small by zlen_lia. done.
  - symmetry. apply Z.eqb_eq. change ASN_LONG_LEN with (2 ^ 7 * (2 ^ 1 - 1)).
    rewrite land_high by lia. rewrite Z.div_small by lia. lia.
Qed.

(** The sign bit of the first content byte gives the initial value that makes
    the accumulated integer come out right. *)
Lemma sign_byte k m : 0 < Z.of_nat k ->
  - 2 ^ (8 * Z.of_nat k - 1) <= m < 2 ^ (8 * Z.of_nat k - 1) ->
  exists c rest, be k m = c :: rest /\
    (if Z.land (u8 c) 0x80 =? 0 then 0 else -1) * 256 ^ Z.of_nat k +
    m mod 256 ^ Z.of_nat k = m.
Proof.
  destruct k as [|k]; [lia|]. intros _ Hm. cbn [be]. eexists _, _. split; [done|].
  rewrite u8_chr.
  assert (0 < 256 ^ Z.of_nat k) by lia.
  assert (2 ^ (8 * Z.of_nat (S k) - 1) = 128 * 256 ^ Z.of_nat k) as E.
  { change 256 with (2 ^ 8). rewrite <- Z.pow_mul_r by lia.
    change 128 with (2 ^ 7). rewrite <- Z.pow_add_r by lia. f_equal. lia. }
  rewrite E in Hm. rewrite Nat2Z.inj_succ, Z.pow_succ_r by lia.
  set (q := 256 ^ Z.of_nat k) in *.
  change 0x80 with (2 ^ 7 * (2 ^ 1 - 1)).
  pose proof (wrap_range 8 (m / q) ltac:(lia)) as Hw. unfold in_uint in Hw.
  rewrite land_high by lia.
  assert (-128 <= m / q < 128) as Hq.
  { split; [apply Z.div_le_lower_bound; lia|apply Z.div_lt_upper_bound; lia]. }
  rewrite (Z.mul_comm 256 q), Z.rem_mul_r by lia.
  pose proof (Z.div_mod m q ltac:(lia)).
  unfold wrap in *. change (2 ^ 8) with 256 in *. change (2 ^ 7) with 128 in *.
  destruct (Z.ltb_spec (m / q) 0).
  - replace ((m / q) mod 256) with (m / q + 256) in * by divlia.
    replace ((m / q + 256) / 128 * 128 =? 0) with false by (zcase; divlia). lia.
  - rewrite (Z.mod_small (m / q)) in * by lia.
    replace (m / q / 128 * 128 =? 0) with true by (zcase; divlia). lia.
Qed.

Lemma length_be k m : length (be k m) = k.
Proof. induction k; simpl; auto. Qed.

Lemma ParseInt_encoded pre t n post t0 n0 : 0 <= t < 256 -> in_sint 32 n ->
  zlen (pre ++ encoded_int t n) <= 32767 ->
  ParseInt (pre ++ encoded_int t n ++ post) (zlen pre) t0 n0 =
  Ok (true, zlen (pre ++ encoded_int t n), t, decoded n).
Proof.
  intros Ht Hn Hlen. pose proof (int_size_fits n Hn) as Hfit. cbv zeta in Hfit.
  pose proof (int_size_range (decoded n)) as Hk.
  pose proof (decoded_range n Hn) as Hd. pose proof (zlen_nonneg pre).
  unfold encoded_int in *. cbv zeta in *.
  set (m := decoded n) in *. set (k := int_size m) in *.
  assert (zlen (be (Z.to_nat k) m) = k) as Hbe.
  { unfold zlen. rewrite length_be. lia. }
  rewrite !zlen_app, !zlen_cons, Hbe in *.
  unfold ParseInt. rewrite <- !app_comm_cons, past_end_app, rd_app, bind_Ok.
  rewrite next_small by lia.
  replace (pre ++ chr t :: chr k :: be (Z.to_nat k) m ++ post)
    with ((pre ++ [chr t]) ++ chr k :: be (Z.to_nat k) m ++ post)
    by by rewrite <- app_assoc.
  replace (zlen pre + 1) with (zlen (pre ++ [chr t])) by zlen_lia.
  rewrite ParseLength_short, bind_Ok, !u8_chr_small
    by (rewrite ?u8_chr_small by lia; zlen_lia).
  simpl negb. cbv iota.
  replace ((k =? 0) || (k >? 4)) with false by (repeat zcase; simpl; lia).
  replace ((pre ++ [chr t]) ++ chr k :: be (Z.to_nat k) m ++ post)
    with ((pre ++ [chr t; chr k]) ++ be (Z.to_nat k) m ++ post)
    by by rewrite <- !app_assoc.
  replace (zlen (pre ++ [chr t]) + 1) with (zlen (pre ++ [chr t; chr k]))
    by zlen_lia.
  set (pre2 := pre ++ [chr t; chr k]).
  assert (zlen pre2 = zlen pre + 2) as Hp2 by (unfold pre2; zlen_lia).
  rewrite overflows_app by lia.
  rewrite <- (Z2Nat.id k) in Hfit by lia.
  destruct (sign_byte (Z.to_nat k) m ltac:(lia) Hfit) as (c & rest & Ec & Es).
  rewrite Ec at 1. rewrite <- app_comm_cons, rd_app, bind_Ok.
  rewrite shift_in_be, bind_Ok, Es by (lia || case_match; unfold in_sint; lia).
  rewrite swrap_small by (lia || done).
  by replace (zlen pre2 + Z.of_nat (Z.to_nat k)) with (zlen pre + (1 + (1 + k)))
    by lia.
Qed.

(** ** Lemmas on strings *)

Lemma append_bytes_app pre s post str : zlen pre + zlen s <= 32767 ->
  append_bytes (pre ++ s ++ post) (length s) (zlen pre) str =
  Ok (zlen pre + zlen s, str ++ s).
Proof.
  revert pre str. induction s as [|c s IH]; intros pre str Hlen.
  - cbn [append_bytes length]. rewrite app_nil_r. do 2 f_equal. zlen_lia.
  - cbn [append_bytes length]. rewrite <- app_comm_cons, rd_app, bind_Ok.
    rewrite next_small by zlen_lia.
    specialize (IH (pre ++ [c]) (str ++ [c]) ltac:(zlen_lia)).
    rewrite <- !app_assoc in IH. simpl app in IH.
    replace (zlen pre + 1) with (zlen (pre ++ [c])) by zlen_lia.
    rewrite IH. do 2 f_equal. zlen_lia.
Qed.

(** The length octets, and what they decode to. *)
Definition encoded_length (n : Z) : list ascii := BuildLength [] n.

Lemma BuildLength_app d n : BuildLength d n = d ++ encoded_length n.
Proof. unfold encoded_length, BuildLength. repeat case_match; done. Qed.

Lemma rd_app_at {A} (pre : list A) a post i : i = zlen pre ->
  rd (pre ++ a :: post) i = Ok a.
Proof. intros ->. apply rd_app. Qed.

Lemma past_end_at pre c post i : i = zlen pre ->
  past_end (pre ++ c :: post) i = false.
Proof. intros ->. apply past_end_app. Qed.

Lemma ParseLength_1 pre b post l : zlen pre + 2 <= 32767 ->
  ParseLength (pre ++ [chr 0x81; b] ++ post) (zlen pre) l =
  Ok (true, zlen pre + 2, u8 b).
Proof.
  intros Hlen. pose proof (u8_range b). pose proof (zlen_nonneg pre).
  unfold ParseLength. simpl app.
  rewrite past_end_app, rd_app, bind_Ok.
  change (Z.land (u8 (chr 129)) ASN_LONG_LEN =? 0) with false.
  change (u8 (chr 129) - ASN_LONG_LEN) with 1. cbv zeta.
  change (1 =? 0) with false. change (1 >? sizeof_long) with false. cbv iota.
  replace (pre ++ chr 129 :: b :: post) with ((pre ++ [chr 129]) ++ b :: post)
    by by rewrite <- app_assoc.
  rewrite past_end_at by zlen_lia. change (Z.to_nat 1) with 1%nat.
  cbn [length_bytes]. rewrite rd_app_at by zlen_lia. rewrite bind_Ok.
  change (8 * 0 >=? 32) with false. cbv iota. rewrite bind_Ok.
  rewrite swrap_small by (unfold in_sint; lia).
  rewrite Z.shiftl_0_r, wrap_small, Z.lor_0_l by (unfold in_uint; lia).
  done.
Qed.

Lemma lor_bytes h l : 0 <= l < 256 -> 0 <= h < 256 ->
  Z.lor l (wrap 32 (Z.shiftl h 8)) = h * 256 + l.
Proof.
  intros Hl Hh. rewrite Z.lor_comm. pose proof (lor_byte h l Hl) as E.
  rewrite Z.shiftl_mul_pow2 in * by lia. change (2 ^ 8) with 256 in *.
  rewrite wrap_small by (unfold in_uint; lia).
  by rewrite !swrap_small in E by (unfold in_sint; lia).
Qed.

Lemma ParseLength_2 pre b c post l : zlen pre + 3 <= 32767 ->
  ParseLength (pre ++ [chr 0x82; b; c] ++ post) (zlen pre) l =
  Ok (true, zlen pre + 3, u8 b * 256 + u8 c).
Proof.
  intros Hlen. pose proof (u8_range b). pose proof (u8_range c).
  pose proof (zlen_nonneg pre). unfold ParseLength. simpl app.
  rewrite past_end_app, rd_app, bind_Ok.
  change (Z.land (u8 (chr 130)) ASN_LONG_LEN =? 0) with false.
  change (u8 (chr 130) - ASN_LONG_LEN) with 2. cbv zeta.
  change (2 =? 0) with false. change (2 >? sizeof_long) with false. cbv iota.
  set (d := pre ++ chr 130 :: b :: c :: post).
  assert (rd d (zlen pre + 1 + 0) = Ok b) as E1.
  { replace d with ((pre ++ [chr 130]) ++ b :: c :: post)
      by by unfold d; rewrite <- app_assoc. apply rd_app_at. zlen_lia. }
  assert (rd d (zlen pre + 1 + 1) = Ok c) as E2.
  { replace d with ((pre ++ [chr 130; b]) ++ c :: post)
      by by unfold d; rewrite <- app_assoc. apply rd_app_at. zlen_lia. }
  rewrite past_end_in by (unfold d; zlen_lia).
  change (Z.to_nat 2) with 2%nat. cbn [length_bytes].
  change (Z.of_nat 1) with 1. change (Z.of_nat 0) with 0. rewrite E2, E1, !bind_Ok.
  change (8 * 0 >=? 32) with false. change (8 * (0 + 1) >=? 32) with false.
  cbv iota. rewrite bind_Ok. rewrite swrap_small by (unfold in_sint; lia).
  rewrite Z.shiftl_0_r, (wrap_small 32 (u8 c)), Z.lor_0_l by (unfold in_uint; lia).
  change (8 * (0 + 1)) with 8. by rewrite lor_bytes by lia.
Qed.

Lemma ParseLength_encoded pre n post l : 0 <= n <= 0xFFFF ->
  zlen (pre ++ encoded_length n) <= 32767 ->
  ParseLength (pre ++ encoded_length n ++ post) (zlen pre) l =
  Ok (true, zlen (pre ++ encoded_length n), n).
Proof.
  intros Hn. unfold encoded_length, BuildLength. simpl app.
  destruct (Z.ltb_spec n 0x80); [|destruct (Z.leb_spec n 0xFF)]; intros Hlen.
  - simpl app. autorewrite with zlen in Hlen.
    rewrite ParseLength_short; rewrite ?u8_chr_small by lia; [|lia..].
    do 3 f_equal. zlen_lia.
  - change (Z.lor 1 ASN_LONG_LEN) with 0x81. autorewrite with zlen in Hlen.
    rewrite ParseLength_1, u8_chr_small by lia. do 3 f_equal. zlen_lia.
  - change (Z.lor 2 ASN_LONG_LEN) with 0x82. autorewrite with zlen in Hlen.
    rewrite ParseLength_2 by lia. rewrite !u8_chr.
    change 0xFF with (Z.ones 8). rewrite !Z.land_ones, Z.shiftr_div_pow2 by lia.
    change (2 ^ 8) with 256. unfold wrap. change (2 ^ 8) with 256.
    do 3 f_equal; [zlen_lia|divlia].
Qed.

Definition encoded_string (iType : Z) (s : list ascii) : list ascii :=
  chr iType :: encoded_length (zlen s) ++ s.

Lemma BuildString_spec d t s : zlen s < 2 ^ 32 ->
  BuildString d t s = d ++ encoded_string t s.
Proof.
  intros Hs. unfold BuildString, BuildHeader, encoded_string.
  rewrite wrap_small by (unfold in_uint; zlen_lia).
  by rewrite BuildLength_app, <- !app_assoc.
Qed.

Lemma ParseString_encoded pre t s post t0 s0 : 0 <= t < 256 ->
  zlen (pre ++ encoded_string t s) <= 32767 ->
  ParseString (pre ++ encoded_string t s ++ post) (zlen pre) t0 s0 =
  Ok (true, zlen (pre ++ encoded_string t s), t, s0 ++ s).
Proof.
  intros Ht Hlen. unfold encoded_string in *.
  pose proof (zlen_nonneg s). pose proof (zlen_nonneg pre).
  pose proof (zlen_nonneg (encoded_length (zlen s))).
  set (L := encoded_length (zlen s)) in *.
  rewrite !zlen_app, zlen_cons, zlen_app in *.
  unfold ParseString. rewrite <- app_comm_cons, past_end_app, rd_app, bind_Ok.
  rewrite next_small, u8_chr_small by lia.
  replace (pre ++ chr t :: (L ++ s) ++ post)
    with ((pre ++ [chr t]) ++ L ++ s ++ post) by by rewrite <- !app_assoc.
  replace (zlen pre + 1) with (zlen (pre ++ [chr t])) by zlen_lia.
  unfold L. rewrite ParseLength_encoded, bind_Ok by (fold L; zlen_lia).
  simpl negb. cbv iota. fold L.
  rewrite (app_assoc (pre ++ [chr t])).
  set (pre2 := (pre ++ [chr t]) ++ L).
  assert (zlen pre2 = zlen pre + 1 + zlen L) as Hp2 by (unfold pre2; zlen_lia).
  rewrite overflows_app by lia.
  replace (Z.to_nat (zlen s)) with (length s) by (unfold zlen; lia).
  rewrite append_bytes_app, bind_Ok by lia.
  do 4 f_equal. lia.
Qed.

(** ** Lemmas on reads in and out of the buffer *)

Lemma past_end_false d off : in_sint 32 off -> zlen d < 2 ^ 63 ->
  past_end d off = false -> 0 <= off < zlen d.
Proof.
  unfold past_end, in_sint. intros Hoff Hd.
  change (2 ^ (32 - 1)) with (2 ^ 31) in *.
  destruct (Z.ltb_spec off 0).
  - rewrite wrap_neg by lia. zcase; [done|lia].
  - rewrite wrap_small by (unfold in_uint; lia). zcase; [done|lia].
Qed.

Lemma length_bytes_in d off n cnt l : 0 <= off -> 0 <= cnt ->
  off + 1 + Z.of_nat n <= zlen d -> cnt + Z.of_nat n <= 4 -> in_uint 32 l ->
  exists len, length_bytes d off n cnt l = Ok len /\ in_uint 32 len.
Proof.
  revert cnt l. induction n as [|n IH]; intros cnt l Ho Hc Hd Hn Hl; [by exists l|].
  cbn [length_bytes]. destruct (rd_in d (off + 1 + Z.of_nat n)) as [b ->]; [lia|].
  rewrite bind_Ok. replace (8 * cnt >=? 32) with false by (zcase; lia).
  apply IH; [lia..|].
  pose proof (wrap_range 32 (Z.shiftl (u8 b) (8 * cnt)) ltac:(lia)) as Hw.
  unfold in_uint in *. rewrite <- (wrap_small 32 l) by done.
  unfold wrap. rewrite <- !Z.land_ones, <- Z.land_lor_distr_l, Z.land_ones by lia.
  apply Z.mod_pos_bound. lia.
Qed.

Lemma length_bytes_UB d off n cnt l : 0 <= off -> 0 <= cnt ->
  off + 1 + Z.of_nat n <= zlen d -> 4 < cnt + Z.of_nat n -> (0 < n)%nat ->
  length_bytes d off n cnt l = UB.
Proof.
  revert cnt l. induction n as [|n IH]; intros cnt l Ho Hc Hd Hn Hpos; [lia|].
  cbn [length_bytes]. destruct (rd_in d (off + 1 + Z.of_nat n)) as [b ->]; [lia|].
  rewrite bind_Ok. zcase; [done|].
  destruct n as [|n']; [lia|]. apply IH; lia.
Qed.

Lemma append_bytes_in d n off s : 0 <= off -> off + Z.of_nat n <= zlen d ->
  zlen d <= 32767 -> exists s', append_bytes d n off s = Ok (off + Z.of_nat n, s').
Proof.
  revert off s. induction n as [|n IH]; intros off s Ho Hd Hl.
  { exists s. cbn [append_bytes]. do 2 f_equal. lia. }
  cbn [append_bytes]. destruct (rd_in d off) as [b ->]; [lia|].
  rewrite bind_Ok, next_small by lia.
  destruct (IH (off + 1) (s ++ [b])) as [s' ->]; [lia..|].
  exists s'. do 2 f_equal. lia.
Qed.

Lemma append_bytes_UB d n off s : 0 <= off <= zlen d ->
  zlen d < off + Z.of_nat n -> zlen d <= 32767 -> append_bytes d n off s = UB.
Proof.
  revert off s. induction n as [|n IH]; intros off s Ho Hd Hl; [lia|].
  cbn [append_bytes]. destruct (decide (off = zlen d)) as [->|].
  - by rewrite rd_oob by lia.
  - destruct (rd_in d off) as [b ->]; [lia|].
    rewrite bind_Ok, next_small by lia. apply IH; lia.
Qed.

Lemma shift_in_in d n off s : 0 <= off -> off + Z.of_nat n <= zlen d ->
  zlen d <= 32767 -> exists r, shift_in d n off s = Ok (off + Z.of_nat n, r).
Proof.
  revert off s. induction n as [|n IH]; intros off s Ho Hd Hl.
  { exists s. cbn [shift_in]. do 2 f_equal. lia. }
  cbn [shift_in]. destruct (rd_in d off) as [b ->]; [lia|].
  rewrite bind_Ok, next_small by lia.
  edestruct (IH (off + 1)) as [s' ->]; [lia..|].
  exists s'. do 2 f_equal. lia.
Qed.

(** A length octet that announces five to eight bytes, all of them there. *)
Definition bad_length (d : list ascii) (off : Z) : Prop :=
  0 <= off /\ exists b, rd d off = Ok b /\ 0x85 <= u8 b <= 0x88 /\
                        off + (u8 b - 0x80) < zlen d.

(** The three outcomes of [ParseLength] inside a buffer. *)
Inductive length_outcome (d : list ascii) (off l : Z) : out (bool * Z * Z) -> Prop :=
  | length_fail : ~ bad_length d off -> length_outcome d off l (Ok (false, off, l))
  | length_ok off' len : ~ bad_length d off -> off < off' <= zlen d ->
      in_uint 32 len -> length_outcome d off l (Ok (true, off', len))
  | length_bad : bad_length d off -> length_outcome d off l UB.

Lemma land_0x80 b : 0 <= b < 256 -> (Z.land b ASN_LONG_LEN =? 0) = (b <? 128).
Proof.
  intros. change ASN_LONG_LEN with (2 ^ 7 * (2 ^ 1 - 1)).
  rewrite land_high by lia. repeat zcase; divlia.
Qed.

Lemma ParseLength_outcome d off l : zlen d <= 32767 -> in_sint 16 off ->
  length_outcome d off l (ParseLength d off l).
Proof.
  intros Hd Hoff. unfold in_sint in Hoff. change (2 ^ (16 - 1)) with 32768 in Hoff.
  assert (forall o, -32768 <= o <= 40000 -> past_end d o = false -> 0 <= o < zlen d)
    as Hpe by (intros; apply past_end_false; [unfold in_sint|..]; lia || done).
  assert (forall o, 0 <= o -> past_end d o = true -> zlen d <= o) as Hpt.
  { intros o ? ?. destruct (Z.ltb_spec o (zlen d)); [|lia].
    by rewrite past_end_in in * by lia. }
  unfold ParseLength. destruct (past_end d off) eqn:E1.
  { apply length_fail. intros (H0 & b & Eb & _). apply rd_Ok in Eb as [].
    specialize (Hpt off H0 E1). lia. }
  apply Hpe in E1; [|lia].
  destruct (rd_in d off) as [b Eb]; [lia|]. rewrite Eb, bind_Ok.
  pose proof (u8_range b) as Hb. rewrite land_0x80 by done.
  assert (forall P, ~ P -> (0x85 <= u8 b <= 0x88 ->
    off + (u8 b - 0x80) < zlen d -> P) -> ~ bad_length d off) as Hbad.
  { intros P HP H (_ & b' & Eb' & H1 & H2). rewrite Eb in Eb'.
    injection Eb' as <-. eauto. }
  destruct (Z.ltb_spec (u8 b) 128).
  { apply length_ok; [apply (Hbad False); [tauto|lia]| |unfold in_uint; lia].
    rewrite swrap_small by (unfold in_sint; lia). lia. }
  change ASN_LONG_LEN with 128. change sizeof_long with 8.
  cbv zeta. destruct (Z.eqb_spec (u8 b - 128) 0).
  { apply length_fail, (Hbad False); [tauto|lia]. }
  rewrite Z.gtb_ltb. destruct (Z.ltb_spec 8 (u8 b - 128)).
  { apply length_fail, (Hbad False); [tauto|lia]. }
  destruct (past_end d (off + (u8 b - 128))) eqn:E2.
  { apply Hpt in E2; [|lia]. apply length_fail, (Hbad False); [tauto|lia]. }
  apply Hpe in E2; [|lia].
  destruct (Z.leb_spec (u8 b - 128) 4).
  - destruct (length_bytes_in d off (Z.to_nat (u8 b - 128)) 0 0) as (len & -> & Hlen);
      [lia..|unfold in_uint; lia|].
    rewrite bind_Ok. apply length_ok; [apply (Hbad False); [tauto|lia]| |done].
    rewrite swrap_small by (unfold in_sint; lia). lia.
  - rewrite length_bytes_UB by lia. rewrite bind_UB.
    apply length_bad. split; [lia|]. exists b. split; [done|lia].
Qed.

(** ** Properties *)

(** C35.  The integer codec: decoding what [BuildInt] appended, anywhere in a
    buffer that an [int16_t] offset can address, succeeds, leaves the offset
    behind the encoding and the type that was written, and yields the encoded
    integer itself, except for the negative integers of less than 24 bits,
    which come back shifted by [2 ^ 23]. *)
Theorem ParseInt_BuildInt pre t n post t0 n0 :
  0 <= t < 256 -> in_sint 32 n -> zlen (BuildInt pre t n) <= 32767 ->
  ParseInt (BuildInt pre t n ++ post) (zlen pre) t0 n0 =
  Ok (true, zlen (BuildInt pre t n), t,
      if (- 2 ^ 23 <=? n) && (n <? 0) then n + 2 ^ 23 else n).
Proof.
  intros Ht Hn. rewrite BuildInt_spec by done. intros Hlen.
  rewrite <- app_assoc. by apply ParseInt_encoded.
Qed.

Lemma ParseInt_BuildInt_witness :
  ParseInt (BuildInt (lit "xy") ASN_INTEGER (-1) ++ lit "z") 2 0 0 =
  Ok (true, 7, 2, 8388607).
Proof.
  apply (ParseInt_BuildInt (lit "xy") ASN_INTEGER (-1) (lit "z") 0 0).
  - unfold ASN_INTEGER. lia.
  - unfold in_sint. lia.
  - vm_compute. discriminate.
Defined.

(** C36.  The string codec: decoding what [BuildString] appended succeeds for
    every string the offset can reach the end of, with the short and both long
    forms of the length, and appends exactly the encoded bytes to the output
    variable. *)
Theorem ParseString_BuildString pre t s post t0 s0 :
  0 <= t < 256 -> zlen (BuildString pre t s) <= 32767 ->
  ParseString (BuildString pre t s ++ post) (zlen pre) t0 s0 =
  Ok (true, zlen (BuildString pre t s), t, s0 ++ s).
Proof.
  intros Ht Hlen.
  assert (zlen s <= 32767) as Hs.
  { unfold BuildString in Hlen. rewrite zlen_app in Hlen.
    pose proof (zlen_nonneg (BuildHeader pre t (wrap 32 (zlen s)))). lia. }
  rewrite BuildString_spec in * by lia.
  rewrite <- app_assoc. by apply ParseString_encoded.
Qed.

Lemma ParseString_BuildString_witness :
  let s := replicate 300 "a"%char in
  ParseString (BuildString (lit "xy") ASN_STR s ++ lit "z") 2 0 (lit "b") =
  Ok (true, 306, 6, lit "b" ++ s).
Proof.
  apply (ParseString_BuildString (lit "xy") ASN_STR (replicate 300 "a"%char)
    (lit "z") 0 (lit "b")).
  - unfold ASN_STR. lia.
  - vm_compute. discriminate.
Defined.

(** Memory safety of the integer reader: on any buffer and any offset,
    [ParseInt] is well defined exactly when the octet after the type does not
    announce a length of five to eight bytes that lie in the buffer; there it
    shifts an [int] by its width. *)
Theorem ParseInt_UB_iff d off t n :
  zlen d <= 32767 -> in_sint 16 off ->
  ParseInt d off t n = UB <-> 0 <= off /\ bad_length d (off + 1).
Proof.
  intros Hd Hoff. unfold in_sint in Hoff. change (2 ^ (16 - 1)) with 32768 in Hoff.
  unfold ParseInt. destruct (past_end d off) eqn:E1.
  { split; [done|]. intros [H0 (_ & b & Eb & _)]. apply rd_Ok in Eb as [].
    by rewrite past_end_in in E1 by lia. }
  apply past_end_false in E1; [|unfold in_sint; lia|lia].
  destruct (rd_in d off) as [c ->]; [lia|].
  rewrite bind_Ok, next_small by lia.
  destruct (ParseLength_outcome d (off + 1) 0) as [Hb|off' len Hb Ho Hl|Hb];
    [done|unfold in_sint; lia|..].
  - rewrite bind_Ok. simpl negb. cbv iota. split; [done|tauto].
  - rewrite bind_Ok. simpl negb. cbv iota.
    assert (forall m : out (bool * Z * Z * Z), m <> UB -> m = UB <-> 0 <= off /\ bad_length d (off + 1))
      as Hnot by tauto.
    destruct ((len =? 0) || (len >? 4)) eqn:E; [by apply Hnot|].
    unfold in_uint in Hl. unfold overflows.
    rewrite Z.gtb_ltb in E. destruct (Z.eqb_spec len 0); [done|].
    destruct (Z.ltb_spec 4 len); [done|].
    rewrite wrap_small by (unfold in_uint; lia). rewrite Z.gtb_ltb.
    destruct (Z.ltb_spec (zlen d) (off' + len)); [by apply Hnot|].
    destruct (rd_in d off') as [b ->]; [lia|]. rewrite bind_Ok.
    destruct (shift_in_in d (Z.to_nat len) off'
      (if Z.land (u8 b) 0x80 =? 0 then 0 else -1)) as [r ->]; [lia..|].
    by apply Hnot.
  - rewrite bind_UB. split; [|done]. intros _. split; [lia|done].
Qed.

Lemma ParseInt_UB_iff_witness :
  ParseInt (map chr [2; 0x85; 0; 0; 0; 0; 1; 7]) 0 0 0 = UB.
Proof.
  apply (ParseInt_UB_iff (map chr [2; 0x85; 0; 0; 0; 0; 1; 7]) 0 0 0).
  - vm_compute. discriminate.
  - unfold in_sint. lia.
  - split; [lia|]. split; [lia|]. exists (chr 0x85). split; [reflexivity|].
    vm_compute. split; [split; discriminate|reflexivity].
Defined.

(** C37.  Memory safety of the string reader: besides the bad length octets, it
    reads past the end of its buffer exactly when the 32-bit sum of offset and
    announced length wraps to a value the overflow test accepts. *)
Theorem ParseString_UB_iff d off t s :
  zlen d <= 32767 -> in_sint 16 off ->
  ParseString d off t s = UB <->
  0 <= off /\
  (bad_length d (off + 1) \/
   off < zlen d /\
   exists off' len, ParseLength d (off + 1) 0 = Ok (true, off', len) /\
     zlen d < off' + len /\ wrap 32 (off' + len) <= zlen d).
Proof.
  intros Hd Hoff. unfold in_sint in Hoff. change (2 ^ (16 - 1)) with 32768 in Hoff.
  unfold ParseString. destruct (past_end d off) eqn:E1.
  { split; [done|]. intros [H0 [(_ & b & Eb & _)|[H1 _]]].
    - apply rd_Ok in Eb as []. by rewrite past_end_in in E1 by lia.
    - by rewrite past_end_in in E1 by lia. }
  apply past_end_false in E1; [|unfold in_sint; lia|lia].
  destruct (rd_in d off) as [c ->]; [lia|].
  rewrite bind_Ok, next_small by lia.
  destruct (ParseLength_outcome d (off + 1) 0) as [Hb|off' len Hb Ho Hl|Hb];
    [done|unfold in_sint; lia|..].
  - rewrite bind_Ok. simpl negb. cbv iota.
    split; [done|]. intros [_ [?|(_ & o & l & [=] & _)]]; tauto.
  - rewrite bind_Ok. simpl negb. cbv iota. unfold overflows. rewrite Z.gtb_ltb.
    unfold in_uint in Hl.
    destruct (Z.ltb_spec (zlen d) (wrap 32 (off' + len))) as [Hw|Hw].
    { split; [done|]. intros [_ [?|(_ & o & l & [= <- <-] & ? & ?)]]; [tauto|lia]. }
    destruct (Z.ltb_spec (zlen d) (off' + len)) as [Hp|Hp].
    + rewrite append_bytes_UB by lia. rewrite bind_UB. split; [|done]. intros _.
      split; [lia|]. right. split; [lia|]. by exists off', len.
    + destruct (append_bytes_in d (Z.to_nat len) off' s) as [s' ->]; [lia..|].
      split; [done|]. intros [_ [?|(_ & o & l & [= <- <-] & ? & ?)]]; [tauto|lia].
  - rewrite bind_UB. split; [|done]. intros _. split; [lia|by left].
Qed.

Lemma ParseString_UB_iff_witness :
  ParseString (map chr [6; 0x84; 0xFF; 0xFF; 0xFF; 0xFF]) 0 0 [] = UB.
Proof.
  apply (ParseString_UB_iff (map chr [6; 0x84; 0xFF; 0xFF; 0xFF; 0xFF]) 0 0 []).
  - vm_compute. discriminate.
  - unfold in_sint. lia.
  - split; [lia|]. right. split; [vm_compute; reflexivity|].
    exists 6, 4294967295. split; [vm_compute; reflexivity|].
    split; [vm_compute; reflexivity|vm_compute; discriminate].
Defined.

Lemma scan_byte_sprintf c :
  match sprintf_02X (u8 c) with [a; b] => scan_byte a b = c | _ => False end.
Proof. destruct c as [[] [] [] [] [] [] [] []]; reflexivity. Qed.

Lemma Byte2Ascii_app d s : Byte2Ascii d s = s ++ Byte2Ascii d [].
Proof.
  revert s. induction d as [|b d IH]; intros s; cbn [Byte2Ascii].
  - by rewrite app_nil_r.
  - rewrite IH, (IH ([] ++ _)). by rewrite <- app_assoc.
Qed.

Lemma Ascii2Byte_Byte2Ascii d acc : Ascii2Byte acc (Byte2Ascii d []) = acc ++ d.
Proof.
  revert acc. induction d as [|b d IH]; intros acc; cbn [Byte2Ascii].
  - by rewrite app_nil_r.
  - rewrite Byte2Ascii_app, app_nil_l. pose proof (scan_byte_sprintf b) as Hb.
    destruct (sprintf_02X (u8 b)) as [|x [|y [|]]]; try done.
    cbn [app Ascii2Byte]. rewrite IH, Hb, <- app_assoc. done.
Qed.

(**  The hexadecimal transport form loses nothing: reading back what
    [Byte2Ascii] wrote after a text restores every byte of the buffer. *)
Theorem Ascii2Byte_roundtrip d : Ascii2Byte [] (Byte2Ascii d []) = d.
Proof. apply Ascii2Byte_Byte2Ascii. Qed.
