(* ===== verification/Nmea.v ===== *)
(** * NMEA sentences

    [CalcNmeaCheckSum] and [FormatNmeaCheckSum]
    ([libs/gatehouse/pghputils.cpp]) and the class [TclNMEAMessage]
    ([libs/gatehouse/pghpnmeamsg.h], [pghpnmeamsg.cpp]): the sentence types,
    the field scanners, the checksum test and the segmentation of a payload.

    The scanners read a [const char] array through an [int] index: index
    [iLen] of a [c_str()] is its terminating NUL, anything beyond is [UB].
    Their reference parameters are threaded through, after the boolean result
    where the function can return both values.  [Encode] calls the virtual
    [EncodePart], here an argument. *)

From S2P Require Import Prelude CppString.

(** ** Sentence types *)

Inductive AISNMEAType :=
  | AISNMEATYPE_PGHP1 | AISNMEATYPE_PGHP2 | AISNMEATYPE_PGHP3
  | AISNMEATYPE_PGHP4 | AISNMEATYPE_PGHP5 | AISNMEATYPE_PGHP6
  | AISNMEATYPE_PGHP7 | AISNMEATYPE_PGHP8 | AISNMEATYPE_PGHP9
  | AISNMEATYPE_PGHP10 | AISNMEATYPE_PGHP11 | AISNMEATYPE_PGHP12
  | AISNMEATYPE_PGHP13 | AISNMEATYPE_PGHP14 | AISNMEATYPE_PGHP15
  | AISNMEATYPE_PGHP16 | AISNMEATYPE_PGHP17 | AISNMEATYPE_PGHP18
  | AISNMEATYPE_PGHP19 | AISNMEATYPE_PGHP20 | AISNMEATYPE_PGHP21
  | AISNMEATYPE_PGHP22 | AISNMEATYPE_PGHP23 | AISNMEATYPE_PGHP24
  | AISNMEATYPE_PGHP25 | AISNMEATYPE_PGHP26 | AISNMEATYPE_PGHP27
  | AISNMEATYPE_PGHP28 | AISNMEATYPE_PGHP29 | AISNMEATYPE_PGHP30
  | AISNMEATYPE_PGHP31 | AISNMEATYPE_PGHP32 | AISNMEATYPE_PGHP33
  | AISNMEATYPE_PGHP34 | AISNMEATYPE_PGHP35 | AISNMEATYPE_PGHP36
  | AISNMEATYPE_PGHP37 | AISNMEATYPE_PGHP38 | AISNMEATYPE_PGHP39
  | AISNMEATYPE_PGHP40 | AISNMEATYPE_PGHP41 | AISNMEATYPE_PGHP42
  | AISNMEATYPE_PGHP43 | AISNMEATYPE_PGHP44 | AISNMEATYPE_PGHP45
  | AISNMEATYPE_PGHP46 | AISNMEATYPE_PGHP47 | AISNMEATYPE_PGHP48
  | AISNMEATYPE_PGHP49 | AISNMEATYPE_PGHP50 | AISNMEATYPE_PGHP51
  | AISNMEATYPE_UNDEFINED | AISNMEATYPE_VDM | AISNMEATYPE_VDO
  | AISNMEATYPE_ABM | AISNMEATYPE_BBM | AISNMEATYPE_ALR | AISNMEATYPE_AIR
  | AISNMEATYPE_UNKNOWN | AISNMEATYPE_TEXT | AISNMEATYPE_VDO_DESEGMENTED
  | AISNMEATYPE_VDM_DESEGMENTED | AISNMEATYPE_ABM_DESEGMENTED
  | AISNMEATYPE_BBM_DESEGMENTED | AISNMEATYPE_PGHP2_DESEGMENTED
  | AISNMEATYPE_PGHP20_DESEGMENTED | AISNMEATYPE_PGHP21_DESEGMENTED
  | AISNMEATYPE_PGHP36_DESEGMENTED | AISNMEATYPE_PGHP48_DESEGMENTED
  | AISNMEATYPE_PGHP20_COMBINED | AISNMEATYPE_PGHP21_COMBINED
  | AISNMEATYPE_PGHP22_COMBINED | AISNMEATYPE_PGHP30_COMBINED
  | AISNMEATYPE_PGHP33_COMBINED | AISNMEATYPE_CAB | AISNMEATYPE_CBM
  | AISNMEATYPE_BCF | AISNMEATYPE_DLM | AISNMEATYPE_QUERY | AISNMEATYPE_ABK
  | AISNMEATYPE_WRONGFORMAT | AISNMEATYPE_SCANTER_TRACK
  | AISNMEATYPE_SCANTER_TRACK_CREATE | AISNMEATYPE_XML
  | AISNMEATYPE_XML_USER_CMD | AISNMEATYPE_GPG_GGA | AISNMEATYPE_GPG_GSA
  | AISNMEATYPE_GPG_GSV | AISNMEATYPE_GPG_GSV_DESEGMENTED
  | AISNMEATYPE_GPG_RMC | AISNMEATYPE_GPG_VTG | AISNMEATYPE_PORB
  | AISNMEATYPE_VSI | AISNMEATYPE_TLB | AISNMEATYPE_TLL | AISNMEATYPE_TTM
  | AISNMEATYPE_RSD | AISNMEATYPE_OSD | AISNMEATYPE_COMMENT_BLOCK
  | AISNMEATYPE_ECB | AISNMEATYPE_VER | AISNMEATYPE_PSHI.

(** The enumerators in order. *)
Definition AISNMEATypes : list AISNMEAType :=
  [
    AISNMEATYPE_PGHP1; AISNMEATYPE_PGHP2; AISNMEATYPE_PGHP3;
    AISNMEATYPE_PGHP4; AISNMEATYPE_PGHP5; AISNMEATYPE_PGHP6;
    AISNMEATYPE_PGHP7; AISNMEATYPE_PGHP8; AISNMEATYPE_PGHP9;
    AISNMEATYPE_PGHP10; AISNMEATYPE_PGHP11; AISNMEATYPE_PGHP12;
    AISNMEATYPE_PGHP13; AISNMEATYPE_PGHP14; AISNMEATYPE_PGHP15;
    AISNMEATYPE_PGHP16; AISNMEATYPE_PGHP17; AISNMEATYPE_PGHP18;
    AISNMEATYPE_PGHP19; AISNMEATYPE_PGHP20; AISNMEATYPE_PGHP21;
    AISNMEATYPE_PGHP22; AISNMEATYPE_PGHP23; AISNMEATYPE_PGHP24;
    AISNMEATYPE_PGHP25; AISNMEATYPE_PGHP26; AISNMEATYPE_PGHP27;
    AISNMEATYPE_PGHP28; AISNMEATYPE_PGHP29; AISNMEATYPE_PGHP30;
    AISNMEATYPE_PGHP31; AISNMEATYPE_PGHP32; AISNMEATYPE_PGHP33;
    AISNMEATYPE_PGHP34; AISNMEATYPE_PGHP35; AISNMEATYPE_PGHP36;
    AISNMEATYPE_PGHP37; AISNMEATYPE_PGHP38; AISNMEATYPE_PGHP39;
    AISNMEATYPE_PGHP40; AISNMEATYPE_PGHP41; AISNMEATYPE_PGHP42;
    AISNMEATYPE_PGHP43; AISNMEATYPE_PGHP44; AISNMEATYPE_PGHP45;
    AISNMEATYPE_PGHP46; AISNMEATYPE_PGHP47; AISNMEATYPE_PGHP48;
    AISNMEATYPE_PGHP49; AISNMEATYPE_PGHP50; AISNMEATYPE_PGHP51;
    AISNMEATYPE_UNDEFINED; AISNMEATYPE_VDM; AISNMEATYPE_VDO; AISNMEATYPE_ABM;
    AISNMEATYPE_BBM; AISNMEATYPE_ALR; AISNMEATYPE_AIR; AISNMEATYPE_UNKNOWN;
    AISNMEATYPE_TEXT; AISNMEATYPE_VDO_DESEGMENTED;
    AISNMEATYPE_VDM_DESEGMENTED; AISNMEATYPE_ABM_DESEGMENTED;
    AISNMEATYPE_BBM_DESEGMENTED; AISNMEATYPE_PGHP2_DESEGMENTED;
    AISNMEATYPE_PGHP20_DESEGMENTED; AISNMEATYPE_PGHP21_DESEGMENTED;
    AISNMEATYPE_PGHP36_DESEGMENTED; AISNMEATYPE_PGHP48_DESEGMENTED;
    AISNMEATYPE_PGHP20_COMBINED; AISNMEATYPE_PGHP21_COMBINED;
    AISNMEATYPE_PGHP22_COMBINED; AISNMEATYPE_PGHP30_COMBINED;
    AISNMEATYPE_PGHP33_COMBINED; AISNMEATYPE_CAB; AISNMEATYPE_CBM;
    AISNMEATYPE_BCF; AISNMEATYPE_DLM; AISNMEATYPE_QUERY; AISNMEATYPE_ABK;
    AISNMEATYPE_WRONGFORMAT; AISNMEATYPE_SCANTER_TRACK;
    AISNMEATYPE_SCANTER_TRACK_CREATE; AISNMEATYPE_XML;
    AISNMEATYPE_XML_USER_CMD; AISNMEATYPE_GPG_GGA; AISNMEATYPE_GPG_GSA;
    AISNMEATYPE_GPG_GSV; AISNMEATYPE_GPG_GSV_DESEGMENTED;
    AISNMEATYPE_GPG_RMC; AISNMEATYPE_GPG_VTG; AISNMEATYPE_PORB;
    AISNMEATYPE_VSI; AISNMEATYPE_TLB; AISNMEATYPE_TLL; AISNMEATYPE_TTM;
    AISNMEATYPE_RSD; AISNMEATYPE_OSD; AISNMEATYPE_COMMENT_BLOCK;
    AISNMEATYPE_ECB; AISNMEATYPE_VER; AISNMEATYPE_PSHI ].

(** An enumerator is the [int] of its position. *)
Definition AISNMEAType_value (t : AISNMEAType) : Z :=
  match t with
  | AISNMEATYPE_PGHP1 => 0 | AISNMEATYPE_PGHP2 => 1 | AISNMEATYPE_PGHP3 => 2
  | AISNMEATYPE_PGHP4 => 3 | AISNMEATYPE_PGHP5 => 4 | AISNMEATYPE_PGHP6 => 5
  | AISNMEATYPE_PGHP7 => 6 | AISNMEATYPE_PGHP8 => 7 | AISNMEATYPE_PGHP9 => 8
  | AISNMEATYPE_PGHP10 => 9 | AISNMEATYPE_PGHP11 => 10
  | AISNMEATYPE_PGHP12 => 11 | AISNMEATYPE_PGHP13 => 12
  | AISNMEATYPE_PGHP14 => 13 | AISNMEATYPE_PGHP15 => 14
  | AISNMEATYPE_PGHP16 => 15 | AISNMEATYPE_PGHP17 => 16
  | AISNMEATYPE_PGHP18 => 17 | AISNMEATYPE_PGHP19 => 18
  | AISNMEATYPE_PGHP20 => 19 | AISNMEATYPE_PGHP21 => 20
  | AISNMEATYPE_PGHP22 => 21 | AISNMEATYPE_PGHP23 => 22
  | AISNMEATYPE_PGHP24 => 23 | AISNMEATYPE_PGHP25 => 24
  | AISNMEATYPE_PGHP26 => 25 | AISNMEATYPE_PGHP27 => 26
  | AISNMEATYPE_PGHP28 => 27 | AISNMEATYPE_PGHP29 => 28
  | AISNMEATYPE_PGHP30 => 29 | AISNMEATYPE_PGHP31 => 30
  | AISNMEATYPE_PGHP32 => 31 | AISNMEATYPE_PGHP33 => 32
  | AISNMEATYPE_PGHP34 => 33 | AISNMEATYPE_PGHP35 => 34
  | AISNMEATYPE_PGHP36 => 35 | AISNMEATYPE_PGHP37 => 36
  | AISNMEATYPE_PGHP38 => 37 | AISNMEATYPE_PGHP39 => 38
  | AISNMEATYPE_PGHP40 => 39 | AISNMEATYPE_PGHP41 => 40
  | AISNMEATYPE_PGHP42 => 41 | AISNMEATYPE_PGHP43 => 42
  | AISNMEATYPE_PGHP44 => 43 | AISNMEATYPE_PGHP45 => 44
  | AISNMEATYPE_PGHP46 => 45 | AISNMEATYPE_PGHP47 => 46
  | AISNMEATYPE_PGHP48 => 47 | AISNMEATYPE_PGHP49 => 48
  | AISNMEATYPE_PGHP50 => 49 | AISNMEATYPE_PGHP51 => 50
  | AISNMEATYPE_UNDEFINED => 51 | AISNMEATYPE_VDM => 52
  | AISNMEATYPE_VDO => 53 | AISNMEATYPE_ABM => 54 | AISNMEATYPE_BBM => 55
  | AISNMEATYPE_ALR => 56 | AISNMEATYPE_AIR => 57 | AISNMEATYPE_UNKNOWN => 58
  | AISNMEATYPE_TEXT => 59 | AISNMEATYPE_VDO_DESEGMENTED => 60
  | AISNMEATYPE_VDM_DESEGMENTED => 61 | AISNMEATYPE_ABM_DESEGMENTED => 62
  | AISNMEATYPE_BBM_DESEGMENTED => 63 | AISNMEATYPE_PGHP2_DESEGMENTED => 64
  | AISNMEATYPE_PGHP20_DESEGMENTED => 65
  | AISNMEATYPE_PGHP21_DESEGMENTED => 66
  | AISNMEATYPE_PGHP36_DESEGMENTED => 67
  | AISNMEATYPE_PGHP48_DESEGMENTED => 68 | AISNMEATYPE_PGHP20_COMBINED => 69
  | AISNMEATYPE_PGHP21_COMBINED => 70 | AISNMEATYPE_PGHP22_COMBINED => 71
  | AISNMEATYPE_PGHP30_COMBINED => 72 | AISNMEATYPE_PGHP33_COMBINED => 73
  | AISNMEATYPE_CAB => 74 | AISNMEATYPE_CBM => 75 | AISNMEATYPE_BCF => 76
  | AISNMEATYPE_DLM => 77 | AISNMEATYPE_QUERY => 78 | AISNMEATYPE_ABK => 79
  | AISNMEATYPE_WRONGFORMAT => 80 | AISNMEATYPE_SCANTER_TRACK => 81
  | AISNMEATYPE_SCANTER_TRACK_CREATE => 82 | AISNMEATYPE_XML => 83
  | AISNMEATYPE_XML_USER_CMD => 84 | AISNMEATYPE_GPG_GGA => 85
  | AISNMEATYPE_GPG_GSA => 86 | AISNMEATYPE_GPG_GSV => 87
  | AISNMEATYPE_GPG_GSV_DESEGMENTED => 88 | AISNMEATYPE_GPG_RMC => 89
  | AISNMEATYPE_GPG_VTG => 90 | AISNMEATYPE_PORB => 91
  | AISNMEATYPE_VSI => 92 | AISNMEATYPE_TLB => 93 | AISNMEATYPE_TLL => 94
  | AISNMEATYPE_TTM => 95 | AISNMEATYPE_RSD => 96 | AISNMEATYPE_OSD => 97
  | AISNMEATYPE_COMMENT_BLOCK => 98 | AISNMEATYPE_ECB => 99
  | AISNMEATYPE_VER => 100 | AISNMEATYPE_PSHI => 101
  end.

(** The array of names ([ENUM_TO_STR_ARRAY]). *)
Definition apchAISNMEAType : list (list ascii) :=
  lit <$>
  [
    "AISNMEATYPE_PGHP1"; "AISNMEATYPE_PGHP2"; "AISNMEATYPE_PGHP3";
    "AISNMEATYPE_PGHP4"; "AISNMEATYPE_PGHP5"; "AISNMEATYPE_PGHP6";
    "AISNMEATYPE_PGHP7"; "AISNMEATYPE_PGHP8"; "AISNMEATYPE_PGHP9";
    "AISNMEATYPE_PGHP10"; "AISNMEATYPE_PGHP11"; "AISNMEATYPE_PGHP12";
    "AISNMEATYPE_PGHP13"; "AISNMEATYPE_PGHP14"; "AISNMEATYPE_PGHP15";
    "AISNMEATYPE_PGHP16"; "AISNMEATYPE_PGHP17"; "AISNMEATYPE_PGHP18";
    "AISNMEATYPE_PGHP19"; "AISNMEATYPE_PGHP20"; "AISNMEATYPE_PGHP21";
    "AISNMEATYPE_PGHP22"; "AISNMEATYPE_PGHP23"; "AISNMEATYPE_PGHP24";
    "AISNMEATYPE_PGHP25"; "AISNMEATYPE_PGHP26"; "AISNMEATYPE_PGHP27";
    "AISNMEATYPE_PGHP28"; "AISNMEATYPE_PGHP29"; "AISNMEATYPE_PGHP30";
    "AISNMEATYPE_PGHP31"; "AISNMEATYPE_PGHP32"; "AISNMEATYPE_PGHP33";
    "AISNMEATYPE_PGHP34"; "AISNMEATYPE_PGHP35"; "AISNMEATYPE_PGHP36";
    "AISNMEATYPE_PGHP37"; "AISNMEATYPE_PGHP38"; "AISNMEATYPE_PGHP39";
    "AISNMEATYPE_PGHP40"; "AISNMEATYPE_PGHP41"; "AISNMEATYPE_PGHP42";
    "AISNMEATYPE_PGHP43"; "AISNMEATYPE_PGHP44"; "AISNMEATYPE_PGHP45";
    "AISNMEATYPE_PGHP46"; "AISNMEATYPE_PGHP47"; "AISNMEATYPE_PGHP48";
    "AISNMEATYPE_PGHP49"; "AISNMEATYPE_PGHP50"; "AISNMEATYPE_PGHP51";
    "AISNMEATYPE_UNDEFINED"; "AISNMEATYPE_VDM"; "AISNMEATYPE_VDO";
    "AISNMEATYPE_ABM"; "AISNMEATYPE_BBM"; "AISNMEATYPE_ALR";
    "AISNMEATYPE_AIR"; "AISNMEATYPE_UNKNOWN"; "AISNMEATYPE_TEXT";
    "AISNMEATYPE_VDO_DESEGMENTED"; "AISNMEATYPE_VDM_DESEGMENTED";
    "AISNMEATYPE_ABM_DESEGMENTED"; "AISNMEATYPE_BBM_DESEGMENTED";
    "AISNMEATYPE_PGHP2_DESEGMENTED"; "AISNMEATYPE_PGHP20_DESEGMENTED";
    "AISNMEATYPE_PGHP21_DESEGMENTED"; "AISNMEATYPE_PGHP36_DESEGMENTED";
    "AISNMEATYPE_PGHP48_DESEGMENTED"; "AISNMEATYPE_PGHP20_COMBINED";
    "AISNMEATYPE_PGHP21_COMBINED"; "AISNMEATYPE_PGHP22_COMBINED";
    "AISNMEATYPE_PGHP30_COMBINED"; "AISNMEATYPE_PGHP33_COMBINED";
    "AISNMEATYPE_CAB"; "AISNMEATYPE_CBM"; "AISNMEATYPE_BCF";
    "AISNMEATYPE_DLM"; "AISNMEATYPE_QUERY"; "AISNMEATYPE_ABK";
    "AISNMEATYPE_WRONGFORMAT"; "AISNMEATYPE_SCANTER_TRACK";
    "AISNMEATYPE_SCANTER_TRACK_CREATE"; "AISNMEATYPE_XML";
    "AISNMEATYPE_XML_USER_CMD"; "AISNMEATYPE_GPG_GGA"; "AISNMEATYPE_GPG_GSA";
    "AISNMEATYPE_GPG_GSV"; "AISNMEATYPE_GPG_GSV_DESEGMENTED";
    "AISNMEATYPE_GPG_RMC"; "AISNMEATYPE_GPG_VTG"; "AISNMEATYPE_PORB";
    "AISNMEATYPE_VSI"; "AISNMEATYPE_TLB"; "AISNMEATYPE_TLL";
    "AISNMEATYPE_TTM"; "AISNMEATYPE_RSD"; "AISNMEATYPE_OSD";
    "AISNMEATYPE_COMMENT_BLOCK"; "AISNMEATYPE_ECB"; "AISNMEATYPE_VER";
    "AISNMEATYPE_PSHI" ]%string.

Definition ENUM_AISNMEAType_MAX : Z := zlen AISNMEATypes.

(** [STR_FROM_ENUM]: the variable may hold any value of the underlying type. *)
Definition GetAISNMEATypeAsString (value : Z) : out (list ascii) :=
  if value <? ENUM_AISNMEAType_MAX then rd apchAISNMEAType value
  else Ok (lit "STR_FROM_ENUM error unknown value").

(** ** Checksum *)

(** The loop of [CalcNmeaCheckSum]; [fuel] is the number of turns left before
    [i] reaches [size]. *)
Fixpoint checksum_loop (fuel : nat) (s : list ascii) (i sum : Z) : out Z :=
  match fuel with
  | O => Ok sum
  | S fuel' =>
      c ← rdz s i;
      if Ascii.eqb c "*" then Ok sum
      else checksum_loop fuel' s (i + 1) (Z.lxor sum (u8 c))
  end.

Definition CalcNmeaCheckSum (s : list ascii) (size : Z) : out Z :=
  let size := if size <? 0 then swrap 32 (zlen s) else size in
  c ← rdz s 0;
  let offset := if Ascii.eqb c "!" || Ascii.eqb c "$" then 1 else 0 in
  checksum_loop (Z.to_nat (size - offset)) s offset 0.

Definition FormatNmeaCheckSum (checksum : Z) : list ascii := sprintf_02X checksum.

(** ** The message *)

Record TclNMEAMessage := {
  m_iTotalNumberOfMessages : Z;
  m_iSentenceNumber : Z;
  m_iSequentialMessageIdentifier : Z;
  m_aszPayload : list ascii;
  m_clReceivedMessage : list ascii;
  m_fReceivedMessageModified : bool;
  m_iMaxContent : Z;
  m_iCheckSum : Z;
  m_enSentenceType : Z;
  m_fSeqMesIdIsNull : bool;
  m_fHasError : bool }.

(** The constructor. *)
Definition new_NMEAMessage (enSentenceType : Z) : TclNMEAMessage := {|
  m_iTotalNumberOfMessages := 1;
  m_iSentenceNumber := 1;
  m_iSequentialMessageIdentifier := -1;
  m_aszPayload := [];
  m_clReceivedMessage := [];
  m_fReceivedMessageModified := false;
  m_iMaxContent := 0;
  m_iCheckSum := 0;
  m_enSentenceType := enSentenceType;
  m_fSeqMesIdIsNull := false;
  m_fHasError := false |}.

(** Assignments to the members. *)
Definition set_total (v : Z) (m : TclNMEAMessage) : TclNMEAMessage :=
  {| m_iTotalNumberOfMessages := v;
     m_iSentenceNumber := m_iSentenceNumber m;
     m_iSequentialMessageIdentifier := m_iSequentialMessageIdentifier m;
     m_aszPayload := m_aszPayload m;
     m_clReceivedMessage := m_clReceivedMessage m;
     m_fReceivedMessageModified := m_fReceivedMessageModified m;
     m_iMaxContent := m_iMaxContent m;
     m_iCheckSum := m_iCheckSum m;
     m_enSentenceType := m_enSentenceType m;
     m_fSeqMesIdIsNull := m_fSeqMesIdIsNull m;
     m_fHasError := m_fHasError m |}.

Definition set_number (v : Z) (m : TclNMEAMessage) : TclNMEAMessage :=
  {| m_iTotalNumberOfMessages := m_iTotalNumberOfMessages m;
     m_iSentenceNumber := v;
     m_iSequentialMessageIdentifier := m_iSequentialMessageIdentifier m;
     m_aszPayload := m_aszPayload m;
     m_clReceivedMessage := m_clReceivedMessage m;
     m_fReceivedMessageModified := m_fReceivedMessageModified m;
     m_iMaxContent := m_iMaxContent m;
     m_iCheckSum := m_iCheckSum m;
     m_enSentenceType := m_enSentenceType m;
     m_fSeqMesIdIsNull := m_fSeqMesIdIsNull m;
     m_fHasError := m_fHasError m |}.

Definition set_identifier (v : Z) (m : TclNMEAMessage) : TclNMEAMessage :=
  {| m_iTotalNumberOfMessages := m_iTotalNumberOfMessages m;
     m_iSentenceNumber := m_iSentenceNumber m;
     m_iSequentialMessageIdentifier := v;
     m_aszPayload := m_aszPayload m;
     m_clReceivedMessage := m_clReceivedMessage m;
     m_fReceivedMessageModified := m_fReceivedMessageModified m;
     m_iMaxContent := m_iMaxContent m;
     m_iCheckSum := m_iCheckSum m;
     m_enSentenceType := m_enSentenceType m;
     m_fSeqMesIdIsNull := m_fSeqMesIdIsNull m;
     m_fHasError := m_fHasError m |}.

Definition set_payload (v : list ascii) (m : TclNMEAMessage) : TclNMEAMessage :=
  {| m_iTotalNumberOfMessages := m_iTotalNumberOfMessages m;
     m_iSentenceNumber := m_iSentenceNumber m;
     m_iSequentialMessageIdentifier := m_iSequentialMessageIdentifier m;
     m_aszPayload := v;
     m_clReceivedMessage := m_clReceivedMessage m;
     m_fReceivedMessageModified := m_fReceivedMessageModified m;
     m_iMaxContent := m_iMaxContent m;
     m_iCheckSum := m_iCheckSum m;
     m_enSentenceType := m_enSentenceType m;
     m_fSeqMesIdIsNull := m_fSeqMesIdIsNull m;
     m_fHasError := m_fHasError m |}.

Definition set_received (v : list ascii) (m : TclNMEAMessage) : TclNMEAMessage :=
  {| m_iTotalNumberOfMessages := m_iTotalNumberOfMessages m;
     m_iSentenceNumber := m_iSentenceNumber m;
     m_iSequentialMessageIdentifier := m_iSequentialMessageIdentifier m;
     m_aszPayload := m_aszPayload m;
     m_clReceivedMessage := v;
     m_fReceivedMessageModified := m_fReceivedMessageModified m;
     m_iMaxContent := m_iMaxContent m;
     m_iCheckSum := m_iCheckSum m;
     m_enSentenceType := m_enSentenceType m;
     m_fSeqMesIdIsNull := m_fSeqMesIdIsNull m;
     m_fHasError := m_fHasError m |}.

Definition SetReceivedMessageModified (v : bool) (m : TclNMEAMessage) : TclNMEAMessage :=
  {| m_iTotalNumberOfMessages := m_iTotalNumberOfMessages m;
     m_iSentenceNumber := m_iSentenceNumber m;
     m_iSequentialMessageIdentifier := m_iSequentialMessageIdentifier m;
     m_aszPayload := m_aszPayload m;
     m_clReceivedMessage := m_clReceivedMessage m;
     m_fReceivedMessageModified := v;
     m_iMaxContent := m_iMaxContent m;
     m_iCheckSum := m_iCheckSum m;
     m_enSentenceType := m_enSentenceType m;
     m_fSeqMesIdIsNull := m_fSeqMesIdIsNull m;
     m_fHasError := m_fHasError m |}.

Definition set_checksum (v : Z) (m : TclNMEAMessage) : TclNMEAMessage :=
  {| m_iTotalNumberOfMessages := m_iTotalNumberOfMessages m;
     m_iSentenceNumber := m_iSentenceNumber m;
     m_iSequentialMessageIdentifier := m_iSequentialMessageIdentifier m;
     m_aszPayload := m_aszPayload m;
     m_clReceivedMessage := m_clReceivedMessage m;
     m_fReceivedMessageModified := m_fReceivedMessageModified m;
     m_iMaxContent := m_iMaxContent m;
     m_iCheckSum := v;
     m_enSentenceType := m_enSentenceType m;
     m_fSeqMesIdIsNull := m_fSeqMesIdIsNull m;
     m_fHasError := m_fHasError m |}.

Definition set_type (v : Z) (m : TclNMEAMessage) : TclNMEAMessage :=
  {| m_iTotalNumberOfMessages := m_iTotalNumberOfMessages m;
     m_iSentenceNumber := m_iSentenceNumber m;
     m_iSequentialMessageIdentifier := m_iSequentialMessageIdentifier m;
     m_aszPayload := m_aszPayload m;
     m_clReceivedMessage := m_clReceivedMessage m;
     m_fReceivedMessageModified := m_fReceivedMessageModified m;
     m_iMaxContent := m_iMaxContent m;
     m_iCheckSum := m_iCheckSum m;
     m_enSentenceType := v;
     m_fSeqMesIdIsNull := m_fSeqMesIdIsNull m;
     m_fHasError := m_fHasError m |}.

Definition SetHasError (v : bool) (m : TclNMEAMessage) : TclNMEAMessage :=
  {| m_iTotalNumberOfMessages := m_iTotalNumberOfMessages m;
     m_iSentenceNumber := m_iSentenceNumber m;
     m_iSequentialMessageIdentifier := m_iSequentialMessageIdentifier m;
     m_aszPayload := m_aszPayload m;
     m_clReceivedMessage := m_clReceivedMessage m;
     m_fReceivedMessageModified := m_fReceivedMessageModified m;
     m_iMaxContent := m_iMaxContent m;
     m_iCheckSum := m_iCheckSum m;
     m_enSentenceType := m_enSentenceType m;
     m_fSeqMesIdIsNull := m_fSeqMesIdIsNull m;
     m_fHasError := v |}.

(** [if(_fMarkAsModified) SetReceivedMessageModified(_fMarkAsModified)] *)
Definition mark (fMarkAsModified : bool) (m : TclNMEAMessage) : TclNMEAMessage :=
  if fMarkAsModified then SetReceivedMessageModified true m else m.

Definition SetTotalNumberOfMessages (n : Z) (fMark : bool) (m : TclNMEAMessage) :=
  set_total n (mark fMark m).

Definition SetSentenceNumber (n : Z) (fMark : bool) (m : TclNMEAMessage) :=
  set_number n (mark fMark m).

Definition SetSequentialMessageIdentifier (n : Z) (fMark : bool)
    (m : TclNMEAMessage) := set_identifier n (mark fMark m).

Definition SetPayload (s : list ascii) (fMark : bool) (m : TclNMEAMessage) :=
  set_payload s (mark fMark m).

Definition SetSentenceType (t : Z) (fMark : bool) (m : TclNMEAMessage) :=
  set_type t (mark fMark m).

Definition AppendPayload (s : list ascii) (m : TclNMEAMessage) :=
  set_payload (m_aszPayload m ++ s) m.

(** The two overloads of [SetChecksum]; [sscanf] leaves the old value when it
    finds no digit. *)
Definition SetChecksumString (s : list ascii) (fMark : bool) (m : TclNMEAMessage) :=
  let m := mark fMark m in
  set_checksum (sscanf_X (length (c_str s)) (c_str s) (m_iCheckSum m)) m.

Definition SetChecksum (n : Z) (fMark : bool) (m : TclNMEAMessage) :=
  set_checksum n (mark fMark m).

(** [char buf[5]; sprintf(buf, "%02X", m_iCheckSum)] *)
Definition GetChecksumAsString (m : TclNMEAMessage) : out (list ascii) :=
  let s := sprintf_02X (m_iCheckSum m) in
  if zlen s >? 4 then UB else Ok s.

(** ** Field scanners *)

(** Returns the flag, [iData] and [iStart]. *)
Definition GetSmallInt (iData : Z) (p : list ascii) (iLen iStart : Z)
    : out (bool * Z * Z) :=
  if iStart <? iLen then
    ch ← rdz p iStart;
    if negb (Ascii.eqb ch ",") && negb (Ascii.eqb ch "*") then
      let iData := s8 ch - 48 in
      let iStart := iStart + 1 in
      ch ← rdz p iStart;
      if negb (Ascii.eqb ch ",") && negb (Ascii.eqb ch "*")
      then Ok (false, iData, iStart)
      else Ok (true, iData, iStart + 1)
    else Ok (true, iData, iStart + 1)
  else Ok (false, iData, iStart).

Definition GetChar (iData : ascii) (p : list ascii) (iLen iStart : Z)
    : out (bool * ascii * Z) :=
  if iStart <? iLen then
    ch ← rdz p iStart;
    if negb (Ascii.eqb ch ",") && negb (Ascii.eqb ch "*")
    then Ok (true, ch, iStart + 2)
    else Ok (true, iData, iStart + 1)
  else Ok (false, iData, iStart).

(** The loop the other scanners share: the first index from [i] on, below the
    length, at which [stop] holds; [fuel] is the number of indices left. *)
Fixpoint scan (stop : ascii -> Z -> bool) (fuel : nat) (p : list ascii) (i : Z)
    : out (option Z) :=
  match fuel with
  | O => Ok None
  | S fuel' =>
      ch ← rdz p i;
      if stop ch i then Ok (Some i) else scan stop fuel' p (i + 1)
  end.

Definition scan_field (stop : ascii -> Z -> bool) (p : list ascii) (iLen iStart : Z)
    : out (option Z) :=
  scan stop (Z.to_nat (iLen - iStart)) p iStart.

(** [clStr.assign(&p[iStart], i-iStart)] *)
Definition assign (p : list ascii) (iStart i : Z) : list ascii :=
  take (Z.to_nat (i - iStart)) (drop (Z.to_nat iStart) p).

Definition CR : ascii := "013".
Definition LF : ascii := "010".

(** Returns [clData] and [iStart]; the result of the function is always true,
    here and below. *)
Definition GetString (clData : list ascii) (p : list ascii) (iLen iStart : Z)
    : out (list ascii * Z) :=
  r ← scan_field (fun ch i => Ascii.eqb ch "," || Ascii.eqb ch "*"
                   || Ascii.eqb ch CR || (i =? iLen - 1)) p iLen iStart;
  Ok match r with
     | Some i => (if i - iStart >? 0 then assign p iStart i else [], i + 1)
     | None => (clData, iStart)
     end.

Definition GetInt (iData : Z) (p : list ascii) (iLen iStart : Z) : out (Z * Z) :=
  r ← scan_field (fun ch _ => Ascii.eqb ch "," || Ascii.eqb ch ":"
                   || Ascii.eqb ch "G" || Ascii.eqb ch "*" || Ascii.eqb ch CR)
        p iLen iStart;
  Ok match r with
     | Some i =>
         (if i - iStart >? 0
          then default iData (from_string (assign p iStart i) (Some iData))
          else iData, i + 1)
     | None => (iData, iStart)
     end.

(** The doubles of the standard library are parameters: reading one ([None]
    leaves the variable alone), whether it is 0.0, and its text. *)
Section doubles.
Context {double : Type} (read_double : list ascii -> option double).
Context (is_zero : double -> bool) (show_double : double -> list ascii).

Definition GetDouble (dData : double) (p : list ascii) (iLen iStart : Z) : out (double * Z) :=
  r ← scan_field (fun ch _ => Ascii.eqb ch "," || Ascii.eqb ch "*" || Ascii.eqb ch CR)
        p iLen iStart;
  Ok match r with
     | Some i =>
         (if i - iStart >? 0 then default dData (read_double (assign p iStart i)) else dData, i + 1)
     | None => (dData, iStart)
     end.

Definition GetDoubleAsString (flVal : double) : list ascii :=
  if is_zero flVal then [] else show_double flVal.

End doubles.

Definition GetCheckSumWord (iData : Z) (p : list ascii) (iLen iStart : Z)
    : out (Z * Z) :=
  r ← scan_field (fun ch i => Ascii.eqb ch "," || Ascii.eqb ch "*"
                   || (i - iStart =? 2)) p iLen iStart;
  Ok match r with
     | Some i =>
         (if i - iStart >? 0
          then sscanf_X (length (c_str (assign p iStart i)))
                        (c_str (assign p iStart i)) iData
          else iData, i + 1)
     | None => (iData, iStart)
     end.

(** [EnsureWidth]: the loop prepends the missing characters one by one. *)
Fixpoint fill (missing : nat) (chFill : ascii) (clStr : list ascii) : list ascii :=
  match missing with
  | O => clStr
  | S n => fill n chFill (chFill :: clStr)
  end.

Definition EnsureWidth (chFill : ascii) (clStr : list ascii) (iLen : Z) : list ascii :=
  let size := swrap 32 (zlen clStr) in
  if size <? iLen then fill (Z.to_nat (iLen - size)) chFill clStr else clStr.

(** ** Operations *)

Definition CalcCheckSumAsString (s : list ascii) (size : Z) (m : TclNMEAMessage)
    : out (list ascii * TclNMEAMessage) :=
  sum ← CalcNmeaCheckSum s size;
  Ok (FormatNmeaCheckSum sum, set_checksum sum m).

Definition CalcCheckSum (s : list ascii) (size : Z) (m : TclNMEAMessage)
    : out (Z * TclNMEAMessage) :=
  sum ← CalcNmeaCheckSum s size;
  let m := set_checksum sum m in
  let m := set_checksum 0 m in
  Ok (m_iCheckSum m, m).

Definition VerifyCheckSum (msg : list ascii) (m : TclNMEAMessage)
    : out (bool * TclNMEAMessage) :=
  let i := swrap 32 (sfind msg (lit "*") 0) in
  if (i <=? 0) || (wrap 64 i =? npos) then Ok (false, m)
  else
    r ← CalcCheckSumAsString msg i m;
    let '(chksum, m) := r in
    chksum1 ← substr msg (i + 1) 2;
    Ok (string_eqb chksum chksum1, m).

Definition Verify (msg : list ascii) (m : TclNMEAMessage)
    : out (bool * TclNMEAMessage) :=
  let end_ := sfind msg [CR; LF] 0 in
  if end_ =? npos then Ok (false, m)
  else
    let start := sfind msg (lit "!") 0 in
    let check (start : Z) :=
      sentence ← substr msg (wrap 64 (swrap 32 start)) (end_ - start + 2);
      r ← VerifyCheckSum sentence m;
      let '(ok, m) := r in
      Ok (negb (negb ok), m) in
    if (start =? npos) || (start >? end_) then
      let start := sfind msg (lit "$") 0 in
      if (start =? npos) || (start >? end_) then Ok (false, m)
      else check start
    else check start.

Definition ExtractChecksumFromMessage (msg : list ascii) : out (list ascii) :=
  let i := swrap 32 (find_last_of msg (lit "*")) in
  let j := swrap 32 (find_last_of msg [CR; LF]) in
  if (i <=? 0) || (wrap 64 i =? npos) || (i >=? j) then Ok []
  else substr msg (i + 1) 2.

Section Encode.
(** The virtual [EncodePart]. *)
Context (EncodePart : list ascii -> list ascii -> TclNMEAMessage ->
                      out (list ascii * TclNMEAMessage)).

(** The loop over the full segments; [n] is their number less [i], which is
    not negative for a payload of less than [2 ^ 31] bytes. *)
Fixpoint encode_full (n : nat) (i : Z) (msg : list ascii) (m : TclNMEAMessage)
    : out (list ascii * TclNMEAMessage) :=
  match n with
  | O => Ok (msg, m)
  | S n' =>
      part ← substr (m_aszPayload m) (i * m_iMaxContent m) (m_iMaxContent m);
      r ← EncodePart msg part m;
      let '(msg, m) := r in
      encode_full n' (i + 1) msg (set_number (m_iSentenceNumber m + 1) m)
  end.

(** [Encode]; division by a zero [m_iMaxContent] is undefined. *)
Definition Encode (msg : list ascii) (m : TclNMEAMessage)
    : out (list ascii * TclNMEAMessage) :=
  let m := set_number 1 (set_total 0 m) in
  let iLen := swrap 32 (zlen (m_aszPayload m)) in
  if m_iMaxContent m =? 0 then UB
  else
    let iFullSizeCount := Z.quot iLen (m_iMaxContent m) in
    let m := set_total iFullSizeCount m in
    let rest := negb (Z.rem iLen (m_iMaxContent m) =? 0) in
    let m := if rest then set_total (m_iTotalNumberOfMessages m + 1) m else m in
    let m := if (m_iTotalNumberOfMessages m >? 1)
                && (m_iSequentialMessageIdentifier m <? 0)
             then set_identifier 0 m else m in
    r ← encode_full (Z.to_nat iFullSizeCount) 0 msg m;
    let '(msg, m) := r in
    if rest then
      let i := iFullSizeCount in
      part ← substr (m_aszPayload m) (i * m_iMaxContent m)
                    (iLen - i * m_iMaxContent m);
      EncodePart msg part m
    else Ok (msg, m).
End Encode.

(** ** Specifications *)

(** The exclusive or of the bytes. *)
Definition xor_bytes (sum : Z) (l : list ascii) : Z :=
  foldl (fun x c => Z.lxor x (u8 c)) sum l.

(** What the checksum covers: everything but a leading delimiter. *)
Definition covered (pre : list ascii) : list ascii :=
  match pre with
  | c :: l => if Ascii.eqb c "!" || Ascii.eqb c "$" then l else pre
  | [] => []
  end.

(** [l] cut into pieces of [n] elements, the last one possibly shorter. *)
Fixpoint chunks_go {A} (fuel n : nat) (l : list A) : list (list A) :=
  match fuel, l with
  | O, _ | _, [] => []
  | S fuel', _ => take n l :: chunks_go fuel' n (drop n l)
  end.

Definition chunks {A} (n : nat) (l : list A) : list (list A) :=
  chunks_go (length l) n l.

(** ** Lemmas on the checksum *)

Lemma rdz_app pre c post : rdz (pre ++ c :: post) (zlen pre) = Ok c.
Proof. apply rdz_rd, rd_app. Qed.

Lemma rdz_0 c l : rdz (c :: l) 0 = Ok c.
Proof. apply (rdz_app []). Qed.

Lemma checksum_loop_all a b post sum :
  ("*" : ascii) ∉ b ->
  checksum_loop (length b) (a ++ b ++ post) (zlen a) sum = Ok (xor_bytes sum b).
Proof.
  revert a sum. induction b as [|c b IH]; intros a sum Hb; [done|].
  cbn [checksum_loop length]. rewrite <- app_comm_cons, rdz_app, bind_Ok.
  destruct (Ascii.eqb_spec c "*") as [->|]; [set_solver|].
  specialize (IH (a ++ [c]) (Z.lxor sum (u8 c)) ltac:(set_solver)).
  rewrite <- app_assoc in IH. simpl app in IH. rewrite zlen_app in IH. exact IH.
Qed.

Lemma checksum_loop_star a b post sum n :
  ("*" : ascii) ∉ b -> (length b < n)%nat ->
  checksum_loop n (a ++ b ++ "*"%char :: post) (zlen a) sum =
  Ok (xor_bytes sum b).
Proof.
  revert a sum n. induction b as [|c b IH]; intros a sum n Hb Hn;
    (destruct n as [|n]; [simpl in Hn; lia|]); cbn [checksum_loop].
  - rewrite app_nil_l, rdz_app, bind_Ok. done.
  - rewrite <- app_comm_cons, rdz_app, bind_Ok.
    destruct (Ascii.eqb_spec c "*") as [->|]; [set_solver|].
    specialize (IH (a ++ [c]) (Z.lxor sum (u8 c)) n ltac:(set_solver)
      ltac:(simpl in Hn; lia)).
    rewrite <- app_assoc in IH. simpl app in IH. rewrite zlen_app in IH. exact IH.
Qed.

Lemma covered_split pre : exists a, pre = a ++ covered pre /\
  zlen a = if match pre with c :: _ => Ascii.eqb c "!" || Ascii.eqb c "$"
                         | [] => false end then 1 else 0.
Proof.
  destruct pre as [|c pre]; [by exists []|]. simpl.
  destruct (_ || _); [by exists [c]|by exists []].
Qed.

Lemma covered_elem c pre : c ∉ pre -> c ∉ covered pre.
Proof. destruct pre as [|d pre]; [done|]. simpl. destruct (_ || _); set_solver. Qed.

(** With the index of the star, the sum covers everything before it. *)
Lemma CalcNmeaCheckSum_at pre post : pre <> [] -> ("*" : ascii) ∉ pre ->
  CalcNmeaCheckSum (pre ++ "*"%char :: post) (zlen pre) =
  Ok (xor_bytes 0 (covered pre)).
Proof.
  intros Hne Hp. unfold CalcNmeaCheckSum. pose proof (zlen_nonneg pre).
  replace (zlen pre <? 0) with false by (zcase; lia).
  destruct (covered_split pre) as (a & E & Ha).
  destruct pre as [|c pre]; [done|].
  rewrite <- app_comm_cons, rdz_0, bind_Ok, app_comm_cons.
  cbv zeta. rewrite <- Ha.
  rewrite E at 2. rewrite <- app_assoc.
  replace (Z.to_nat _) with (length (covered (c :: pre))).
  - apply checksum_loop_all. by apply covered_elem.
  - rewrite E at 2. rewrite zlen_app. unfold zlen. lia.
Qed.

(** Without a size, the sum covers everything before the first star. *)
Lemma CalcNmeaCheckSum_auto pre post : pre <> [] -> ("*" : ascii) ∉ pre ->
  zlen (pre ++ "*"%char :: post) < 2 ^ 31 ->
  CalcNmeaCheckSum (pre ++ "*"%char :: post) (-1) =
  Ok (xor_bytes 0 (covered pre)).
Proof.
  intros Hne Hp Hlen. unfold CalcNmeaCheckSum. pose proof (zlen_nonneg pre).
  pose proof (zlen_nonneg post). change (-1 <? 0) with true. cbv iota.
  rewrite swrap_small by (lia || (unfold in_sint; zlen_lia)).
  destruct (covered_split pre) as (a & E & Ha).
  destruct pre as [|c pre]; [done|].
  rewrite <- app_comm_cons, rdz_0, bind_Ok, app_comm_cons.
  cbv zeta. rewrite <- Ha.
  rewrite E at 2. rewrite <- app_assoc.
  apply checksum_loop_star; [by apply covered_elem|].
  assert (length (c :: pre) = length a + length (covered (c :: pre)))%nat
    by (rewrite E at 1; apply length_app).
  unfold zlen. rewrite length_app. simpl length at 3. lia.
Qed.

Lemma xor_bytes_range sum l : 0 <= sum < 256 -> 0 <= xor_bytes sum l < 256.
Proof.
  revert sum. induction l as [|c l IH]; intros sum Hs; [done|]. simpl. apply IH.
  pose proof (u8_range c). split; [apply Z.lxor_nonneg; lia|].
  destruct (decide (Z.lxor sum (u8 c) = 0)) as [->|]; [lia|].
  apply (Z.log2_lt_pow2 _ 8); [assert (0 <= Z.lxor sum (u8 c))
    by (apply Z.lxor_nonneg; lia); lia|].
  eapply Z.le_lt_trans; [apply Z.log2_lxor; lia|].
  apply Z.max_lub_lt; (destruct (decide (sum = 0)), (decide (u8 c = 0)); subst;
    try (apply Z.log2_lt_pow2; lia); rewrite ?e, ?e0; simpl; try lia).
Qed.

Lemma xor_bytes_app sum a b : xor_bytes sum (a ++ b) = xor_bytes (xor_bytes sum a) b.
Proof. apply foldl_app. Qed.

Lemma xor_bytes_lxor sum l : xor_bytes sum l = Z.lxor sum (xor_bytes 0 l).
Proof.
  revert sum. induction l as [|c l IH]; intros sum; simpl.
  - by rewrite Z.lxor_0_r.
  - rewrite IH, (IH (Z.lxor 0 _)), Z.lxor_0_l. by rewrite Z.lxor_assoc.
Qed.

(** Two digits determine the byte they print. *)
Lemma FormatNmeaCheckSum_inj x y : 0 <= x < 256 -> 0 <= y < 256 ->
  FormatNmeaCheckSum x = FormatNmeaCheckSum y -> x = y.
Proof.
  intros Hx Hy. rewrite <- (u8_chr_small x), <- (u8_chr_small y) by done.
  generalize (chr x), (chr y). clear. intros c d E.
  assert (forall b, sscanf_X 2 (FormatNmeaCheckSum (u8 b)) 0 = u8 b) as Hs.
  { intros [[] [] [] [] [] [] [] []]; reflexivity. }
  by rewrite <- (Hs c), <- (Hs d), E.
Qed.

Lemma length_FormatNmeaCheckSum x : 0 <= x < 256 -> length (FormatNmeaCheckSum x) = 2%nat.
Proof.
  intros Hx. rewrite <- (u8_chr_small x) by done. generalize (chr x).
  intros [[] [] [] [] [] [] [] []]; reflexivity.
Qed.

Lemma not_elem_Forall (w : ascii) l : w ∉ l -> Forall (fun c => Ascii.eqb w c = false) l.
Proof.
  intros H. induction l as [|c l IH]; constructor; [|set_solver].
  apply Ascii.eqb_neq. set_solver.
Qed.

Lemma Forall_not_elem (w : ascii) l : Forall (fun c => Ascii.eqb w c = false) l -> w ∉ l.
Proof.
  induction 1 as [|c l Hc _ IH]; [set_solver|]. apply Ascii.eqb_neq in Hc. set_solver.
Qed.

(** ** The checksum test *)

Lemma VerifyCheckSum_star pre post m :
  ("*" : ascii) ∉ pre -> zlen (pre ++ "*"%char :: post) < 2 ^ 31 ->
  VerifyCheckSum (pre ++ "*"%char :: post) m =
  match pre with
  | [] => Ok (false, m)
  | _ => let x := xor_bytes 0 (covered pre) in
         Ok (string_eqb (FormatNmeaCheckSum x) (take 2 post), set_checksum x m)
  end.
Proof.
  intros Hp Hlen. unfold VerifyCheckSum.
  pose proof (zlen_nonneg pre). pose proof (zlen_nonneg post).
  change (lit "*") with ["*"%char].
  rewrite sfind_one_app by by apply not_elem_Forall.
  rewrite swrap_small by (lia || (unfold in_sint; zlen_lia)).
  rewrite wrap_small by (unfold in_uint; zlen_lia). cbv zeta.
  destruct pre as [|c pre]; [done|].
  replace ((zlen (c :: pre) <=? 0) || (zlen (c :: pre) =? npos)) with false
    by (unfold npos; autorewrite with zlen in *; repeat zcase; zlen_lia).
  unfold CalcCheckSumAsString. rewrite CalcNmeaCheckSum_at, !bind_Ok by done.
  replace ((c :: pre) ++ "*"%char :: post) with (((c :: pre) ++ ["*"%char]) ++ post)
    by by rewrite <- app_assoc.
  replace (zlen (c :: pre) + 1) with (zlen ((c :: pre) ++ ["*"%char])) by zlen_lia.
  rewrite substr_Ok by zlen_lia. unfold zlen. rewrite Nat2Z.id, drop_app_length.
  done.
Qed.

Lemma VerifyCheckSum_no_star msg m : ("*" : ascii) ∉ msg ->
  VerifyCheckSum msg m = Ok (false, m).
Proof.
  intros H. unfold VerifyCheckSum. change (lit "*") with ["*"%char].
  by rewrite sfind_one_none by by apply not_elem_Forall.
Qed.

Lemma first_star (pre p post q : list ascii) :
  ("*" : ascii) ∉ pre -> ("*" : ascii) ∉ p ->
  pre ++ "*"%char :: post = p ++ "*"%char :: q -> pre = p /\ post = q.
Proof.
  revert p. induction pre as [|c pre IH]; intros [|d p] Hpre Hp E; simpl in E;
    injection E as E.
  - by subst.
  - subst. set_solver.
  - subst. set_solver.
  - subst d. destruct (IH p) as [-> ->]; [set_solver..|done|done].
Qed.

(** ** Lemmas on the field scanners *)

Definition separator (c : ascii) : bool := Ascii.eqb c "," || Ascii.eqb c "*".

Lemma not_separator c :
  negb (Ascii.eqb c ",") && negb (Ascii.eqb c "*") = negb (separator c).
Proof. unfold separator. by destruct (Ascii.eqb c ","), (Ascii.eqb c "*"). Qed.

Lemma GetSmallInt_digit iData pre c sep post iLen i :
  i = zlen pre -> i < iLen -> separator c = false -> separator sep = true ->
  GetSmallInt iData (pre ++ c :: sep :: post) iLen i = Ok (true, s8 c - 48, i + 2).
Proof.
  intros -> Hi Hc Hs. unfold GetSmallInt. zcase; [|lia].
  rewrite rdz_app, bind_Ok, not_separator, Hc. cbn [negb].
  replace (pre ++ c :: sep :: post) with ((pre ++ [c]) ++ sep :: post)
    by by rewrite <- app_assoc.
  replace (zlen pre + 1) with (zlen (pre ++ [c])) by zlen_lia.
  rewrite rdz_app, bind_Ok, not_separator, Hs. cbn [negb].
  by replace (zlen (pre ++ [c]) + 1) with (zlen pre + 2) by zlen_lia.
Qed.

Lemma GetSmallInt_empty iData pre sep post iLen i :
  i = zlen pre -> i < iLen -> separator sep = true ->
  GetSmallInt iData (pre ++ sep :: post) iLen i = Ok (true, iData, i + 1).
Proof.
  intros -> Hi Hs. unfold GetSmallInt. zcase; [|lia].
  by rewrite rdz_app, bind_Ok, not_separator, Hs.
Qed.

(** Whatever it finds, [GetSmallInt] stays inside the text and its NUL. *)
Lemma GetSmallInt_total iData p iStart : 0 <= iStart <= zlen p + 1 ->
  exists r d i, GetSmallInt iData p (zlen p) iStart = Ok (r, d, i) /\
    0 <= i <= zlen p + 1.
Proof.
  intros Hi. unfold GetSmallInt. zcase; [|by eexists _, _, _].
  assert (forall j, 0 <= j <= zlen p -> exists c, rdz p j = Ok c) as Hrd.
  { intros j Hj. unfold rdz. zcase; [eauto|]. apply rd_in. lia. }
  destruct (Hrd iStart) as [c ->]; [lia|]. rewrite bind_Ok.
  destruct (_ && _); [|eexists _, _, _; split; [done|lia]].
  destruct (Hrd (iStart + 1)) as [c' ->]; [lia|]. rewrite bind_Ok.
  destruct (_ && _); eexists _, _, _; (split; [done|lia]).
Qed.

Lemma scan_found stop fuel pre l c post :
  (forall j d, l !! j = Some d -> stop d (zlen pre + Z.of_nat j) = false) ->
  stop c (zlen pre + zlen l) = true -> (length l < fuel)%nat ->
  scan stop fuel (pre ++ l ++ c :: post) (zlen pre) = Ok (Some (zlen pre + zlen l)).
Proof.
  revert pre fuel. induction l as [|d l IH]; intros pre [|fuel] Hl Hc Hf;
    try (simpl in Hf; lia); cbn [scan].
  - rewrite app_nil_l, rdz_app, bind_Ok.
    autorewrite with zlen in *. by rewrite Z.add_0_r in *; rewrite Hc.
  - rewrite <- app_comm_cons, rdz_app, bind_Ok.
    pose proof (Hl 0%nat d eq_refl) as H0. rewrite Z.add_0_r in H0. rewrite H0.
    specialize (IH (pre ++ [d]) fuel). rewrite <- app_assoc in IH. simpl app in IH.
    replace (zlen pre + 1) with (zlen (pre ++ [d])) by zlen_lia.
    rewrite IH.
    + do 2 f_equal. zlen_lia.
    + intros j e Hj. specialize (Hl (S j) e Hj).
      replace (zlen (pre ++ [d]) + Z.of_nat j) with (zlen pre + Z.of_nat (S j))
        by zlen_lia. done.
    + replace (zlen (pre ++ [d]) + zlen l) with (zlen pre + zlen (d :: l))
        by zlen_lia. done.
    + simpl in Hf. lia.
Qed.

Lemma scan_total stop p fuel i : 0 <= i -> i + Z.of_nat fuel <= zlen p ->
  exists r, scan stop fuel p i = Ok r /\
    match r with Some j => i <= j < i + Z.of_nat fuel | None => True end.
Proof.
  revert i. induction fuel as [|fuel IH]; intros i Hi Hf; cbn [scan]; [by exists None|].
  destruct (rd_in p i) as [c Hc]; [lia|]. rewrite (rdz_rd _ _ _ Hc), bind_Ok.
  destruct (stop c i); [exists (Some i); split; [done|lia]|].
  destruct (IH (i + 1)) as (r & -> & Hr); [lia..|]. exists r. split; [done|].
  destruct r; [lia|done].
Qed.

Lemma GetString_field s pre l c post i :
  i = zlen pre ->
  Forall (fun d => separator d = false /\ d <> CR) l ->
  separator c = true \/ c = CR -> 0 < zlen post ->
  GetString s (pre ++ l ++ c :: post) (zlen (pre ++ l ++ c :: post)) i =
  Ok (l, i + zlen l + 1).
Proof.
  intros -> Hl Hc Hpost. unfold GetString, scan_field.
  rewrite scan_found, bind_Ok.
  - rewrite Z.gtb_ltb. replace (zlen pre + zlen l - zlen pre) with (zlen l) by lia.
    destruct (Z.ltb_spec 0 (zlen l)).
    + unfold assign. replace (zlen pre + zlen l - zlen pre) with (zlen l) by lia.
      unfold zlen. rewrite !Nat2Z.id, drop_app_length, take_app_length. done.
    + destruct l; [done|zlen_lia].
  - intros j d Hj. pose proof (lookup_lt_Some _ _ _ Hj).
    rewrite Forall_lookup in Hl. destruct (Hl j d Hj) as [Hs Hcr].
    unfold separator in Hs. apply orb_false_iff in Hs as [-> ->].
    apply Ascii.eqb_neq in Hcr. rewrite Hcr. cbn [orb].
    autorewrite with zlen. zcase; [|done]. unfold zlen in *. lia.
  - unfold separator in Hc. destruct Hc as [Hc| ->].
    + apply orb_true_iff in Hc as [-> | ->]; [done|by rewrite !orb_true_r].
    + by rewrite Ascii.eqb_refl, !orb_true_r.
  - autorewrite with zlen. unfold zlen in *. lia.
Qed.

(** ** Segmentation *)

Lemma chunks_go_spec {A} fuel n (l : list A) : (0 < n)%nat -> (length l <= fuel)%nat ->
  concat (chunks_go fuel n l) = l /\
  Forall (fun c => c <> [] /\ (length c <= n)%nat) (chunks_go fuel n l).
Proof.
  intros Hn. revert l. induction fuel as [|fuel IH]; intros l Hl.
  - destruct l; [by split|simpl in Hl; lia].
  - destruct l as [|a l]; [by split|]. cbn [chunks_go].
    destruct (IH (drop n (a :: l))) as [Hc Hf].
    { rewrite length_drop. simpl in *. lia. }
    split.
    + cbn [concat]. by rewrite Hc, take_drop.
    + constructor; [|done]. split; [destruct n; [lia|done]|].
      rewrite length_take. lia.
Qed.

Lemma chunks_concat {A} n (l : list A) : (0 < n)%nat -> concat (chunks n l) = l.
Proof. intros. by apply chunks_go_spec. Qed.

Lemma chunks_bound {A} n (l : list A) : (0 < n)%nat ->
  Forall (fun c => c <> [] /\ (length c <= n)%nat) (chunks n l).
Proof. intros. by apply chunks_go_spec. Qed.

Lemma chunks_go_fuel {A} n (l : list A) f1 f2 : (0 < n)%nat ->
  (length l <= f1)%nat -> (length l <= f2)%nat ->
  chunks_go f1 n l = chunks_go f2 n l.
Proof.
  intros Hn. revert l f2. induction f1 as [|f1 IH]; intros l f2 H1 H2.
  - destruct l; [|simpl in H1; lia]. by destruct f2.
  - destruct l as [|a l]; [by destruct f2|]. destruct f2 as [|f2]; [simpl in H2; lia|].
    cbn [chunks_go]. f_equal. apply IH; rewrite length_drop; simpl in *; lia.
Qed.

Lemma chunks_cons {A} n (l : list A) : (0 < n)%nat -> l <> [] ->
  chunks n l = take n l :: chunks n (drop n l).
Proof.
  intros Hn Hl. unfold chunks. destruct l as [|a l]; [done|].
  cbn [chunks_go length]. f_equal. apply chunks_go_fuel; [done|..];
    rewrite length_drop; simpl; lia.
Qed.

(** The number of pieces is the rounded-up quotient. *)
Lemma length_chunks {A} n (l : list A) : (0 < n)%nat ->
  Z.of_nat (length (chunks n l)) =
  zlen l / Z.of_nat n + (if zlen l mod Z.of_nat n =? 0 then 0 else 1).
Proof.
  intros Hn. unfold zlen. remember (length l) as k eqn:Hk.
  revert l Hk. induction (lt_wf k) as [k _ IH]. intros l ->.
  destruct (decide (l = [])) as [->|Hl].
  { simpl length. change (Z.of_nat 0) with 0. by rewrite Z.div_0_l by lia. }
  rewrite chunks_cons by done. cbn [length]. rewrite Nat2Z.inj_succ.
  assert (0 < length l)%nat by (destruct l; [done|simpl; lia]).
  rewrite (IH (length (drop n l))); [|rewrite length_drop; lia|done].
  rewrite length_drop.
  destruct (Nat.le_gt_cases n (length l)).
  - rewrite Nat2Z.inj_sub by lia.
    replace (Z.of_nat (length l)) with (Z.of_nat (length l) - Z.of_nat n + 1 * Z.of_nat n)
      at 3 4 by lia.
    rewrite Z.div_add, Z.mod_add by lia. lia.
  - replace (length l - n)%nat with 0%nat by lia.
    rewrite (Z.div_small (Z.of_nat (length l))), (Z.mod_small (Z.of_nat (length l))) by lia.
    change (Z.of_nat 0) with 0. rewrite Z.div_0_l, Z.mod_0_l by lia.
    change (0 =? 0) with true. zcase; lia.
Qed.

(** ** Properties *)

(** C38.  The checksum test, on every message: it accepts exactly the messages
    whose first star is not their first byte and is followed by the two
    upper-case hexadecimal digits of the exclusive or of the bytes before it,
    a leading delimiter excluded. *)
Theorem VerifyCheckSum_accepts msg m :
  zlen msg < 2 ^ 31 ->
  (exists m', VerifyCheckSum msg m = Ok (true, m')) <->
  (exists pre post, msg = pre ++ "*"%char :: post /\ ("*" : ascii) ∉ pre /\
     pre <> [] /\ take 2 post = FormatNmeaCheckSum (xor_bytes 0 (covered pre))).
Proof.
  intros Hlen. destruct (split_at_first "*" msg) as (pre & tail & -> & Hp & Ht).
  apply Forall_not_elem in Hp as Hpre.
  destruct Ht as [->|[post ->]].
  - rewrite VerifyCheckSum_no_star by set_solver.
    split; [by intros [? [=]]|]. intros (p & q & E & _).
    rewrite app_nil_r in E. subst pre. set_solver.
  - rewrite VerifyCheckSum_star by done. split.
    + intros [m' H]. exists pre, post. destruct pre as [|c pre]; [done|].
      injection H as H _. unfold string_eqb in H.
      apply bool_decide_eq_true in H. by split_and!.
    + intros (p & q & E & Hpn & Hne & Hd).
      assert (pre = p /\ post = q) as [-> ->].
      { by apply (first_star pre p post q). }
      destruct p as [|c p]; [done|]. eexists. cbv zeta. unfold string_eqb.
      by rewrite Hd, bool_decide_true by done.
Qed.

Lemma VerifyCheckSum_accepts_witness :
  exists m', VerifyCheckSum (lit "!AIVDM,1,1,,A,102=a??P?w<tSF0l4Q@>4?v00001,0*07")
               (new_NMEAMessage 0) = Ok (true, m').
Proof.
  apply VerifyCheckSum_accepts.
  - vm_compute. reflexivity.
  - exists (lit "!AIVDM,1,1,,A,102=a??P?w<tSF0l4Q@>4?v00001,0"), (lit "07").
    split; [reflexivity|]. split; [|split; [discriminate|vm_compute; reflexivity]].
    apply (bool_decide_eq_true_1 _). vm_compute. reflexivity.
Defined.

(** Error detection: when the test accepts a sentence, it rejects every
    sentence that differs from it in one byte between the delimiter and the
    star. *)
Theorem VerifyCheckSum_detects d a c c' b post m m' :
  d = "!"%char \/ d = "$"%char -> c <> c' -> ("*" : ascii) ∉ a ++ c :: c' :: b ->
  zlen (d :: (a ++ c :: b) ++ "*"%char :: post) < 2 ^ 31 ->
  VerifyCheckSum (d :: (a ++ c :: b) ++ "*"%char :: post) m = Ok (true, m') ->
  exists m'', VerifyCheckSum (d :: (a ++ c' :: b) ++ "*"%char :: post) m = Ok (false, m'').
Proof.
  intros Hd Hc Hstar Hlen.
  assert (("*" : ascii) ∉ [d]) by (destruct Hd as [-> | ->]; set_solver).
  assert (forall x, covered (d :: x) = x) as Hcov by (by destruct Hd as [-> | ->]).
  rewrite !app_comm_cons in *.
  rewrite !VerifyCheckSum_star by first [set_solver|clear -Hlen; zlen_lia].
  rewrite <- !app_comm_cons, !Hcov. cbv zeta. intros [= E _]. eexists. do 2 f_equal.
  unfold string_eqb in *. apply bool_decide_eq_true in E.
  apply bool_decide_eq_false. rewrite <- E. intros E'.
  apply FormatNmeaCheckSum_inj in E'; [|apply xor_bytes_range; lia..].
  rewrite !xor_bytes_app in E'. simpl in E'.
  rewrite xor_bytes_lxor, (xor_bytes_lxor (Z.lxor _ (u8 c))) in E'.
  apply (f_equal (fun z => Z.lxor z (xor_bytes 0 b))) in E'.
  rewrite !Z.lxor_assoc, !Z.lxor_nilpotent, !Z.lxor_0_r in E'.
  apply (f_equal (Z.lxor (xor_bytes 0 a))) in E'.
  rewrite <- !Z.lxor_assoc, !Z.lxor_nilpotent, !Z.lxor_0_l in E'.
  apply Hc. symmetry. by apply u8_inj.
Qed.

Lemma VerifyCheckSum_detects_witness :
  exists m'', VerifyCheckSum (lit "$PGHP,2*12") (new_NMEAMessage 0) = Ok (false, m'').
Proof.
  apply (VerifyCheckSum_detects "$" (lit "PGHP,") "1" "2" [] (lit "12")
           (new_NMEAMessage 0) (set_checksum 18 (new_NMEAMessage 0))).
  - right. reflexivity.
  - discriminate.
  - apply (bool_decide_eq_true_1 _). vm_compute. reflexivity.
  - vm_compute. reflexivity.
  - vm_compute. reflexivity.
Defined.

(** The sentence the header gives as an example of a correct checksum does not
    pass the test. *)
Lemma documented_example_rejected :
  exists m', VerifyCheckSum (lit "!AIVDM,1,1,,A,102=a??P?w<tSF0l4Q@>4?v00001,0*46")
               (new_NMEAMessage 0) = Ok (false, m').
Proof. eexists. vm_compute. reflexivity. Qed.
