(* ===== verification/Pghp2.v ===== *)
(** * PGHP2 sentences

    The class [TclPGHP2Message] ([libs/gatehouse/pghp2.h], [pghp2.cpp]): a mail
    is cut into segments of 512 bytes, each sent as a sentence
    [$PGHP,2,total,number,identifier,data*hh\r\n], and read back from a text
    of such sentences.

    The counters are written as one character, their value added to ['0'], so
    that a mail of more than nine segments uses the characters after ['9'];
    [max_segments] is where those reach one that separates the fields. *)

From S2P Require Import Prelude CppString Nmea.

(** [m_clHeader], set once by the constructor. *)
Definition m_clHeader : list ascii := lit "$PGHP,2".

Definition new_PGHP2Message : TclNMEAMessage := {|
  m_iTotalNumberOfMessages := 1;
  m_iSentenceNumber := 1;
  m_iSequentialMessageIdentifier := -1;
  m_aszPayload := [];
  m_clReceivedMessage := [];
  m_fReceivedMessageModified := false;
  m_iMaxContent := 512;
  m_iCheckSum := 0;
  m_enSentenceType := AISNMEAType_value AISNMEATYPE_PGHP2;
  m_fSeqMesIdIsNull := false;
  m_fHasError := false |}.

Definition SetGHMail (mail : list ascii) (m : TclNMEAMessage) : TclNMEAMessage :=
  SetPayload mail true (SetReceivedMessageModified true m).

Definition GetGHMail (m : TclNMEAMessage) : list ascii := m_aszPayload m.

(** [(char) n + '0'], appended to a string. *)
Definition counter (n : Z) : ascii := chr (swrap 8 n + 48).

(** The sentence up to the star. *)
Definition sub_message (total number identifier : Z) (clData : list ascii)
    : list ascii :=
  m_clHeader ++ [","%char; counter total; ","%char; counter number; ","%char]
    ++ (if identifier >=? 0 then [counter identifier] else [])
    ++ [","%char] ++ clData ++ ["*"%char].

Definition EncodePart (msg clData : list ascii) (m : TclNMEAMessage)
    : out (list ascii * TclNMEAMessage) :=
  let clSubMesg := sub_message (m_iTotalNumberOfMessages m) (m_iSentenceNumber m)
                     (m_iSequentialMessageIdentifier m) clData in
  r ← CalcCheckSumAsString clSubMesg (-1) m;
  let '(sum, m) := r in
  Ok (msg ++ (clSubMesg ++ sum) ++ [CR; LF], m).

(** [Encode], inherited. *)
Definition PGHP2_Encode : list ascii -> TclNMEAMessage ->
    out (list ascii * TclNMEAMessage) := Encode EncodePart.

(** The local variables of [Decode]. *)
Record segments := {
  iNewTotalNumberOfMessages : Z;
  iNewSentenceNumber : Z;
  iNewSequentialMessageIdentifier : Z;
  aszNewPayload : list ascii;
  clNewReceivedMessage : list ascii }.

Definition no_segments : segments := {|
  iNewTotalNumberOfMessages := 0; iNewSentenceNumber := 0;
  iNewSequentialMessageIdentifier := 0; aszNewPayload := [];
  clNewReceivedMessage := [] |}.

(** The body of the loop for one line; [None] is [return false]. *)
Definition decode_line (clMessage : list ascii) (v : segments) (m : TclNMEAMessage)
    : out (option segments * TclNMEAMessage) :=
  r ← VerifyCheckSum clMessage m;
  let '(ok, m) := r in
  if negb ok then Ok (None, m)
  else
    let iLen := swrap 32 (zlen clMessage) in
    clNewHeader ← substr clMessage 0 7;
    if string_eqb clNewHeader m_clHeader then
      r ← GetSmallInt (iNewTotalNumberOfMessages v) clMessage iLen 8;
      let '(_, total, iStart) := r in
      r ← GetSmallInt (iNewSentenceNumber v) clMessage iLen iStart;
      let '(_, number, iStart) := r in
      r ← GetSmallInt (iNewSequentialMessageIdentifier v) clMessage iLen iStart;
      let '(_, identifier, iStart) := r in
      r ← GetString [] clMessage iLen iStart;
      let '(clTmpPayload, _) := r in
      Ok (Some {| iNewTotalNumberOfMessages := total;
                  iNewSentenceNumber := number;
                  iNewSequentialMessageIdentifier := identifier;
                  aszNewPayload := aszNewPayload v ++ clTmpPayload;
                  clNewReceivedMessage := clNewReceivedMessage v ++ clMessage |}, m)
    else Ok (None, m).

(** The loop; each turn removes a line, so [fuel] is the length of the text
    plus one. *)
Fixpoint decode_loop (fuel : nat) (buf : list ascii) (v : segments)
    (m : TclNMEAMessage) : out (option segments * TclNMEAMessage) :=
  match fuel with
  | O => Ok (Some v, m)
  | S fuel' =>
      let pos := swrap 32 (find_first (Ascii.eqb LF) buf 0) in
      if pos =? -1 then Ok (Some v, m)
      else
        clMessage ← substr buf 0 (pos + 1);
        buf ← substr buf (pos + 1) (zlen buf);
        r ← decode_line clMessage v m;
        match r with
        | (None, m) => Ok (None, m)
        | (Some v, m) => decode_loop fuel' buf v m
        end
  end.

Definition Decode (msg : list ascii) (m : TclNMEAMessage)
    : out (bool * TclNMEAMessage) :=
  r ← decode_loop (S (length msg)) msg no_segments m;
  match r with
  | (None, m) => Ok (false, m)
  | (Some v, m) =>
      let m := set_total (iNewTotalNumberOfMessages v) m in
      let m := set_number (iNewSentenceNumber v) m in
      let m := set_identifier (iNewSequentialMessageIdentifier v) m in
      let m := set_received (clNewReceivedMessage v) m in
      let m := set_payload (aszNewPayload v) m in
      Ok (true, m)
  end.

Definition VerifyData (m : TclNMEAMessage) : bool :=
  if (m_iTotalNumberOfMessages m <? 1) || (m_iTotalNumberOfMessages m >? 9)
  then false
  else if (m_iSentenceNumber m <? 1) || (m_iSentenceNumber m >? 9) then false
  else if (m_iSequentialMessageIdentifier m <? 0)
          || (m_iSequentialMessageIdentifier m >? 9) then false
  else true.

(** ** Specification *)

(** One sentence, with its checksum. *)
Definition sentence (total number identifier : Z) (clData : list ascii) : list ascii :=
  let body := sub_message total number identifier clData in
  body ++ FormatNmeaCheckSum
            (xor_bytes 0 (covered (take (length body - 1) body))) ++ [CR; LF].

(** The sentences of the pieces of a mail, numbered from [number] on. *)
Fixpoint sentences (total number identifier : Z) (pieces : list (list ascii))
    : list ascii :=
  match pieces with
  | [] => []
  | c :: pieces' =>
      sentence total number identifier c ++
      sentences total (number + 1) identifier pieces'
  end.

Definition max_segments : Z := 217.

(** The bytes a mail may hold: no field separator, no line end. *)
Definition mail_byte (c : ascii) : Prop :=
  c <> ","%char /\ c <> "*"%char /\ c <> CR /\ c <> LF.

(** ** Lemmas on one sentence *)

Lemma u8_neq c d : u8 c <> u8 d -> c <> d.
Proof. by intros H ->. Qed.

Lemma counter_field n : 0 <= n <= max_segments -> mail_byte (counter n).
Proof.
  unfold max_segments. intros Hn.
  assert (u8 (counter n) = (n + 48) mod 256) as E.
  { unfold counter. rewrite u8_chr. unfold wrap, swrap. change (2 ^ 8) with 256.
    change (2 ^ (8 - 1)) with 128. divlia. }
  split_and!; apply u8_neq; rewrite E;
    match goal with |- _ <> u8 ?c =>
      let v := eval vm_compute in (u8 c) in change (u8 c) with v end; divlia.
Qed.

Lemma counter_value n : s8 (counter n) - 48 = swrap 8 (n + 48) - 48.
Proof.
  unfold counter, s8. rewrite u8_chr, swrap_wrap by lia. f_equal.
  unfold swrap. change (2 ^ 8) with 256. change (2 ^ (8 - 1)) with 128. divlia.
Qed.

Lemma counter_digit n : 0 <= n <= 9 -> s8 (counter n) - 48 = n.
Proof.
  intros. rewrite counter_value, swrap_small by (lia || (unfold in_sint; lia)). lia.
Qed.

(** What precedes the star. *)
Definition sentence_body (total number identifier : Z) (clData : list ascii) :=
  m_clHeader ++ [","%char; counter total; ","%char; counter number; ","%char]
    ++ (if identifier >=? 0 then [counter identifier] else [])
    ++ [","%char] ++ clData.

Lemma sub_message_body T N I d :
  sub_message T N I d = sentence_body T N I d ++ ["*"%char].
Proof. unfold sub_message, sentence_body. by rewrite <- !app_assoc. Qed.

Lemma sentence_eq T N I d :
  sentence T N I d =
  sentence_body T N I d ++ "*"%char ::
    FormatNmeaCheckSum (xor_bytes 0 (covered (sentence_body T N I d))) ++ [CR; LF].
Proof.
  unfold sentence. cbv zeta. rewrite sub_message_body.
  rewrite length_app, Nat.add_sub, take_app_length. by rewrite <- app_assoc.
Qed.

Lemma body_fields (P : ascii -> Prop) T N I d :
  0 <= T <= max_segments -> 0 <= N <= max_segments -> I <= max_segments ->
  Forall P m_clHeader -> P ","%char -> (forall c, mail_byte c -> P c) ->
  Forall P d -> Forall P (sentence_body T N I d).
Proof.
  intros HT HN HI Hh Hc Hf Hd. unfold sentence_body.
  pose proof (Hf _ (counter_field T HT)). pose proof (Hf _ (counter_field N HN)).
  apply Forall_app. split; [done|]. simpl app. repeat constructor; [done..|].
  apply Forall_app. split.
  - zcase; [|done]. repeat constructor. apply Hf, counter_field. lia.
  - by constructor.
Qed.

Lemma Forall_not_in {A} (P : A -> Prop) l a : Forall P l -> ~ P a -> a ∉ l.
Proof. induction 1; set_solver. Qed.

Lemma Forall_weaken {A} (P Q : A -> Prop) l :
  (forall a, P a -> Q a) -> Forall P l -> Forall Q l.
Proof. intros HPQ. induction 1; constructor; auto. Qed.

Lemma mail_no (c : ascii) d : ~ mail_byte c -> Forall mail_byte d -> c ∉ d.
Proof. intros H Hd. by eapply Forall_not_in. Qed.

Section sentence_lemmas.
Context (T N I : Z) (d : list ascii).
Hypothesis HT : 0 <= T <= max_segments.
Hypothesis HN : 0 <= N <= max_segments.
Hypothesis HI : I <= max_segments.
Hypothesis Hd : Forall mail_byte d.

Lemma body_no_star : ("*" : ascii) ∉ sentence_body T N I d.
Proof.
  apply (Forall_not_in (fun c => c <> "*"%char)); [|naive_solver].
  apply body_fields; [done..| |done| |].
  - repeat constructor; done.
  - by intros c (_ & ? & _).
  - apply (Forall_weaken mail_byte); [by intros c (_ & ? & _)|exact Hd].
Qed.

Lemma body_no_LF : LF ∉ sentence_body T N I d.
Proof.
  apply (Forall_not_in (fun c => c <> LF)); [|naive_solver].
  apply body_fields; [done..| |done| |].
  - repeat constructor; done.
  - by intros c (_ & _ & _ & ?).
  - apply (Forall_weaken mail_byte); [by intros c (_ & _ & _ & ?)|exact Hd].
Qed.

Lemma EncodePart_spec msg m :
  m_iTotalNumberOfMessages m = T -> m_iSentenceNumber m = N ->
  m_iSequentialMessageIdentifier m = I -> zlen d <= 1000 ->
  exists x, EncodePart msg d m = Ok (msg ++ sentence T N I d, set_checksum x m).
Proof using HT HN HI Hd.
  intros HmT HmN HmI Hlen. unfold EncodePart. rewrite HmT, HmN, HmI.
  rewrite sub_message_body. unfold CalcCheckSumAsString.
  rewrite CalcNmeaCheckSum_auto; [|done|apply body_no_star|].
  - rewrite !bind_Ok, sentence_eq. eexists. by rewrite <- !app_assoc.
  - unfold sentence_body. autorewrite with zlen.
    destruct (I >=? 0); autorewrite with zlen; change (zlen m_clHeader) with 7; lia.
Qed.
End sentence_lemmas.

(** ** Encoding a mail *)

Lemma take_plus {A} a b (l : list A) : take (a + b) l = take a l ++ take b (drop a l).
Proof. by rewrite take_take_drop. Qed.

Lemma encode_full_spec T I n msg m pre rest i :
  m_iTotalNumberOfMessages m = T -> m_iSequentialMessageIdentifier m = I ->
  m_iMaxContent m = 512 -> m_aszPayload m = pre ++ rest ->
  zlen pre = i * 512 -> Z.of_nat n * 512 <= zlen rest ->
  0 <= T <= max_segments -> I <= max_segments -> Forall mail_byte rest ->
  1 <= m_iSentenceNumber m -> m_iSentenceNumber m + Z.of_nat n - 1 <= max_segments ->
  exists x, encode_full EncodePart n i msg m =
    Ok (msg ++ sentences T (m_iSentenceNumber m) I
                 (chunks 512 (take (n * 512) rest)),
        set_number (m_iSentenceNumber m + Z.of_nat n) (set_checksum x m)).
Proof.
  intros HT HI Hmax Hpay Hpre Hrest HTr HIr.
  revert msg m pre rest i HT HI Hmax Hpay Hpre Hrest.
  induction n as [|n IH]; intros msg m pre rest i HT HI Hmax Hpay Hpre Hrest Hmail
    Hnum Hlast.
  { exists (m_iCheckSum m). cbn [encode_full]. simpl take. rewrite app_nil_r.
    do 2 f_equal. destruct m; unfold set_number, set_checksum; simpl. f_equal. lia. }
  cbn [encode_full]. rewrite Hpay, Hmax.
  pose proof (zlen_nonneg pre). unfold max_segments in *.
  rewrite substr_Ok by zlen_lia. rewrite bind_Ok.
  replace (Z.to_nat (i * 512)) with (length pre) by (unfold zlen in *; lia).
  rewrite drop_app_length. change (Z.to_nat 512) with 512%nat.
  destruct (EncodePart_spec T (m_iSentenceNumber m) I (take 512 rest)
    ltac:(unfold max_segments; lia) ltac:(unfold max_segments; lia)
    ltac:(unfold max_segments; lia) ltac:(by apply Forall_take) msg m)
    as [x ->]; [done..| |].
  { unfold zlen. rewrite length_take. lia. }
  rewrite bind_Ok. set (m1 := set_number _ _).
  assert (length (take 512 rest) = 512%nat) as Hl
    by (rewrite length_take; unfold zlen in *; lia).
  destruct (IH (msg ++ sentence T (m_iSentenceNumber m) I (take 512 rest)) m1
    (pre ++ take 512 rest) (drop 512 rest) (i + 1)) as [x' E]; try done.
  - simpl. rewrite Hpay. by rewrite <- app_assoc, take_drop.
  - rewrite zlen_app. unfold zlen in *. lia.
  - unfold zlen in *. rewrite length_drop. lia.
  - by apply Forall_drop.
  - simpl. lia.
  - simpl. lia.
  - rewrite E. exists x'. change (S n * 512)%nat with (512 + n * 512)%nat.
    rewrite take_plus, (chunks_cons 512 (take 512 rest ++ _)); [|lia|].
    + rewrite (take_app_length' (take 512 rest)), (drop_app_length' (take 512 rest))
        by done.
      cbn [sentences]. rewrite <- app_assoc. do 2 f_equal.
      unfold m1, set_number, set_checksum. simpl. f_equal. lia.
    + intros E0. apply (f_equal length) in E0. rewrite length_app in E0. simpl in E0. lia.
Qed.

(** The segments of a mail: their number and the counters they carry. *)
Definition segment_count (mail : list ascii) : Z := zlen (chunks 512 mail).

Lemma segment_count_eq mail :
  segment_count mail =
  zlen mail / 512 + (if zlen mail mod 512 =? 0 then 0 else 1).
Proof. unfold segment_count. unfold zlen at 1. rewrite length_chunks by lia. done. Qed.

Definition used_identifier (mail : list ascii) (identifier : Z) : Z :=
  if (segment_count mail >? 1) && (identifier <? 0) then 0 else identifier.

Lemma chunks_app_full {A} n k (l1 l2 : list A) : (0 < n)%nat ->
  length l1 = (k * n)%nat -> chunks n (l1 ++ l2) = chunks n l1 ++ chunks n l2.
Proof.
  intros Hn. revert l1. induction k as [|k IH]; intros l1 Hl.
  - destruct l1; [done|simpl in Hl; lia].
  - assert (l1 <> []) by (intros ->; simpl in Hl; lia).
    rewrite (chunks_cons n l1), (chunks_cons n (l1 ++ l2)); [|done|..|done|done].
    + rewrite take_app_le, drop_app_le by lia. rewrite IH; [done|].
      rewrite length_drop. lia.
    + intros E. apply app_eq_nil in E as [? _]. done.
Qed.

Lemma sentences_app T N I a b :
  sentences T N I (a ++ b) = sentences T N I a ++ sentences T (N + zlen a) I b.
Proof.
  revert N. induction a as [|c a IH]; intros N; cbn [sentences app].
  - f_equal. zlen_lia.
  - rewrite IH, <- app_assoc. do 3 f_equal. zlen_lia.
Qed.

Lemma sentences_count mail T : T = segment_count mail -> T <= max_segments ->
  let q := zlen mail / 512 in
  0 <= q <= T /\ zlen mail < 2 ^ 31 /\ zlen mail - q * 512 < 512 /\
  q * 512 <= zlen mail /\
  T = q + (if zlen mail mod 512 =? 0 then 0 else 1).
Proof.
  intros -> . rewrite segment_count_eq. unfold max_segments. cbv zeta.
  pose proof (zlen_nonneg mail). destruct (Z.eqb_spec (zlen mail mod 512) 0); divlia.
Qed.

(** The loop and the rest segment, on a message whose counters are set. *)
Lemma encode_segments T I msg m p :
  let q := zlen p / 512 in
  m_iTotalNumberOfMessages m = T -> m_iSequentialMessageIdentifier m = I ->
  m_iMaxContent m = 512 -> m_aszPayload m = p -> m_iSentenceNumber m = 1 ->
  T = segment_count p -> T <= max_segments -> I <= max_segments ->
  Forall mail_byte p ->
  exists m', (encode_full EncodePart (Z.to_nat q) 0 msg m ≫= fun '(msg, m) =>
      if negb (zlen p mod 512 =? 0) then
        part ← substr (m_aszPayload m) (q * m_iMaxContent m)
                      (zlen p - q * m_iMaxContent m);
        EncodePart msg part m
      else Ok (msg, m)) = Ok (msg ++ sentences T 1 I (chunks 512 p), m') /\
    m_iTotalNumberOfMessages m' = T /\ m_aszPayload m' = p.
Proof.
  cbv zeta. intros HT HI Hmax Hpay Hnum HTp HTm HIm Hp.
  destruct (sentences_count p T HTp HTm) as (Hq & Hlen & Hrest & Hle & HTq).
  cbv zeta in *. set (q := zlen p / 512) in *. unfold max_segments in *.
  destruct (encode_full_spec T I (Z.to_nat q) msg m [] p 0) as [x ->];
    unfold max_segments;
    [done|done|done|done|done|lia|lia|lia|done|lia|lia|].
  rewrite bind_Ok, Hnum. set (n := (Z.to_nat q * 512)%nat).
  assert (Z.of_nat n = q * 512) as Hn by lia.
  destruct (Z.eqb_spec (zlen p mod 512) 0) as [Hr|Hr]; cbn [negb].
  { rewrite take_ge by (unfold zlen, q in *; divlia). eauto. }
  assert (0 < zlen (drop n p) < 512) as Hdrop.
  { unfold zlen in *. rewrite length_drop. unfold q in *. divlia. }
  cbn [m_aszPayload m_iMaxContent set_number set_checksum].
  rewrite Hpay, Hmax, substr_Ok, bind_Ok by lia.
  replace (Z.to_nat (q * 512)) with n by lia.
  rewrite (take_ge (drop n p)) by (unfold zlen in *; rewrite length_drop in *; lia).
  destruct (EncodePart_spec T T I (drop n p) ltac:(unfold max_segments; lia)
    ltac:(unfold max_segments; lia) ltac:(unfold max_segments; lia)
    ltac:(by apply Forall_drop)
    (msg ++ sentences T 1 I (chunks 512 (take n p)))
    (set_number (1 + Z.of_nat (Z.to_nat q)) (set_checksum x m))) as [y ->];
    [done|simpl; lia|done|lia|].
  exists (set_checksum y (set_number (1 + Z.of_nat (Z.to_nat q)) (set_checksum x m))).
  split; [|by split].
  rewrite <- (take_drop n p) at 3.
  rewrite (chunks_app_full 512 (Z.to_nat q))
    by (lia || (rewrite length_take; unfold zlen in *; lia)).
  rewrite sentences_app, (chunks_cons 512 (drop n p));
    [|lia|intros E0; rewrite E0 in Hdrop; zlen_lia].
  rewrite (take_ge (drop n p)), (drop_ge (drop n p)) by (unfold zlen in *; lia).
  cbn [chunks chunks_go length sentences]. rewrite app_nil_r, <- app_assoc.
  replace (1 + zlen (chunks 512 (take n p))) with T; [done|].
  change (zlen (chunks ?k ?l)) with (segment_count l).
  rewrite segment_count_eq.
  replace (zlen (take n p)) with (q * 512)
    by (unfold zlen in *; rewrite length_take; lia).
  rewrite Z.div_mul, Z.mod_mul by lia. simpl. lia.
Qed.

Lemma Encode_spec msg m :
  let p := m_aszPayload m in
  let I := used_identifier p (m_iSequentialMessageIdentifier m) in
  m_iMaxContent m = 512 -> Forall mail_byte p ->
  segment_count p <= max_segments ->
  m_iSequentialMessageIdentifier m <= max_segments ->
  exists m', PGHP2_Encode msg m =
    Ok (msg ++ sentences (segment_count p) 1 I (chunks 512 p), m') /\
    m_iTotalNumberOfMessages m' = segment_count p /\ m_aszPayload m' = p.
Proof.
  cbv zeta. intros Hmax Hp Hcount HI.
  set (p := m_aszPayload m) in *. remember (segment_count p) as T eqn:HT.
  set (I := used_identifier p _).
  destruct (sentences_count p T HT Hcount) as (Hq & Hlen & _ & _ & HTq).
  assert (I <= max_segments) as HI'.
  { unfold I, used_identifier, max_segments in *. destruct (_ && _); lia. }
  unfold PGHP2_Encode, Encode. cbn [m_iMaxContent m_aszPayload set_number set_total].
  rewrite Hmax. change (512 =? 0) with false. cbv iota. fold p.
  pose proof (zlen_nonneg p).
  rewrite (swrap_small 32 (zlen p)) by (lia || (unfold in_sint; lia)).
  rewrite Z.quot_div_nonneg, Z.rem_mod_nonneg by lia.
  set (q := zlen p / 512) in *. set (r := negb (zlen p mod 512 =? 0)).
  set (m1 := if r then set_total _ _ else _).
  assert (m_iTotalNumberOfMessages m1 = T /\ m_iMaxContent m1 = 512 /\
    m_iSequentialMessageIdentifier m1 = m_iSequentialMessageIdentifier m /\
    m_aszPayload m1 = p /\ m_iSentenceNumber m1 = 1) as (HT1 & Hm1 & HI1 & Hp1 & Hn1).
  { unfold m1. split_and!; [|by destruct r..].
    rewrite HTq. unfold r. destruct (zlen p mod 512 =? 0); simpl; lia. }
  clearbody m1. rewrite HT1, HI1.
  set (m2 := if (T >? 1) && _ then _ else _).
  assert (m_iTotalNumberOfMessages m2 = T /\ m_iMaxContent m2 = 512 /\
    m_iSequentialMessageIdentifier m2 = I /\
    m_aszPayload m2 = p /\ m_iSentenceNumber m2 = 1) as (HT2 & Hm2 & HI2 & Hp2 & Hn2).
  { unfold m2, I, used_identifier. rewrite <- HT. destruct (_ && _); by split_and!. }
  clearbody m2. by apply encode_segments.
Qed.

(** ** Decoding *)

(** A line ends at its first line feed. *)
Lemma find_LF pre post : LF ∉ pre ->
  find_first (Ascii.eqb LF) (pre ++ LF :: post) 0 = zlen pre.
Proof.
  intros H. rewrite find_first_app; [lia| |done]. by apply not_elem_Forall.
Qed.

(** The integer a counter is read back as: the characters are signed. *)
Definition read_counter (n : Z) : Z := s8 (counter n) - 48.

Lemma field_not_separator c : mail_byte c -> separator c = false.
Proof.
  intros (H1 & H2 & _). unfold separator.
  apply Ascii.eqb_neq in H1, H2. by rewrite H1, H2.
Qed.

Section decode_lemmas.
Context (T N I : Z) (d : list ascii).
Hypothesis HT : 0 <= T <= max_segments.
Hypothesis HN : 0 <= N <= max_segments.
Hypothesis HI : I <= max_segments.
Hypothesis Hd : Forall mail_byte d.
Hypothesis Hlen : zlen d <= 1000.

Definition after_text (text : list ascii) (v : segments) : segments := {|
  iNewTotalNumberOfMessages := read_counter T;
  iNewSentenceNumber := read_counter N;
  iNewSequentialMessageIdentifier :=
    if I >=? 0 then read_counter I else iNewSequentialMessageIdentifier v;
  aszNewPayload := aszNewPayload v ++ d;
  clNewReceivedMessage := clNewReceivedMessage v ++ text |}.

Definition after_line (v : segments) : segments := after_text (sentence T N I d) v.

(** The sentence with another line end. *)
Definition sentence_with (tail : list ascii) : list ascii :=
  sentence_body T N I d ++ "*"%char ::
    FormatNmeaCheckSum (xor_bytes 0 (covered (sentence_body T N I d))) ++ tail.

Lemma zlen_sentence_with tail : zlen (sentence_with tail) <= 1028 + zlen tail.
Proof using Hlen.
  unfold sentence_with. set (f := FormatNmeaCheckSum _).
  assert (zlen f = 2) as Hf.
  { unfold zlen, f. rewrite length_FormatNmeaCheckSum; [done|].
    apply xor_bytes_range. lia. }
  unfold sentence_body. autorewrite with zlen. rewrite Hf.
  change (zlen m_clHeader) with 7.
  destruct (I >=? 0); autorewrite with zlen; lia.
Qed.

Lemma zlen_sentence : zlen (sentence T N I d) <= 1030.
Proof using Hlen.
  rewrite sentence_eq. pose proof (zlen_sentence_with [CR; LF]) as H. exact H.
Qed.

Lemma sentence_fields tail : exists rest, zlen tail <= zlen rest /\ sentence_with tail =
  m_clHeader ++ [","%char] ++ counter T :: ","%char :: counter N :: ","%char ::
    ((if I >=? 0 then [counter I] else []) ++ ","%char :: d ++ "*"%char :: rest).
Proof using.
  unfold sentence_with. eexists. split; cycle 1.
  - unfold sentence_body. rewrite <- !app_assoc. reflexivity.
  - rewrite zlen_app. match goal with |- _ <= zlen ?l + _ =>
      pose proof (zlen_nonneg l) end. lia.
Qed.

Lemma read_fields v tail :
  let line := m_clHeader ++ [","%char] ++ counter T :: ","%char :: counter N ::
    ","%char :: ((if I >=? 0 then [counter I] else []) ++
                 ","%char :: d ++ "*"%char :: tail) in
  let iLen := zlen line in 0 < zlen tail ->
  exists i1 i2 i3 i4 b1 b2 b3,
    GetSmallInt (iNewTotalNumberOfMessages v) line iLen 8 =
      Ok (b1, read_counter T, i1) /\
    GetSmallInt (iNewSentenceNumber v) line iLen i1 = Ok (b2, read_counter N, i2) /\
    GetSmallInt (iNewSequentialMessageIdentifier v) line iLen i2 =
      Ok (b3, if I >=? 0 then read_counter I else iNewSequentialMessageIdentifier v, i3) /\
    GetString [] line iLen i3 = Ok (d, i4).
Proof using HT HN HI Hd.
  cbv zeta. intros Htail. set (line := m_clHeader ++ _). set (iLen := zlen line).
  pose proof (field_not_separator _ (counter_field T HT)).
  pose proof (field_not_separator _ (counter_field N HN)).
  assert (13 + zlen d < iLen) as HL.
  { unfold iLen, line. change (zlen (m_clHeader ++ ?l)) with (zlen m_clHeader + zlen l)
      || rewrite zlen_app. change (zlen m_clHeader) with 7.
    destruct (I >=? 0); zlen_lia. }
  pose proof (zlen_nonneg d).
  set (rest := (if I >=? 0 then [counter I] else []) ++ ","%char :: d ++ "*"%char :: tail).
  assert (Forall (fun c => separator c = false /\ c <> CR) d) as Hd'.
  { apply (Forall_weaken mail_byte); [|exact Hd]. intros c Hc. split.
    - by apply field_not_separator.
    - by destruct Hc as (_ & _ & ? & _). }
  exists 10, 12, (if I >=? 0 then 14 else 13), ((if I >=? 0 then 14 else 13) + zlen d + 1),
    true, true, true.
  split; [|split; [|split]].
  - apply (GetSmallInt_digit _ (m_clHeader ++ [","%char]) (counter T) ","
      (counter N :: ","%char :: rest)); done || lia.
  - apply (GetSmallInt_digit _ (m_clHeader ++ [","%char; counter T; ","%char])
      (counter N) "," rest); done || lia.
  - unfold line, rest. destruct (Z.geb_spec I 0).
    + apply (GetSmallInt_digit _ (m_clHeader ++ [","%char; counter T; ","%char;
        counter N; ","%char]) (counter I) "," (d ++ "*"%char :: tail));
        [done|lia|apply field_not_separator, counter_field; lia|done].
    + apply (GetSmallInt_empty _ (m_clHeader ++ [","%char; counter T; ","%char;
        counter N; ","%char]) "," (d ++ "*"%char :: tail)); done || lia.
  - unfold iLen, line, rest. destruct (Z.geb_spec I 0).
    + apply (GetString_field [] (m_clHeader ++ [","%char; counter T; ","%char;
        counter N; ","%char; counter I; ","%char]) d "*" tail);
        [done|done|by left|done].
    + apply (GetString_field [] (m_clHeader ++ [","%char; counter T; ","%char;
        counter N; ","%char; ","%char]) d "*" tail); [done|done|by left|done].
Qed.

Lemma VerifyCheckSum_with tail m : 0 < zlen tail <= 100 ->
  VerifyCheckSum (sentence_with tail) m =
  Ok (true, set_checksum (xor_bytes 0 (covered (sentence_body T N I d))) m).
Proof using HT HN HI Hd Hlen.
  intros Ht. pose proof (zlen_sentence_with tail) as Hsl.
  unfold sentence_with in *. rewrite VerifyCheckSum_star; [|by apply body_no_star|lia].
  destruct (sentence_body T N I d) eqn:Eb; [done|]. rewrite <- Eb. cbv zeta.
  rewrite take_app_length' by (symmetry; apply length_FormatNmeaCheckSum,
    xor_bytes_range; lia).
  by rewrite string_eqb_refl.
Qed.

Lemma decode_line_with tail v m : 0 < zlen tail <= 100 -> exists x,
  decode_line (sentence_with tail) v m =
  Ok (Some (after_text (sentence_with tail) v), set_checksum x m).
Proof using HT HN HI Hd Hlen.
  intros Ht. pose proof (zlen_sentence_with tail) as Hsl.
  pose proof (zlen_nonneg (sentence_with tail)).
  eexists. unfold decode_line. rewrite VerifyCheckSum_with by done.
  destruct (sentence_fields tail) as (rest & Htail & Es).
  rewrite bind_Ok. cbn [negb].
  rewrite swrap_small by (lia || (unfold in_sint; lia)).
  destruct (read_fields v rest ltac:(lia))
    as (i1 & i2 & i3 & i4 & b1 & b2 & b3 & E1 & E2 & E3 & E4).
  cbv zeta in E1, E2, E3, E4. rewrite <- Es in E1, E2, E3, E4.
  assert (substr (sentence_with tail) 0 7 = Ok m_clHeader) as ->
    by (rewrite Es; apply (substr_prefix m_clHeader)).
  rewrite bind_Ok, string_eqb_refl.
  rewrite E1, bind_Ok, E2, bind_Ok, E3, bind_Ok, E4, bind_Ok. reflexivity.
Qed.

Lemma decode_line_sentence v m : exists x,
  decode_line (sentence T N I d) v m = Ok (Some (after_line v), set_checksum x m).
Proof using HT HN HI Hd Hlen.
  unfold after_line. rewrite sentence_eq. apply (decode_line_with [CR; LF]).
  by vm_compute.
Qed.
End decode_lemmas.

Lemma sentence_line T N I d : 0 <= T <= max_segments -> 0 <= N <= max_segments ->
  I <= max_segments -> Forall mail_byte d ->
  exists pre, sentence T N I d = pre ++ [LF] /\ LF ∉ pre.
Proof.
  intros HT HN HI Hd. rewrite sentence_eq.
  set (x := xor_bytes 0 _).
  assert (0 <= x < 256) as Hx by (apply xor_bytes_range; lia).
  exists (sentence_body T N I d ++ "*"%char :: FormatNmeaCheckSum x ++ [CR]).
  split.
  { rewrite <- (app_assoc _ (_ :: _)). f_equal. simpl. f_equal.
    by rewrite <- app_assoc. }
  pose proof (body_no_LF T N I d HT HN HI Hd).
  assert (LF ∉ FormatNmeaCheckSum x).
  { rewrite <- (u8_chr_small x) by done. generalize (chr x). clear.
    intros [[] [] [] [] [] [] [] []]; apply (bool_decide_eq_true_1 _); vm_compute;
      reflexivity. }
  assert (LF ∉ [CR]) by (apply (bool_decide_eq_true_1 _); vm_compute; reflexivity).
  assert (LF <> "*"%char) by done. set_solver.
Qed.

(** One turn of the loop, on a text that starts with a line. *)
Lemma decode_loop_line fuel pre post v m : LF ∉ pre ->
  zlen (pre ++ LF :: post) < 2 ^ 31 ->
  decode_loop (S fuel) (pre ++ LF :: post) v m =
  (decode_line (pre ++ [LF]) v m ≫= fun r =>
   match r with
   | (None, m) => Ok (None, m)
   | (Some v, m) => decode_loop fuel post v m
   end).
Proof.
  intros Hpre Hlen. cbn [decode_loop]. rewrite find_LF by done.
  pose proof (zlen_nonneg pre). pose proof (zlen_nonneg post).
  autorewrite with zlen in *.
  rewrite swrap_small by (lia || (unfold in_sint; lia)). cbv zeta.
  replace (zlen pre =? -1) with false by (zcase; lia).
  replace (pre ++ LF :: post) with ((pre ++ [LF]) ++ post) by by rewrite <- app_assoc.
  replace (zlen pre + 1) with (zlen (pre ++ [LF])) by zlen_lia.
  rewrite substr_prefix, bind_Ok, substr_suffix, bind_Ok by zlen_lia. done.
Qed.

Lemma decode_loop_end fuel s v m : LF ∉ s ->
  decode_loop fuel s v m = Ok (Some v, m).
Proof.
  intros H. destruct fuel; [done|]. cbn [decode_loop].
  by rewrite find_first_none by by apply not_elem_Forall.
Qed.

(** What reading the sentences of the pieces leaves. *)
Fixpoint after_lines (T N I : Z) (pieces : list (list ascii)) (v : segments) : segments :=
  match pieces with
  | [] => v
  | c :: pieces' => after_lines T (N + 1) I pieces' (after_line T N I c v)
  end.

Lemma after_lines_data T N I pieces v :
  aszNewPayload (after_lines T N I pieces v) = aszNewPayload v ++ concat pieces /\
  clNewReceivedMessage (after_lines T N I pieces v) =
    clNewReceivedMessage v ++ sentences T N I pieces.
Proof.
  revert N v. induction pieces as [|c pieces IH]; intros N v; cbn [after_lines].
  - simpl. by rewrite !app_nil_r.
  - destruct (IH (N + 1) (after_line T N I c v)) as [-> ->].
    cbn [sentences concat after_line after_text aszNewPayload clNewReceivedMessage].
    by rewrite <- !app_assoc.
Qed.

Lemma decode_loop_sentences T N I pieces post fuel v m :
  0 <= T <= max_segments -> 0 <= N -> N + zlen pieces - 1 <= max_segments ->
  I <= max_segments ->
  Forall (fun c => Forall mail_byte c /\ zlen c <= 1000) pieces ->
  zlen (sentences T N I pieces ++ post) < 2 ^ 31 ->
  exists x,
    decode_loop (length pieces + fuel) (sentences T N I pieces ++ post) v m =
    decode_loop fuel post (after_lines T N I pieces v)
      (match pieces with [] => m | _ => set_checksum x m end).
Proof.
  intros HT. revert N v m. induction pieces as [|c pieces IH];
    intros N v m HN Hlast HI Hp Hlen; [by exists 0|].
  inversion Hp as [|? ? [Hc Hcl] Hp']; subst. cbn [sentences length].
  autorewrite with zlen in Hlast. pose proof (zlen_nonneg pieces).
  destruct (sentence_line T N I c) as (pre & Es & Hpre); [done|lia|done|done|].
  cbn [sentences] in Hlen. rewrite <- !app_assoc in *. rewrite Es in *.
  rewrite <- !app_assoc in *. simpl app in *.
  change (S (length pieces) + fuel)%nat with (S (length pieces + fuel)).
  rewrite decode_loop_line by done. rewrite <- Es.
  destruct (decode_line_sentence T N I c HT ltac:(lia) HI Hc Hcl v m) as [x ->].
  rewrite bind_Ok.
  destruct (IH (N + 1) (after_line T N I c v) (set_checksum x m)) as [x' ->];
    [lia|lia|done|done| |].
  - autorewrite with zlen in *. pose proof (zlen_nonneg pre). lia.
  - exists (match pieces with [] => x | _ => x' end). by destruct pieces.
Qed.

Lemma after_lines_counters T N I pieces v : pieces <> [] ->
  iNewTotalNumberOfMessages (after_lines T N I pieces v) = read_counter T /\
  iNewSentenceNumber (after_lines T N I pieces v) =
    read_counter (N + zlen pieces - 1) /\
  iNewSequentialMessageIdentifier (after_lines T N I pieces v) =
    if I >=? 0 then read_counter I else iNewSequentialMessageIdentifier v.
Proof.
  revert N v. induction pieces as [|c [|c' pieces] IH]; intros N v H; [done|..].
  - cbn [after_lines after_line after_text iNewTotalNumberOfMessages iNewSentenceNumber
      iNewSequentialMessageIdentifier].
    split_and!; [done| |done]. f_equal. zlen_lia.
  - cbn [after_lines] in *. destruct (IH (N + 1) (after_line T N I c v)) as (-> & -> & ->);
      [done|].
    split_and!; [done|f_equal; zlen_lia|].
    cbn [after_line after_text iNewSequentialMessageIdentifier]. by destruct (I >=? 0).
Qed.

Lemma sentences_bounds T N I pieces :
  Forall (fun c => zlen c <= 1000) pieces ->
  zlen pieces <= zlen (sentences T N I pieces) <= 1030 * zlen pieces.
Proof.
  intros H. revert N. induction H as [|c pieces Hc _ IH]; intros N; [simpl; done|].
  cbn [sentences]. rewrite zlen_app, zlen_cons.
  pose proof (zlen_sentence T N I c Hc). specialize (IH (N + 1)).
  assert (1 <= zlen (sentence T N I c)); [|lia].
  rewrite sentence_eq. autorewrite with zlen.
  repeat match goal with |- context [zlen ?l] =>
    lazymatch goal with H : 0 <= zlen l |- _ => fail
    | _ => pose proof (zlen_nonneg l) end end. lia.
Qed.

Lemma chunks_mail mail : Forall mail_byte mail ->
  Forall (fun c => Forall mail_byte c /\ zlen c <= 1000) (chunks 512 mail).
Proof.
  intros Hm. pose proof (chunks_bound 512 mail ltac:(lia)) as Hb.
  rewrite <- (chunks_concat 512 mail) in Hm by lia.
  induction Hb as [|c l [_ Hc] _ IH]; [done|]. simpl in Hm.
  apply Forall_app in Hm as [??]. constructor; [|auto].
  split; [done|]. unfold zlen. lia.
Qed.

Lemma Decode_sentences mail I m : Forall mail_byte mail ->
  segment_count mail <= max_segments -> I <= max_segments ->
  let T := segment_count mail in
  let v := after_lines T 1 I (chunks 512 mail) no_segments in
  exists m', Decode (sentences T 1 I (chunks 512 mail)) m = Ok (true, m') /\
    m_aszPayload m' = mail /\
    m_clReceivedMessage m' = sentences T 1 I (chunks 512 mail) /\
    m_iTotalNumberOfMessages m' = iNewTotalNumberOfMessages v /\
    m_iSentenceNumber m' = iNewSentenceNumber v /\
    m_iSequentialMessageIdentifier m' = iNewSequentialMessageIdentifier v.
Proof.
  cbv zeta. intros Hm HT HI. pose proof (chunks_mail mail Hm) as Hc.
  set (T := segment_count mail) in *. unfold max_segments in *.
  assert (T = zlen (chunks 512 mail)) as ET by done.
  assert (Forall (fun c => zlen c <= 1000) (chunks 512 mail)) as Hc'
    by (eapply Forall_weaken; [|exact Hc]; by intros c [_ ?]).
  pose proof (sentences_bounds T 1 I _ Hc') as Hb.
  unfold Decode. set (s := sentences T 1 I (chunks 512 mail)) in *.
  set (k := (S (length s) - length (chunks 512 mail))%nat).
  replace (S (length s)) with (length (chunks 512 mail) + k)%nat
    by (unfold k, zlen in *; lia).
  replace (decode_loop (length (chunks 512 mail) + k) s)
    with (decode_loop (length (chunks 512 mail) + k) (s ++ [])) by by rewrite app_nil_r.
  unfold s.
  pose proof (zlen_nonneg (chunks 512 mail)).
  destruct (decode_loop_sentences T 1 I (chunks 512 mail) [] k no_segments m)
    as [x ->]; unfold max_segments; [lia..|done|rewrite app_nil_r; fold s; lia|].
  rewrite decode_loop_end by set_solver. rewrite bind_Ok.
  destruct (after_lines_data T 1 I (chunks 512 mail) no_segments) as [Hp Hr].
  eexists. split; [done|]. cbn. rewrite Hp, Hr. cbn.
  by rewrite chunks_concat by lia.
Qed.

(** ** Totality *)

Lemma VerifyCheckSum_total msg m : zlen msg < 2 ^ 31 ->
  exists b m', VerifyCheckSum msg m = Ok (b, m').
Proof.
  intros Hlen. destruct (split_at_first "*" msg) as (pre & tail & -> & Hp & Ht).
  apply Forall_not_elem in Hp as Hpre.
  destruct Ht as [->|[post ->]].
  - rewrite VerifyCheckSum_no_star by set_solver. eauto.
  - rewrite VerifyCheckSum_star by done. destruct pre; eauto.
Qed.

Lemma decode_line_total line v m : zlen line < 2 ^ 31 ->
  exists r m', decode_line line v m = Ok (r, m').
Proof.
  intros Hlen. pose proof (zlen_nonneg line). unfold decode_line.
  destruct (VerifyCheckSum_total line m Hlen) as (ok & m' & ->). rewrite bind_Ok.
  destruct ok; cbn [negb]; [|eauto].
  rewrite swrap_small by (lia || (unfold in_sint; lia)).
  rewrite substr_Ok, bind_Ok by lia.
  destruct (string_eqb _ m_clHeader) eqn:E; [|eauto].
  apply string_eqb_eq in E.
  assert (7 <= zlen line) as H7.
  { apply (f_equal length) in E. rewrite drop_0, length_take in E.
    change (length m_clHeader) with 7%nat in E. unfold zlen. lia. }
  destruct (GetSmallInt_total (iNewTotalNumberOfMessages v) line 8)
    as (b1 & d1 & i1 & -> & Hi1); [lia|]. rewrite bind_Ok.
  destruct (GetSmallInt_total (iNewSentenceNumber v) line i1)
    as (b2 & d2 & i2 & -> & Hi2); [lia|]. rewrite bind_Ok.
  destruct (GetSmallInt_total (iNewSequentialMessageIdentifier v) line i2)
    as (b3 & d3 & i3 & -> & Hi3); [lia|]. rewrite bind_Ok.
  unfold GetString, scan_field.
  destruct (decide (i3 <= zlen line)).
  - edestruct (scan_total) as (r & -> & _); [| |rewrite bind_Ok]; [lia|lia|].
    rewrite bind_Ok. destruct r; eauto.
  - replace (Z.to_nat (zlen line - i3)) with 0%nat by lia. cbn [scan].
    rewrite !bind_Ok. eauto.
Qed.

Lemma decode_loop_total fuel s v m : zlen s < 2 ^ 31 ->
  exists r m', decode_loop fuel s v m = Ok (r, m').
Proof.
  revert s v m. induction fuel as [|fuel IH]; intros s v m Hlen; [by eexists _, _|].
  destruct (split_at_first LF s) as (pre & tail & -> & Hp & Ht).
  apply Forall_not_elem in Hp as Hpre.
  destruct Ht as [->|[post ->]].
  - rewrite decode_loop_end by set_solver. eauto.
  - rewrite decode_loop_line by done.
    autorewrite with zlen in Hlen. pose proof (zlen_nonneg post).
    pose proof (zlen_nonneg pre).
    destruct (decode_line_total (pre ++ [LF]) v m) as ([v'|] & m' & ->);
      [zlen_lia|..]; rewrite bind_Ok; [apply IH; lia|eauto].
Qed.

(** The fuel does not matter once it exceeds the length of the text. *)
Lemma decode_loop_fuel f1 f2 s v m : zlen s < 2 ^ 31 ->
  (length s < f1)%nat -> (length s < f2)%nat ->
  decode_loop f1 s v m = decode_loop f2 s v m.
Proof.
  revert f2 s v m. induction f1 as [|f1 IH]; intros [|f2] s v m Hlen H1 H2; try lia.
  destruct (split_at_first LF s) as (pre & tail & -> & Hp & Ht).
  apply Forall_not_elem in Hp as Hpre.
  destruct Ht as [->|[post ->]].
  - by rewrite !decode_loop_end by set_solver.
  - rewrite !decode_loop_line by done.
    destruct (decode_line _ v m) as [[[v'|] m']| |]; try done.
    rewrite !bind_Ok. rewrite length_app in *. simpl in H1, H2.
    apply IH; [|lia..]. autorewrite with zlen in Hlen.
    pose proof (zlen_nonneg pre). lia.
Qed.

(** ** Properties *)

(**  Encoding: the text appended for a mail is exactly the sequence of
    sentences of its 512-byte pieces, all carrying the number of pieces,
    numbered from 1, each with its checksum; a mail that needs several pieces
    gets an identifier, and the empty mail yields no sentence. *)
Theorem PGHP2_Encode_sentences msg m :
  let mail := m_aszPayload m in
  m_iMaxContent m = 512 -> Forall mail_byte mail ->
  segment_count mail <= max_segments ->
  m_iSequentialMessageIdentifier m <= max_segments ->
  exists m', PGHP2_Encode msg m =
    Ok (msg ++ sentences (segment_count mail) 1
          (used_identifier mail (m_iSequentialMessageIdentifier m))
          (chunks 512 mail), m') /\
    m_iTotalNumberOfMessages m' = segment_count mail /\ m_aszPayload m' = mail.
Proof. apply Encode_spec. Qed.

Lemma PGHP2_Encode_sentences_witness :
  exists m', PGHP2_Encode (lit "a") (SetGHMail (replicate 600 "B"%char) new_PGHP2Message) =
    Ok (lit "a" ++ sentences 2 1 0
          [replicate 512 "B"%char; replicate 88 "B"%char], m') /\
    m_iTotalNumberOfMessages m' = 2 /\ m_aszPayload m' = replicate 600 "B"%char.
Proof.
  apply (PGHP2_Encode_sentences (lit "a")
           (SetGHMail (replicate 600 "B"%char) new_PGHP2Message)).
  - reflexivity.
  - apply Forall_replicate. unfold mail_byte. split_and!; discriminate.
  - vm_compute. discriminate.
  - vm_compute. discriminate.
Defined.

(** C24.  Round trip: a mail of any length up to the largest one the counters
    can describe, without separators and line ends, is read back unchanged
    from the sentences it was encoded to, by any receiver; when it needs at
    most nine sentences the counters read back are valid. *)
Theorem PGHP2_roundtrip mail receiver :
  Forall mail_byte mail -> segment_count mail <= max_segments ->
  exists encoded sent received,
    PGHP2_Encode [] (SetGHMail mail new_PGHP2Message) = Ok (encoded, sent) /\
    Decode encoded receiver = Ok (true, received) /\
    GetGHMail received = mail /\ m_clReceivedMessage received = encoded /\
    (1 <= segment_count mail <= 9 ->
     m_iTotalNumberOfMessages received = segment_count mail /\
     VerifyData received = true).
Proof.
  intros Hm HT.
  destruct (Encode_spec [] (SetGHMail mail new_PGHP2Message)) as (sent & E & _);
    [done|done|done|unfold max_segments; simpl; lia|].
  cbn [SetGHMail SetPayload set_payload mark SetReceivedMessageModified m_aszPayload
    m_iSequentialMessageIdentifier new_PGHP2Message app] in E.
  set (I := used_identifier mail (-1)) in *.
  assert (I = if segment_count mail >? 1 then 0 else -1) as HI
    by (unfold I, used_identifier; rewrite andb_true_r; done).
  destruct (Decode_sentences mail I receiver Hm HT) as (received & D & Hp & Hr & Ht & Hn & Hi).
  { unfold max_segments. destruct (_ >? 1); lia. }
  eexists _, sent, received. do 4 (split; [eassumption|]). intros H9.
  destruct (after_lines_counters (segment_count mail) 1 I (chunks 512 mail) no_segments)
    as (E1 & E2 & E3).
  { intros Ec. unfold segment_count in H9. rewrite Ec, zlen_nil in H9. lia. }
  rewrite E1 in Ht. rewrite E2 in Hn. rewrite E3 in Hi.
  change (zlen (chunks 512 mail)) with (segment_count mail) in Hn.
  unfold read_counter in *. rewrite counter_digit in Ht by lia.
  rewrite counter_digit in Hn by lia.
  split; [done|]. unfold VerifyData. rewrite Ht, Hn, Hi, HI.
  replace (1 + segment_count mail - 1) with (segment_count mail) by lia.
  destruct (segment_count mail >? 1); cbn; repeat zcase; try lia; done.
Qed.

Lemma PGHP2_roundtrip_witness :
  exists encoded sent received,
    PGHP2_Encode [] (SetGHMail (lit "020103") new_PGHP2Message) = Ok (encoded, sent) /\
    Decode encoded new_PGHP2Message = Ok (true, received) /\
    GetGHMail received = lit "020103" /\ m_clReceivedMessage received = encoded /\
    (1 <= segment_count (lit "020103") <= 9 ->
     m_iTotalNumberOfMessages received = segment_count (lit "020103") /\
     VerifyData received = true).
Proof.
  apply (PGHP2_roundtrip (lit "020103") new_PGHP2Message).
  - repeat constructor; discriminate.
  - vm_compute. discriminate.
Defined.

(** C39.  Totality: on every text the decoder returns a boolean; it reads only
    bytes of the text, no [substr] throws, and the loop ends before its fuel
    does, any larger amount of fuel giving the same result. *)
Theorem PGHP2_Decode_total msg m : zlen msg < 2 ^ 31 ->
  (exists b m', Decode msg m = Ok (b, m')) /\
  (forall fuel v, (length msg < fuel)%nat ->
     decode_loop fuel msg v m = decode_loop (S (length msg)) msg v m).
Proof.
  intros Hlen. split; [|intros; apply decode_loop_fuel; lia || done].
  unfold Decode.
  destruct (decode_loop_total (S (length msg)) msg no_segments m Hlen) as ([v|] & m' & ->);
    rewrite bind_Ok; eauto.
Qed.

Lemma PGHP2_Decode_total_witness :
  let msg := lit "$PGHP,2*" ++ [LF] in
  (exists b m', Decode msg new_PGHP2Message = Ok (b, m')) /\
  (forall fuel v, (length msg < fuel)%nat ->
     decode_loop fuel msg v new_PGHP2Message =
     decode_loop (S (length msg)) msg v new_PGHP2Message).
Proof. apply PGHP2_Decode_total. vm_compute. reflexivity. Defined.
