(* ===== verification/Messages.v ===== *)
(** * Mails

    The messages the program exchanges as PGHP2 mails:
    [TclAISMessageLogonRequest], [TclAISMessageLogonReply],
    [TclAISMessageLogoffRequest] and [TclAISMessageStartDataRequest]
    ([libs/gatehouse/pghplogonrequest], [pghplogonreply], [pghplogoffrequest],
    [pghpstartdatarequest], [.h] and [.cpp]): a header with the message type
    and a sequence of named fields, in hexadecimal.

    A variable of an enumeration type is the [unsigned int] it holds.  A
    [Decode] appends to the string members of its object, as [ParseString]
    does, and always returns true. *)

From S2P Require Import Prelude CppString Wire.

(** ** Enumerations *)

Inductive AisLogonVersion := LOGON_VERSION_1 | LOGON_VERSION_2 | LOGON_VERSION_3.

Definition AisLogonVersion_value (v : AisLogonVersion) : Z :=
  match v with LOGON_VERSION_1 => 0 | LOGON_VERSION_2 => 1 | LOGON_VERSION_3 => 2 end.

Inductive AisProxyType := SUBSCRIBER_PROXY | PROVIDER_PROXY.

Definition AisProxyType_value (t : AisProxyType) : Z :=
  match t with SUBSCRIBER_PROXY => 0 | PROVIDER_PROXY => 1 end.

Inductive AisLogonReply :=
  | LOGON_REPLY_OK | LOGON_REPLY_ALLREADY_CONNECTED | LOGON_REPLY_USER_INVALID
  | LOGON_REPLY_PASSWORD_INVALID | LOGON_REPLY_PASSWORD_EXPIRED
  | LOGON_REPLY_LOCKED | LOGON_REPLY_DISABLED | LOGON_REPLY_NO_LSS_GROUP
  | LOGON_REPLY_LOAD_BALANCE_MOVE | LOGON_REPLY_SERVER_BUSY.

#[export] Instance AisLogonReply_eq_dec : EqDecision AisLogonReply.
Proof. solve_decision. Defined.

Definition AisLogonReplies : list AisLogonReply :=
  [ LOGON_REPLY_OK; LOGON_REPLY_ALLREADY_CONNECTED; LOGON_REPLY_USER_INVALID;
    LOGON_REPLY_PASSWORD_INVALID; LOGON_REPLY_PASSWORD_EXPIRED;
    LOGON_REPLY_LOCKED; LOGON_REPLY_DISABLED; LOGON_REPLY_NO_LSS_GROUP;
    LOGON_REPLY_LOAD_BALANCE_MOVE; LOGON_REPLY_SERVER_BUSY ].

Definition AisLogonReply_value (r : AisLogonReply) : Z := position r AisLogonReplies.

(** The enumerator a value stands for, if any: what a [switch] on the value
    selects. *)
Definition AisLogonReply_of (value : Z) : option AisLogonReply :=
  if value <? 0 then None else AisLogonReplies !! Z.to_nat value.

Inductive AisLogoffReason := LOGOFF_REASON_NO_REASON | LOGOFF_REASON_SERVER_BUSY.

Definition AisLogoffReason_value (r : AisLogoffReason) : Z :=
  match r with LOGOFF_REASON_NO_REASON => 0 | LOGOFF_REASON_SERVER_BUSY => 1 end.

(** ** The logon request *)

Record TclAISMessageLogonRequest := {
  req_enType : Z;
  req_m_clName : list ascii;
  req_m_clPassword : list ascii;
  req_m_clVersionString : list ascii;
  req_m_clLocalUser : list ascii;
  req_m_iVersion : Z;
  req_m_iRelogon : Z;
  req_m_iProxyType : Z;
  req_m_iRetryCounter : Z }.

Definition new_LogonRequest : TclAISMessageLogonRequest := {|
  req_enType := mesg_type AISMESGINT_LOGON_REQUEST;
  req_m_clName := []; req_m_clPassword := []; req_m_clVersionString := [];
  req_m_clLocalUser := [];
  req_m_iVersion := 0; req_m_iRelogon := 0; req_m_iProxyType := 0;
  req_m_iRetryCounter := 0 |}.

Definition LogonRequest_Decode (clData : list ascii) (m : TclAISMessageLogonRequest)
    : out (bool * TclAISMessageLogonRequest) :=
  let buf := Ascii2Byte [] clData in
  r ← DecodeHeader buf 0 (req_enType m);
  let '(off, type) := r in
  r ← DecodeString buf off (req_m_clName m);
  let '(off, name) := r in
  let name := to_lower name in
  r ← DecodeString buf off (req_m_clPassword m);
  let '(off, password) := r in
  r ← DecodeInteger buf off (req_m_iVersion m);
  let '(off, version) := r in
  r ← DecodeInteger buf off (req_m_iRelogon m);
  let '(off, relogon) := r in
  r ← DecodeString buf off (req_m_clLocalUser m);
  let '(off, localUser) := r in
  r ← DecodeString buf off (req_m_clVersionString m);
  let '(off, versionString) := r in
  r ← DecodeInteger buf off (req_m_iProxyType m);
  let '(off, proxyType) := r in
  r ← DecodeInteger buf off (req_m_iRetryCounter m);
  let '(off, retryCounter) := r in
  Ok (true, {| req_enType := type; req_m_clName := name;
               req_m_clPassword := password;
               req_m_clVersionString := versionString;
               req_m_clLocalUser := localUser; req_m_iVersion := version;
               req_m_iRelogon := relogon; req_m_iProxyType := proxyType;
               req_m_iRetryCounter := retryCounter |}).

(** [to_lower( m_clName )] changes the object. *)
Definition lower_name (m : TclAISMessageLogonRequest) : TclAISMessageLogonRequest := {|
  req_enType := req_enType m; req_m_clName := to_lower (req_m_clName m);
  req_m_clPassword := req_m_clPassword m;
  req_m_clVersionString := req_m_clVersionString m;
  req_m_clLocalUser := req_m_clLocalUser m; req_m_iVersion := req_m_iVersion m;
  req_m_iRelogon := req_m_iRelogon m; req_m_iProxyType := req_m_iProxyType m;
  req_m_iRetryCounter := req_m_iRetryCounter m |}.

Definition LogonRequest_Encode (clData : list ascii) (m : TclAISMessageLogonRequest)
    : bool * list ascii * TclAISMessageLogonRequest :=
  let buf := EncodeHeader [] (req_enType m) in
  let m := lower_name m in
  let buf := EncodeString buf (lit "NAME") (req_m_clName m) in
  let buf := EncodeString buf (lit "PWD") (req_m_clPassword m) in
  let buf := EncodeInteger buf (lit "VER") (req_m_iVersion m) in
  let buf := EncodeInteger buf (lit "RLOG") (req_m_iRelogon m) in
  let buf := EncodeString buf (lit "LUSER") (req_m_clLocalUser m) in
  let buf := EncodeString buf (lit "VERSTR") (req_m_clVersionString m) in
  let buf := EncodeInteger buf (lit "TYPE") (req_m_iProxyType m) in
  let buf := EncodeInteger buf (lit "RETRY") (req_m_iRetryCounter m) in
  (true, Byte2Ascii buf clData, m).

(** ** The logon reply *)

Record TclAISMessageLogonReply := {
  rep_enType : Z;
  enLogonReply : Z;
  m_clNewHost : list ascii;
  m_iPort : Z }.

Definition new_LogonReply : TclAISMessageLogonReply := {|
  rep_enType := mesg_type AISMESGINT_LOGON_REPLY;
  enLogonReply := AisLogonReply_value LOGON_REPLY_OK;
  m_clNewHost := [];
  m_iPort := 0 |}.

Definition LogonReply_Decode (clData : list ascii) (m : TclAISMessageLogonReply)
    : out (bool * TclAISMessageLogonReply) :=
  let buf := Ascii2Byte [] clData in
  r ← DecodeHeader buf 0 (rep_enType m);
  let '(off, type) := r in
  r ← DecodeInteger buf off 0;
  let '(off, iTmp) := r in
  r ← DecodeString buf off (m_clNewHost m);
  let '(off, newHost) := r in
  r ← DecodeInteger buf off (m_iPort m);
  let '(off, port) := r in
  Ok (true, {| rep_enType := type; enLogonReply := wrap 32 iTmp;
               m_clNewHost := newHost; m_iPort := port |}).

Definition LogonReply_Encode (clData : list ascii) (m : TclAISMessageLogonReply)
    : bool * list ascii :=
  let buf := EncodeHeader [] (rep_enType m) in
  let buf := EncodeInteger buf (lit "RESULT") (swrap 32 (enLogonReply m)) in
  let buf := EncodeString buf (lit "NEWHOST") (m_clNewHost m) in
  let buf := EncodeInteger buf (lit "PORT") (m_iPort m) in
  (true, Byte2Ascii buf clData).

(** ** The logoff request *)

Record TclAISMessageLogoffRequest := { off_enType : Z; m_iReason : Z }.

Definition new_LogoffRequest : TclAISMessageLogoffRequest := {|
  off_enType := mesg_type AISMESGINT_LOGOFF_REQUEST;
  m_iReason := AisLogoffReason_value LOGOFF_REASON_NO_REASON |}.

Definition LogoffRequest_Decode (clData : list ascii) (m : TclAISMessageLogoffRequest)
    : out (bool * TclAISMessageLogoffRequest) :=
  let buf := Ascii2Byte [] clData in
  r ← DecodeHeader buf 0 (off_enType m);
  let '(off, type) := r in
  r ← DecodeInteger buf off (m_iReason m);
  let '(off, reason) := r in
  Ok (true, {| off_enType := type; m_iReason := reason |}).

Definition LogoffRequest_Encode (clData : list ascii) (m : TclAISMessageLogoffRequest)
    : bool * list ascii :=
  let buf := EncodeHeader [] (off_enType m) in
  let buf := EncodeInteger buf (lit "R") (m_iReason m) in
  (true, Byte2Ascii buf clData).

(** ** The start-data request *)

(** It has no member but its type. *)
Definition new_StartDataRequest : Z := mesg_type AISMESGINT_STARTDATA_REQUEST.

Definition StartDataRequest_Decode (clData : list ascii) (enType : Z) : out (bool * Z) :=
  let buf := Ascii2Byte [] clData in
  r ← DecodeHeader buf 0 enType;
  let '(off, type) := r in Ok (true, type).

Definition StartDataRequest_Encode (clData : list ascii) (enType : Z)
    : bool * list ascii :=
  (true, Byte2Ascii (EncodeHeader [] enType) clData).

(** ** Fields as blocks of bytes *)

Definition string_block (name s : list ascii) : list ascii :=
  encoded_string ASN_STR name ++ encoded_string ASN_STR s.

Definition int_block (name : list ascii) (n : Z) : list ascii :=
  encoded_string ASN_STR name ++ encoded_int ASN_INTEGER n.

(** The rest of the buffer [d] at the offset [off] is [rest]. *)
Definition at_offset (d : list ascii) (off : Z) (rest : list ascii) : Prop :=
  exists pre, d = pre ++ rest /\ off = zlen pre.

(** An integer the encoder gets right. *)
Definition encodable (n : Z) : Prop := in_sint 32 n /\ (n < - 2 ^ 23 \/ 0 <= n).

Lemma decoded_encodable n : encodable n -> decoded n = n.
Proof.
  intros [_ H]. unfold decoded.
  destruct (Z.leb_spec (- 2 ^ 23) n), (Z.ltb_spec n 0); simpl; lia.
Qed.

Lemma at_start d : at_offset d 0 d.
Proof. by exists []. Qed.

Lemma at_next d off a rest : at_offset d off (a ++ rest) ->
  at_offset d (off + zlen a) rest.
Proof.
  intros (pre & -> & ->). exists (pre ++ a). split; [by rewrite app_assoc|].
  by rewrite zlen_app.
Qed.

Lemma at_bound d off rest : at_offset d off rest -> off + zlen rest = zlen d /\ 0 <= off.
Proof. intros (pre & -> & ->). rewrite zlen_app. pose proof (zlen_nonneg pre). lia. Qed.

Lemma ParseString_at d off t s rest t0 s0 : 0 <= t < 256 -> zlen d <= 32767 ->
  at_offset d off (encoded_string t s ++ rest) ->
  ParseString d off t0 s0 = Ok (true, off + zlen (encoded_string t s), t, s0 ++ s).
Proof.
  intros Ht Hd (pre & -> & ->). pose proof (zlen_nonneg rest).
  rewrite ParseString_encoded; [by rewrite zlen_app|done|].
  autorewrite with zlen in *. lia.
Qed.

Lemma ParseInt_at d off t n rest t0 n0 : 0 <= t < 256 -> encodable n ->
  zlen d <= 32767 -> at_offset d off (encoded_int t n ++ rest) ->
  ParseInt d off t0 n0 = Ok (true, off + zlen (encoded_int t n), t, n).
Proof.
  intros Ht Hn Hd (pre & -> & ->). pose proof (zlen_nonneg rest).
  rewrite ParseInt_encoded; [by rewrite zlen_app, decoded_encodable|done|apply Hn|].
  autorewrite with zlen in *. lia.
Qed.

Section blocks.
Context (d : list ascii).
Hypothesis Hd : zlen d <= 32767.

Lemma DecodeString_at off name s rest s0 :
at_offset d off (string_block name s ++ rest) ->
exists off', DecodeString d off s0 = Ok (off', s0 ++ s) /\ at_offset d off' rest.
Proof using Hd.
unfold string_block. rewrite <- app_assoc. intros Hat. unfold DecodeString.
erewrite (ParseString_at _ _ ASN_STR); [|unfold ASN_STR; lia|done|exact Hat].
rewrite bind_Ok. apply at_next in Hat.
erewrite (ParseString_at _ _ ASN_STR); [|unfold ASN_STR; lia|done|exact Hat].
rewrite bind_Ok. eexists. split; [done|]. by apply at_next.
Qed.

Lemma DecodeInteger_at off name n rest n0 : encodable n ->
at_offset d off (int_block name n ++ rest) ->
exists off', DecodeInteger d off n0 = Ok (off', n) /\ at_offset d off' rest.
Proof using Hd.
intros Hn. unfold int_block. rewrite <- app_assoc. intros Hat. unfold DecodeInteger.
erewrite (ParseString_at _ _ ASN_STR); [|unfold ASN_STR; lia|done|exact Hat].
rewrite bind_Ok. apply at_next in Hat.
erewrite (ParseInt_at _ _ ASN_INTEGER); [|unfold ASN_INTEGER; lia|done|done|exact Hat].
rewrite bind_Ok. eexists. split; [done|]. by apply at_next.
Qed.

Lemma DecodeHeader_at off type rest : encodable type -> 0 <= type ->
at_offset d off (encoded_int ASN_INTEGER type ++ rest) ->
forall enType, exists off',
  DecodeHeader d off enType =
    Ok (off', if enType =? mesg_type AISMESGINT_UNKNOWN then type else enType) /\
  at_offset d off' rest.
Proof using Hd.
intros Ht Hp Hat enType. unfold DecodeHeader.
erewrite (ParseInt_at _ _ ASN_INTEGER); [|unfold ASN_INTEGER; lia|done|done|exact Hat].
rewrite bind_Ok. eexists. split; [|by apply at_next].
destruct Ht as [[_ Ht] _]. change (2 ^ (32 - 1)) with (2 ^ 31) in Ht.
by rewrite wrap_small by (unfold in_uint; lia).
Qed.
End blocks.

Lemma EncodeString_block d name s : zlen name < 2 ^ 32 -> zlen s < 2 ^ 32 ->
  EncodeString d name s = d ++ string_block name s.
Proof.
  intros. unfold EncodeString, string_block.
  by rewrite !BuildString_spec, app_assoc by done.
Qed.

Lemma EncodeInteger_block d name n : zlen name < 2 ^ 32 -> in_sint 32 n ->
  EncodeInteger d name n = d ++ int_block name n.
Proof.
  intros. unfold EncodeInteger, int_block.
  by rewrite BuildString_spec, BuildInt_spec, app_assoc by done.
Qed.

Lemma EncodeHeader_block type : encodable type ->
  EncodeHeader [] type = encoded_int ASN_INTEGER type.
Proof.
  intros [Ht _]. unfold EncodeHeader. rewrite swrap_small by (lia || done).
  by rewrite BuildInt_spec by done.
Qed.

Lemma zlen_encoded_length n : zlen (encoded_length n) <= 3.
Proof. unfold encoded_length, BuildLength. repeat case_match; done. Qed.

Lemma zlen_encoded_string t s : zlen (encoded_string t s) <= zlen s + 4.
Proof.
  unfold encoded_string. autorewrite with zlen.
  pose proof (zlen_encoded_length (zlen s)). lia.
Qed.

Lemma zlen_encoded_int t n : zlen (encoded_int t n) <= 6.
Proof.
  unfold encoded_int. cbv zeta. autorewrite with zlen. unfold zlen.
  rewrite length_be. pose proof (int_size_range (decoded n)). lia.
Qed.

Lemma zlen_string_block name s : zlen (string_block name s) <= zlen name + zlen s + 8.
Proof.
  unfold string_block. rewrite zlen_app.
  pose proof (zlen_encoded_string ASN_STR name).
  pose proof (zlen_encoded_string ASN_STR s). lia.
Qed.

Lemma zlen_int_block name n : zlen (int_block name n) <= zlen name + 10.
Proof.
  unfold int_block. rewrite zlen_app. pose proof (zlen_encoded_string ASN_STR name).
  pose proof (zlen_encoded_int ASN_INTEGER n). lia.
Qed.

Lemma to_lower_idem s : to_lower (to_lower s) = to_lower s.
Proof.
  unfold to_lower. rewrite <- list_fmap_compose. apply list_fmap_ext.
  intros _ [[] [] [] [] [] [] [] []] _; reflexivity.
Qed.

Lemma zlen_to_lower s : zlen (to_lower s) = zlen s.
Proof. unfold zlen, to_lower. by rewrite length_fmap. Qed.

(** Decode one field of a buffer whose rest is known, and continue. *)
Ltac field :=
  let E := fresh in let o := fresh "off" in let Hat' := fresh "Hat" in
  match goal with
  | Hd : zlen ?d <= 32767, Hat : at_offset ?d ?off (string_block ?n ?s ++ ?r)
    |- context [DecodeString ?d ?off ?s0] =>
      destruct (DecodeString_at d Hd off n s r s0 Hat) as (o & E & Hat');
      rewrite E, bind_Ok; clear Hat E
  | Hd : zlen ?d <= 32767, Hat : at_offset ?d ?off (int_block ?n ?k ++ ?r)
    |- context [DecodeInteger ?d ?off ?n0] =>
      destruct (DecodeInteger_at d Hd off n k r n0 ltac:(assumption) Hat)
        as (o & E & Hat');
      rewrite E, bind_Ok; clear Hat E
  | Hd : zlen ?d <= 32767, Hat : at_offset ?d ?off (encoded_int ASN_INTEGER ?k ++ ?r)
    |- context [DecodeHeader ?d ?off ?t] =>
      destruct (DecodeHeader_at d Hd off k r ltac:(assumption) ltac:(assumption) Hat t)
        as (o & E & Hat');
      rewrite E, bind_Ok; clear Hat E
  end.

Lemma encodable_small n : 0 <= n < 2 ^ 31 -> encodable n.
Proof. unfold encodable, in_sint. lia. Qed.

Lemma encodable_type t : encodable (mesg_type t).
Proof. apply encodable_small. by destruct t. Qed.

#[export] Hint Resolve encodable_type : uniproxy.

(** The bytes of the four messages. *)
Definition LogonRequest_bytes (m : TclAISMessageLogonRequest) : list ascii :=
  encoded_int ASN_INTEGER (req_enType m)
  ++ string_block (lit "NAME") (to_lower (req_m_clName m))
  ++ string_block (lit "PWD") (req_m_clPassword m)
  ++ int_block (lit "VER") (req_m_iVersion m)
  ++ int_block (lit "RLOG") (req_m_iRelogon m)
  ++ string_block (lit "LUSER") (req_m_clLocalUser m)
  ++ string_block (lit "VERSTR") (req_m_clVersionString m)
  ++ int_block (lit "TYPE") (req_m_iProxyType m)
  ++ int_block (lit "RETRY") (req_m_iRetryCounter m) ++ [].

Definition LogonReply_bytes (m : TclAISMessageLogonReply) : list ascii :=
  encoded_int ASN_INTEGER (rep_enType m)
  ++ int_block (lit "RESULT") (enLogonReply m)
  ++ string_block (lit "NEWHOST") (m_clNewHost m)
  ++ int_block (lit "PORT") (m_iPort m) ++ [].

(** The members a request may have: the integers the encoder gets right and
    strings that leave the offsets in range. *)
Definition LogonRequest_ok (m : TclAISMessageLogonRequest) : Prop :=
  req_enType m = mesg_type AISMESGINT_LOGON_REQUEST /\
  encodable (req_m_iVersion m) /\ encodable (req_m_iRelogon m) /\
  encodable (req_m_iProxyType m) /\ encodable (req_m_iRetryCounter m) /\
  zlen (req_m_clName m) + zlen (req_m_clPassword m) +
  zlen (req_m_clLocalUser m) + zlen (req_m_clVersionString m) <= 32000.

Lemma LogonRequest_Encode_bytes m clData : LogonRequest_ok m ->
  LogonRequest_Encode clData m =
  (true, clData ++ Byte2Ascii (LogonRequest_bytes m) [], lower_name m) /\
  zlen (LogonRequest_bytes m) <= 32767.
Proof.
  intros (Ht & Hv & Hr & Hp & Hc & Hlen).
  pose proof (zlen_nonneg (req_m_clName m)).
  pose proof (zlen_nonneg (req_m_clPassword m)).
  pose proof (zlen_nonneg (req_m_clLocalUser m)).
  pose proof (zlen_nonneg (req_m_clVersionString m)).
  split.
  - unfold LogonRequest_Encode, LogonRequest_bytes. cbn [lower_name req_m_clName
      req_m_clPassword req_m_iVersion req_m_iRelogon req_m_clLocalUser
      req_m_clVersionString req_m_iProxyType req_m_iRetryCounter].
    rewrite EncodeHeader_block by (rewrite Ht; apply encodable_type).
    rewrite !EncodeString_block by (rewrite ?zlen_to_lower; lia || done).
    rewrite !EncodeInteger_block by (lia || done || apply Hv || apply Hr
      || apply Hp || apply Hc).
    rewrite Byte2Ascii_app, <- !app_assoc, app_nil_r. done.
  - unfold LogonRequest_bytes. rewrite !zlen_app, zlen_nil.
    pose proof (zlen_encoded_int ASN_INTEGER (req_enType m)).
    pose proof (zlen_string_block (lit "NAME") (to_lower (req_m_clName m))) as Hname.
    pose proof (zlen_string_block (lit "PWD") (req_m_clPassword m)).
    pose proof (zlen_int_block (lit "VER") (req_m_iVersion m)).
    pose proof (zlen_int_block (lit "RLOG") (req_m_iRelogon m)).
    pose proof (zlen_string_block (lit "LUSER") (req_m_clLocalUser m)).
    pose proof (zlen_string_block (lit "VERSTR") (req_m_clVersionString m)).
    pose proof (zlen_int_block (lit "TYPE") (req_m_iProxyType m)).
    pose proof (zlen_int_block (lit "RETRY") (req_m_iRetryCounter m)).
    rewrite zlen_to_lower in Hname.
    change (zlen (lit ?s)) with (Z.of_nat (String.length s)) in *. simpl in *. lia.
Qed.

Lemma LogonReply_Encode_bytes m clData :
  rep_enType m = mesg_type AISMESGINT_LOGON_REPLY ->
  0 <= enLogonReply m < 2 ^ 31 -> encodable (m_iPort m) -> zlen (m_clNewHost m) <= 32000 ->
  LogonReply_Encode clData m = (true, clData ++ Byte2Ascii (LogonReply_bytes m) []) /\
  zlen (LogonReply_bytes m) <= 32767.
Proof.
  intros Ht Hr Hp Hlen. split.
  - unfold LogonReply_Encode, LogonReply_bytes.
    rewrite swrap_small by (lia || (unfold in_sint; lia)).
    rewrite EncodeHeader_block by (rewrite Ht; apply encodable_type).
    rewrite !EncodeInteger_block by (done || apply Hp || (unfold in_sint; lia)).
    rewrite EncodeString_block by (lia || done).
    rewrite Byte2Ascii_app, <- !app_assoc, app_nil_r. done.
  - unfold LogonReply_bytes. rewrite !zlen_app, zlen_nil.
    pose proof (zlen_encoded_int ASN_INTEGER (rep_enType m)).
    pose proof (zlen_int_block (lit "RESULT") (enLogonReply m)).
    pose proof (zlen_string_block (lit "NEWHOST") (m_clNewHost m)).
    pose proof (zlen_int_block (lit "PORT") (m_iPort m)).
    change (zlen (lit ?s)) with (Z.of_nat (String.length s)) in *. simpl in *. lia.
Qed.

Lemma LogonReply_Decode_bytes m receiver :
  rep_enType m = mesg_type AISMESGINT_LOGON_REPLY ->
  0 <= enLogonReply m < 2 ^ 31 -> encodable (m_iPort m) ->
  zlen (LogonReply_bytes m) <= 32767 ->
  LogonReply_Decode (Byte2Ascii (LogonReply_bytes m) []) receiver =
  Ok (true, {| rep_enType := if rep_enType receiver =? mesg_type AISMESGINT_UNKNOWN
                             then rep_enType m else rep_enType receiver;
               enLogonReply := enLogonReply m;
               m_clNewHost := m_clNewHost receiver ++ m_clNewHost m;
               m_iPort := m_iPort m |}).
Proof.
  intros Ht Hr Hp Hd. unfold LogonReply_Decode. rewrite Ascii2Byte_Byte2Ascii.
  rewrite app_nil_l. set (d := LogonReply_bytes m) in *.
  assert (at_offset d 0 (LogonReply_bytes m)) as Hat by apply at_start.
  unfold LogonReply_bytes in Hat. clearbody d.
  assert (encodable (enLogonReply m)) by (apply encodable_small; lia).
  assert (encodable (rep_enType m)) by (rewrite Ht; auto with uniproxy).
  assert (0 <= rep_enType m) by by rewrite Ht.
  do 4 field. rewrite wrap_small by (unfold in_uint; lia). done.
Qed.

(** ** Properties *)

(** The logon request: what [Encode] writes for a request is read by a
    fresh request as the same request, its name in lower case, for every
    version, counter and type the integer codec preserves and strings of up to
    32000 bytes together. *)
Theorem LogonRequest_roundtrip m : LogonRequest_ok m ->
  exists text, LogonRequest_Encode [] m = (true, text, lower_name m) /\
    LogonRequest_Decode text new_LogonRequest = Ok (true, lower_name m).
Proof.
  intros Hok. destruct (LogonRequest_Encode_bytes m [] Hok) as [-> Hd].
  eexists. split; [done|]. destruct Hok as (Ht & Hv & Hr & Hp & Hc & _).
  unfold LogonRequest_Decode. rewrite app_nil_l, Ascii2Byte_Byte2Ascii, app_nil_l.
  set (d := LogonRequest_bytes m) in *.
  assert (at_offset d 0 (LogonRequest_bytes m)) as Hat by apply at_start.
  unfold LogonRequest_bytes in Hat. clearbody d.
  assert (encodable (req_enType m)) by (rewrite Ht; auto with uniproxy).
  assert (0 <= req_enType m) by by rewrite Ht.
  do 9 field. cbv zeta. cbn [app new_LogonRequest req_enType req_m_clName
    req_m_clPassword req_m_clLocalUser req_m_clVersionString].
  rewrite to_lower_idem. unfold lower_name. by rewrite Ht.
Qed.

Lemma LogonRequest_roundtrip_witness :
  let m := {| req_enType := 1; req_m_clName := lit "User"; req_m_clPassword := lit "pw";
              req_m_clVersionString := lit "1.0"; req_m_clLocalUser := lit "?";
              req_m_iVersion := 2; req_m_iRelogon := 0; req_m_iProxyType := 0;
              req_m_iRetryCounter := 2 |} in
  exists text, LogonRequest_Encode [] m = (true, text, lower_name m) /\
    LogonRequest_Decode text new_LogonRequest = Ok (true, lower_name m).
Proof.
  apply LogonRequest_roundtrip. unfold LogonRequest_ok, encodable, in_sint. simpl.
  split_and!; try lia; try reflexivity; try (right; lia); vm_compute; discriminate.
Defined.

(**  The logon reply: a reply is read back with its code and port; the new
    host is appended to the one the reading object held, so that only a fresh
    object gets the host that was sent. *)
Theorem LogonReply_roundtrip m receiver :
  rep_enType m = mesg_type AISMESGINT_LOGON_REPLY ->
  0 <= enLogonReply m < 2 ^ 31 -> encodable (m_iPort m) ->
  zlen (m_clNewHost m) <= 32000 ->
  exists text, LogonReply_Encode [] m = (true, text) /\
    LogonReply_Decode text new_LogonReply = Ok (true, m) /\
    exists received, LogonReply_Decode text receiver = Ok (true, received) /\
      enLogonReply received = enLogonReply m /\ m_iPort received = m_iPort m /\
      m_clNewHost received = m_clNewHost receiver ++ m_clNewHost m.
Proof.
  intros Ht Hr Hp Hlen.
  destruct (LogonReply_Encode_bytes m [] Ht Hr Hp Hlen) as [-> Hd].
  eexists. split; [done|]. rewrite app_nil_l.
  split; [|eexists; split; [by apply LogonReply_Decode_bytes|done]].
  rewrite LogonReply_Decode_bytes by done. cbn. destruct m; simpl in *. by subst.
Qed.

Lemma LogonReply_roundtrip_witness :
  let m := {| rep_enType := 2; enLogonReply := 3; m_clNewHost := lit "h"; m_iPort := 99 |} in
  exists text, LogonReply_Encode [] m = (true, text) /\
    LogonReply_Decode text new_LogonReply = Ok (true, m) /\
    exists received, LogonReply_Decode text m = Ok (true, received) /\
      enLogonReply received = 3 /\ m_iPort received = 99 /\
      m_clNewHost received = lit "hh".
Proof.
  intros m. apply (LogonReply_roundtrip m m).
  - reflexivity.
  - simpl. lia.
  - apply encodable_small. simpl. lia.
  - vm_compute. discriminate.
Defined.
