(* ===== verification/ProxyFilter.v ===== *)
(** * The proxy filter mail

    [TclAISMessageProxyFilter] ([libs/gatehouse/pghpproxyfilter.h], [.cpp]) and
    the lists in text it is made of: [CreateVectorValue], [SplitVectorValue]
    and [Tokenize] ([libs/gatehouse/pghpxmlutil.h], [.cpp]).

    [boost::tokenizer] with [keep_empty_tokens] and [boost::lexical_cast] are
    parameters, and so is the type [double] with its printing.  Members the
    constructor leaves uninitialised are arguments of it.  An exception leaves
    the object in a state no caller looks at. *)

From S2P Require Import Prelude CppString Wire Messages.

Section VectorText.
(** [tokens] is the tokenizer over [";"]. *)
Context (tokens : list ascii -> list (list ascii)).

(** [std::copy] to an [ostream_iterator] with the delimiter [";"]. *)
Definition CreateVectorValue {A} (show : A -> list ascii) (v : list A) : list ascii :=
concat ((fun a => show a ++ [";"%char]) <$> v).

Fixpoint cast_tokens {A} (cast : list ascii -> out A) (ts : list (list ascii))
  (acc : list A) : out (list A) :=
match ts with
| [] => Ok acc
| t :: ts' => a ← cast t; cast_tokens cast ts' (acc ++ [a])
end.

(** Whether the last token is empty. *)
Definition lastEmpty (ts : list (list ascii)) : bool :=
match rev ts with [] :: _ => true | _ => false end.

(** The body the specialisations share: [pop_back] of an empty last item. *)
Definition SplitVectorValue {A} (cast : list ascii -> out A) (s : list ascii)
  (v : list A) : out (list A) :=
let ts := tokens s in
v ← cast_tokens cast ts v;
Ok (if lastEmpty ts then take (length v - 1) v else v).

(** The specialisations: [bool] tests the integer, [double] casts to [float]. *)
Definition SplitVectorValue_int (cast_int : list ascii -> out Z) (s : list ascii)
  (v : list Z) : out (list Z) := SplitVectorValue cast_int s v.

Definition SplitVectorValue_bool (cast_int : list ascii -> out Z) (s : list ascii)
  (v : list bool) : out (list bool) :=
SplitVectorValue (fun t => n ← cast_int t; Ok (negb (n =? 0))) s v.

Definition SplitVectorValue_float {F} (cast_float : list ascii -> out F)
  (s : list ascii) (v : list F) : out (list F) := SplitVectorValue cast_float s v.

Definition SplitVectorValue_double {F} (cast_float : list ascii -> out F)
  (s : list ascii) (v : list F) : out (list F) := SplitVectorValue cast_float s v.

(** [Tokenize]. *)
Definition Tokenize (s : list ascii) (v : list (list ascii)) : list (list ascii) :=
let ts := tokens s in
let v := v ++ ts in
if lastEmpty ts then take (length v - 1) v else v.
Definition SplitVectorValue_string (s : list ascii) (v : list (list ascii))
  : list (list ascii) := Tokenize s v.
End VectorText.

Section ProxyFilter.
Context (tokens : list ascii -> list (list ascii)).
Context (lexical_cast_int : list ascii -> out Z).
Context (double : Type) (show_double : double -> list ascii).
(** [lexical_cast<float>], widened. *)
Context (lexical_cast_float : list ascii -> out double).

Record TclAISMessageProxyFilter := {
pf_enType : Z;
m_fTimeStamp : bool;
m_iUpdateInterval : Z;
m_clMessageTypes : list Z;
m_fMessageTypesDefined : bool;
m_clPredefinedAreas : list (list ascii);
m_fPredefinedAreasDefined : bool;
m_clUserDefinedArea : list double;
m_fUserDefinedAreaDefined : bool;
m_clMMSIList : list Z;
m_fIncludeMMSIListContent : bool;
m_fMMSIListDefined : bool }.

Definition new_ProxyFilter (ts : bool) (ui : Z) (msgsd pad uaread mlc mld : bool)
  : TclAISMessageProxyFilter := {|
pf_enType := mesg_type AISMESGINT_PROXY_FILTER;
m_fTimeStamp := ts; m_iUpdateInterval := ui; m_clMessageTypes := [];
m_fMessageTypesDefined := msgsd; m_clPredefinedAreas := [];
m_fPredefinedAreasDefined := pad; m_clUserDefinedArea := [];
m_fUserDefinedAreaDefined := uaread; m_clMMSIList := [];
m_fIncludeMMSIListContent := mlc; m_fMMSIListDefined := mld |}.

Definition to_bool (n : Z) : bool := negb (n =? 0).
Definition of_bool (b : bool) : Z := if b then 1 else 0.

Definition ProxyFilter_Decode (clData : list ascii) (m : TclAISMessageProxyFilter)
  : out (bool * TclAISMessageProxyFilter) :=
let buf := Ascii2Byte [] clData in
r ← DecodeHeader buf 0 (pf_enType m);
let '(off, type) := r in
r ← DecodeInteger buf off 0;
let '(off, iBool) := r in
let timeStamp := to_bool iBool in
r ← DecodeInteger buf off (m_iUpdateInterval m);
let '(off, updateInterval) := r in
r ← DecodeString buf off [];
let '(off, clMsgVector) := r in
messageTypes ← SplitVectorValue_int tokens lexical_cast_int clMsgVector
                 (m_clMessageTypes m);
r ← DecodeInteger buf off iBool;
let '(off, iBool) := r in
let messageTypesDefined := to_bool iBool in
r ← DecodeString buf off [];
let '(off, clMMSIVector) := r in
mmsiList ← SplitVectorValue_int tokens lexical_cast_int clMMSIVector (m_clMMSIList m);
r ← DecodeInteger buf off iBool;
let '(off, iBool) := r in
let mmsiListDefined := to_bool iBool in
r ← DecodeInteger buf off iBool;
let '(off, iBool) := r in
let includeMMSIListContent := to_bool iBool in
r ← DecodeString buf off [];
let '(off, clUAreaVector) := r in
area ← SplitVectorValue_double tokens lexical_cast_float clUAreaVector
         (m_clUserDefinedArea m);
r ← DecodeInteger buf off iBool;
let '(off, iBool) := r in
let userDefinedAreaDefined := to_bool iBool in
Ok (true, {| pf_enType := type; m_fTimeStamp := timeStamp;
             m_iUpdateInterval := updateInterval;
             m_clMessageTypes := messageTypes;
             m_fMessageTypesDefined := messageTypesDefined;
             m_clPredefinedAreas := m_clPredefinedAreas m;
             m_fPredefinedAreasDefined := m_fPredefinedAreasDefined m;
             m_clUserDefinedArea := area;
             m_fUserDefinedAreaDefined := userDefinedAreaDefined;
             m_clMMSIList := mmsiList;
             m_fIncludeMMSIListContent := includeMMSIListContent;
             m_fMMSIListDefined := mmsiListDefined |}).

Definition ProxyFilter_Encode (clData : list ascii) (m : TclAISMessageProxyFilter)
  : bool * list ascii :=
let buf := EncodeHeader [] (pf_enType m) in
let buf := EncodeInteger buf (lit "TS") (of_bool (m_fTimeStamp m)) in
let buf := EncodeInteger buf (lit "UI") (m_iUpdateInterval m) in
let buf := EncodeString buf (lit "MSGS")
             (CreateVectorValue to_string (m_clMessageTypes m)) in
let buf := EncodeInteger buf (lit "MESGD") (of_bool (m_fMessageTypesDefined m)) in
let buf := EncodeString buf (lit "ML")
             (CreateVectorValue to_string (m_clMMSIList m)) in
let buf := EncodeInteger buf (lit "MLD") (of_bool (m_fMMSIListDefined m)) in
let buf := EncodeInteger buf (lit "MLC") (of_bool (m_fIncludeMMSIListContent m)) in
let buf := EncodeString buf (lit "UAREA")
             (CreateVectorValue show_double (m_clUserDefinedArea m)) in
let buf := EncodeInteger buf (lit "UAREAD") (of_bool (m_fUserDefinedAreaDefined m)) in
(true, Byte2Ascii buf clData).

(** ** Lemmas *)

(** Every delimiter ends a token, and what follows the last is a token too:
  what the tokenizer's documentation says of [keep_empty_tokens]. *)
Fixpoint split_keep (item s : list ascii) : list (list ascii) :=
match s with
| [] => [item]
| c :: s' => if Ascii.eqb c ";" then item :: split_keep [] s'
             else split_keep (item ++ [c]) s'
end.

Hypothesis tokens_doc : forall s, tokens s = split_keep [] s.
Hypothesis cast_digits : forall n, in_sint 32 n -> lexical_cast_int (to_string n) = Ok n.
Hypothesis cast_empty : lexical_cast_int [] = Throw BadCast.

Lemma split_keep_item item s rest : (";" : ascii) ∉ s ->
split_keep item (s ++ ";"%char :: rest) = (item ++ s) :: split_keep [] rest.
Proof.
revert item. induction s as [|c s IH]; intros item Hs; cbn [app split_keep].
- by rewrite Ascii.eqb_refl, app_nil_r.
- destruct (Ascii.eqb_spec c ";") as [->|]; [set_solver|].
  rewrite IH by set_solver. by rewrite <- app_assoc.
Qed.

Lemma tokens_created {A} (show : A -> list ascii) v :
Forall (fun a => (";" : ascii) ∉ show a) v ->
split_keep [] (CreateVectorValue show v) = (show <$> v) ++ [[]].
Proof.
unfold CreateVectorValue. induction 1 as [|a v Ha _ IH]; [done|].
cbn [fmap list_fmap concat]. rewrite <- app_assoc. simpl app at 2.
rewrite split_keep_item by done. cbn [app]. f_equal. exact IH.
Qed.

Lemma digits_no_semicolon fuel n acc : 0 <= n -> (";" : ascii) ∉ acc ->
(";" : ascii) ∉ digits fuel n acc.
Proof.
revert n acc. induction fuel as [|fuel IH]; intros n acc Hn Hacc; [done|].
change (digits (S fuel) n acc) with
  (if n / 10 =? 0 then digit (n mod 10) :: acc
   else digits fuel (n / 10) (digit (n mod 10) :: acc)).
assert (digit (n mod 10) <> ";"%char) as Hd.
{ intros E. apply (f_equal u8) in E. unfold digit in E.
  rewrite u8_chr_small in E by divlia. change (u8 ";") with 59 in E. divlia. }
destruct (n / 10 =? 0); [set_solver|]. apply IH; [divlia|set_solver].
Qed.

Lemma to_string_no_semicolon n : (";" : ascii) ∉ to_string n.
Proof.
unfold to_string. zcase.
- assert (chr 45 <> ";"%char) by done.
  pose proof (digits_no_semicolon 20 (- n) [] ltac:(lia)). set_solver.
- apply digits_no_semicolon; [lia|set_solver].
Qed.

(** The list a filter writes ends in a delimiter, so its last token is empty,
  and an empty token is no number. *)
Lemma SplitVectorValue_created v acc : Forall (in_sint 32) v ->
SplitVectorValue tokens lexical_cast_int (CreateVectorValue to_string v) acc =
Throw BadCast.
Proof.
intros Hv. unfold SplitVectorValue. rewrite tokens_doc, tokens_created.
2: { clear Hv. induction v; constructor; [apply to_string_no_semicolon|done]. }
assert (forall acc, cast_tokens lexical_cast_int ((to_string <$> v) ++ [[]]) acc
  = Throw BadCast) as ->; [|done].
clear acc. induction Hv as [|n v Hn _ IH]; intros acc; cbn [fmap list_fmap app cast_tokens].
- by rewrite cast_empty.
- rewrite cast_digits, bind_Ok by done. apply IH.
Qed.

Definition ProxyFilter_prefix (m : TclAISMessageProxyFilter) : list ascii :=
encoded_int ASN_INTEGER (pf_enType m)
++ int_block (lit "TS") (of_bool (m_fTimeStamp m))
++ int_block (lit "UI") (m_iUpdateInterval m)
++ string_block (lit "MSGS") (CreateVectorValue to_string (m_clMessageTypes m)).

Definition ProxyFilter_suffix (m : TclAISMessageProxyFilter) : list ascii :=
int_block (lit "MESGD") (of_bool (m_fMessageTypesDefined m))
++ string_block (lit "ML") (CreateVectorValue to_string (m_clMMSIList m))
++ int_block (lit "MLD") (of_bool (m_fMMSIListDefined m))
++ int_block (lit "MLC") (of_bool (m_fIncludeMMSIListContent m))
++ string_block (lit "UAREA") (CreateVectorValue show_double (m_clUserDefinedArea m))
++ int_block (lit "UAREAD") (of_bool (m_fUserDefinedAreaDefined m)).

(** A filter whose integers the codec preserves and whose mail the offsets
  reach. *)
Definition ProxyFilter_ok (m : TclAISMessageProxyFilter) : Prop :=
pf_enType m = mesg_type AISMESGINT_PROXY_FILTER /\
encodable (m_iUpdateInterval m) /\ Forall (in_sint 32) (m_clMessageTypes m) /\
zlen (CreateVectorValue to_string (m_clMessageTypes m)) < 2 ^ 32 /\
zlen (CreateVectorValue to_string (m_clMMSIList m)) < 2 ^ 32 /\
zlen (CreateVectorValue show_double (m_clUserDefinedArea m)) < 2 ^ 32 /\
zlen (ProxyFilter_prefix m ++ ProxyFilter_suffix m) <= 32767.

Lemma encodable_bool b : encodable (of_bool b).
Proof. apply encodable_small. by destruct b. Qed.

Lemma ProxyFilter_Encode_bytes m clData : ProxyFilter_ok m ->
ProxyFilter_Encode clData m =
(true, clData ++ Byte2Ascii (ProxyFilter_prefix m ++ ProxyFilter_suffix m) []).
Proof.
intros (Ht & Hui & _ & H1 & H2 & H3 & _).
unfold ProxyFilter_Encode, ProxyFilter_prefix, ProxyFilter_suffix.
rewrite EncodeHeader_block by (rewrite Ht; apply encodable_type).
rewrite !EncodeInteger_block by (done || apply encodable_bool || apply Hui).
rewrite !EncodeString_block by done.
rewrite Byte2Ascii_app, <- !app_assoc. done.
Qed.

(**  The lists of the filter mail cannot be read back: for every filter,
  [Decode] of the mail its own [Encode] wrote throws [bad_lexical_cast],
  because the list of message types ends in a delimiter and the empty token
  after it is cast before it is dropped. *)
Theorem ProxyFilter_Decode_throws m receiver text :
ProxyFilter_ok m -> ProxyFilter_Encode [] m = (true, text) ->
ProxyFilter_Decode text receiver = Throw BadCast.
Proof using tokens_doc cast_digits cast_empty.
intros Hok. rewrite ProxyFilter_Encode_bytes by done. intros E.
assert (text = [] ++ Byte2Ascii (ProxyFilter_prefix m ++ ProxyFilter_suffix m) [])
  as -> by (by injection E). clear E.
destruct Hok as (Ht & Hui & Hm & _ & _ & _ & Hd).
unfold ProxyFilter_Decode. rewrite app_nil_l, Ascii2Byte_Byte2Ascii, app_nil_l.
set (d := ProxyFilter_prefix m ++ ProxyFilter_suffix m) in *.
assert (at_offset d 0 (ProxyFilter_prefix m ++ ProxyFilter_suffix m)) as Hat
  by apply at_start.
clearbody d. unfold ProxyFilter_prefix in Hat. rewrite <- !app_assoc in Hat.
assert (encodable (pf_enType m)) by (rewrite Ht; auto with uniproxy).
assert (0 <= pf_enType m) by by rewrite Ht.
pose proof (encodable_bool (m_fTimeStamp m)).
do 4 field. unfold SplitVectorValue_int.
rewrite app_nil_l, SplitVectorValue_created by done. done.
Qed.
End ProxyFilter.

(** The hypotheses hold for the documented tokenizer and a cast that reads
    digits and refuses the empty string. *)
Definition sample_cast (s : list ascii) : out Z :=
  match from_string s None with Some z => Ok z | None => Throw BadCast end.

Lemma sample_cast_digits n : in_sint 32 n -> sample_cast (to_string n) = Ok n.
Proof. intros Hn. unfold sample_cast. by rewrite from_string_to_string. Qed.

Definition sample_filter : TclAISMessageProxyFilter unit := {|
  pf_enType := mesg_type AISMESGINT_PROXY_FILTER;
  m_fTimeStamp := true; m_iUpdateInterval := 60; m_clMessageTypes := [1; 22];
  m_fMessageTypesDefined := true; m_clPredefinedAreas := [];
  m_fPredefinedAreasDefined := false; m_clUserDefinedArea := [];
  m_fUserDefinedAreaDefined := false; m_clMMSIList := [];
  m_fIncludeMMSIListContent := false; m_fMMSIListDefined := false |}.

Lemma ProxyFilter_Decode_throws_witness :
  let text := snd (ProxyFilter_Encode unit (fun _ => []) [] sample_filter) in
  ProxyFilter_Decode (split_keep []) sample_cast unit (fun _ => Throw BadCast)
    text sample_filter = Throw BadCast.
Proof.
  intros text.
  apply (ProxyFilter_Decode_throws (split_keep []) sample_cast unit (fun _ => [])
           (fun _ => Throw BadCast) (fun _ => eq_refl) sample_cast_digits eq_refl
           sample_filter sample_filter text).
  - unfold ProxyFilter_ok, encodable, in_sint. simpl m_iUpdateInterval.
    split; [reflexivity|]. split; [split; lia|].
    split; [repeat constructor; simpl; lia|].
    repeat split; vm_compute; first [reflexivity|discriminate].
  - vm_compute. reflexivity.
Defined.
