(* ===== verification/Plugin.v ===== *)
(** * The GHP plugin

    [PGHPFilter] ([libs/gatehouse/pghpplugin.h], [pghpplugin.cpp]) and the
    class [PluginHandler] it derives from ([applutil.h]): the logon dialogue
    with the system behind the local socket.

    The local socket is a state: the chunks it will deliver, how many bytes
    each write will take, and what has been written.  A read on an exhausted
    script ends in an error, as a closed connection does; the time limit of
    [socket_read_some_for] exists on Windows only.  The regular expression of
    [Decode] is matched by boost, a parameter. *)

From S2P Require Import Prelude CppString Wire Nmea Pghp2 Messages.

(** ** The local socket *)

Record socket := {
  sk_incoming : list (out (list ascii));
  sk_accepts : list Z;
  sk_sent : list (list ascii) }.

(** The error code of a connection closed by the peer. *)
Definition eof : Z := 2.

(** [read_some] into a buffer of [n] bytes: part of the next chunk. *)
Definition read_some (n : nat) : st socket (list ascii) := fun s =>
  match sk_incoming s with
  | [] => (s, Throw (BoostError eof))
  | Ok chunk :: rest =>
      let left_ := drop n chunk in
      ({| sk_incoming := match left_ with [] => rest | _ => Ok left_ :: rest end;
          sk_accepts := sk_accepts s; sk_sent := sk_sent s |}, Ok (take n chunk))
  | Throw e :: rest =>
      ({| sk_incoming := rest; sk_accepts := sk_accepts s; sk_sent := sk_sent s |},
       Throw e)
  | UB :: _ => (s, UB)
  end.

(** The error code of a connection that takes no more. *)
Definition broken_pipe : Z := 32.

(** [write_some]: how many bytes were taken, all of them when the script says
    nothing; it fails where the script has a negative number. *)
Definition write_some (data : list ascii) : st socket Z := fun s =>
  match sk_accepts s with
  | [] => ({| sk_incoming := sk_incoming s; sk_accepts := [];
              sk_sent := sk_sent s ++ [data] |}, Ok (zlen data))
  | n :: rest =>
      if n <? 0 then
        ({| sk_incoming := sk_incoming s; sk_accepts := rest; sk_sent := sk_sent s |},
         Throw (BoostError broken_pipe))
      else
        let n := Z.min n (zlen data) in
        ({| sk_incoming := sk_incoming s; sk_accepts := rest;
            sk_sent := sk_sent s ++ [take (Z.to_nat n) data] |}, Ok n)
  end.

(** ** The remote endpoint, as far as the plugin reads it *)

Record logon_data := {
  ep_name : list ascii;
  ep_username : list ascii;
  ep_password : list ascii }.

(** [release.cpp] *)
Definition release : list ascii := lit "GateHouse A/S (C) Uniproxy".
Definition version : list ascii := lit "1.8.2".

Section PGHPFilter.
(** [regex_match] of the plugin's pattern (the text [$PGHP,2,1,1,,], a group of
  any number of hexadecimal digits, anything) on a C string: the group when
  the pattern matches. *)
Context (regex_pghp2 : list ascii -> option (list ascii)).

(** Returns the flag and [_output]. *)
Definition PGHPFilter_Decode (input output : list ascii) : bool * list ascii :=
if 0 <? zlen input then
  match regex_pghp2 (c_str input) with
  | Some group =>
      if 0 <? zlen group then (true, group) else (false, group)
  | None => (false, output)
  end
else (false, output).

Definition SendPGHP2Mail (mail : list ascii) : st socket bool :=
let clPGH2 := SetGHMail mail new_PGHP2Message in
r ← lift (PGHP2_Encode [] clPGH2);
let '(clEncoded, _) := r in
length ← write_some clEncoded;
mret (length =? zlen clEncoded).

Definition SendStartMesg : st socket bool :=
let '(_, clRes) := StartDataRequest_Encode [] new_StartDataRequest in
SendPGHP2Mail clRes.

(** The request [SendLogonRequest] fills in. *)
Definition logon_request (remote_ep : logon_data) : TclAISMessageLogonRequest := {|
req_enType := mesg_type AISMESGINT_LOGON_REQUEST;
req_m_clName := ep_username remote_ep;
req_m_clPassword := ep_password remote_ep;
req_m_clVersionString := release ++ lit " - " ++ version ++ lit " - " ++ lit "123";
req_m_clLocalUser := lit "?";
req_m_iVersion := AisLogonVersion_value LOGON_VERSION_3;
req_m_iRelogon := 0;
req_m_iProxyType := AisProxyType_value SUBSCRIBER_PROXY;
req_m_iRetryCounter := 2 |}.

Definition SendLogonRequest (remote_ep : logon_data) : st socket bool :=
let '(_, clResult, _) := LogonRequest_Encode [] (logon_request remote_ep) in
SendPGHP2Mail clResult.

Definition info (remote_ep : logon_data) : list ascii :=
lit " certificate name: " ++ ep_name remote_ep ++ lit " user: "
  ++ ep_username remote_ep ++ lit " ".

Definition fail_with {A} (code : error_t) (what : list ascii) : st socket A :=
lift (Throw (SystemError code what)).

(** The inner [switch]. *)
Definition on_reply (remote_ep : logon_data) (code : Z) : st socket bool :=
let bad what := fail_with logon_username_password_invalid (info remote_ep ++ lit what) in
match AisLogonReply_of code with
| Some LOGON_REPLY_OK => _ ← SendStartMesg; mret true
| Some LOGON_REPLY_USER_INVALID => bad "Username invalid"%string
| Some LOGON_REPLY_PASSWORD_INVALID => bad "Password invalid"%string
| Some LOGON_REPLY_NO_LSS_GROUP => bad "No LSS Group Assigned"%string
| Some LOGON_REPLY_ALLREADY_CONNECTED => bad "Already connected"%string
| Some LOGON_REPLY_PASSWORD_EXPIRED => bad "User or group expired"%string
| Some LOGON_REPLY_LOCKED => bad "User or group locked"%string
| Some LOGON_REPLY_DISABLED => bad "User or group disabled"%string
| Some LOGON_REPLY_LOAD_BALANCE_MOVE => bad "Load balancer problem"%string
| Some LOGON_REPLY_SERVER_BUSY => bad "Server Busy"%string
| None => fail_with logon_failed
            (info remote_ep ++ lit "Unknown response: " ++ to_string code)
end.

(** One line of the host: [Some b] returns [b] from [connect_handler]. *)
Definition on_line (remote_ep : logon_data) (line : list ascii)
  : st socket (option bool) :=
let line := line ++ [CR; LF] in
let '(found, msg) := PGHPFilter_Decode line [] in
if found then
  _ ← lift (InternalBase_Decode (mesg_type AISMESGINT_UNKNOWN) msg);
  r ← lift (Decode line new_PGHP2Message);
  let '(ok, pghp2) := r in
  if ok : bool then
    let mail := GetGHMail pghp2 in
    r ← lift (InternalBase_Decode (mesg_type AISMESGINT_UNKNOWN) mail);
    let '(_, type) := r in
    if type =? mesg_type AISMESGINT_LOGON_REPLY then
      r ← lift (LogonReply_Decode mail new_LogonReply);
      let '(_, reply) := r in
      b ← on_reply remote_ep (enLogonReply reply);
      mret (Some b)
    else mret None
  else mret None
else mret None.

Fixpoint on_lines (remote_ep : logon_data) (lines : list (list ascii))
  : st socket (option bool) :=
match lines with
| [] => mret None
| line :: lines' =>
    r ← on_line remote_ep line;
    match r with Some b => mret (Some b) | None => on_lines remote_ep lines' end
end.

(** [while (is) std::getline(is, line)] over a C string: the pieces, and one
  more turn with an empty line, in which [getline] fails. *)
Definition stream_lines (buffer : list ascii) : list (list ascii) :=
split (c_str buffer) LF ++ [[]].

(** The loop over the reads; [msg_count] counts down from 5. *)
Fixpoint read_replies (remote_ep : logon_data) (msg_count : nat) : st socket bool :=
match msg_count with
| O => fail_with logon_failed
         (info remote_ep ++ lit "Unknown or missing logon response")
| S n =>
    buffer ← read_some 200;
    if zlen buffer =? 0 then fail_with logon_no_response (info remote_ep)
    else
      r ← on_lines remote_ep (stream_lines buffer);
      match r with Some b => mret b | None => read_replies remote_ep n end
end.

Definition connect_handler (remote_ep : logon_data) : st socket bool :=
sent ← SendLogonRequest remote_ep;
if negb sent then fail_with logon_failed (info remote_ep ++ lit "logon request")
else read_replies remote_ep 5.
End PGHPFilter.

(** ** The base class *)

(** A handler is the functions a plugin may override; [None] where it keeps
    the base class's, which is given below it. *)
Record PluginHandler := {
  m_type : list ascii;
  max_buffer_size : Z;
  ph_connect : option (logon_data -> st socket bool);
  ph_stream_local2remote : bool;
  ph_filter_local2remote : list ascii -> bool;
  ph_filter_remote2local : list ascii -> bool }.

(** The constructor also appends the object to [plugins()]. *)
Definition new_PluginHandler (type : list ascii) (plugins : list PluginHandler)
    : PluginHandler * list PluginHandler :=
  let p := {| m_type := type; max_buffer_size := 1000; ph_connect := None;
              ph_stream_local2remote := false;
              ph_filter_local2remote := fun _ => true;
              ph_filter_remote2local := fun _ => true |} in
  (p, plugins ++ [p]).

Definition base_connect_handler (p : PluginHandler) (ep : logon_data) : st socket bool :=
  match ph_connect p with Some f => f ep | None => mret true end.

(** ** Specification *)

(** What the documentation of the regular expression says it matches. *)
Definition is_hex (c : ascii) : bool := bool_decide (is_Some (hex_value c)).

Fixpoint hex_prefix (s : list ascii) : list ascii :=
  match s with
  | c :: s' => if is_hex c then c :: hex_prefix s' else []
  | [] => []
  end.

Definition pghp2_match (s : list ascii) : option (list ascii) :=
  if starts_with (lit "$PGHP,2,1,1,,") s then Some (hex_prefix (drop 13 s)) else None.

(** The text sent for a mail. *)
Definition mail_text (mail : list ascii) : list ascii :=
  sentences (segment_count mail) 1 (used_identifier mail (-1)) (chunks 512 mail).

Definition logon_text (ep : logon_data) : list ascii :=
  mail_text (Byte2Ascii (LogonRequest_bytes (logon_request ep)) []).

Definition start_text : list ascii :=
  mail_text (Byte2Ascii (EncodeHeader [] new_StartDataRequest) []).

(** The error a reply code other than [LOGON_REPLY_OK] is reported as. *)
Definition reply_error (code : Z) : error_t :=
  match AisLogonReply_of code with
  | Some _ => logon_username_password_invalid
  | None => logon_failed
  end.

Definition set_sent (l : list (list ascii)) (s : socket) : socket :=
  {| sk_incoming := sk_incoming s; sk_accepts := sk_accepts s; sk_sent := l |}.

(** ** Lemmas *)

Lemma hex_mail d : Forall mail_byte (Byte2Ascii d []) /\
  Forall (fun c => is_hex c = true) (Byte2Ascii d []) /\
  zero ∉ Byte2Ascii d [] /\ zlen (Byte2Ascii d []) = 2 * zlen d.
Proof.
  induction d as [|b d IH]; [by split_and!; [..|set_solver|]|].
  cbn [Byte2Ascii]. rewrite Byte2Ascii_app, app_nil_l.
  destruct IH as (H1 & H2 & H3 & H4). rewrite !Forall_app, elem_of_app, zlen_app, H4, zlen_cons.
  assert (Forall (fun c => mail_byte c /\ is_hex c = true /\ c <> zero) (sprintf_02X (u8 b))
    /\ zlen (sprintf_02X (u8 b)) = 2) as [Hb ->].
  { destruct b as [[] [] [] [] [] [] [] []];
      (split; [|reflexivity]); repeat constructor; discriminate. }
  assert (Forall (fun c => c <> zero) (sprintf_02X (u8 b))) as Hz
    by (eapply Forall_weaken; [|exact Hb]; naive_solver).
  split_and!; try done; try lia.
  - eapply Forall_weaken; [|exact Hb]. naive_solver.
  - eapply Forall_weaken; [|exact Hb]. naive_solver.
  - intros [Hc|Hc]; [|done]. by apply (Forall_not_in _ _ _ Hz) in Hc; [|naive_solver].
Qed.

Lemma SendPGHP2Mail_spec mail s : Forall mail_byte mail ->
  segment_count mail <= max_segments -> sk_accepts s = [] ->
  SendPGHP2Mail mail s = (set_sent (sk_sent s ++ [mail_text mail]) s, Ok true).
Proof.
  intros Hm Hc Ha. unfold SendPGHP2Mail.
  destruct (Encode_spec [] (SetGHMail mail new_PGHP2Message)) as (sent & E & _);
    [done|done|done|by vm_compute|].
  cbv zeta in E. rewrite E. rewrite st_bind_lift.
  change (m_aszPayload (SetGHMail mail new_PGHP2Message)) with mail.
  change (m_iSequentialMessageIdentifier (SetGHMail mail new_PGHP2Message)) with (-1).
  rewrite app_nil_l. fold (mail_text mail).
  erewrite st_bind_Ok; [|unfold write_some; rewrite Ha; reflexivity].
  rewrite Z.eqb_refl. unfold set_sent. by rewrite Ha.
Qed.

Lemma segment_count_le mail n : zlen mail <= n * 512 -> segment_count mail <= n.
Proof.
  intros H. rewrite segment_count_eq. destruct (Z.eqb_spec (zlen mail mod 512) 0); divlia.
Qed.

Lemma SendHex_spec d s : zlen d <= 32767 -> sk_accepts s = [] ->
  SendPGHP2Mail (Byte2Ascii d []) s =
  (set_sent (sk_sent s ++ [mail_text (Byte2Ascii d [])]) s, Ok true).
Proof.
  intros Hd Ha. destruct (hex_mail d) as (H1 & _ & _ & H4).
  apply SendPGHP2Mail_spec; [done| |done].
  apply segment_count_le. rewrite H4. unfold max_segments. lia.
Qed.

Lemma SendStartMesg_spec s : sk_accepts s = [] ->
  SendStartMesg s = (set_sent (sk_sent s ++ [start_text]) s, Ok true).
Proof. intros Ha. apply SendHex_spec; [by vm_compute|done]. Qed.

Lemma SendLogonRequest_spec ep s : LogonRequest_ok (logon_request ep) ->
  sk_accepts s = [] ->
  SendLogonRequest ep s = (set_sent (sk_sent s ++ [logon_text ep]) s, Ok true).
Proof.
  intros Hok Ha. unfold SendLogonRequest.
  destruct (LogonRequest_Encode_bytes _ [] Hok) as [-> Hl]. by apply SendHex_spec.
Qed.

Lemma on_reply_spec ep code s : sk_accepts s = [] ->
  match AisLogonReply_of code with
  | Some LOGON_REPLY_OK =>
      on_reply ep code s = (set_sent (sk_sent s ++ [start_text]) s, Ok true)
  | _ => exists what, on_reply ep code s = (s, Throw (SystemError (reply_error code) what))
  end.
Proof.
  intros Ha. unfold on_reply, reply_error. destruct (AisLogonReply_of code) as [[]|] eqn:E;
    try (by eexists).
  erewrite st_bind_Ok by by apply SendStartMesg_spec. done.
Qed.

(** Whatever the code, a reply that does not throw starts the data. *)
Lemma on_reply_true ep code s s' b : on_reply ep code s = (s', Ok b) ->
  b = true /\ exists s1 r, SendStartMesg s1 = (s', Ok r).
Proof.
  unfold on_reply, fail_with, lift.
  destruct (AisLogonReply_of code) as [[]|]; [|by intros [=]..].
  intros (s1 & r & E & H)%st_bind_inv. injection H as -> <-. eauto.
Qed.

Lemma split_one_line l : LF ∉ l -> split (l ++ [LF]) LF = [l].
Proof.
  unfold split. assert (forall item, LF ∉ l -> split_go LF (l ++ [LF]) item = [item ++ l]) as H.
  { induction l as [|c l IH]; intros item Hl; cbn [app split_go].
    - by rewrite Ascii.eqb_refl, app_nil_r.
    - destruct (Ascii.eqb_spec c LF) as [->|]; [set_solver|].
      rewrite IH by set_solver. by rewrite <- app_assoc. }
  intros Hl. by rewrite H.
Qed.

(** ** A reply of the host *)

Lemma hex_prefix_app l c post : Forall (fun c => is_hex c = true) l -> is_hex c = false ->
  hex_prefix (l ++ c :: post) = l.
Proof.
  intros H Hc. induction H as [|d l Hd _ IH]; cbn [app hex_prefix]; [by rewrite Hc|].
  by rewrite Hd, IH.
Qed.

Lemma reply_line mail tail :
  sentence_with 1 1 (-1) mail tail =
  lit "$PGHP,2,1,1,," ++ mail ++ "*"%char ::
    FormatNmeaCheckSum (xor_bytes 0 (covered (sentence_body 1 1 (-1) mail))) ++ tail.
Proof. unfold sentence_with, sentence_body at 1. by rewrite <- !app_assoc. Qed.

Lemma digits_plain x : 0 <= x < 256 ->
  zero ∉ FormatNmeaCheckSum x /\ LF ∉ FormatNmeaCheckSum x.
Proof.
  intros Hx. rewrite <- (u8_chr_small x) by done. generalize (chr x). clear.
  intros [[] [] [] [] [] [] [] []]; split; apply (bool_decide_eq_true_1 _);
    vm_compute; reflexivity.
Qed.

Lemma reply_line_plain mail tail : zero ∉ mail -> LF ∉ mail ->
  zero ∉ tail -> zero ∉ sentence_with 1 1 (-1) mail tail /\
  (LF ∉ tail -> LF ∉ sentence_with 1 1 (-1) mail tail).
Proof.
  intros Hz Hl Ht. rewrite reply_line.
  destruct (digits_plain (xor_bytes 0 (covered (sentence_body 1 1 (-1) mail))))
    as [Hd1 Hd2]; [apply xor_bytes_range; lia|].
  assert (zero ∉ lit "$PGHP,2,1,1,,") by (apply (bool_decide_eq_true_1 _); reflexivity).
  assert (LF ∉ lit "$PGHP,2,1,1,,") by (apply (bool_decide_eq_true_1 _); reflexivity).
  split; [|intros Htl]; set_solver.
Qed.

(** The decoder accepts one line with any short line end. *)
Lemma Decode_one mail pre m : Forall mail_byte mail -> zlen mail <= 1000 ->
  zlen pre <= 50 -> LF ∉ pre ->
  exists m', Decode (sentence_with 1 1 (-1) mail (pre ++ [LF])) m = Ok (true, m') /\
             m_aszPayload m' = mail.
Proof.
  intros Hm Hl Hp Hlf. unfold Decode.
  remember (sentence_with 1 1 (-1) mail (pre ++ [LF])) as text eqn:Et.
  pose proof (zlen_sentence_with 1 1 (-1) mail Hl (pre ++ [LF])) as Hlen.
  rewrite <- Et in Hlen.
  assert (text = sentence_with 1 1 (-1) mail pre ++ LF :: []) as E.
  { rewrite Et. unfold sentence_with. by rewrite <- !app_assoc, <- app_comm_cons, <- app_assoc. }
  assert (LF ∉ sentence_with 1 1 (-1) mail pre) as Hno.
  { unfold sentence_with.
    pose proof (body_no_LF 1 1 (-1) mail ltac:(unfold max_segments; lia)
      ltac:(unfold max_segments; lia) ltac:(unfold max_segments; lia) Hm).
    destruct (digits_plain (xor_bytes 0 (covered (sentence_body 1 1 (-1) mail))))
      as [_ ?]; [apply xor_bytes_range; lia|].
    assert (LF <> "*"%char) by done. set_solver. }
  generalize (length text) as fuel. intros fuel.
  rewrite E, decode_loop_line by (done || rewrite <- E; zlen_lia).
  rewrite <- E.
  destruct (decode_line_with 1 1 (-1) mail ltac:(unfold max_segments; lia)
    ltac:(unfold max_segments; lia) ltac:(unfold max_segments; lia) Hm Hl
    (pre ++ [LF]) no_segments m) as [x Ex]; [pose proof (zlen_nonneg pre); zlen_lia|].
  rewrite <- Et in Ex. rewrite Ex, bind_Ok, decode_loop_end by set_solver.
  rewrite bind_Ok. eexists. split; [done|]. done.
Qed.

(** A reply whose sentence fits into one read. *)
Definition reply_mail (m : TclAISMessageLogonReply) : list ascii :=
  Byte2Ascii (LogonReply_bytes m) [].

Definition reply_text (m : TclAISMessageLogonReply) : list ascii :=
  sentence 1 1 (-1) (reply_mail m).

Definition reply_ok (m : TclAISMessageLogonReply) : Prop :=
  rep_enType m = mesg_type AISMESGINT_LOGON_REPLY /\
  0 <= enLogonReply m < 2 ^ 31 /\ encodable (m_iPort m) /\
  zlen (reply_text m) <= 200.

Lemma reply_text_with m : reply_text m = sentence_with 1 1 (-1) (reply_mail m) [CR; LF].
Proof. unfold reply_text. by rewrite sentence_eq. Qed.

Lemma reply_mail_size m : reply_ok m ->
  0 < zlen (reply_mail m) <= 200 /\ zlen (LogonReply_bytes m) <= 100.
Proof.
  intros (_ & _ & _ & Hlen). rewrite reply_text_with, reply_line in Hlen.
  autorewrite with zlen in Hlen. change (zlen (lit "$PGHP,2,1,1,,")) with 13 in Hlen.
  set (F := FormatNmeaCheckSum _) in Hlen. pose proof (zlen_nonneg F).
  destruct (hex_mail (LogonReply_bytes m)) as (_ & _ & _ & E). unfold reply_mail in *.
  rewrite E in *.
  assert (0 < zlen (LogonReply_bytes m)); [|lia].
  unfold LogonReply_bytes, encoded_int. cbv zeta. autorewrite with zlen.
  repeat match goal with |- context [zlen ?l] =>
    lazymatch goal with H : 0 <= zlen l |- _ => fail
    | _ => pose proof (zlen_nonneg l) end end. lia.
Qed.

Lemma InternalBase_Decode_reply m : reply_ok m ->
  InternalBase_Decode (mesg_type AISMESGINT_UNKNOWN) (reply_mail m) =
  Ok (true, mesg_type AISMESGINT_LOGON_REPLY).
Proof.
  intros Hok. destruct (reply_mail_size m Hok) as [_ Hd]. destruct Hok as (Ht & _).
  unfold InternalBase_Decode, reply_mail. rewrite Ascii2Byte_Byte2Ascii, app_nil_l.
  set (d := LogonReply_bytes m) in *.
  assert (at_offset d 0 (LogonReply_bytes m)) as Hat by apply at_start.
  unfold LogonReply_bytes in Hat. clearbody d.
  destruct (DecodeHeader_at d ltac:(lia) 0 (rep_enType m) _ ltac:(rewrite Ht; apply encodable_type)
    ltac:(by rewrite Ht) Hat (mesg_type AISMESGINT_UNKNOWN)) as (o & -> & _).
  rewrite bind_Ok. simpl snd. by rewrite Ht.
Qed.

Section dialogue.
Context (regex_pghp2 : list ascii -> option (list ascii)).
Hypothesis regex_doc : forall s, regex_pghp2 s = pghp2_match s.

Lemma on_line_reply ep m s : reply_ok m ->
on_line regex_pghp2 ep (sentence_with 1 1 (-1) (reply_mail m) [CR]) s =
(on_reply ep (enLogonReply m) ≫= fun b => mret (Some b)) s.
Proof using regex_doc.
intros Hok. destruct (reply_mail_size m Hok) as [Hm Hb].
destruct (hex_mail (LogonReply_bytes m)) as (Hmb & Hhex & Hz & _).
fold (reply_mail m) in Hmb, Hhex, Hz.
assert (LF ∉ reply_mail m) as Hlf by (apply mail_no; [by intros (_ & _ & _ & ?)|done]).
unfold on_line.
assert (sentence_with 1 1 (-1) (reply_mail m) [CR] ++ [CR; LF] =
        sentence_with 1 1 (-1) (reply_mail m) [CR; CR; LF]) as ->.
{ unfold sentence_with. by rewrite <- app_assoc, <- app_comm_cons, <- app_assoc. }
destruct (reply_line_plain (reply_mail m) [CR; CR; LF] Hz Hlf) as [Hnz _].
{ apply (bool_decide_eq_true_1 _). reflexivity. }
destruct (Decode_one (reply_mail m) [CR; CR] new_PGHP2Message Hmb)
  as (m' & Ed & Ep); [lia|done|by apply (bool_decide_eq_true_1 _)|].
simpl app in Ed.
assert (PGHPFilter_Decode regex_pghp2
  (sentence_with 1 1 (-1) (reply_mail m) [CR; CR; LF]) [] = (true, reply_mail m)) as ->.
{ unfold PGHPFilter_Decode. rewrite c_str_no_nul, regex_doc by done.
  rewrite reply_line. unfold pghp2_match.
  replace (starts_with _ _) with true
    by (symmetry; apply starts_with_spec; eexists; reflexivity).
  rewrite (drop_app_length' (lit "$PGHP,2,1,1,,")) by done.
  rewrite hex_prefix_app by done.
  rewrite zlen_app. set (rest := reply_mail m ++ _).
  change (zlen (lit "$PGHP,2,1,1,,")) with 13. pose proof (zlen_nonneg rest).
  replace (0 <? 13 + zlen rest) with true by (zcase; lia).
  by replace (0 <? zlen (reply_mail m)) with true by (zcase; lia). }
rewrite InternalBase_Decode_reply, st_bind_lift by done.
rewrite Ed, st_bind_lift. unfold GetGHMail. rewrite Ep.
rewrite InternalBase_Decode_reply, st_bind_lift by done.
rewrite Z.eqb_refl. destruct Hok as (Ht & Hr & Hp & _).
unfold reply_mail. rewrite LogonReply_Decode_bytes, st_bind_lift by (done || lia).
done.
Qed.

Lemma stream_lines_reply m : reply_ok m ->
stream_lines (reply_text m) = [sentence_with 1 1 (-1) (reply_mail m) [CR]; []].
Proof.
intros Hok. destruct (reply_mail_size m Hok) as [Hm Hb].
destruct (hex_mail (LogonReply_bytes m)) as (Hmb & Hhex & Hz & _).
fold (reply_mail m) in Hmb, Hhex, Hz.
assert (LF ∉ reply_mail m) as Hlf by (apply mail_no; [by intros (_ & _ & _ & ?)|done]).
unfold stream_lines. rewrite reply_text_with.
destruct (reply_line_plain (reply_mail m) [CR; LF] Hz Hlf) as [Hnz _].
{ apply (bool_decide_eq_true_1 _). reflexivity. }
rewrite c_str_no_nul by done.
destruct (reply_line_plain (reply_mail m) [CR] Hz Hlf) as [_ Hnl].
{ apply (bool_decide_eq_true_1 _). reflexivity. }
assert (sentence_with 1 1 (-1) (reply_mail m) [CR; LF] =
  sentence_with 1 1 (-1) (reply_mail m) [CR] ++ [LF]) as ->.
{ unfold sentence_with. by rewrite <- app_assoc, <- app_comm_cons, <- app_assoc. }
rewrite split_one_line; [done|]. apply Hnl. by apply (bool_decide_eq_true_1 _).
Qed.
End dialogue.

Lemma read_some_all n chunk rest s : (length chunk <= n)%nat ->
  sk_incoming s = Ok chunk :: rest ->
  read_some n s = ({| sk_incoming := rest; sk_accepts := sk_accepts s;
                      sk_sent := sk_sent s |}, Ok chunk).
Proof.
  intros Hn E. unfold read_some. rewrite E, drop_ge, take_ge by lia. done.
Qed.

Lemma reply_text_pos m : 0 < zlen (reply_text m).
Proof.
  rewrite reply_text_with, reply_line. rewrite zlen_app.
  match goal with |- _ < _ + zlen ?l => pose proof (zlen_nonneg l) end.
  change (zlen (lit "$PGHP,2,1,1,,")) with 13. lia.
Qed.

(** A turn of the loop that reads a reply is the reaction to its code. *)
Lemma read_replies_reply regex_pghp2 ep n m s rest :
  (forall t, regex_pghp2 t = pghp2_match t) -> reply_ok m ->
  sk_incoming s = Ok (reply_text m) :: rest ->
  let s1 := {| sk_incoming := rest; sk_accepts := sk_accepts s; sk_sent := sk_sent s |} in
  match on_reply ep (enLogonReply m) s1 with
  | (s2, Ok b) => read_replies regex_pghp2 ep (S n) s = (s2, Ok b)
  | (s2, Throw e) => read_replies regex_pghp2 ep (S n) s = (s2, Throw e)
  | (s2, UB) => True
  end.
Proof.
  intros Hdoc Hok Hin. cbv zeta. set (s1 := {| sk_incoming := rest |}).
  assert (read_some 200 s = (s1, Ok (reply_text m))) as Erd.
  { destruct Hok as (_ & _ & _ & Hlen).
    rewrite (read_some_all 200 (reply_text m) rest); [done|unfold zlen in Hlen; lia|done]. }
  pose proof (reply_text_pos m).
  pose proof (on_line_reply regex_pghp2 Hdoc ep m s1 Hok) as El.
  cbn [read_replies]. rewrite (st_bind_Ok _ _ _ _ _ Erd).
  replace (zlen (reply_text m) =? 0) with false by (zcase; lia).
  rewrite stream_lines_reply by done.
  destruct (on_reply ep (enLogonReply m) s1) as [s2 [b|e|]] eqn:Er; [| |done].
  - rewrite (st_bind_Ok _ _ _ _ _ Er) in El.
    assert (on_lines regex_pghp2 ep [sentence_with 1 1 (-1) (reply_mail m) [CR]; []] s1
      = (s2, Ok (Some b))) as E by exact (st_bind_Ok _ _ _ _ _ El).
    by rewrite (st_bind_Ok _ _ _ _ _ E).
  - rewrite (st_bind_Throw _ _ _ _ _ Er) in El.
    assert (on_lines regex_pghp2 ep [sentence_with 1 1 (-1) (reply_mail m) [CR]; []] s1
      = (s2, Throw e)) as E by exact (st_bind_Throw _ _ _ _ _ El).
    by rewrite (st_bind_Throw _ _ _ _ _ E).
Qed.

(** ** Properties *)


Definition sample_endpoint : logon_data :=
  {| ep_name := lit "n"; ep_username := lit "Me"; ep_password := lit "pw" |}.

Definition sample_reply (code : Z) : TclAISMessageLogonReply :=
  {| rep_enType := 2; enLogonReply := code; m_clNewHost := []; m_iPort := 0 |}.


(** A result of one line, or of several, comes from a reply. *)
Lemma on_line_true regex_pghp2 ep line s s' b :
  on_line regex_pghp2 ep line s = (s', Ok (Some b)) ->
  b = true /\ exists s1 r, SendStartMesg s1 = (s', Ok r).
Proof.
  unfold on_line. destruct (PGHPFilter_Decode _ _ _) as [[] msg]; [|done].
  intros (s1 & ? & _ & H)%st_bind_inv.
  apply st_bind_inv in H as (s2 & [ok pghp2] & _ & H). destruct ok; [|done].
  apply st_bind_inv in H as (s3 & [? type] & _ & H). destruct (_ =? _); [|done].
  apply st_bind_inv in H as (s4 & [? reply] & _ & H).
  apply st_bind_inv in H as (s5 & b' & H & E). injection E as <- <-.
  by apply on_reply_true in H.
Qed.

Lemma on_lines_true regex_pghp2 ep lines s s' b :
  on_lines regex_pghp2 ep lines s = (s', Ok (Some b)) ->
  b = true /\ exists s1 r, SendStartMesg s1 = (s', Ok r).
Proof.
  revert s. induction lines as [|line lines IH]; intros s; [done|].
  cbn [on_lines]. intros (s1 & [b1|] & E & H)%st_bind_inv; [|by apply IH in H].
  injection H as <- <-. by apply on_line_true in E.
Qed.

Lemma read_replies_true regex_pghp2 ep n s s' b :
  read_replies regex_pghp2 ep n s = (s', Ok b) ->
  b = true /\ exists s1 r, SendStartMesg s1 = (s', Ok r).
Proof.
  revert s. induction n as [|n IH]; intros s; [done|].
  cbn [read_replies]. intros (s1 & buffer & _ & H)%st_bind_inv.
  destruct (zlen buffer =? 0); [done|].
  apply st_bind_inv in H as (s2 & [b1|] & E & H); [|by apply IH in H].
  injection H as <- <-. by apply on_lines_true in E.
Qed.

(**  No false logon: whatever the host sends, in whatever pieces, and
    however the regular expression matches, the handler returns only after it
    sent the start-data request as its last write, and then it returns true; in
    every other case it throws. *)
Theorem connect_handler_returns regex_pghp2 ep s s' b :
  connect_handler regex_pghp2 ep s = (s', Ok b) ->
  b = true /\ exists s1 r, SendStartMesg s1 = (s', Ok r).
Proof.
  unfold connect_handler. intros (s1 & sent & _ & H)%st_bind_inv.
  destruct (negb sent); [done|]. by apply read_replies_true in H.
Qed.

Lemma connect_handler_returns_witness :
  let s := {| sk_incoming := [Ok (lit "noise"); Ok (reply_text (sample_reply 0))];
              sk_accepts := []; sk_sent := [] |} in
  let s' := fst (connect_handler pghp2_match sample_endpoint s) in
  true = true /\ exists s1 r, SendStartMesg s1 = (s', Ok r).
Proof.
  intros s s'. apply (connect_handler_returns pghp2_match sample_endpoint s s' true).
  vm_compute. reflexivity.
Defined.
