(* ===== verification/DataFlow.v ===== *)
(** * Data flow meter

    [data_flow] ([applutil.h], [applutil.cpp]): sixty counters, one per second
    modulo 60, that tell how many bytes passed in the last minute.

    [timestamp()], the seconds of the steady clock, is an argument of the
    operations.  The mutex makes each operation one step.  [size_t] is 64 bits
    wide and its sums wrap.  The specification is the list of what was added
    and when; the refinement theorem says the counters answer as the list
    does. *)

From S2P Require Import Prelude.

Definition data_flow_size : Z := 60.

Record data_flow := {
  m_buffer : list Z;
  m_stamp : Z;
  m_debug : bool }.

Definition zeros : list Z := replicate 60 0.

(** The constructor. *)
Definition new_data_flow (debug : bool) (timestamp : Z) : data_flow :=
  {| m_buffer := zeros; m_stamp := timestamp; m_debug := debug |}.

Definition clear (f : data_flow) : data_flow :=
  {| m_buffer := zeros; m_stamp := m_stamp f; m_debug := m_debug f |}.

(** [m_buffer[i] = v] for an index the code computes. *)
Definition put (i v : Z) (buf : list Z) : list Z := <[Z.to_nat i := v]> buf.

(** The loop of [cleanup]; returns the last index too. *)
Fixpoint cleanup_loop (fuel : nat) (index index_stop : Z) (buf : list Z)
    : Z * list Z :=
  match fuel with
  | O => (index, buf)
  | S fuel' =>
      if index =? index_stop then (index, buf)
      else
        let index := Z.rem (index + 1) data_flow_size in
        cleanup_loop fuel' index index_stop (put index 0 buf)
  end.

Definition cleanup (stamp : Z) (f : data_flow) : data_flow :=
  if stamp >=? m_stamp f + data_flow_size then clear f
  else
    let index := Z.rem (m_stamp f) data_flow_size in
    let index_stop := Z.rem stamp data_flow_size in
    {| m_buffer := snd (cleanup_loop 60 index index_stop (m_buffer f));
       m_stamp := m_stamp f; m_debug := m_debug f |}.

Definition add (count : Z) (stamp : Z) (f : data_flow) : data_flow :=
  let f := cleanup stamp f in
  let i := Z.rem stamp data_flow_size in
  {| m_buffer := put i (wrap 64 (default 0 (m_buffer f !! Z.to_nat i) + count))
                     (m_buffer f);
     m_stamp := stamp; m_debug := m_debug f |}.

(** Returns the value; the buffer is cleaned, the stamp is not moved. *)
Definition get (stamp : Z) (f : data_flow) : Z * data_flow :=
  let f := cleanup stamp f in
  (foldl (fun value b => wrap 64 (value + b)) 0 (m_buffer f), f).

(** ** Specification *)

(** What was added: time and count. *)
Definition events := list (Z * Z).

(** The sum of the counts whose time satisfies [p]. *)
Fixpoint total (p : Z -> bool) (ev : events) : Z :=
  match ev with
  | [] => 0
  | (u, c) :: ev' => (if p u then c else 0) + total p ev'
  end.

(** The bytes of the last sixty seconds. *)
Definition last_minute (now : Z) (ev : events) : Z :=
  wrap 64 (total (fun u => now - 60 <? u) ev).

(** ** Sequences of operations *)

Inductive op := Add (count time : Z) | Get (time : Z) | Clear.

Definition step (o : op) (f : data_flow) : option Z * data_flow :=
  match o with
  | Add c t => (None, add c t f)
  | Get t => let '(v, f) := get t f in (Some v, f)
  | Clear => (None, clear f)
  end.

Definition spec_step (o : op) (ev : events) : option Z * events :=
  match o with
  | Add c t => (None, (t, c) :: ev)
  | Get t => (Some (last_minute t ev), ev)
  | Clear => (None, [])
  end.

(** The answers of a sequence of operations. *)
Fixpoint run {S} (stp : op -> S -> option Z * S) (ops : list op) (s : S)
    : list (option Z) :=
  match ops with
  | [] => []
  | o :: ops' => let '(a, s) := stp o s in a :: run stp ops' s
  end.

(** The clock does not go back. *)
Fixpoint clock_ok (now : Z) (ops : list op) : Prop :=
  match ops with
  | [] => True
  | Add _ t :: ops' | Get t :: ops' => now <= t /\ clock_ok t ops'
  | Clear :: ops' => clock_ok now ops'
  end.

(** ** Lemmas *)

Lemma total_ext p q ev : (forall u c, (u, c) ∈ ev -> p u = q u) ->
  total p ev = total q ev.
Proof.
  induction ev as [|[u c] ev IH]; intros H; [done|]. cbn [total].
  rewrite (H u c) by set_solver. f_equal. apply IH. set_solver.
Qed.

Lemma total_none p ev : (forall u c, (u, c) ∈ ev -> p u = false) -> total p ev = 0.
Proof.
  intros H. rewrite (total_ext p (fun _ => false)) by done.
  clear. induction ev as [|[u c] ev IH]; [done|]. done.
Qed.

(** The slot of a time. *)
Definition slot (u : Z) : Z := u mod 60.

Lemma rem_slot u : 0 <= u -> Z.rem u data_flow_size = slot u.
Proof. intros. by apply Z.rem_mod_nonneg. Qed.

Lemma rem_next u : 0 <= u -> Z.rem (slot u + 1) data_flow_size = slot (u + 1).
Proof.
  intros. unfold slot, data_flow_size. rewrite Z.rem_mod_nonneg by divlia.
  by rewrite Zplus_mod_idemp_l.
Qed.

Lemma lookup_put i v buf j : 0 <= i < zlen buf -> 0 <= j ->
  put i v buf !! Z.to_nat j = if i =? j then Some v else buf !! Z.to_nat j.
Proof.
  intros Hi Hj. unfold put, zlen in *. zcase.
  - subst. apply list_lookup_insert_eq. lia.
  - apply list_lookup_insert_ne. lia.
Qed.

Lemma zlen_put i v buf : zlen (put i v buf) = zlen buf.
Proof. unfold zlen, put. by rewrite length_insert. Qed.

(** The slots of the seconds after [s] up to [t]. *)
Definition cleared (s t i : Z) : bool := (i - s - 1) mod 60 <? t - s.

Lemma cleared_spec s t i : 0 <= i < 60 ->
  cleared s t i = true <-> exists v, s < v <= t /\ slot v = i.
Proof.
  intros Hi. unfold cleared, slot. rewrite Z.ltb_lt. split.
  - intros H. exists (s + 1 + (i - s - 1) mod 60). divlia.
  - intros (v & Hv & <-). divlia.
Qed.

Lemma cleared_step s t i : 0 <= i < 60 -> s < t ->
  cleared s t i = (slot (s + 1) =? i) || cleared (s + 1) t i.
Proof.
  intros Hi Hs. unfold cleared, slot.
  destruct (Z.eqb_spec ((s + 1) mod 60) i) as [E|E]; cbn [orb].
  - apply Z.ltb_lt. divlia.
  - apply Bool.eq_iff_eq_true. rewrite !Z.ltb_lt. divlia.
Qed.

(** The loop clears exactly those, and stops at the slot of [t]. *)
Lemma cleanup_loop_spec fuel s t buf :
  0 <= s <= t -> t < s + 60 -> t - s <= Z.of_nat fuel -> zlen buf = 60 ->
  let r := cleanup_loop fuel (slot s) (slot t) buf in
  fst r = slot t /\ zlen (snd r) = 60 /\
  forall i, 0 <= i < 60 ->
    snd r !! Z.to_nat i = if cleared s t i then Some 0 else buf !! Z.to_nat i.
Proof.
  revert s buf. induction fuel as [|fuel IH]; intros s buf Hs Ht Hf Hl; cbv zeta.
  - assert (s = t) as -> by lia. cbn [cleanup_loop fst snd].
    split_and!; [done..|]. intros i Hi. unfold cleared. zcase; [divlia|done].
  - cbn [cleanup_loop]. destruct (Z.eqb_spec (slot s) (slot t)) as [E|E].
    + assert (s = t) as -> by (unfold slot in E; divlia).
      cbn [fst snd]. split_and!; [done..|]. intros i Hi.
      unfold cleared. zcase; [divlia|done].
    + assert (s <> t) by (by intros ->).
      rewrite rem_next by lia.
      assert (0 <= slot (s + 1) < 60) as Hsl by (unfold slot; divlia).
      destruct (IH (s + 1) (put (slot (s + 1)) 0 buf)) as (H1 & H2 & H3);
        [lia..|by rewrite zlen_put|].
      split_and!; [done..|]. intros i Hi. rewrite H3, lookup_put by lia.
      rewrite (cleared_step s t i) by lia.
      destruct (slot (s + 1) =? i); [by destruct (cleared _ _ _)|done].
Qed.

(** ** The invariant

    [R ev w f]: every counter holds the sum of what was added in its second
    after [w - 60], where [w] is the time up to which the counters have been
    cleaned. *)
Definition R (ev : events) (w : Z) (f : data_flow) : Prop :=
  0 <= m_stamp f <= w /\ zlen (m_buffer f) = 60 /\
  (forall u c, (u, c) ∈ ev -> u <= m_stamp f) /\
  forall i, 0 <= i < 60 ->
    m_buffer f !! Z.to_nat i =
    Some (wrap 64 (total (fun u => (w - 60 <? u) && (slot u =? i)) ev)).

Lemma lookup_zeros i : 0 <= i < 60 -> zeros !! Z.to_nat i = Some 0.
Proof. intros. unfold zeros. apply lookup_replicate_2. lia. Qed.

Lemma R_new debug t : 0 <= t -> R [] t (new_data_flow debug t).
Proof.
  intros Ht. split_and!; simpl; [lia|lia|done|set_solver|].
  intros i Hi. by rewrite lookup_zeros.
Qed.

Lemma R_clear ev w f : R ev w f -> R [] w (clear f).
Proof.
  intros (H1 & _ & _ & _). split_and!; simpl; [lia|lia|done|set_solver|].
  intros i Hi. by rewrite lookup_zeros.
Qed.

Lemma R_cleanup ev w t f : R ev w f -> w <= t ->
  R ev t (cleanup t f) /\ m_stamp (cleanup t f) = m_stamp f.
Proof.
  intros (H1 & H2 & H3 & H4) Hw. unfold cleanup. rewrite Z.geb_leb.
  destruct (Z.leb_spec (m_stamp f + data_flow_size) t) as [Hc|Hc];
    unfold data_flow_size in Hc.
  - split; [|done]. split_and!; simpl; [lia|lia|done|done|].
    intros i Hi. rewrite lookup_zeros by done. rewrite total_none; [done|].
    intros u c Hu%H3. zcase; [lia|done].
  - rewrite !rem_slot by lia.
    destruct (cleanup_loop_spec 60 (m_stamp f) t (m_buffer f)) as (_ & E2 & E3);
      [lia..|done|]. cbv zeta in *.
    split; [|done]. unfold R. cbn [m_stamp m_buffer].
    revert E2 E3. generalize (snd (cleanup_loop 60 (slot (m_stamp f)) (slot t) (m_buffer f))).
    intros buf E2 E3. split; [lia|]. split; [done|]. split; [done|].
    intros i Hi. rewrite E3 by done.
    destruct (cleared (m_stamp f) t i) eqn:Ec.
    + rewrite total_none; [done|]. intros u c Hu%H3.
      apply cleared_spec in Ec as (v & Hv & Ev); [|done].
      destruct (Z.ltb_spec (t - 60) u), (Z.eqb_spec (slot u) i); try done.
      unfold slot in *. divlia.
    + rewrite H4 by done. do 2 f_equal. apply total_ext. intros u c Hu%H3.
      destruct (Z.eqb_spec (slot u) i) as [Eu|]; [|by rewrite !andb_false_r].
      rewrite !andb_true_r. apply Bool.eq_iff_eq_true. rewrite !Z.ltb_lt.
      split; [|lia]. intros Hlt. destruct (Z.le_gt_cases u (t - 60)); [|lia].
      assert (cleared (m_stamp f) t i = true) as E; [|by rewrite E in Ec].
      apply cleared_spec; [done|]. exists (u + 60). split; [lia|].
      unfold slot in *. divlia.
Qed.

Lemma R_add ev w t c f : R ev w f -> w <= t -> R ((t, c) :: ev) t (add c t f).
Proof.
  intros HR Hw. destruct (R_cleanup ev w t f HR Hw) as [(H1 & H2 & H3 & H4) Hs].
  unfold add. cbv zeta. set (g := cleanup t f) in *.
  assert (0 <= t) as Ht by (destruct HR; lia).
  rewrite rem_slot by done.
  assert (0 <= slot t < 60) as Hsl by (unfold slot; divlia).
  split_and!; simpl; [lia|lia|by rewrite zlen_put| |].
  - intros u c'. rewrite elem_of_cons. intros [[= -> _]|Hu]; [lia|].
    apply H3 in Hu. destruct HR as (? & _ & _ & _). lia.
  - intros i Hi. rewrite lookup_put by lia. rewrite (H4 (slot t)) by done.
    replace (t - 60 <? t) with true by (zcase; lia). cbn [andb].
    destruct (Z.eqb_spec (slot t) i) as [<-|].
    + cbn [default]. unfold id. f_equal. unfold wrap. rewrite Zplus_mod_idemp_l. f_equal. lia.
    + by rewrite H4.
Qed.

(** ** The sum of the counters *)

Lemma foldl_wrap l a : 0 <= a < 2 ^ 64 ->
  foldl (fun value b => wrap 64 (value + b)) a l = wrap 64 (a + foldr Z.add 0 l).
Proof.
  revert a. induction l as [|b l IH]; intros a Ha; cbn [foldl foldr].
  - rewrite Z.add_0_r. symmetry. by apply wrap_small.
  - rewrite IH by (apply wrap_range; lia). unfold wrap.
    rewrite Zplus_mod_idemp_l. f_equal. lia.
Qed.

(** The sum of [g] over the indices from [i]. *)
Fixpoint sum_from (n : nat) (i : Z) (g : Z -> Z) : Z :=
  match n with
  | O => 0
  | S n' => g i + sum_from n' (i + 1) g
  end.

Lemma sum_from_add n i g h :
  sum_from n i (fun j => g j + h j) = sum_from n i g + sum_from n i h.
Proof. revert i. induction n as [|n IH]; intros i; cbn; [done|]. rewrite IH. lia. Qed.

Lemma sum_from_one n i k c :
  sum_from n i (fun j => if k =? j then c else 0) =
  if (i <=? k) && (k <? i + Z.of_nat n) then c else 0.
Proof.
  revert i. induction n as [|n IH]; intros i; cbn [sum_from].
  - repeat zcase; cbn; lia.
  - rewrite IH. repeat zcase; cbn; lia.
Qed.

Lemma sum_from_ext n i g h :
  (forall j, i <= j < i + Z.of_nat n -> g j = h j) ->
  sum_from n i g = sum_from n i h.
Proof.
  revert i. induction n as [|n IH]; intros i H; [done|]. cbn [sum_from].
  rewrite H by lia. f_equal. apply IH. intros j Hj. apply H. lia.
Qed.

(** Every event is counted in one slot. *)
Lemma sum_slots p ev :
  sum_from 60 0 (fun i => total (fun u => p u && (slot u =? i)) ev) = total p ev.
Proof.
  induction ev as [|[u c] ev IH].
  - reflexivity.
  - cbn [total]. rewrite sum_from_add, IH. f_equal.
    destruct (p u); cbn [andb].
    + rewrite sum_from_one. unfold slot. repeat zcase; cbn; divlia.
    + change 0 with (if (-1) =? 0 then 0 else 0) at 2.
      rewrite (sum_from_ext _ _ _ (fun j => if (-1) =? j then 0 else 0)).
      * rewrite sum_from_one. reflexivity.
      * intros j _. by destruct (-1 =? j).
Qed.

Lemma wrap_add_r a b : wrap 64 (a + wrap 64 b) = wrap 64 (a + b).
Proof. unfold wrap. apply Zplus_mod_idemp_r. Qed.

Lemma sum_lookup l i g :
  (forall k, (k < length l)%nat -> l !! k = Some (wrap 64 (g (i + Z.of_nat k)))) ->
  wrap 64 (foldr Z.add 0 l) = wrap 64 (sum_from (length l) i g).
Proof.
  revert i. induction l as [|b l IH]; intros i H; [done|]. cbn [foldr length sum_from].
  assert (b = wrap 64 (g i)) as ->.
  { specialize (H 0%nat). cbn in H. rewrite Z.add_0_r in H.
    assert (Some b = Some (wrap 64 (g i))) as [= ->]; [apply H; lia|done]. }
  rewrite Z.add_comm, wrap_add_r, Z.add_comm, <- wrap_add_r, (IH (i + 1)).
  - apply wrap_add_r.
  - intros k Hk. specialize (H (S k) ltac:(cbn; lia)). cbn [lookup list_lookup] in H.
    replace (i + 1 + Z.of_nat k) with (i + Z.of_nat (S k)) by lia. exact H.
Qed.

Lemma get_value ev w f : R ev w f ->
  foldl (fun value b => wrap 64 (value + b)) 0 (m_buffer f) = last_minute w ev.
Proof.
  intros (_ & Hl & _ & Hi). rewrite foldl_wrap, Z.add_0_l by lia.
  assert (length (m_buffer f) = 60%nat) as Hn by (unfold zlen in Hl; lia).
  rewrite (sum_lookup _ 0 (fun i => total (fun u => (w - 60 <? u) && (slot u =? i)) ev)).
  - rewrite Hn. unfold last_minute. f_equal. apply sum_slots.
  - intros k Hk. rewrite <- Hi by lia. f_equal. lia.
Qed.

(** ** Refinement *)

Lemma R_run ops ev w f : R ev w f -> clock_ok w ops ->
  run step ops f = run spec_step ops ev.
Proof.
  revert ev w f. induction ops as [|[c t|t|] ops IH]; intros ev w f HR Hc;
    [done|..]; cbn [run step spec_step].
  - destruct Hc as [Ht Hc]. f_equal. eapply IH; [|done]. by apply (R_add ev w).
  - destruct Hc as [Ht Hc]. unfold get.
    destruct (R_cleanup ev w t f HR Ht) as [HR' _].
    rewrite (get_value _ _ _ HR'). f_equal. by eapply IH.
  - f_equal. eapply IH; [by eapply R_clear|done].
Qed.

(** C29. As long as the clock does not go back, the sixty counters answer every
    sequence of additions, readings and clears as the full list of what was
    added does: a reading is the number of bytes of the last sixty seconds, as
    a 64-bit number. *)
Theorem data_flow_refines debug t0 ops :
  0 <= t0 -> clock_ok t0 ops ->
  run step ops (new_data_flow debug t0) = run spec_step ops [].
Proof. intros. apply (R_run _ _ t0); [by apply R_new|done]. Qed.

Lemma data_flow_refines_witness :
  run step [Add 5 100; Add 7 130; Get 150; Get 165; Get 300] (new_data_flow false 100)
  = run spec_step [Add 5 100; Add 7 130; Get 150; Get 165; Get 300] [] /\
  run spec_step [Add 5 100; Add 7 130; Get 150; Get 165; Get 300] []
  = [None; None; Some 12; Some 7; Some 0].
Proof.
  split; [|reflexivity]. apply (data_flow_refines false 100); [lia|].
  cbn. lia.
Defined.
