(* ===== verification/ProxyLog.v ===== *)
(** * The log

    [proxy_log] ([applutil.h], [applutil.cpp]): the last fifty lines with their
    running numbers, and the choice of the log file.

    The time stamp of a line and the file times are arguments.  The mutex makes
    each operation one step.  The specification is the list of all lines. *)

From S2P Require Import Prelude CppString.

Record proxy_log := {
  m_log : list (Z * list ascii);
  m_write_index : Z;
  m_name : list ascii;
  m_log_file_index : Z;
  m_logfile : option (list ascii) }.

(** The constructor. *)
Definition new_proxy_log (name : list ascii) : proxy_log :=
  {| m_log := []; m_write_index := 0; m_name := name; m_log_file_index := 0;
     m_logfile := None |}.

Definition peek (l : proxy_log) : list ascii :=
  match List.rev (m_log l) with
  | (_, line) :: _ => line
  | [] => []
  end.

(** [find_if] on the running number. *)
Fixpoint find_line (index : Z) (log : list (Z * list ascii)) : list ascii :=
  match log with
  | [] => []
  | (i, line) :: log' => if i =? index then line else find_line index log'
  end.

Definition get (index : Z) (l : proxy_log) : list ascii := find_line index (m_log l).

(** An [int] returned as a [size_t]. *)
Definition count (l : proxy_log) : Z := wrap 64 (m_write_index l).

Definition log_filename (index : Z) : list ascii :=
  lit "uniproxy" ++ to_string index ++ lit ".log".

(** The loop over the files 1 to 9: the one with the lowest time, -1 for a
    file that does not exist. *)
Fixpoint choose (write_time : Z -> Z) (n : nat) (i t0 i0 : Z) : Z :=
  match n with
  | O => i0
  | S n' =>
      let t1 := write_time i in
      if t1 <? t0 then choose write_time n' (i + 1) t1 i
      else choose write_time n' (i + 1) t0 i0
  end.

Definition choose_file (last_write_time : list ascii -> Z) : Z :=
  let write_time i := last_write_time (log_filename i) in
  choose write_time 9 1 (write_time 0) 0.

(** Opening an open stream fails and leaves it as it is. *)
Definition open (file : list ascii) (stream : option (list ascii)) : option (list ascii) :=
  match stream with
  | Some f => Some f
  | None => Some file
  end.

(** [while (size() > 50) erase(begin())] *)
Fixpoint shrink (log : list (Z * list ascii)) : list (Z * list ascii) :=
  match log with
  | [] => []
  | _ :: log' => if zlen log >? 50 then shrink log' else log
  end.

Definition add (last_write_time : list ascii -> Z) (time_stamp value : list ascii)
    (l : proxy_log) : proxy_log :=
  if bool_decide (value = []) then l
  else
    let l :=
      if m_write_index l =? 0 then
        let i0 := choose_file last_write_time in
        {| m_log := m_log l; m_write_index := m_write_index l; m_name := m_name l;
           m_log_file_index := i0;
           m_logfile := open (log_filename i0) (m_logfile l) |}
      else l in
    let line := (m_write_index l, time_stamp ++ lit ": " ++ value) in
    {| m_log := shrink (m_log l ++ [line]);
       m_write_index := swrap 32 (m_write_index l + 1);
       m_name := m_name l;
       m_log_file_index := m_log_file_index l;
       m_logfile := m_logfile l |}.

Definition clear (l : proxy_log) : proxy_log := l.

(** The format string [do_log] passes to [sd_journal_send], and the field the
    journal gets: the library expands it as [printf] does, and only [%%] is in
    it. *)
Definition do_log (s : list ascii) : out (option (list ascii)) :=
  if bool_decide (s = []) then mret None
  else
    escaped ← replace s (lit "%") (lit "%%");
    mret (Some (c_str (lit "MESSAGE=" ++ escaped))).

(** [logger_get] of [main.cpp]: the lines a client that has read up to
    [index] has not read yet, and the number to ask for next. *)
Fixpoint logger_lines (fuel : nat) (l : proxy_log) (index log_write_index : Z)
    (lines : list (list ascii)) : list (list ascii) :=
  match fuel with
  | O => lines
  | S fuel' =>
      if index <? log_write_index then
        let text := get index l in
        let lines := if bool_decide (text = []) then lines else lines ++ [text] in
        logger_lines fuel' l (index + 1) log_write_index lines
      else lines
  end.

(** The answer and the session's new read index. *)
Definition logger_get (l : proxy_log) (m_logger_read_index : Z)
    : list (list ascii) * Z :=
  let log_write_index := swrap 32 (count l) in
  (logger_lines (Z.to_nat (log_write_index - m_logger_read_index)) l
     m_logger_read_index log_write_index [], log_write_index).

(** ** Specification *)

(** A log that got these values, each with its time stamp and the file times at
    that moment. *)
Definition entry : Type := (list ascii -> Z) * list ascii * list ascii.

Definition log_all (es : list entry) (l : proxy_log) : proxy_log :=
  foldl (fun l '(times, stamp, value) => add times stamp value l) l es.

(** The lines these values make; an empty value makes none. *)
Fixpoint lines_of (es : list entry) : list (list ascii) :=
  match es with
  | [] => []
  | (_, stamp, value) :: es' =>
      if bool_decide (value = []) then lines_of es'
      else (stamp ++ lit ": " ++ value) :: lines_of es'
  end.

(** Lines with their running numbers. *)
Fixpoint numbered (i : Z) (lines : list (list ascii)) : list (Z * list ascii) :=
  match lines with
  | [] => []
  | x :: lines' => (i, x) :: numbered (i + 1) lines'
  end.

(** The log holds the last fifty of [lines]. *)
Definition holds (lines : list (list ascii)) (l : proxy_log) : Prop :=
  m_write_index l = zlen lines /\
  m_log l = drop (length lines - 50) (numbered 0 lines).

(** ** Lemmas *)

Lemma length_numbered i lines : length (numbered i lines) = length lines.
Proof. revert i. induction lines; intros; cbn; auto. Qed.

Lemma numbered_app i l1 l2 :
  numbered i (l1 ++ l2) = numbered i l1 ++ numbered (i + zlen l1) l2.
Proof.
  revert i. induction l1 as [|x l1 IH]; intros i; cbn.
  - f_equal. zlen_lia.
  - rewrite IH. do 3 f_equal. zlen_lia.
Qed.

Lemma drop_numbered n i lines :
  (n <= length lines)%nat ->
  drop n (numbered i lines) = numbered (i + Z.of_nat n) (drop n lines).
Proof.
  revert i lines. induction n as [|n IH]; intros i lines H.
  - rewrite !drop_0. f_equal. lia.
  - destruct lines as [|x lines]; [done|]. cbn [numbered drop]. rewrite IH.
    + f_equal. lia.
    + cbn in H. lia.
Qed.

Lemma shrink_spec log : shrink log = drop (length log - 50) log.
Proof.
  induction log as [|a log IH]; [done|]. cbn [shrink]. zcase.
  - rewrite IH. unfold zlen in *. cbn [length] in *.
    replace (S (length log) - 50)%nat with (S (length log - 50)) by lia. done.
  - unfold zlen in *. replace (length (a :: log) - 50)%nat with 0%nat by lia. done.
Qed.

Lemma find_line_numbered i lines k :
  find_line k (numbered i lines) =
  if (i <=? k) && (k <? i + zlen lines) then default [] (lines !! Z.to_nat (k - i)) else [].
Proof.
  revert i. induction lines as [|x lines IH]; intros i; cbn [numbered find_line].
  - by destruct (_ && _).
  - destruct (Z.eqb_spec i k) as [->|Hne].
    + rewrite Z.sub_diag. replace ((k <=? k) && _) with true; [done|].
      symmetry. apply andb_true_iff. split; [lia|]. apply Z.ltb_lt. zlen_lia.
    + rewrite IH, zlen_cons. repeat zcase; cbn [andb]; try lia; try done.
      replace (Z.to_nat (k - i)) with (S (Z.to_nat (k - (i + 1)))) by lia. done.
Qed.

Lemma holds_new name : holds [] (new_proxy_log name).
Proof. done. Qed.

Lemma holds_add lines l times stamp value :
  holds lines l -> value <> [] -> zlen lines < 2 ^ 31 - 1 ->
  holds (lines ++ [stamp ++ lit ": " ++ value]) (add times stamp value l).
Proof.
  intros [H1 H2] Hv Hlen. unfold add. rewrite bool_decide_false by done.
  set (l' := if m_write_index l =? 0 then _ else l).
  assert (m_write_index l' = m_write_index l /\ m_log l' = m_log l) as [E1 E2]
    by (unfold l'; destruct (_ =? 0); done).
  unfold holds. cbn [m_write_index m_log]. rewrite E1, E2, H1, H2. split.
  - rewrite swrap_small; [zlen_lia|lia|]. unfold in_sint. zlen_lia.
  - rewrite shrink_spec, numbered_app, Z.add_0_l. cbn [numbered].
    rewrite !length_app, length_drop, length_numbered. cbn [length].
    rewrite (drop_app_le (numbered 0 lines)) by (rewrite length_numbered; lia).
    rewrite drop_app_le by (rewrite length_drop, length_numbered; lia).
    rewrite drop_drop. f_equal. f_equal. lia.
Qed.

Lemma holds_log_all es lines l :
  holds lines l -> zlen lines + zlen (lines_of es) < 2 ^ 31 ->
  holds (lines ++ lines_of es) (log_all es l).
Proof.
  revert lines l. induction es as [|[[times stamp] value] es IH]; intros lines l H Hl.
  - cbn. by rewrite app_nil_r.
  - cbn [log_all foldl lines_of] in *. case_bool_decide as Hv.
    + unfold add at 2. rewrite bool_decide_true by done. by apply IH.
    + rewrite cons_middle, app_assoc. 
      rewrite zlen_cons in Hl.
      apply IH; [|rewrite zlen_app, zlen_cons, zlen_nil; lia].
      apply holds_add; [done..|]. pose proof (zlen_nonneg (lines_of es)). lia.
Qed.

(** The line with number [k], if it is among the last fifty. *)
Lemma holds_get lines l k :
  holds lines l ->
  get k l = if (zlen lines - 50 <=? k) && (0 <=? k) && (k <? zlen lines)
            then default [] (lines !! Z.to_nat k) else [].
Proof.
  intros [H1 H2]. unfold get. rewrite H2, drop_numbered, find_line_numbered by lia.
  unfold zlen. rewrite length_drop. repeat zcase; cbn [andb]; try lia; try done.
  rewrite lookup_drop. do 2 f_equal. lia.
Qed.

Lemma holds_peek lines l :
  holds lines l -> peek l = default [] (List.last (map Some lines) None).
Proof.
  intros [_ H]. unfold peek. rewrite H.
  destruct lines as [|x lines _] using rev_ind; [done|].
  rewrite numbered_app, length_app, drop_app_le by (rewrite length_numbered; cbn; lia).
  cbn [numbered]. rewrite rev_app_distr. cbn [List.rev app].
  rewrite map_app. cbn [map]. by rewrite List.last_last.
Qed.

(** The lines with a number from [k] on. *)
Lemma logger_lines_spec fuel lines l k acc :
  holds lines l -> Forall (fun x => x <> []) lines -> 0 <= k <= zlen lines ->
  Z.to_nat (zlen lines - k) = fuel ->
  logger_lines fuel l k (zlen lines) acc =
  acc ++ drop (Z.to_nat (Z.max k (zlen lines - 50))) lines.
Proof.
  intros Hh Hne. revert k acc. induction fuel as [|fuel IH]; intros k acc Hk Hf.
  - cbn [logger_lines]. rewrite drop_ge; [by rewrite app_nil_r|]. unfold zlen in *. lia.
  - cbn [logger_lines]. zcase; [|lia]. rewrite (holds_get lines) by done.
    rewrite IH by lia.
    destruct (Z.leb_spec (zlen lines - 50) k) as [Hin|Hout]; cbn [andb].
    + destruct (Z.leb_spec 0 k), (Z.ltb_spec k (zlen lines)); try lia. cbn [andb].
      destruct (lookup_lt_is_Some_2 lines (Z.to_nat k)) as [x Hx];
        [unfold zlen in *; lia|].
      rewrite Hx. cbn [default]. unfold id.
      rewrite bool_decide_false by by apply (Forall_lookup_1 _ _ _ _ Hne Hx).
      rewrite !Z.max_l by lia. rewrite (drop_S lines x (Z.to_nat k)) by done.
      rewrite <- app_assoc. do 3 f_equal. lia.
    + rewrite bool_decide_true by done. rewrite !Z.max_r by lia. done.
Qed.

Lemma lines_of_nonempty es : Forall (fun x => x <> []) (lines_of es).
Proof.
  induction es as [|[[times stamp] value] es IH]; [done|]. cbn [lines_of].
  case_bool_decide; [done|]. constructor; [|done]. by destruct stamp.
Qed.

(** ** The choice of the file *)

(** The first of the ten files with the lowest time. *)
Lemma choose_spec f n i t0 i0 :
  let r := choose f n i t0 i0 in
  t0 = f i0 -> 0 <= i0 < i ->
  (forall j, 0 <= j < i -> t0 <= f j) -> (forall j, 0 <= j < i0 -> t0 < f j) ->
  0 <= r < i + Z.of_nat n /\
  (forall j, 0 <= j < i + Z.of_nat n -> f r <= f j) /\
  (forall j, 0 <= j < r -> f r < f j).
Proof.
  revert i t0 i0. induction n as [|n IH]; intros i t0 i0 r Ht Hi Hmin Hfst; subst r.
  - cbn [choose]. subst t0. rewrite Z.add_0_r. split; [lia|done].
  - replace (i + Z.of_nat (S n)) with ((i + 1) + Z.of_nat n) by lia.
    cbn [choose]. destruct (Z.ltb_spec (f i) t0); apply IH; try done; try lia.
    + intros j Hj. destruct (Z.eq_dec j i) as [->|]; [lia|].
      transitivity t0; [lia|]. apply Hmin. lia.
    + intros j Hj. assert (t0 <= f j) by (apply Hmin; lia). lia.
    + intros j Hj. destruct (Z.eq_dec j i) as [->|]; [lia|]. apply Hmin. lia.
Qed.

(** What [printf] makes of a format without arguments; any other conversion
    than [%%] would read an argument that is not there. *)
Fixpoint printf (format : list ascii) : out (list ascii) :=
  match format with
  | [] => mret []
  | c :: format' =>
      if Ascii.eqb c (chr 37) then
        match format' with
        | d :: format'' =>
            if Ascii.eqb d (chr 37) then s ← printf format''; mret (chr 37 :: s)
            else UB
        | [] => UB
        end
      else s ← printf format'; mret (c :: s)
  end.

Lemma printf_escaped s t r :
  printf t = Ok r -> printf (subst_byte (chr 37) (lit "%%") s ++ t) = Ok (s ++ r).
Proof.
  intros Ht. induction s as [|c s IH]; [done|].
  destruct (decide (c = chr 37)) as [->|Hne].
  - rewrite subst_byte_hit.
    change (printf ((lit "%%" ++ ?l) ++ ?u)) with
      (s' ← printf (l ++ u); mret (chr 37 :: s')).
    by rewrite IH.
  - rewrite subst_byte_skip by done. cbn [app printf].
    rewrite (proj2 (Ascii.eqb_neq c (chr 37))) by done. by rewrite IH.
Qed.

Lemma c_str_subst_percent s :
  c_str (subst_byte (chr 37) (lit "%%") s) = subst_byte (chr 37) (lit "%%") (c_str s).
Proof.
  induction s as [|c s IH]; [done|].
  destruct (decide (c = chr 37)) as [->|Hne].
  - rewrite subst_byte_hit.
    change (c_str (lit "%%" ++ ?l)) with (lit "%%" ++ c_str l).
    change (c_str (chr 37 :: s)) with (chr 37 :: c_str s).
    by rewrite subst_byte_hit, IH.
  - rewrite subst_byte_skip by done. cbn [c_str].
    destruct (Ascii.eqb c zero); [done|]. by rewrite subst_byte_skip, IH.
Qed.

(** ** Properties *)

(** C30. After any sequence of fewer than 2^31 nonempty lines the log has exactly
    the last fifty: [get] of a number among the last fifty is that line, of any
    other number it is empty, [count] is the number of all lines, and [peek] is
    the last one. *)
Theorem proxy_log_keeps_last_50 es name :
  zlen (lines_of es) < 2 ^ 31 ->
  let lines := lines_of es in
  let l := log_all es (new_proxy_log name) in
  (forall k, get k l = if (zlen lines - 50 <=? k) && (0 <=? k) && (k <? zlen lines)
                       then default [] (lines !! Z.to_nat k) else []) /\
  count l = zlen lines /\ peek l = default [] (List.last (map Some lines) None) /\
  zlen (m_log l) = Z.min 50 (zlen lines).
Proof.
  intros Hlen lines l.
  assert (holds lines l) as Hh.
  { apply (holds_log_all es []); [done|]. rewrite zlen_nil. lia. }
  split_and!.
  - intros k. by apply holds_get.
  - unfold count. destruct Hh as [-> _]. apply wrap_small. unfold in_uint.
    subst lines. pose proof (zlen_nonneg (lines_of es)). lia.
  - by apply holds_peek.
  - destruct Hh as [_ ->]. unfold zlen. rewrite length_drop, length_numbered. lia.
Qed.

Definition entries3 : list entry :=
  [(fun _ => -1, lit "t0", lit "one"); (fun _ => -1, lit "t1", []);
   (fun _ => -1, lit "t2", lit "two")].

Lemma proxy_log_keeps_last_50_witness :
  get 1 (log_all entries3 (new_proxy_log (lit "log"))) = lit "t2: two" /\
  count (log_all entries3 (new_proxy_log (lit "log"))) = 2.
Proof.
  destruct (proxy_log_keeps_last_50 entries3 (lit "log")) as (H1 & H2 & _).
  - vm_compute. done.
  - split; [rewrite H1|rewrite H2]; reflexivity.
Defined.

(** A session that polls the log gets, in order, exactly the lines it has
    not read yet, except those that are no longer among the last fifty, and
    afterwards asks for the lines after them. *)
Theorem logger_get_unread es name read_index :
  zlen (lines_of es) < 2 ^ 31 -> 0 <= read_index <= zlen (lines_of es) ->
  logger_get (log_all es (new_proxy_log name)) read_index =
  (drop (Z.to_nat (Z.max read_index (zlen (lines_of es) - 50))) (lines_of es),
   zlen (lines_of es)).
Proof.
  intros Hlen Hr. set (l := log_all es (new_proxy_log name)).
  assert (holds (lines_of es) l) as Hh.
  { apply (holds_log_all es []); [done|]. rewrite zlen_nil. lia. }
  unfold logger_get.
  assert (swrap 32 (count l) = zlen (lines_of es)) as ->.
  { unfold count. destruct Hh as [-> _]. rewrite wrap_small, swrap_small; [done|lia|..].
    all: unfold in_sint, in_uint; pose proof (zlen_nonneg (lines_of es)); lia. }
  f_equal. by rewrite (logger_lines_spec _ (lines_of es)) by (done || apply lines_of_nonempty).
Qed.

Lemma logger_get_unread_witness :
  logger_get (log_all entries3 (new_proxy_log (lit "log"))) 1 = ([lit "t2: two"], 2).
Proof.
  rewrite (logger_get_unread entries3 (lit "log") 1).
  - reflexivity.
  - vm_compute. done.
  - vm_compute. done.
Defined.

(** The log file is the first of the ten names that has the lowest file time;
    a file that does not exist counts as the lowest, -1. *)
Theorem choose_file_oldest times :
  let i := choose_file times in
  0 <= i < 10 /\
  (forall j, 0 <= j < 10 -> times (log_filename i) <= times (log_filename j)) /\
  (forall j, 0 <= j < i -> times (log_filename i) < times (log_filename j)).
Proof.
  unfold choose_file. cbv zeta.
  apply (choose_spec (fun i => times (log_filename i)) 9 1); [done|lia|..]; intros j Hj.
  - assert (j = 0) as -> by lia. done.
  - lia.
Qed.

(** The system journal gets every log line, up to a NUL in it, as it is:
    percent signs are never taken for conversions. *)
Theorem do_log_escapes s :
  s <> [] -> zlen s < npos ->
  exists format, do_log s = Ok (Some format) /\ 
    printf format = Ok (lit "MESSAGE=" ++ c_str s).
Proof.
  intros Hs Hlen. unfold do_log. rewrite bool_decide_false by done.
  rewrite (replace_byte (chr 37)), bind_Ok by done. eexists. split; [done|].
  change (c_str (lit "MESSAGE=" ++ ?l)) with (lit "MESSAGE=" ++ c_str l).
  rewrite c_str_subst_percent. set (s' := c_str s).
  change (lit "MESSAGE=") with (subst_byte (chr 37) (lit "%%") (lit "MESSAGE=")) at 1.
  rewrite <- (app_nil_r (subst_byte _ _ s')).
  rewrite (printf_escaped (lit "MESSAGE=") _ s'); [done|].
  rewrite <- (app_nil_r s') at 2. by apply printf_escaped.
Qed.

Lemma do_log_escapes_witness :
  exists format, do_log (lit "100% %s") = Ok (Some format) /\
    printf format = Ok (lit "MESSAGE=" ++ lit "100% %s").
Proof. apply do_log_escapes; [done|by vm_compute]. Defined.
