(* ===== verification/Json.v ===== *)
(** * JSON access

    The readers of [cppcms::utils] ([cppcms_util.h]) and the [check_int] and
    [check_string] of [applutil.cpp].

    [cppcms::json::value] is a library's type: [Json] is its interface, with
    the operations the program calls, and [JsonLaws] what its documentation
    says about them, which the round trips rely on.  [tree] is an
    implementation of both, which the witnesses run. *)

From S2P Require Import Prelude CppString.

(** ** The interface *)

(** [cppcms::json::json_type] *)
Inductive json_type :=
  is_undefined | is_null | is_boolean | is_number | is_string | is_object | is_array.

#[export] Instance json_type_eq_dec : EqDecision json_type.
Proof. solve_decision. Defined.

Class Json (J : Type) := {
  (** The default constructor: the undefined value. *)
  undefined : J;
  (** [value::null] *)
  null : J;
  type : J -> json_type;
  (** [get_value<T>()] and [array()]; they throw [bad_value_cast]. *)
  get_int : J -> out Z;
  get_string : J -> out (list ascii);
  get_bool : J -> out bool;
  array : J -> out (list J);
  of_int : Z -> J;
  of_string : list ascii -> J;
  of_bool : bool -> J;
  of_array : list J -> J;
  (** [obj.find(path)]: undefined when there is no such member. *)
  find : J -> list ascii -> J;
  (** [obj[name]] of an object that is not const: the member, created when
      there is none, and the object with it. *)
  member : J -> list ascii -> out (J * J);
  (** [obj[name] = v] *)
  set : J -> list ascii -> J -> out J;
  (** [arr[n] = v]: a value that is no array becomes one, and one that is too
      short is filled up with undefined values. *)
  set_at : J -> nat -> J -> out J }.

(** The elements of an array after [arr[n] = v]. *)
Definition assign_at {A} (empty : A) (l : list A) (n : nat) (v : A) : list A :=
  if (n <? length l)%nat then <[n := v]> l else l ++ replicate (n - length l) empty ++ [v].

(** A path of one name. *)
Definition simple (k : list ascii) : Prop := k <> [] /\ chr 46 ∉ k.

Lemma is_simple k :
  match k with [] => false | _ => forallb (fun c => negb (Ascii.eqb c (chr 46))) k end = true ->
  simple k.
Proof.
  destruct k as [|c k]; [done|]. intros Hk. split; [done|]. intros Hin.
  rewrite forallb_forall in Hk. apply list_elem_of_In, Hk in Hin.
  by rewrite Ascii.eqb_refl in Hin.
Qed.

#[export] Hint Extern 0 (simple _) => (apply is_simple; reflexivity) : uniproxy.

(** A value that takes members: an object, or a value without content, which
    becomes one. *)
Definition can_set `{Json J} (v : J) : Prop :=
  type v = is_object \/ type v = is_undefined.

Class JsonLaws (J : Type) `{Json J} := {
  type_undefined : type (undefined : J) = is_undefined;
  type_of_int n : type (of_int n : J) = is_number;
  type_of_string s : type (of_string s : J) = is_string;
  type_of_bool b : type (of_bool b : J) = is_boolean;
  type_of_array l : type (of_array l : J) = is_array;
  get_int_of_int n : in_sint 32 n -> get_int (of_int n : J) = Ok n;
  get_string_of_string s : get_string (of_string s : J) = Ok s;
  get_bool_of_bool b : get_bool (of_bool b : J) = Ok b;
  array_of_array l : array (of_array l : J) = Ok l;
  set_Ok (o : J) k v : can_set o -> simple k ->
    exists o', set o k v = Ok o' /\ type o' = is_object /\
      find o' k = v /\
      forall k', simple k' -> k' <> k -> find o' k' = find o k';
  member_Ok (o : J) k : can_set o -> simple k ->
    exists o', member o k = Ok (find o k, o') /\ type o' = is_object /\
      forall k', simple k' -> find o' k' = find o k';
  set_at_array l n (v : J) : set_at (of_array l) n v = Ok (of_array (assign_at undefined l n v));
  set_at_undefined (a : J) n v :
    type a = is_undefined -> set_at a n v = Ok (of_array (assign_at undefined [] n v));
  find_absent (v : J) k : type v = is_undefined -> type (find v k) = is_undefined;
  find_path_Ok (o : J) k1 k2 : can_set o -> simple k1 -> simple k2 ->
    find o (k1 ++ chr 46 :: k2) = find (find o k1) k2 }.

(** ** The readers *)

Section readers.
Context `{Json J}.

(** [check_int(obj, name, result)]: whether there is a value, and the result
    variable, indeterminate or not, afterwards.  [from_string] leaves it
    undefined when the string is empty. *)
Definition check_int (obj : J) (inputname : list ascii) (result : option Z)
    : out (bool * option Z) :=
  if zlen inputname >? 0 then
    let value := find obj inputname in
    match type value with
    | is_number => n ← get_int value; mret (true, Some n)
    | is_string => sz ← get_string value; mret (true, from_string sz result)
    | _ => mret (false, result)
    end
  else mret (false, result).

(** The conversion of an [int] to a [port_type], an [unsigned short]. *)
Definition check_port (obj : J) (inputname : list ascii) (result : Z)
    : out (bool * Z) :=
  '(ok, value) ← check_int obj inputname None;
  if ok : bool then
    v ← use_int value;
    mret (true, wrap 16 v)
  else mret (false, result).

(** What the overloads with a default throw for a required value. *)
Definition required_error (kind inputname : list ascii) : exn :=
  RuntimeError (lit "Failed to validate JSON input for " ++ kind ++ lit "value "
    ++ inputname ++ lit " which is required").

Definition check_int_default (obj : J) (inputname : list ascii)
    (default_value : Z) (required : bool) : out Z :=
  if zlen inputname >? 0 then
    let value := find obj inputname in
    match type value with
    | is_number => get_int value
    | is_string =>
        sz ← get_string value;
        use_int (from_string sz (Some default_value))
    | _ => mret default_value
    end
  else if required then Throw (required_error [] inputname)
  else mret default_value.

Definition string_true (sz : list ascii) : bool :=
  string_eqb sz (lit "true") || string_eqb sz (lit "on").

Definition check_bool (obj : J) (inputname : list ascii) (result : bool)
    : out (bool * bool) :=
  if zlen inputname >? 0 then
    let value := find obj inputname in
    match type value with
    | is_number => n ← get_int value; mret (true, n >? 0)
    | is_string => sz ← get_string value; mret (true, string_true sz)
    | is_boolean => b ← get_bool value; mret (true, b)
    | _ => mret (false, result)
    end
  else mret (false, result).

Definition check_bool_default (obj : J) (inputname : list ascii)
    (default_value required : bool) : out bool :=
  '(found, result) ←
    (if zlen inputname >? 0 then
       let value := find obj inputname in
       match type value with
       | is_boolean => b ← get_bool value; mret (true, b)
       | is_number => n ← get_int value; mret (true, n >? 0)
       | is_string => sz ← get_string value; mret (true, string_true sz)
       | _ => mret (false, default_value)
       end
     else mret (false, default_value));
  if required && negb found then Throw (required_error (lit "bool ") inputname)
  else mret result.

Definition check_string (obj : J) (inputname : list ascii) (result : list ascii)
    : out (bool * list ascii) :=
  if zlen inputname >? 0 then
    let value := find obj inputname in
    match type value with
    | is_string => sz ← get_string value; mret (true, sz)
    | _ => mret (false, result)
    end
  else mret (false, result).

Definition check_date := check_string.

Definition check_string_default (obj : J) (inputname default_value : list ascii)
    (required : bool) : out (list ascii) :=
  if zlen inputname >? 0 then
    let value := find obj inputname in
    match type value with
    | is_string => get_string value
    | _ => mret default_value
    end
  else if required then Throw (required_error [] inputname)
  else mret default_value.

(** The functions of the same names in [applutil.cpp] are the same code. *)
Definition applutil_check_int := check_int_default.
Definition applutil_check_string := check_string_default.

(** [set_value]: only a value that is not empty or zero is written. *)
Definition set_value_string (obj : J) (name value : list ascii) : out J :=
  if bool_decide (value = []) then mret obj else set obj name (of_string value).

Definition set_value_port (obj : J) (name : list ascii) (value : Z) : out J :=
  if value >? 0 then set obj name (of_int value) else mret obj.

End readers.

(** ** An implementation *)

(** Values as the documentation of the library describes them.  A number that
    is not an [int] cannot be read as one. *)
Inductive tree :=
  | Undefined
  | Null
  | Bool (b : bool)
  | Number (n : Z)
  | Str (s : list ascii)
  | Object (members : list (list ascii * tree))
  | Array (elements : list tree).

Definition tree_type (v : tree) : json_type :=
  match v with
  | Undefined => is_undefined
  | Null => is_null
  | Bool _ => is_boolean
  | Number _ => is_number
  | Str _ => is_string
  | Object _ => is_object
  | Array _ => is_array
  end.

Fixpoint lookup_member (ms : list (list ascii * tree)) (k : list ascii) : tree :=
  match ms with
  | [] => Undefined
  | (k', v) :: ms' => if string_eqb k k' then v else lookup_member ms' k
  end.

(** A value that is no object becomes an empty one. *)
Definition tree_members (v : tree) : list (list ascii * tree) :=
  match v with
  | Object ms => ms
  | _ => []
  end.

(** [find]: the names of the path are separated by dots. *)
Fixpoint find_path (v : tree) (path : list (list ascii)) : tree :=
  match path with
  | [] => v
  | k :: path' =>
      match v with
      | Object ms => find_path (lookup_member ms k) path'
      | _ => Undefined
      end
  end.

#[export] Instance tree_json : Json tree := {
  undefined := Undefined;
  null := Null;
  type := tree_type;
  get_int v := match v with
               | Number n => if bool_decide (in_sint 32 n) then Ok n else Throw BadCast
               | _ => Throw BadCast
               end;
  get_string v := match v with Str s => Ok s | _ => Throw BadCast end;
  get_bool v := match v with Bool b => Ok b | _ => Throw BadCast end;
  array v := match v with Array l => Ok l | _ => Throw BadCast end;
  of_int := Number;
  of_string := Str;
  of_bool := Bool;
  of_array := Array;
  find v path := find_path v (split path (chr 46));
  member v k := let ms := tree_members v in
                mret (if existsb (fun m => string_eqb k (fst m)) ms
                      then (lookup_member ms k, Object ms)
                      else (Undefined, Object ((k, Undefined) :: ms)));
  set v k m := mret (Object ((k, m) :: tree_members v));
  set_at v n x := mret (Array (assign_at Undefined
                                 (match v with Array l => l | _ => [] end) n x)) }.

Lemma split_simple k : simple k -> split k (chr 46) = [k].
Proof.
  intros [Hne Hk]. unfold split.
  assert (forall s item, chr 46 ∉ s -> item ++ s <> [] ->
            split_go (chr 46) s item = [item ++ s]) as G.
  { induction s as [|c s IH]; intros item Hs Hi; cbn [split_go].
    - rewrite app_nil_r in *. by destruct item.
    - destruct (Ascii.eqb_spec c (chr 46)) as [->|]; [set_solver|].
      rewrite IH; [by rewrite <- app_assoc|set_solver|by destruct item]. }
  by apply (G k []).
Qed.

Lemma split_path k1 k2 : simple k1 -> simple k2 -> split (k1 ++ chr 46 :: k2) (chr 46) = [k1; k2].
Proof.
  intros [H1 Hk1] Hk2. pose proof (split_simple k2 Hk2) as E2. unfold split in *.
  assert (forall s item, chr 46 ∉ s -> item ++ s <> [] ->
            split_go (chr 46) (s ++ chr 46 :: k2) item = [item ++ s; k2]) as G.
  { induction s as [|c s IH]; intros item Hs Hi; cbn [app split_go].
    - rewrite Ascii.eqb_refl, E2. by rewrite app_nil_r.
    - destruct (Ascii.eqb_spec c (chr 46)) as [->|]; [set_solver|].
      rewrite IH; [by rewrite <- app_assoc|set_solver|by destruct item]. }
  by apply (G k1 []).
Qed.

Lemma tree_find (o : tree) k :
  can_set o -> simple k -> find o k = lookup_member (tree_members o) k.
Proof.
  intros Ho Hk. destruct o, Ho as [Ho|Ho]; try discriminate Ho; cbn; by rewrite split_simple.
Qed.

Lemma lookup_member_absent ms k :
  existsb (fun m => string_eqb k (fst m)) ms = false -> lookup_member ms k = Undefined.
Proof.
  induction ms as [|[k' v] ms IH]; [done|]. cbn. destruct (string_eqb k k'); [done|]. apply IH.
Qed.

#[export] Instance tree_laws : JsonLaws tree.
Proof.
  split; try done.
  - intros n Hn. cbn. by rewrite bool_decide_true.
  - intros o k v Ho Hk. exists (Object ((k, v) :: tree_members o)).
    split; [done|]. split; [done|]. split.
    + cbn [find tree_json]. rewrite split_simple by done. cbn [find_path lookup_member].
      by rewrite string_eqb_refl.
    + intros k' Hk' Hne. rewrite (tree_find o) by done. cbn [find tree_json].
      rewrite split_simple by done. cbn [find_path lookup_member].
      destruct (string_eqb k' k) eqn:E; [|done]. by apply string_eqb_eq in E.
  - intros o k Ho Hk. cbn [member tree_json].
    assert (find (Object (tree_members o)) k = lookup_member (tree_members o) k) as Hf
      by (by rewrite (tree_find (Object _)) by (done || by left)).
    rewrite (tree_find o) by done. destruct (existsb _ _) eqn:E.
    + eexists. split; [done|]. split; [done|]. intros k' Hk'.
      by rewrite (tree_find o), (tree_find (Object _)) by (done || by left).
    + rewrite lookup_member_absent by done. eexists. split; [done|]. split; [done|].
      intros k' Hk'. rewrite (tree_find o), (tree_find (Object _)) by (done || by left).
      cbn [tree_members lookup_member]. destruct (string_eqb k' k) eqn:Ek; [|done].
      apply string_eqb_eq in Ek as ->. by rewrite lookup_member_absent.
  - intros a n v Ha. by destruct a.
  - intros v k Hv. destruct v; try discriminate Hv. cbn. by destruct (split k (chr 46)).
  - intros o k1 k2 Ho H1 H2. cbn [find tree_json]. rewrite split_path, !split_simple by done.
    by destruct o.
Qed.

(** ** Lemmas on the readers *)

Section lemmas.
Context `{JsonLaws J}.
Implicit Types o : J.

Lemma find_undefined k : type (find (undefined : J) k) = is_undefined.
Proof. apply find_absent, type_undefined. Qed.

Lemma simple_length k : simple k -> zlen k >? 0 = true.
Proof. intros [Hk _]. destruct k; [done|]. rewrite Z.gtb_ltb. zcase; [done|zlen_lia]. Qed.

Lemma check_string_found o k s r :
  simple k -> find o k = of_string s -> check_string o k r = Ok (true, s).
Proof.
  intros Hk Hf. unfold check_string. rewrite simple_length, Hf by done.
  by rewrite type_of_string, get_string_of_string.
Qed.

Lemma check_string_absent o k r :
  simple k -> type (find o k) = is_undefined -> check_string o k r = Ok (false, r).
Proof. intros Hk Hf. unfold check_string. by rewrite simple_length, Hf by done. Qed.

Lemma check_int_found o k n r :
  simple k -> find o k = of_int n -> in_sint 32 n -> check_int o k r = Ok (true, Some n).
Proof.
  intros Hk Hf Hn. unfold check_int. rewrite simple_length, Hf by done.
  by rewrite type_of_int, get_int_of_int.
Qed.

Lemma check_int_text o k s r :
  simple k -> find o k = of_string s -> check_int o k r = Ok (true, from_string s r).
Proof.
  intros Hk Hf. unfold check_int. rewrite simple_length, Hf by done.
  by rewrite type_of_string, get_string_of_string.
Qed.

Lemma check_int_absent o k r :
  simple k -> type (find o k) = is_undefined -> check_int o k r = Ok (false, r).
Proof. intros Hk Hf. unfold check_int. by rewrite simple_length, Hf by done. Qed.

Lemma check_port_found o k n r :
  simple k -> find o k = of_int n -> in_sint 32 n ->
  check_port o k r = Ok (true, wrap 16 n).
Proof. intros. unfold check_port. by rewrite (check_int_found o k n). Qed.

Lemma check_port_absent o k r :
  simple k -> type (find o k) = is_undefined -> check_port o k r = Ok (false, r).
Proof. intros. unfold check_port. by rewrite check_int_absent. Qed.

(** A port [check_port] stored is a port. *)
Lemma check_port_range o k r ok p :
  in_uint 16 r -> check_port o k r = Ok (ok, p) -> in_uint 16 p.
Proof.
  unfold check_port. intros Hr E. apply bind_Ok_inv in E as ([[] v] & _ & E).
  - apply bind_Ok_inv in E as (z & _ & E). injection E as _ <-. auto with ints lia.
  - by injection E as _ <-.
Qed.

Lemma set_value_string_Ok o k s :
  can_set o -> simple k -> exists o', set_value_string o k s = Ok o' /\
    can_set o' /\ (forall k', simple k' -> k' <> k -> find o' k' = find o k') /\
    (s <> [] -> type o' = is_object /\ find o' k = of_string s) /\ (s = [] -> o' = o).
Proof.
  intros Ho Hk. unfold set_value_string. case_bool_decide as Hs.
  - exists o. naive_solver.
  - destruct (set_Ok o k (of_string s) Ho Hk) as (o' & -> & Ht & Hf & Hr).
    exists o'. split; [done|]. split; [by left|]. naive_solver.
Qed.

Lemma set_value_port_Ok o k p :
  can_set o -> simple k -> exists o', set_value_port o k p = Ok o' /\
    can_set o' /\ (forall k', simple k' -> k' <> k -> find o' k' = find o k') /\
    (0 < p -> type o' = is_object /\ find o' k = of_int p) /\ (p <= 0 -> o' = o).
Proof.
  intros Ho Hk. unfold set_value_port. rewrite Z.gtb_ltb. zcase.
  - destruct (set_Ok o k (of_int p) Ho Hk) as (o' & -> & Ht & Hf & Hr).
    exists o'. split; [done|]. split; [by left|]. split; [done|]. split; [done|lia].
  - exists o. split; [done|]. split; [done|]. split; [done|]. split; [lia|done].
Qed.

End lemmas.

(** ** Properties *)

(** A port read from a configuration is the number given there modulo 65536:
    a number out of range is taken for another port, never rejected. *)
Theorem check_port_truncates {J} `{JsonLaws J} (o : J) k n old :
  simple k -> in_sint 32 n ->
  (find o k = of_int n \/ find o k = of_string (to_string n)) ->
  check_port o k old = Ok (true, n mod 65536).
Proof.
  intros Hk Hn [Hf|Hf].
  - by rewrite (check_port_found o k n).
  - unfold check_port. rewrite (check_int_text o k (to_string n)) by done.
    rewrite from_string_to_string by done. reflexivity.
Qed.

Definition bad_port : tree := Object [(lit "port", Str (lit "65616"))].

Lemma check_port_truncates_witness : check_port bad_port (lit "port") 0 = Ok (true, 80).
Proof.
  apply (check_port_truncates bad_port (lit "port") 65616).
  - split; [done|]. by vm_compute; set_solver.
  - by vm_compute.
  - right. reflexivity.
Defined.
