(* ===== verification/Endpoints.v ===== *)
(** * Endpoints

    [LocalEndpoint] and [RemoteEndpoint] ([applutil.h], [applutil.cpp]): the
    configured ends of a connection, read from and written to JSON. *)

From S2P Require Import Prelude CppString Json.

Record LocalEndpoint := { l_hostname : list ascii; l_port : Z }.

Definition new_LocalEndpoint : LocalEndpoint := {| l_hostname := []; l_port := 0 |}.

Record RemoteEndpoint := {
  r_port : Z;
  r_name : list ascii;
  r_hostname : list ascii;
  r_username : list ascii;
  r_password : list ascii }.

Definition new_RemoteEndpoint : RemoteEndpoint :=
  {| r_port := 0; r_name := []; r_hostname := []; r_username := []; r_password := [] |}.

(** [operator==] of two local endpoints. *)
Definition LocalEndpoint_eqb (a1 a2 : LocalEndpoint) : bool :=
  string_eqb (l_hostname a1) (l_hostname a2) && (l_port a1 =? l_port a2).

(** [operator<<] *)
Definition show_LocalEndpoint (ep : LocalEndpoint) : list ascii :=
  l_hostname ep ++ chr 58 :: to_string (l_port ep).

(** [operator==] of two remote endpoints; the port does not count. *)
Definition RemoteEndpoint_eqb (ep1 ep2 : RemoteEndpoint) : bool :=
  string_eqb (r_name ep1) (r_name ep2) &&
  string_eqb (r_hostname ep1) (r_hostname ep2) &&
  string_eqb (r_password ep1) (r_password ep2) &&
  string_eqb (r_username ep1) (r_username ep2).

Section endpoints.
Context `{Json J}.

Definition LocalEndpoint_load (obj : J) (ep : LocalEndpoint) : out (bool * LocalEndpoint) :=
  if bool_decide (type obj = is_object) then
    '(_, port) ← check_port obj (lit "port") (l_port ep);
    '(_, hostname) ← check_string obj (lit "hostname") (l_hostname ep);
    mret (port >? 0, {| l_hostname := hostname; l_port := port |})
  else mret (false, ep).

Definition LocalEndpoint_save (ep : LocalEndpoint) : out J :=
  obj ← set_value_port undefined (lit "port") (l_port ep);
  set_value_string obj (lit "hostname") (l_hostname ep).

Definition RemoteEndpoint_load (obj : J) (ep : RemoteEndpoint) : out (bool * RemoteEndpoint) :=
  if bool_decide (type obj = is_object) then
    '(_, port) ← check_port obj (lit "port") (r_port ep);
    '(_, hostname) ← check_string obj (lit "hostname") (r_hostname ep);
    '(_, name) ← check_string obj (lit "name") (r_name ep);
    '(_, username) ← check_string obj (lit "username") (r_username ep);
    '(_, password) ← check_string obj (lit "password") (r_password ep);
    mret (bool_decide (name <> []),
          {| r_port := port; r_name := name; r_hostname := hostname;
             r_username := username; r_password := password |})
  else mret (false, ep).

Definition RemoteEndpoint_save (ep : RemoteEndpoint) : out J :=
  obj ← set_value_port undefined (lit "port") (r_port ep);
  obj ← set_value_string obj (lit "hostname") (r_hostname ep);
  obj ← set_value_string obj (lit "name") (r_name ep);
  obj ← set_value_string obj (lit "username") (r_username ep);
  set_value_string obj (lit "password") (r_password ep).

(** The loop of [load_endpoints]: the vector grows until an item fails. *)
Fixpoint load_items {E} (load : J -> E -> out (bool * E)) (new : E)
    (items : list J) (result : bool) : st (list E) bool :=
  match items with
  | [] => mret result
  | item :: items' =>
      '(ok, ep) ← lift (load item new);
      if ok : bool then
        _ ← modify (fun eps => eps ++ [ep]);
        load_items load new items' true
      else mret false
  end.

Definition load_endpoints {E} (load : J -> E -> out (bool * E)) (new : E)
    (obj : J) (key : list ascii) : st (list E) bool :=
  let o := find obj key in
  if bool_decide (type o = is_array) then
    items ← lift (array o);
    load_items load new items false
  else mret false.

Definition load_endpoints_local := load_endpoints LocalEndpoint_load new_LocalEndpoint.
Definition load_endpoints_remote := load_endpoints RemoteEndpoint_load new_RemoteEndpoint.

End endpoints.

(** ** Well-formed endpoints *)

Definition LocalEndpoint_ok (ep : LocalEndpoint) : Prop := in_uint 16 (l_port ep).
Definition RemoteEndpoint_ok (ep : RemoteEndpoint) : Prop := in_uint 16 (r_port ep).

Lemma RemoteEndpoint_eqb_spec ep1 ep2 :
  RemoteEndpoint_eqb ep1 ep2 = true <->
  r_name ep1 = r_name ep2 /\ r_hostname ep1 = r_hostname ep2 /\
  r_password ep1 = r_password ep2 /\ r_username ep1 = r_username ep2.
Proof.
  unfold RemoteEndpoint_eqb. rewrite !andb_true_iff, !string_eqb_eq. tauto.
Qed.

Lemma LocalEndpoint_eqb_spec ep1 ep2 :
  LocalEndpoint_eqb ep1 ep2 = true <-> ep1 = ep2.
Proof.
  unfold LocalEndpoint_eqb. rewrite andb_true_iff, string_eqb_eq, Z.eqb_eq.
  destruct ep1, ep2; cbn. naive_solver.
Qed.

(** Equality of remote endpoints is an equivalence, coarser than equality. *)
Definition RemoteEndpoint_equiv (ep1 ep2 : RemoteEndpoint) : Prop :=
  RemoteEndpoint_eqb ep1 ep2 = true.

#[export] Instance RemoteEndpoint_equivalence : Equivalence RemoteEndpoint_equiv.
Proof.
  unfold RemoteEndpoint_equiv. split.
  - intros x. by apply RemoteEndpoint_eqb_spec.
  - intros x y. rewrite !RemoteEndpoint_eqb_spec. naive_solver.
  - intros x y z. rewrite !RemoteEndpoint_eqb_spec. naive_solver congruence.
Qed.

#[export] Instance RemoteEndpoint_eqb_proper :
  Proper (RemoteEndpoint_equiv ==> RemoteEndpoint_equiv ==> eq) RemoteEndpoint_eqb.
Proof.
  intros x x' Hx y y' Hy. apply eq_true_iff_eq.
  change (RemoteEndpoint_equiv x y <-> RemoteEndpoint_equiv x' y').
  by rewrite Hx, Hy.
Qed.

(** ** Lemmas *)

Section lemmas.
Context `{JsonLaws J}.
Implicit Types o : J.

(** The members of the saved object, as the readers see them. *)
Definition string_member (o : J) (k s : list ascii) : Prop :=
  if bool_decide (s = []) then type (find o k) = is_undefined
  else find o k = of_string s.

Definition port_member (o : J) (k : list ascii) (p : Z) : Prop :=
  if p >? 0 then find o k = of_int p else type (find o k) = is_undefined.

Lemma check_string_member o k s :
  simple k -> string_member o k s -> exists b, check_string o k [] = Ok (b, s).
Proof.
  intros Hk. unfold string_member. case_bool_decide as Hs; intros Hf.
  - subst. exists false. by apply check_string_absent.
  - exists true. by apply check_string_found.
Qed.

Lemma check_port_member o k p :
  simple k -> in_uint 16 p -> port_member o k p -> exists b, check_port o k 0 = Ok (b, p).
Proof.
  intros Hk Hp. unfold port_member, in_uint in *. rewrite Z.gtb_ltb. zcase; intros Hf.
  - exists true. rewrite (check_port_found o k p) by (done || (unfold in_sint; lia)).
    by rewrite wrap_small.
  - exists false. replace p with 0 by lia. by apply check_port_absent.
Qed.

(** Writing a member that is not there yet, among others. *)
Lemma save_string o k s :
  can_set o -> simple k -> type (find o k) = is_undefined ->
  exists o', set_value_string o k s = Ok o' /\ can_set o' /\ string_member o' k s /\
    (forall k', simple k' -> k' <> k -> find o' k' = find o k') /\
    (type o = is_object \/ s <> [] -> type o' = is_object).
Proof.
  intros Ho Hk Hu. destruct (set_value_string_Ok o k s Ho Hk) as (o' & E & Hc & Hr & H1 & H2).
  exists o'. split; [done|]. split; [done|]. split; [|split; [done|]].
  - unfold string_member. case_bool_decide; [by rewrite H2|by apply H1].
  - intros [Ht|Hs]; [|by apply H1].
    destruct (decide (s = [])) as [Hs|Hs]; [by rewrite H2|by apply H1].
Qed.

Lemma save_port o k p :
  can_set o -> simple k -> type (find o k) = is_undefined ->
  exists o', set_value_port o k p = Ok o' /\ can_set o' /\ port_member o' k p /\
    (forall k', simple k' -> k' <> k -> find o' k' = find o k') /\
    (type o = is_object \/ 0 < p -> type o' = is_object).
Proof.
  intros Ho Hk Hu. destruct (set_value_port_Ok o k p Ho Hk) as (o' & E & Hc & Hr & H1 & H2).
  exists o'. split; [done|]. split; [done|]. split; [|split; [done|]].
  - unfold port_member. rewrite Z.gtb_ltb. zcase; [by apply H1|by rewrite H2].
  - intros [Ht|Hs]; [|by apply H1].
    destruct (Z.lt_ge_cases 0 p); [by apply H1|by rewrite H2].
Qed.

Lemma undefined_can_set : can_set (undefined : J).
Proof. right. apply type_undefined. Qed.

Lemma string_member_frame o o' k k0 s :
  (forall k', simple k' -> k' <> k0 -> find o' k' = find o k') ->
  simple k -> k <> k0 -> string_member o k s -> string_member o' k s.
Proof. intros Hr Hk Hne. unfold string_member. by rewrite (Hr k). Qed.

Lemma port_member_frame o o' k k0 p :
  (forall k', simple k' -> k' <> k0 -> find o' k' = find o k') ->
  simple k -> k <> k0 -> port_member o k p -> port_member o' k p.
Proof. intros Hr Hk Hne. unfold port_member. by rewrite (Hr k). Qed.

Lemma absent_frame o o' k k0 :
  (forall k', simple k' -> k' <> k0 -> find o' k' = find o k') ->
  simple k -> k <> k0 -> type (find o k) = is_undefined ->
  type (find o' k) = is_undefined.
Proof. intros Hr Hk Hne. by rewrite (Hr k). Qed.

End lemmas.

#[export] Hint Resolve undefined_can_set : uniproxy.
#[export] Hint Resolve string_member_frame port_member_frame absent_frame : uniproxy.
#[export] Hint Resolve find_undefined : uniproxy.
#[export] Hint Extern 0 (_ <> _ :> list ascii) => discriminate : uniproxy.

Section saved.
Context `{JsonLaws J}.

Lemma LocalEndpoint_saved ep :
  exists o : J, LocalEndpoint_save ep = Ok o /\
    port_member o (lit "port") (l_port ep) /\
    string_member o (lit "hostname") (l_hostname ep) /\
    (0 < l_port ep \/ l_hostname ep <> [] -> type o = is_object).
Proof.
  unfold LocalEndpoint_save.
  destruct (save_port (undefined : J) (lit "port") (l_port ep))
    as (o1 & -> & C1 & M1 & F1 & T1); auto with uniproxy.
  rewrite bind_Ok.
  destruct (save_string o1 (lit "hostname") (l_hostname ep))
    as (o2 & -> & C2 & M2 & F2 & T2); eauto 6 with uniproxy.
  exists o2. split; [done|]. split; [|split; [done|naive_solver]].
  eapply port_member_frame; eauto with uniproxy.
Qed.

Lemma RemoteEndpoint_saved ep :
  exists o : J, RemoteEndpoint_save ep = Ok o /\
    port_member o (lit "port") (r_port ep) /\
    string_member o (lit "hostname") (r_hostname ep) /\
    string_member o (lit "name") (r_name ep) /\
    string_member o (lit "username") (r_username ep) /\
    string_member o (lit "password") (r_password ep) /\
    (r_name ep <> [] -> type o = is_object).
Proof.
  unfold RemoteEndpoint_save.
  destruct (save_port (undefined : J) (lit "port") (r_port ep))
    as (o1 & -> & C1 & M1 & F1 & T1); auto with uniproxy.
  rewrite bind_Ok.
  destruct (save_string o1 (lit "hostname") (r_hostname ep))
    as (o2 & -> & C2 & M2 & F2 & T2); [eauto 6 with uniproxy..|]. rewrite bind_Ok.
  destruct (save_string o2 (lit "name") (r_name ep))
    as (o3 & -> & C3 & M3 & F3 & T3); [eauto 8 with uniproxy..|]. rewrite bind_Ok.
  destruct (save_string o3 (lit "username") (r_username ep))
    as (o4 & -> & C4 & M4 & F4 & T4); [eauto 10 with uniproxy..|]. rewrite bind_Ok.
  destruct (save_string o4 (lit "password") (r_password ep))
    as (o5 & -> & C5 & M5 & F5 & T5); [eauto 12 with uniproxy..|].
  exists o5. split; [done|]. split_and!; [eauto 12 with uniproxy..|naive_solver].
Qed.

End saved.

Section loading.
Context `{JsonLaws J}.

Lemma LocalEndpoint_load_saved ep :
  in_uint 16 (l_port ep) -> 0 < l_port ep ->
  exists o : J, LocalEndpoint_save ep = Ok o /\
    LocalEndpoint_load o new_LocalEndpoint = Ok (true, ep).
Proof.
  intros Hp Hpos. destruct (LocalEndpoint_saved ep) as (o & -> & M1 & M2 & T).
  exists o. split; [done|]. unfold LocalEndpoint_load. rewrite bool_decide_true by auto.
  destruct (check_port_member o (lit "port") (l_port ep)) as [b1 E1]; auto with uniproxy.
  destruct (check_string_member o (lit "hostname") (l_hostname ep)) as [b2 E2];
    auto with uniproxy.
  cbn [new_LocalEndpoint l_port l_hostname]. rewrite E1, bind_Ok, E2, bind_Ok.
  rewrite Z.gtb_ltb. zcase; [|lia]. by destruct ep.
Qed.

(** What a load leaves in a port variable is a port. *)
Lemma LocalEndpoint_load_range (o : J) ep ok ep' :
  LocalEndpoint_ok ep -> LocalEndpoint_load o ep = Ok (ok, ep') ->
  LocalEndpoint_ok ep' /\ (ok = true -> 0 < l_port ep').
Proof.
  unfold LocalEndpoint_load, LocalEndpoint_ok. intros Hep.
  case_bool_decide; [|intros [= <- <-]; done].
  intros ([b p] & Ep & E)%bind_Ok_inv.
  apply bind_Ok_inv in E as ([b' h] & _ & E). injection E as <- <-. cbn.
  split; [by eapply check_port_range|]. rewrite Z.gtb_ltb. by intros ?%Z.ltb_lt.
Qed.

Lemma RemoteEndpoint_load_range (o : J) ep ok ep' :
  RemoteEndpoint_ok ep -> RemoteEndpoint_load o ep = Ok (ok, ep') ->
  RemoteEndpoint_ok ep' /\ (ok = true -> r_name ep' <> []).
Proof.
  unfold RemoteEndpoint_load, RemoteEndpoint_ok. intros Hep.
  case_bool_decide; [|intros [= <- <-]; done].
  intros ([b p] & Ep & E)%bind_Ok_inv.
  apply bind_Ok_inv in E as ([b1 h] & _ & E). apply bind_Ok_inv in E as ([b2 n] & _ & E).
  apply bind_Ok_inv in E as ([b3 u] & _ & E). apply bind_Ok_inv in E as ([b4 w] & _ & E).
  injection E as <- <-. cbn.
  split; [by eapply check_port_range|]. by intros ?%bool_decide_eq_true.
Qed.

(** Items that all load are appended in order. *)
Lemma load_items_all {E} (load : J -> E -> out (bool * E)) new items es acc r :
  Forall2 (fun item e => load item new = Ok (true, e)) items es ->
  load_items load new items r acc =
  (acc ++ es, Ok (if bool_decide (es = []) then r else true)).
Proof.
  intros Hall. revert r acc. induction Hall as [|item e items es He _ IH]; intros r acc.
  - cbn. by rewrite app_nil_r.
  - cbn [load_items]. rewrite He, st_bind_lift, st_bind_modify, IH, <- app_assoc.
    rewrite (bool_decide_false (e :: es = [])) by done. by destruct (bool_decide _).
Qed.

(** The items before the first that does not load are kept, and the result is
    [false]. *)
Lemma load_items_fails {E} (load : J -> E -> out (bool * E)) new items es item e rest acc r :
  Forall2 (fun item e => load item new = Ok (true, e)) items es ->
  load item new = Ok (false, e) ->
  load_items load new (items ++ item :: rest) r acc = (acc ++ es, Ok false).
Proof.
  intros Hall He. revert r acc. induction Hall as [|item0 e0 items es He0 _ IH]; intros r acc.
  - cbn. rewrite He. by rewrite app_nil_r.
  - cbn [app load_items]. by rewrite He0, st_bind_lift, st_bind_modify, IH, <- app_assoc.
Qed.

End loading.

(** ** Properties *)

(** A remote endpoint with a name, written to JSON and loaded again, is the
    same endpoint. *)
Theorem RemoteEndpoint_roundtrip {J} `{JsonLaws J} ep :
  in_uint 16 (r_port ep) -> r_name ep <> [] ->
  exists o : J, RemoteEndpoint_save ep = Ok o /\
    RemoteEndpoint_load o new_RemoteEndpoint = Ok (true, ep).
Proof.
  intros Hp Hn. destruct (RemoteEndpoint_saved ep) as (o & -> & M1 & M2 & M3 & M4 & M5 & T).
  exists o. split; [done|]. unfold RemoteEndpoint_load. rewrite bool_decide_true by auto.
  destruct (check_port_member o (lit "port") (r_port ep)) as [b1 E1]; auto with uniproxy.
  destruct (check_string_member o (lit "hostname") (r_hostname ep)) as [b2 E2]; auto with uniproxy.
  destruct (check_string_member o (lit "name") (r_name ep)) as [b3 E3]; auto with uniproxy.
  destruct (check_string_member o (lit "username") (r_username ep)) as [b4 E4]; auto with uniproxy.
  destruct (check_string_member o (lit "password") (r_password ep)) as [b5 E5]; auto with uniproxy.
  cbn [new_RemoteEndpoint r_port r_hostname r_name r_username r_password].
  rewrite E1, bind_Ok, E2, bind_Ok, E3, bind_Ok, E4, bind_Ok, E5, bind_Ok.
  rewrite bool_decide_true by done. by destruct ep.
Qed.

Definition remote_ep1 : RemoteEndpoint :=
  {| r_port := 0; r_name := lit "UK"; r_hostname := lit "1.2.3.4";
     r_username := lit "uk"; r_password := [] |}.

Lemma RemoteEndpoint_roundtrip_witness :
  exists o : tree, RemoteEndpoint_save remote_ep1 = Ok o /\
    RemoteEndpoint_load o new_RemoteEndpoint = Ok (true, remote_ep1).
Proof. apply RemoteEndpoint_roundtrip; [by vm_compute|done]. Defined.

(** A nonempty array of saved local endpoints loads, in order, as the same
    endpoints. *)
Theorem load_endpoints_roundtrip {J} `{JsonLaws J} (o : J) key eps saved acc :
  Forall (fun ep => in_uint 16 (l_port ep) /\ 0 < l_port ep) eps -> eps <> [] ->
  Forall2 (fun ep (v : J) => LocalEndpoint_save ep = Ok v) eps saved ->
  find o key = of_array saved ->
  load_endpoints_local o key acc = (acc ++ eps, Ok true).
Proof.
  intros Hok Hne Hsaved Hfind. unfold load_endpoints_local, load_endpoints.
  rewrite Hfind, type_of_array, bool_decide_true by done.
  rewrite array_of_array, st_bind_lift.
  rewrite (load_items_all _ _ _ eps); [by rewrite bool_decide_false|].
  clear Hne Hfind. induction Hsaved as [|ep v eps saved Hs _ IH]; constructor.
  - apply Forall_inv in Hok as [Hr Hp].
    destruct (LocalEndpoint_load_saved (J := J) ep Hr Hp) as (o' & E & Hl).
    by assert (o' = v) as -> by congruence.
  - apply Forall_inv_tail in Hok. by apply IH.
Qed.

Definition local_ep1 : LocalEndpoint := {| l_hostname := lit "h"; l_port := 1234 |}.
Definition local_saved1 : tree :=
  Object [(lit "hostname", Str (lit "h")); (lit "port", Number 1234)].

Lemma load_endpoints_roundtrip_witness :
  load_endpoints_local (Object [(lit "locals", Array [local_saved1])]) (lit "locals") []
  = ([local_ep1], Ok true).
Proof.
  apply (load_endpoints_roundtrip _ _ [local_ep1] [local_saved1] []).
  - constructor; [by vm_compute|done].
  - done.
  - constructor; [reflexivity|constructor].
  - reflexivity.
Defined.
