(* ===== verification/Activation.v ===== *)
(** * The activation list

    The list of [activate_host] ([proxy_global.h], [proxy_global.cpp]): the
    names whose certificates may be exchanged, each until its time is over.

    Times are numbers; the clock of one operation is one reading, its argument
    [now].  The mutex makes each operation one step.  The specification is a
    map from the names to the ends of their windows. *)

From S2P Require Import Prelude CppString.

Record activate_t := { m_activate_stamp : Z; m_activate_name : list ascii }.

Notation activate_list := (list activate_t).

(** The loop of [cleanup] over the vector, erasing in place. *)
Fixpoint cleanup (now : Z) (m_activate : activate_list) : activate_list :=
  match m_activate with
  | [] => []
  | ac :: rest =>
      if m_activate_stamp ac <=? now then cleanup now rest
      else ac :: cleanup now rest
  end.

(** [find_if] on the name. *)
Fixpoint find_name (certname : list ascii) (m_activate : activate_list) : option activate_t :=
  match m_activate with
  | [] => None
  | ac :: rest =>
      if string_eqb (m_activate_name ac) certname then Some ac
      else find_name certname rest
  end.

Definition has_name (certname : list ascii) (ac : activate_t) : bool :=
  string_eqb (m_activate_name ac) certname.

Definition add (now timeout : Z) (certname : list ascii) (m_activate : activate_list)
    : activate_list :=
  let m_activate := cleanup now m_activate in
  match find_name certname m_activate with
  | None => m_activate ++
      [{| m_activate_stamp := now + timeout; m_activate_name := certname |}]
  | Some _ => m_activate
  end.

Definition remove (now : Z) (certname : list ascii) (m_activate : activate_list)
    : bool * activate_list :=
  let m_activate := cleanup now m_activate in
  match find_name certname m_activate with
  | Some _ => (true, erase_first (has_name certname) m_activate)
  | None => (false, m_activate)
  end.

(** The stamp is the output parameter, unchanged when the name is not there. *)
Definition is_in_list (now : Z) (certname : list ascii) (timeout : Z)
    (m_activate : activate_list) : bool * Z * activate_list :=
  let m_activate := cleanup now m_activate in
  match find_name certname m_activate with
  | Some ac => (true, m_activate_stamp ac, m_activate)
  | None => (false, timeout, m_activate)
  end.

Definition size (m_activate : activate_list) : Z := zlen m_activate.

(** The names [threadproc] offers to the exchange. *)
Definition activate_names (now : Z) (m_activate : activate_list) : list (list ascii) :=
  map m_activate_name (filter (fun ac => m_activate_stamp ac > now) m_activate).

(** The removal of [threadproc] after a successful exchange. *)
Definition erase_name (certname : list ascii) (m_activate : activate_list) : activate_list :=
  erase_first (has_name certname) m_activate.

(** ** Specification *)

(** The windows that are open: when each of the names ends. *)
Notation windows := (gmap (list ascii) Z).

(** The windows of a list. *)
Definition abs (m_activate : activate_list) : windows :=
  list_to_map (map (fun ac => (m_activate_name ac, m_activate_stamp ac)) m_activate).

(** No name is there twice. *)
Definition names (m_activate : activate_list) : list (list ascii) :=
  map m_activate_name m_activate.

Definition list_ok (m_activate : activate_list) : Prop := NoDup (names m_activate).

Definition expire (now : Z) (w : windows) : windows :=
  filter (fun '(_, stamp) => now < stamp) w.

Inductive op :=
  | Add (now timeout : Z) (name : list ascii)
  | Remove (now : Z) (name : list ascii)
  | IsInList (now : Z) (name : list ascii)
  | Names (now : Z)
  | Erase (name : list ascii).

(** What an operation tells its caller: whether the name is there, its stamp,
    the names. *)
Inductive answer :=
  | Nothing
  | Found (found : bool)
  | Stamp (stamp : option Z)
  | Open (open : gset (list ascii)).

Definition step (o : op) (l : activate_list) : answer * activate_list :=
  match o with
  | Add now timeout name => (Nothing, add now timeout name l)
  | Remove now name => let '(r, l) := remove now name l in (Found r, l)
  | IsInList now name =>
      let '(r, stamp, l) := is_in_list now name 0 l in
      (Stamp (if r : bool then Some stamp else None), l)
  | Names now => (Open (list_to_set (activate_names now l)), l)
  | Erase name => (Nothing, erase_name name l)
  end.

Definition spec_step (o : op) (w : windows) : answer * windows :=
  match o with
  | Add now timeout name =>
      let w := expire now w in
      (Nothing, match w !! name with
                | Some _ => w
                | None => <[name := now + timeout]> w
                end)
  | Remove now name =>
      let w := expire now w in
      (Found (bool_decide (is_Some (w !! name))), delete name w)
  | IsInList now name => let w := expire now w in (Stamp (w !! name), w)
  | Names now => (Open (dom (expire now w)), w)
  | Erase name => (Nothing, delete name w)
  end.

Fixpoint run {S} (stp : op -> S -> answer * S) (ops : list op) (s : S) : list answer :=
  match ops with
  | [] => []
  | o :: ops' => let '(a, s) := stp o s in a :: run stp ops' s
  end.

(** ** Lemmas *)

Lemma cleanup_filter now l :
  cleanup now l = filter (fun ac => m_activate_stamp ac > now) l.
Proof.
  induction l as [|ac l IH]; [done|]. cbn [cleanup]. rewrite filter_cons.
  destruct (Z.leb_spec (m_activate_stamp ac) now); case_decide; [lia|done| |lia].
  by rewrite IH.
Qed.

Lemma names_cleanup now l : names (cleanup now l) `sublist_of` names l.
Proof.
  induction l as [|ac l IH]; [done|]. cbn. destruct (_ <=? _); cbn; by constructor.
Qed.

Lemma list_ok_cleanup now l : list_ok l -> list_ok (cleanup now l).
Proof. intros. eapply sublist_NoDup; [done|apply names_cleanup]. Qed.

Lemma abs_cons ac l :
  abs (ac :: l) = <[m_activate_name ac := m_activate_stamp ac]> (abs l).
Proof. done. Qed.

Lemma abs_None name l : abs l !! name = None <-> name ∉ names l.
Proof.
  induction l as [|ac l IH].
  - split; [set_solver|done].
  - unfold names. cbn [map]. rewrite abs_cons, lookup_insert_None, not_elem_of_cons.
    fold (names l). naive_solver.
Qed.

Lemma abs_cleanup now l : list_ok l -> abs (cleanup now l) = expire now (abs l).
Proof.
  unfold list_ok, expire. induction l as [|ac l IH]; intros Hok; cbn [cleanup].
  - unfold abs. cbn. by rewrite map_filter_empty.
  - apply list.NoDup_cons in Hok as [Hn Hok]. apply abs_None in Hn. rewrite abs_cons.
    destruct (Z.leb_spec (m_activate_stamp ac) now).
    + rewrite map_filter_insert_False by lia.
      by rewrite delete_id, IH.
    + rewrite map_filter_insert_True by lia. by rewrite abs_cons, IH.
Qed.

Lemma find_name_abs name l : m_activate_stamp <$> find_name name l = abs l !! name.
Proof.
  induction l as [|ac l IH]; [done|]. cbn [find_name]. rewrite abs_cons.
  destruct (string_eqb _ _) eqn:E.
  - apply string_eqb_eq in E as <-. by rewrite lookup_insert_eq.
  - rewrite lookup_insert_ne; [done|]. intros <-. by rewrite string_eqb_refl in E.
Qed.

Lemma names_erase name l : names (erase_name name l) `sublist_of` names l.
Proof.
  unfold names, erase_name. induction l as [|ac l IH]; [done|]. cbn.
  destruct (has_name name ac); cbn; by constructor.
Qed.

Lemma list_ok_erase name l : list_ok l -> list_ok (erase_name name l).
Proof. intros. eapply sublist_NoDup; [done|apply names_erase]. Qed.

Lemma abs_erase name l : list_ok l -> abs (erase_name name l) = delete name (abs l).
Proof.
  unfold list_ok, erase_name. induction l as [|ac l IH]; intros Hok; cbn [erase_first].
  - unfold abs. cbn. by rewrite delete_empty.
  - apply list.NoDup_cons in Hok as [Hn Hok]. apply abs_None in Hn.
    unfold has_name at 1. destruct (string_eqb _ _) eqn:E; rewrite abs_cons.
    + apply string_eqb_eq in E as <-. by rewrite delete_insert_id.
    + rewrite abs_cons, IH by done. rewrite delete_insert_ne; [done|].
      intros ->. by rewrite string_eqb_refl in E.
Qed.

Lemma abs_snoc l ac :
  abs l !! m_activate_name ac = None ->
  abs (l ++ [ac]) = <[m_activate_name ac := m_activate_stamp ac]> (abs l).
Proof.
  intros Hn. unfold abs in *. rewrite map_app, list_to_map_app. cbn.
  rewrite <- insert_union_r by done. by rewrite map_union_empty.
Qed.

Lemma find_name_None name l : find_name name l = None <-> abs l !! name = None.
Proof. rewrite <- find_name_abs. by destruct (find_name name l). Qed.

(** ** The refinement *)

Lemma step_refines o l :
  list_ok l ->
  fst (step o l) = fst (spec_step o (abs l)) /\
  abs (snd (step o l)) = snd (spec_step o (abs l)) /\ list_ok (snd (step o l)).
Proof.
  intros Hok. assert (forall now, list_ok (cleanup now l)) as Hc
    by (intros; by apply list_ok_cleanup).
  destruct o as [now timeout name|now name|now name|now|name]; cbn [step spec_step];
    rewrite <- ?abs_cleanup by done.
  - unfold add. rewrite <- (find_name_abs name (cleanup now l)).
    destruct (find_name name (cleanup now l)) as [ac|] eqn:E; cbn; [by auto|].
    apply find_name_None in E. split; [done|]. split; [by apply abs_snoc|].
    unfold list_ok, names. rewrite map_app. apply list.NoDup_app. split; [apply Hc|].
    apply abs_None in E. split; [set_solver|apply NoDup_singleton].
  - unfold remove. rewrite <- (find_name_abs name (cleanup now l)).
    destruct (find_name name (cleanup now l)) as [ac|] eqn:E; cbn.
    + split; [done|]. split; [by apply abs_erase|by apply list_ok_erase].
    + apply find_name_None in E. by rewrite delete_id.
  - unfold is_in_list. rewrite <- (find_name_abs name (cleanup now l)).
    destruct (find_name name (cleanup now l)); cbn; auto.
  - split; [|done]. cbn. f_equal. unfold activate_names.
    rewrite <- cleanup_filter. apply leibniz_equiv. intros name.
    rewrite elem_of_list_to_set, elem_of_dom, <- not_eq_None_Some, abs_None.
    unfold names. destruct (decide (name ∈ map m_activate_name (cleanup now l))); naive_solver.
  - cbn. split; [done|]. split; [by apply abs_erase|by apply list_ok_erase].
Qed.

Lemma run_refines ops l : list_ok l -> run step ops l = run spec_step ops (abs l).
Proof.
  revert l. induction ops as [|o ops IH]; intros l Hok; [done|]. cbn [run].
  destruct (step_refines o l Hok) as (H1 & H2 & H3).
  destruct (step o l), (spec_step o (abs l)); cbn in *. subst. by rewrite IH.
Qed.

(** ** Properties *)

(** C28. The activation list answers every sequence of operations as a map from
    names to the ends of their windows does: a name that is added again while
    its window is open keeps the first end, an expired name is gone, and
    exactly the names with an open window are offered to an exchange. *)
Theorem activation_refines ops : run step ops [] = run spec_step ops ∅.
Proof. apply (run_refines ops []). apply NoDup_nil_2. Qed.

Example activation_run :
  run step [Add 10 60 (lit "A"); Add 20 60 (lit "A"); IsInList 30 (lit "A");
            Remove 70 (lit "A")] []
  = [Nothing; Nothing; Stamp (Some 70); Found false].
Proof. reflexivity. Qed.
