(* ===== verification/Certs.v ===== *)
(** * Certificates

    The certificate files ([applutil.cpp]), the exchange of certificates
    between two proxies ([SetupCertificatesServer], [SetupCertificatesClient],
    [load_certificate_names], [certificate_available] of [proxy_global.cpp]),
    the exchange with the other proxies over HTTP
    ([client_certificate_exchange]) and one round of [activate_host].

    OpenSSL is the interface [X509]; the law [PEM_read_write] says that reading
    a written file yields the certificates written.  Files are a map from
    names to contents, and [writable] tells which [fopen]s for writing succeed.
    What the network delivers is an argument. *)

From S2P Require Import Prelude CppString ProxyLog Activation Endpoints.

(** ** Error texts *)

(** The table [error_codes.h], whose last text is the null pointer. *)
Definition ecp : list (error_t * option (list ascii)) :=
  [(success, Some []);
   (certificate_invalid, Some (lit "invalid certificate"));
   (certificate_name_invalid, Some (lit "certificate name invalid"));
   (certificate_name_unknown, Some (lit "certificate name unknown"));
   (certificate_names_mismatch, Some (lit "certificate names mismatch"));
   (connection_name_unknown, Some (lit "connection name unknown"));
   (connection_name_invalid, Some (lit "connection name invalid"));
   (certificate_not_found, Some (lit "certificate not found"));
   (url_unknown, Some (lit "unknown URL"));
   (parse_file_failed, Some (lit "parse file failed"));
   (logon_username_password_invalid, Some (lit "username or password invalid"));
   (logon_account_blocked, Some (lit "account blocked"));
   (logon_failed, Some (lit "logon failed"));
   (logon_no_response, Some (lit "no response"));
   (thread_already_running, Some (lit "thread already running"));
   (socket_invalid, Some (lit "invalid socket"));
   (file_failed_copy, Some (lit "failed to copy file"));
   (unknown_error, None)].

Fixpoint message_loop (table : list (error_t * option (list ascii))) (ev : error_t)
    : list ascii :=
  match table with
  | (e, Some m) :: table' => if decide (e = ev) then m else message_loop table' ev
  | _ => lit "unknown error"
  end.

Definition message (ev : error_t) : list ascii := message_loop ecp ev.

(** [exc.what()]; [library_what] is the text of the library's own. *)
Definition what (library_what : exn -> list ascii) (e : exn) : list ascii :=
  match e with
  | SystemError code w => w ++ lit ": " ++ message code
  | RuntimeError w => w
  | _ => library_what e
  end.

(** ** OpenSSL *)

Class X509 (cert : Type) := {
  (** [X509_NAME_oneline] into a buffer of the given size. *)
  subject_oneline : cert -> Z -> list ascii;
  issuer_oneline : cert -> Z -> list ascii;
  X509_cmp : cert -> cert -> Z;
  (** What [PEM_read_X509] returns until it returns null. *)
  PEM_read : list ascii -> list cert;
  PEM_write : cert -> list ascii;
  (** [boost::algorithm::split_regex] *)
  split_regex : list ascii -> list ascii -> list (list ascii) }.

Class X509Laws (cert : Type) `{X509 cert} := {
  PEM_read_write (certs : list cert) : PEM_read (concat (map PEM_write certs)) = certs }.

Definition my_public_cert_name : list ascii := lit "my_public_cert.pem".
Definition my_private_key_name : list ascii := lit "my_private_key.pem".
Definition my_certs_name : list ascii := lit "certs.pem".
Definition config_filename : list ascii := lit "uniproxy.json".

(** ** The state *)

(** The files, the names read from [certs.pem], the activation list, and the
    lines handed to the log. *)
Record world := {
  files : gmap (list ascii) (list ascii);
  m_cert_names : list (list ascii);
  m_activate : activate_list;
  logged : list (list ascii) }.

Definition set_files (f : gmap (list ascii) (list ascii)) (w : world) : world :=
  {| files := f; m_cert_names := m_cert_names w; m_activate := m_activate w;
     logged := logged w |}.

Definition set_cert_names (names : list (list ascii)) (w : world) : world :=
  {| files := files w; m_cert_names := names; m_activate := m_activate w;
     logged := logged w |}.

Definition set_activate (l : activate_list) (w : world) : world :=
  {| files := files w; m_cert_names := m_cert_names w; m_activate := l;
     logged := logged w |}.

Definition log_add (line : list ascii) (w : world) : world :=
  {| files := files w; m_cert_names := m_cert_names w; m_activate := m_activate w;
     logged := logged w ++ [line] |}.

Section certs.
Context `{X509 cert}.
Context (writable : list ascii -> bool) (library_what : exn -> list ascii).

(** ** Names *)

Definition get_subject_name (c : cert) : list ascii := subject_oneline c 256.
Definition get_issuer_name (c : cert) : list ascii := issuer_oneline c 256.
Definition equal (c1 c2 : cert) : bool := X509_cmp c1 c2 =? 0.

Definition get_common_name (c : cert) : list ascii :=
  let issuer := get_issuer_name c in
  if zlen issuer >? 0 then
    match split_regex issuer (lit "/CN=") with
    | _ :: name :: _ => name
    | _ => []
    end
  else [].

(** ** Files *)

(** [readfile]: a stream that is not open delivers nothing. *)
Definition readfile (filename : list ascii) (w : world) : list ascii :=
  default [] (files w !! filename).

Definition load_certificates_file (filename : list ascii) (certs : list cert) (w : world)
    : bool * list cert :=
  match files w !! filename with
  | Some content => (true, certs ++ PEM_read content)
  | None => (false, certs)
  end.

Definition PEM_file (certs : list cert) : list ascii := concat (map PEM_write certs).

Definition save_certificates_file (filename : list ascii) (certs : list cert) (w : world)
    : bool * world :=
  if writable filename
  then (true, set_files (<[filename := PEM_file certs]> (files w)) w)
  else (false, w).

(** [tmpname] is the name [unique_path] made. *)
Definition load_certificates_string (tmpname certificate_string : list ascii)
    (certs : list cert) (w : world) : bool * list cert * world :=
  let w1 := if writable tmpname
            then set_files (<[tmpname := certificate_string]> (files w)) w else w in
  let '(result, certs) := load_certificates_file tmpname certs w1 in
  (result, certs, set_files (delete tmpname (files w1)) w1).

Definition named (name : list ascii) (c : cert) : bool :=
  string_eqb name (get_common_name c).

(** The [do .. while (hit)] loop: erase the first hit and start again. *)
Fixpoint delete_loop (fuel : nat) (name : list ascii) (certs : list cert) : list cert :=
  match fuel with
  | O => certs
  | S fuel' =>
      if existsb (named name) certs
      then delete_loop fuel' name (erase_first (named name) certs)
      else certs
  end.

(** The file name the caller gives is not used. *)
Definition delete_certificate_file (filename name : list ascii) (w : world) : bool * world :=
  let '(ok, local_certs) := load_certificates_file my_certs_name [] w in
  if ok : bool then
    save_certificates_file my_certs_name
      (delete_loop (S (length local_certs)) name local_certs) w
  else (false, w).

(** ** The names that are known *)

Definition load_certificate_names (filename : list ascii) (w : world) : bool * world :=
  let '(ok, certs) := load_certificates_file filename [] w in
  if ok : bool then (true, set_cert_names (map get_common_name certs) w)
  else (false, set_cert_names [] w).

Definition certificate_available (cert_name : list ascii) (w : world) : bool :=
  bool_decide (cert_name ∈ m_cert_names w).

(** ** The exchange of certificates *)

(** The buffer after the read: [received] are the bytes it got. *)
Definition buffer_size : Z := 4000.

Definition buffer_of (received : list ascii) : list ascii :=
  take 4000 (received ++ replicate 4000 zero).

(** [strlen] of a buffer. *)
Definition strlen (buffer : list ascii) : out Z :=
  if bool_decide (zero ∈ buffer) then Ok (zlen (c_str buffer)) else UB.

(** The loop that erases the certificates with this name. *)
Fixpoint erase_named (name : list ascii) (certs : list cert) : list cert :=
  match certs with
  | [] => []
  | c :: certs' =>
      if string_eqb name (get_common_name c) then erase_named name certs'
      else c :: erase_named name certs'
  end.

(** A function that returns a value and changes the state. *)
Definition call {A} (f : world -> A * world) : st world A := fun w =>
  let '(a, w) := f w in (w, Ok a).

Definition store_certificate (remote_name : list ascii) (remote_cert : cert)
    : st world (list ascii) :=
  '(ok, local_certs) ← gets (load_certificates_file my_certs_name []);
  _ ← lift (ASSERTE ok certificate_not_found
              (lit " in file " ++ my_certs_name ++ lit " for connection: "));
  let local_certs := erase_named remote_name local_certs ++ [remote_cert] in
  _ ← call (save_certificates_file my_certs_name local_certs);
  _ ← call (load_certificate_names my_certs_name);
  mret remote_name.

Definition receive_certificate (certnames : list (list ascii)) (received : out (list ascii))
    (tmpname : list ascii) : st world (list ascii) :=
  _ ← lift (ASSERTE (zlen certnames >? 0) connection_name_unknown []);
  received ← lift received;
  let buffer := buffer_of received in
  length ← lift (strlen buffer);
  _ ← lift (ASSERTE ((length >? 0) && (length <? buffer_size))
              certificate_invalid (lit "received"));
  '(ok, remote_certs) ← call (fun w =>
     let '(ok, certs, w) := load_certificates_string tmpname (c_str buffer) [] w in
     ((ok, certs), w));
  _ ← lift (ASSERTE (ok && (zlen remote_certs =? 1)) certificate_invalid (lit "received"));
  remote_cert ← lift (rd remote_certs 0);
  let remote_name := get_common_name remote_cert in
  if bool_decide (remote_name ∈ certnames)
  then store_certificate remote_name remote_cert
  else mret [].

(** [catch]: log the text. *)
Definition log_and {A} (a : A) (e : exn) : st world A :=
  _ ← modify (log_add (what library_what e)); mret a.

Definition SetupCertificatesServer (certnames : list (list ascii))
    (received : out (list ascii)) (tmpname : list ascii) : st world (list ascii) :=
  st_catch (receive_certificate certnames received tmpname) (log_and []).

(** [write] is what [write_some] does with the bytes it gets.  The text of the
    error names [certs.pem], although the file read is another one. *)
Definition SetupCertificatesClient (connection_name : list ascii)
    (write : list ascii -> out Z) : st world bool :=
  st_catch
    (_ ← lift (ASSERTE (zlen connection_name >? 0) connection_name_unknown []);
     cert ← gets (readfile my_public_cert_name);
     _ ← lift (ASSERTE (zlen cert >? 0) certificate_not_found
                 (lit " certificate not found in file: " ++ my_certs_name));
     _ ← lift (write cert);
     mret true)
    (log_and false).

(** One connection accepted by [activate_host::threadproc]: [accepted] is the
    outcome of opening the acceptor and accepting. *)
Definition activate_round (accepted : out unit) (now : Z) (received : out (list ascii))
    (tmpname : list ascii) (write : list ascii -> out Z) : st world unit :=
  st_catch
    (_ ← lift accepted;
     names ← gets (fun w => activate_names now (m_activate w));
     certname ← SetupCertificatesServer names received tmpname;
     ok ← (if bool_decide (certname = []) then mret false
           else SetupCertificatesClient certname write);
     if ok : bool
     then modify (fun w => set_activate (erase_name certname (m_activate w)) w)
     else mret tt)
    (fun _ => mret tt).

(** ** The exchange with the other proxies *)

(** The loop over the certificates another proxy sent; a certificate whose
    name is new is added and its name leaves the activation list. *)
Fixpoint merge_loop (now : Z) (remotes own : list cert) (l : activate_list)
    : list cert * activate_list :=
  match remotes with
  | [] => (own, l)
  | rem :: remotes' =>
      if existsb (fun c => string_eqb (get_common_name c) (get_common_name rem)) own
      then merge_loop now remotes' own l
      else merge_loop now remotes' (own ++ [rem])
             (snd (remove now (get_common_name rem) l))
  end.

(** [output] is the text the other proxy sent; [false] to go on with the next one. *)
Definition exchange_certificates (now : Z) (tmpname output : list ascii) : st world bool :=
  '(ok, remotes) ← call (fun w =>
     let '(ok, certs, w) := load_certificates_string tmpname output [] w in ((ok, certs), w));
  _ ← lift (ASSERTE ok parse_file_failed
              (lit "Failed to load certificates from remote host"));
  if bool_decide (zlen remotes = 0) then mret false
  else
    '(_, own) ← gets (load_certificates_file my_certs_name []);
    '(own', l) ← gets (fun w => merge_loop now remotes own (m_activate w));
    _ ← modify (set_activate l);
    if zlen own =? zlen own' then mret true
    else
      _ ← call (save_certificates_file my_certs_name own');
      _ ← call (load_certificate_names my_certs_name);
      mret true.

Definition compare_public (host tmpname output : list ascii) : st world unit :=
  '(ok, rem_cert) ← call (fun w =>
     let '(ok, certs, w) := load_certificates_string tmpname output [] w in ((ok, certs), w));
  _ ← lift (ASSERTE (ok && (zlen rem_cert =? 1)) parse_file_failed
              (lit "Failed to load public certificate from remote host: " ++ output));
  '(ok, own_cert) ← gets (load_certificates_file my_public_cert_name []);
  _ ← lift (ASSERTE (ok && (zlen own_cert =? 1)) parse_file_failed
              (lit "Failed to load own public certificate"));
  c1 ← lift (rd own_cert 0);
  c2 ← lift (rd rem_cert 0);
  lift (ASSERTE (equal c1 c2) parse_file_failed
          (lit "Own public Certificate are NOT equal between self and " ++ host)).

(** The body of [thread_proc] for one endpoint; [sync] is [httpclient::sync],
    for a host and a path. *)
Definition exchange_with (sync : list ascii -> list ascii -> out (bool * list ascii))
    (ep : LocalEndpoint) (now : Z) (tmp1 tmp2 : list ascii) : st world unit :=
  let host := l_hostname ep ++ chr 58 :: to_string (l_port ep) in
  st_catch
    ('(result, output) ← lift (sync host (lit "/json/command/certificate/get/"));
     go_on ← (if result : bool then exchange_certificates now tmp1 output else mret true);
     if go_on : bool then
       '(result, output) ← lift (sync host (lit "/json/command/certificate/public/"));
       if result : bool then compare_public host tmp2 output else mret tt
     else mret tt)
    (fun e => modify (log_add
       (lit "Failed to exchange certificates with " ++ host ++ lit " => "
        ++ what library_what e))).

End certs.

(** ** Lemmas *)

#[global] Arguments my_certs_name : simpl never.

Lemma st_bind_call {A B} (f : world -> A * world) (k : A -> st world B) w a w' :
  f w = (a, w') -> (call f ≫= k) w = k a w'.
Proof. intros E. unfold mbind, st_bind, call. by rewrite E. Qed.

Lemma st_bind_assert {B} (c : bool) code s (k : unit -> st world B) w :
  (lift (ASSERTE c code s) ≫= k) w =
  if c then k tt w else (w, Throw (SystemError code s)).
Proof. by destruct c. Qed.

Lemma c_str_app_zero l r : c_str (l ++ zero :: r) = c_str l.
Proof. induction l as [|c l IH]; [done|]. cbn. destruct (Ascii.eqb c zero); [done|]. by rewrite IH. Qed.

(** The buffer holds the bytes, and a NUL after them when there is room. *)
Lemma buffer_of_short received :
  zlen received < 4000 -> zero ∈ buffer_of received /\ c_str (buffer_of received) = c_str received.
Proof.
  intros Hl. unfold buffer_of.
  destruct (4000 - length received)%nat as [|n] eqn:En; [unfold zlen in *; lia|].
  assert (take 4000 (received ++ replicate 4000 zero) = received ++ zero :: replicate n zero) as ->.
  { rewrite take_app_ge by (unfold zlen in *; lia). f_equal.
    rewrite En, take_replicate. replace (S n `min` 4000)%nat with (S n) by lia. done. }
  split; [set_solver|]. apply c_str_app_zero.
Qed.

Lemma buffer_of_full received : zlen received = 4000 -> buffer_of received = received.
Proof. intros Hl. unfold buffer_of. apply take_app_length'. unfold zlen in *. lia. Qed.

Lemma strlen_buffer bytes :
  zlen bytes <= 4000 ->
  (strlen (buffer_of bytes) = Ok (zlen (c_str bytes)) /\
   c_str (buffer_of bytes) = c_str bytes) \/
  (strlen (buffer_of bytes) = UB /\ zlen bytes = 4000 /\ zero ∉ bytes).
Proof.
  intros Hl. unfold strlen. destruct (Z.eq_dec (zlen bytes) 4000) as [Hf|Hs].
  - rewrite buffer_of_full by done. case_bool_decide; auto.
  - destruct (buffer_of_short bytes) as [Hz Hc]; [lia|].
    left. by rewrite bool_decide_true, Hc.
Qed.

Section lemmas.
Context `{X509Laws cert}.

(** The certificates with another name. *)
Definition keep (name : list ascii) (certs : list cert) : list cert :=
  filter (fun c => get_common_name c <> name) certs.

Lemma keep_cons name c certs :
  keep name (c :: certs) = if named name c then keep name certs else c :: keep name certs.
Proof.
  unfold keep, named. rewrite filter_cons. destruct (string_eqb _ _) eqn:E.
  - apply string_eqb_eq in E as <-. by rewrite decide_False by tauto.
  - rewrite decide_True; [done|]. intros <-. by rewrite string_eqb_refl in E.
Qed.

Lemma erase_named_keep name certs : erase_named name certs = keep name certs.
Proof.
  induction certs as [|c certs IH]; [done|]. rewrite keep_cons. cbn.
  unfold named. by rewrite IH.
Qed.

Lemma keep_none name certs : existsb (named name) certs = false -> keep name certs = certs.
Proof.
  induction certs as [|c certs IH]; [done|]. rewrite keep_cons. cbn.
  destruct (named name c); [done|]. intros. by rewrite IH.
Qed.

Lemma keep_erase name certs : keep name (erase_first (named name) certs) = keep name certs.
Proof.
  induction certs as [|c certs IH]; [done|]. cbn [erase_first]. rewrite (keep_cons _ c).
  destruct (named name c) eqn:E; [done|]. by rewrite keep_cons, E, IH.
Qed.

Lemma length_erase name certs :
  existsb (named name) certs = true ->
  length certs = S (length (erase_first (named name) certs)).
Proof.
  induction certs as [|c certs IH]; [done|]. cbn.
  destruct (named name c); [done|]. intros E. cbn. by rewrite IH.
Qed.

(** The loop ends, with every certificate of the name gone. *)
Lemma delete_loop_keep fuel name certs :
  (length certs < fuel)%nat -> delete_loop fuel name certs = keep name certs.
Proof.
  revert certs. induction fuel as [|fuel IH]; intros certs Hf; [lia|]. cbn [delete_loop].
  destruct (existsb (named name) certs) eqn:E.
  - rewrite IH, keep_erase; [done|]. apply length_erase in E. lia.
  - by rewrite keep_none.
Qed.

Lemma load_PEM_file filename certs w :
  files w !! filename = Some (PEM_file certs) ->
  load_certificates_file filename [] w = (true, certs).
Proof. unfold load_certificates_file, PEM_file. intros ->. cbn. by rewrite PEM_read_write. Qed.

(** ** The server's side *)

Context (writable : list ascii -> bool).

Lemma store_certificate_missing name c w :
  files w !! my_certs_name = None ->
  exists e, store_certificate writable name c w = (w, Throw e) /\ is_std_exception e = true.
Proof.
  intros Hf. unfold store_certificate. rewrite st_bind_gets.
  unfold load_certificates_file at 1. rewrite Hf. by eexists.
Qed.

Lemma store_certificate_run name c w content :
  writable my_certs_name = true -> files w !! my_certs_name = Some content ->
  let certs := keep name (PEM_read content) ++ [c] in
  store_certificate writable name c w =
  (set_cert_names (map get_common_name certs)
     (set_files (<[my_certs_name := PEM_file certs]> (files w)) w), Ok name).
Proof.
  intros Hw Hf certs. unfold store_certificate. rewrite st_bind_gets.
  unfold load_certificates_file at 1. rewrite Hf. cbn [app].
  rewrite st_bind_assert, erase_named_keep. fold certs.
  erewrite st_bind_call; [|unfold save_certificates_file; by rewrite Hw].
  erewrite st_bind_call; [done|]. unfold load_certificate_names.
  by rewrite (load_PEM_file _ certs) by (cbn; by rewrite lookup_insert_eq).
Qed.

Lemma load_certificates_string_run tmpname text w :
  tmpname <> my_certs_name ->
  let '(ok, certs, w') := load_certificates_string writable tmpname text [] w in
  (writable tmpname = true -> ok = true /\ certs = PEM_read text) /\
  files w' !! my_certs_name = files w !! my_certs_name /\
  m_cert_names w' = m_cert_names w /\ m_activate w' = m_activate w /\ logged w' = logged w.
Proof.
  intros Hne. unfold load_certificates_string, load_certificates_file.
  destruct (writable tmpname); cbn [files set_files].
  - rewrite lookup_insert_eq. cbn. by rewrite lookup_delete_ne, lookup_insert_ne.
  - by destruct (files w !! tmpname); cbn; rewrite lookup_delete_ne.
Qed.

(** What the server's side of the exchange can end with. *)
Definition exchange_outcome (certnames : list (list ascii)) (bytes : list ascii)
    (w w' : world) (r : out (list ascii)) : Prop :=
  match r with
  | Ok [] => files w' !! my_certs_name = files w !! my_certs_name
  | Ok name =>
      name ∈ certnames /\
      exists c content, PEM_read (c_str bytes) = [c] /\ get_common_name c = name /\
        files w !! my_certs_name = Some content /\
        load_certificates_file my_certs_name [] w' = (true, keep name (PEM_read content) ++ [c]) /\
        certificate_available name w' = true
  | Throw _ => False
  | UB => zlen bytes = 4000 /\ zero ∉ bytes
  end.

End lemmas.

(** ** A concrete library *)

(** Two certificates, each one letter in a file. *)
Definition letter (b : bool) : ascii := if b then chr 65 else chr 66.

Fixpoint letters_read (l : list ascii) : list bool :=
  match l with
  | [] => []
  | c :: l' =>
      if Ascii.eqb c (chr 65) then true :: letters_read l'
      else if Ascii.eqb c (chr 66) then false :: letters_read l' else []
  end.

Definition split_first (s pattern : list ascii) : list (list ascii) :=
  let i := sfind s pattern 0 in
  if i =? npos then [s]
  else [take (Z.to_nat i) s; drop (Z.to_nat (i + zlen pattern)) s].

#[export] Instance letters : X509 bool := {
  subject_oneline b _ := lit "/C=DK/CN=" ++ [letter b];
  issuer_oneline b _ := lit "/C=DK/CN=" ++ [letter b];
  X509_cmp b1 b2 := if Bool.eqb b1 b2 then 0 else 1;
  PEM_read := letters_read;
  PEM_write b := [letter b];
  split_regex := split_first }.

#[export] Instance letters_laws : X509Laws bool.
Proof.
  split. intros certs. induction certs as [|[] certs IH]; [done|..].
  - change (true :: letters_read (concat (map PEM_write certs)) = true :: certs).
    by rewrite <- IH at 2.
  - change (false :: letters_read (concat (map PEM_write certs)) = false :: certs).
    by rewrite <- IH at 2.
Qed.

Definition world1 : world :=
  {| files := <[my_certs_name := lit "BAB"]> ∅; m_cert_names := []; m_activate := [];
     logged := [] |}.

Section exchange.
Context `{X509Laws cert}.
Context (writable : list ascii -> bool) (library_what : exn -> list ascii).

Lemma catch_throws {A} (m : st world A) a w w' e :
  m w = (w', Throw e) -> is_std_exception e = true ->
  st_catch m (log_and library_what a) w = (log_add (what library_what e) w', Ok a).
Proof. unfold st_catch. by intros -> ->. Qed.

(** C15. Whatever a peer sends, the server's side of the exchange either changes
    nothing in [certs.pem], or it received exactly one certificate whose name
    is one of the expected ones: then that certificate replaces all of its
    name, the others stay, the name is returned and known.  The only other
    outcome is that all 4000 bytes of the buffer were filled without a NUL. *)
Theorem SetupCertificatesServer_outcome certnames bytes tmpname w :
  [] ∉ certnames -> zlen bytes <= 4000 -> tmpname <> my_certs_name ->
  writable my_certs_name = true -> writable tmpname = true ->
  let '(w', r) := SetupCertificatesServer writable library_what certnames (Ok bytes) tmpname w in
  exchange_outcome certnames bytes w w' r.
Proof using H0.
  intros Hne Hl Htmp Hw1 Hw2. unfold SetupCertificatesServer, st_catch, receive_certificate.
  rewrite st_bind_assert. destruct (_ >? 0); [|done].
  rewrite st_bind_lift. cbv zeta.
  destruct (strlen_buffer bytes Hl) as [[-> Ec]|(-> & Hfull & Hz)]; [|done].
  rewrite st_bind_lift, st_bind_assert, Ec. destruct (_ && _); [|done].
  pose proof (load_certificates_string_run writable tmpname (c_str bytes) w Htmp) as HL.
  destruct (load_certificates_string writable tmpname (c_str bytes) [] w) as [[ok certs] w1] eqn:EL.
  destruct HL as (Hok & Hf & _). destruct (Hok Hw2) as [-> ->].
  erewrite st_bind_call; [|by rewrite EL]. cbv iota beta. rewrite st_bind_assert. cbn [andb].
  destruct (PEM_read (c_str bytes)) as [|c [|c' cs]] eqn:Ep.
  { exact Hf. }
  2: { replace (zlen (c :: c' :: cs) =? 1) with false; [exact Hf|].
       symmetry. apply Z.eqb_neq. zlen_lia. }
  change (zlen [c] =? 1) with true. change (rd [c] 0) with (Ok c).
  cbv iota. rewrite st_bind_lift. case_bool_decide as Hin; [|exact Hf].
  destruct (files w1 !! my_certs_name) as [content|] eqn:Ew.
  - rewrite (store_certificate_run _ _ _ _ content) by done.
    set (w2 := set_cert_names _ _). unfold exchange_outcome.
    destruct (get_common_name c) as [|a name] eqn:En; [done|]. rewrite ?En in Hin.
    split; [done|]. exists c, content. split; [done|]. split; [done|]. split; [congruence|].
    split; [apply load_PEM_file; cbn; by rewrite lookup_insert_eq|].
    apply bool_decide_eq_true_2. subst w2. cbn [m_cert_names set_cert_names].
    rewrite map_app. cbn [map]. rewrite En. set_solver.
  - destruct (store_certificate_missing writable (get_common_name c) c w1 Ew) as (e & -> & He).
    rewrite He.
    change (files w1 !! my_certs_name = files w !! my_certs_name). congruence.
Qed.

End exchange.

Lemma SetupCertificatesServer_outcome_witness :
  let '(w', r) := SetupCertificatesServer (fun _ => true) (fun _ => []) [lit "A"; lit "C"]
                    (Ok (lit "A")) (lit "tmp") world1 in
  exchange_outcome [lit "A"; lit "C"] (lit "A") world1 w' r /\
  r = Ok (lit "A") /\ files w' !! my_certs_name = Some (lit "BBA").
Proof.
  pose proof (SetupCertificatesServer_outcome (fun _ => true) (fun _ => [])
                [lit "A"; lit "C"] (lit "A") (lit "tmp") world1) as Hx.
  destruct (SetupCertificatesServer _ _ _ _ _ _) as [w' r] eqn:E.
  split.
  - apply Hx; try reflexivity; [|by vm_compute|done].
    intros [|[|Hx0]%elem_of_cons]%elem_of_cons; [done..|]. by apply not_elem_of_nil in Hx0.
  - assert (files (fst (SetupCertificatesServer (fun _ => true) (fun _ => []) [lit "A"; lit "C"]
                    (Ok (lit "A")) (lit "tmp") world1)) !! my_certs_name = Some (lit "BBA") /\
            snd (SetupCertificatesServer (fun _ => true) (fun _ => []) [lit "A"; lit "C"]
                    (Ok (lit "A")) (lit "tmp") world1) = Ok (lit "A")) as [H1 H2]
      by (split; vm_compute; reflexivity).
    rewrite E in *. done.
Defined.

Section certificate_files.
Context `{X509Laws cert}.
Context (writable : list ascii -> bool) (library_what : exn -> list ascii).
Implicit Types own remotes : list cert.

Definition cert_names (certs : list cert) : list (list ascii) := map get_common_name certs.

Lemma existsb_name name own :
  existsb (fun c => string_eqb (get_common_name c) name) own =
  bool_decide (name ∈ cert_names own).
Proof.
  induction own as [|c own IH]; [done|]. cbn [existsb cert_names map].
  rewrite IH. unfold string_eqb. apply eq_true_iff_eq.
  rewrite orb_true_iff, !bool_decide_eq_true, elem_of_cons. naive_solver.
Qed.

(** ** Merging *)

Lemma remove_gone now name l :
  list_ok l -> list_ok (snd (remove now name l)) /\
  names (snd (remove now name l)) ⊆ names l /\
  name ∉ names (snd (remove now name l)).
Proof.
  intros Hok. pose proof (list_ok_cleanup now l Hok) as Hc.
  pose proof (names_cleanup now l) as Hs. unfold remove.
  destruct (find_name name (cleanup now l)) as [ac|] eqn:E; cbn.
  - split; [by apply list_ok_erase|]. split.
    + intros x Hx. eapply elem_of_sublist; [|done]. eapply elem_of_sublist; [done|].
      apply names_erase.
    + apply abs_None.
      change (abs (erase_name name (cleanup now l)) !! name = None).
      rewrite abs_erase by done. apply lookup_delete_eq.
  - split; [done|]. split.
    + intros x Hx. by eapply elem_of_sublist.
    + by apply abs_None, find_name_None.
Qed.

(** What the merge adds, and what leaves the activation list. *)
Lemma merge_loop_spec now remotes own l :
  list_ok l ->
  exists added l', merge_loop now remotes own l = (own ++ added, l') /\
    added `sublist_of` remotes /\
    (forall name, name ∈ cert_names remotes -> name ∈ cert_names (own ++ added)) /\
    NoDup (cert_names added) /\
    (forall name, name ∈ cert_names added -> name ∉ cert_names own /\ name ∉ names l') /\
    list_ok l' /\ names l' ⊆ names l.
Proof.
  revert own l. induction remotes as [|r remotes IH]; intros own l Hok; cbn [merge_loop].
  - exists [], l. rewrite app_nil_r. cbn.
    split_and!; [done|done|set_solver|apply NoDup_nil_2|set_solver|done|done].
  - rewrite existsb_name. case_bool_decide as Hr.
    + destruct (IH own l Hok) as (added & l' & -> & Hs & Hc & Hn & Hd & Hok' & Hl).
      exists added, l'. split_and!; [done|by constructor| |done..].
      intros name [->|Hname]%elem_of_cons; [|by apply Hc].
      unfold cert_names in *. rewrite map_app. set_solver.
    + destruct (remove_gone now (get_common_name r) l Hok) as (Hok1 & Hl1 & Hg).
      destruct (IH (own ++ [r]) _ Hok1) as (added & l' & -> & Hs & Hc & Hn & Hd & Hok' & Hl).
      exists (r :: added), l'. rewrite <- app_assoc in *. cbn [app] in *.
      unfold cert_names in *. rewrite map_app in Hd. cbn [map] in *.
      split_and!; [done|by constructor| | | |done|set_solver].
      * intros name [->|Hname]%elem_of_cons; [|by apply Hc].
        rewrite map_app. set_solver.
      * apply list.NoDup_cons. split; [|done]. intros Hin. apply Hd in Hin as [Hx _]. set_solver.
      * intros name [->|Hname]%elem_of_cons; [set_solver|].
        apply Hd in Hname as [Hx Hy]. set_solver.
Qed.

(** ** Properties *)

(** The server's side reads past its buffer exactly when it expects some
    name and 4000 bytes without a NUL arrive; the length test after [strlen]
    cannot prevent it. *)
Theorem SetupCertificatesServer_overread certnames bytes tmpname w :
  zlen bytes <= 4000 ->
  snd (SetupCertificatesServer writable library_what certnames (Ok bytes) tmpname w) = UB <->
  certnames <> [] /\ zlen bytes = 4000 /\ zero ∉ bytes.
Proof using Type.
  intros Hl. unfold SetupCertificatesServer, st_catch, receive_certificate.
  rewrite st_bind_assert. destruct certnames as [|n certnames].
  { split; [done|by intros [? _]]. }
  replace (zlen (n :: certnames) >? 0) with true
    by (rewrite Z.gtb_ltb; symmetry; apply Z.ltb_lt; zlen_lia).
  rewrite st_bind_lift. cbv zeta.
  destruct (strlen_buffer bytes Hl) as [[E Ec]|(E & Hfull & Hz)]; rewrite E; [|done].
  split; [|intros (_ & Hfull & Hz); exfalso].
  2: { unfold strlen in E. rewrite buffer_of_full, bool_decide_false in E by done. done. }
  intros Hub. exfalso. revert Hub.
  rewrite st_bind_lift, st_bind_assert, Ec. destruct (_ && _); [|done].
  destruct (load_certificates_string writable tmpname (c_str bytes) [] w) as [[ok certs] w1] eqn:EL.
  erewrite st_bind_call; [|by rewrite EL]. cbv iota beta. rewrite st_bind_assert.
  destruct ok; cbn [andb]; [|done].
  destruct certs as [|c [|c' cs]]; [done| |].
  2: { replace (zlen (c :: c' :: cs) =? 1) with false; [done|].
       symmetry. apply Z.eqb_neq. zlen_lia. }
  change (zlen [c] =? 1) with true. change (rd [c] 0) with (Ok c).
  cbv iota. rewrite st_bind_lift. case_bool_decide; [|done].
  unfold store_certificate. rewrite st_bind_gets.
  destruct (load_certificates_file my_certs_name [] w1) as [[] certs]; cbv iota beta;
    rewrite st_bind_assert; [|done].
  destruct (save_certificates_file writable my_certs_name
              (erase_named (get_common_name c) certs ++ [c]) w1) as [b w2] eqn:E2.
  erewrite st_bind_call; [|by rewrite E2].
  destruct (load_certificate_names my_certs_name w2) as [b' w3] eqn:E3.
  by erewrite st_bind_call; [|by rewrite E3].
Qed.

(** Deleting a name removes every certificate of that name from
    [certs.pem], keeps the others in their order, and always works on
    [certs.pem], whatever file the caller names. *)
Theorem delete_certificate_file_keeps filename name w content :
  files w !! my_certs_name = Some content -> writable my_certs_name = true ->
  exists w', delete_certificate_file writable filename name w = (true, w') /\
    load_certificates_file my_certs_name [] w' = (true, keep name (PEM_read content)) /\
    name ∉ cert_names (keep name (PEM_read content)) /\
    forall f, f <> my_certs_name -> files w' !! f = files w !! f.
Proof using H0.
  intros Hf Hw. unfold delete_certificate_file, load_certificates_file at 1. rewrite Hf.
  cbn [app]. rewrite delete_loop_keep by lia. unfold save_certificates_file. rewrite Hw.
  eexists. split; [done|]. split; [|split].
  - apply load_PEM_file. cbn. by rewrite lookup_insert_eq.
  - unfold cert_names. intros (c & -> & Hc)%list_elem_of_fmap. unfold keep in Hc.
    by apply list_elem_of_filter in Hc as [? _].
  - intros f Hne. cbn. by rewrite lookup_insert_ne.
Qed.

(** The exchange with another proxy only adds certificates: those we have
    stay in front, untouched, every name the other proxy sent is there
    afterwards, no name is added twice or added when we had it, and the names
    that were added have left the activation list. *)
Lemma exchange_certificates_adds now tmpname output w :
  tmpname <> my_certs_name -> writable my_certs_name = true -> writable tmpname = true ->
  list_ok (m_activate w) -> PEM_read output <> [] ->
  let own := snd (load_certificates_file my_certs_name [] w) in
  exists added w', exchange_certificates writable now tmpname output w = (w', Ok true) /\
    snd (load_certificates_file my_certs_name [] w') = own ++ added /\
    added `sublist_of` PEM_read output /\
    (forall name, name ∈ cert_names (PEM_read output) -> name ∈ cert_names (own ++ added)) /\
    NoDup (cert_names added) /\
    (forall name, name ∈ cert_names added ->
       name ∉ cert_names own /\ name ∉ names (m_activate w')) /\
    list_ok (m_activate w').
Proof using H0.
  intros Htmp Hw Hwt Hok Hne own. unfold exchange_certificates.
  pose proof (load_certificates_string_run writable tmpname output w Htmp) as HL.
  destruct (load_certificates_string writable tmpname output [] w) as [[ok certs] w1] eqn:EL.
  destruct HL as (Hr & Hf & _ & Ha & _). destruct (Hr Hwt) as [-> ->].
  erewrite st_bind_call; [|by rewrite EL]. cbv iota beta. rewrite st_bind_assert.
  rewrite bool_decide_false by (unfold zlen; destruct (PEM_read output); [done|cbn; lia]).
  assert (load_certificates_file my_certs_name [] w1 = load_certificates_file my_certs_name [] w)
    as El by (unfold load_certificates_file; by rewrite Hf).
  rewrite st_bind_gets, El. subst own.
  destruct (load_certificates_file my_certs_name [] w) as [b own] eqn:Eo. cbn [snd].
  rewrite st_bind_gets, Ha.
  destruct (merge_loop_spec now (PEM_read output) own (m_activate w) Hok)
    as (added & l' & -> & Hs & Hc & Hn & Hd & Hok' & _).
  rewrite st_bind_modify. rewrite zlen_app. exists added. destruct added as [|a added].
  - rewrite zlen_nil, Z.add_0_r, Z.eqb_refl. eexists. split; [done|].
    rewrite app_nil_r in *. split; [|done].
    change (snd (load_certificates_file my_certs_name [] w1) = own). by rewrite El.
  - replace (zlen own =? zlen own + zlen (a :: added)) with false
      by (symmetry; apply Z.eqb_neq; zlen_lia).
    erewrite st_bind_call; [|unfold save_certificates_file; by rewrite Hw].
    unfold load_certificate_names.
    erewrite st_bind_call; [|by rewrite (load_PEM_file _ (own ++ a :: added))
      by (cbn; by rewrite lookup_insert_eq)].
    eexists. split; [done|]. split; [|done].
    rewrite (load_PEM_file _ (own ++ a :: added)); [done|]. cbn. by rewrite lookup_insert_eq.
Qed.

(** End to end: when the client's side sends its public certificate and the
    server's side receives just that text, the server's side accepts it under
    its name, if the name is expected, and afterwards knows it. *)
Theorem exchange_end_to_end client server conn certnames tmpname text c content :
  files client !! my_public_cert_name = Some text -> 0 < zlen text < 4000 -> zero ∉ text ->
  PEM_read text = [c] -> get_common_name c ∈ certnames -> get_common_name c <> [] ->
  conn <> [] -> tmpname <> my_certs_name ->
  writable my_certs_name = true -> writable tmpname = true ->
  files server !! my_certs_name = Some content ->
  exists server',
    SetupCertificatesClient library_what conn
      (fun sent => if bool_decide (sent = text) then Ok (zlen sent) else UB) client
      = (client, Ok true) /\
    SetupCertificatesServer writable library_what certnames (Ok text) tmpname server
      = (server', Ok (get_common_name c)) /\
    certificate_available (get_common_name c) server' = true.
Proof using H0.
  intros Hpub Hlen Hz Hread Hin Hcn Hconn Htmp Hw Hwt Hf.
  assert (exists server', SetupCertificatesServer writable library_what certnames (Ok text)
            tmpname server = (server', Ok (get_common_name c)) /\
          certificate_available (get_common_name c) server' = true) as (server' & E1 & E2).
  { unfold SetupCertificatesServer, st_catch, receive_certificate.
    rewrite st_bind_assert.
    replace (zlen certnames >? 0) with true
      by (destruct certnames; [set_solver|symmetry; rewrite Z.gtb_ltb; apply Z.ltb_lt; zlen_lia]).
    rewrite st_bind_lift. cbv zeta.
    destruct (strlen_buffer text) as [[-> Ec]|(_ & Hfull & _)]; [lia| |lia].
    rewrite st_bind_lift, st_bind_assert, Ec, (c_str_no_nul text) by done.
    replace ((zlen text >? 0) && (zlen text <? buffer_size)) with true
      by (unfold buffer_size; rewrite Z.gtb_ltb; symmetry; apply andb_true_iff; lia).
    pose proof (load_certificates_string_run writable tmpname text server Htmp) as HL.
    destruct (load_certificates_string writable tmpname text [] server) as [[ok certs] w1] eqn:EL.
    destruct HL as (Hr & Hf1 & _). destruct (Hr Hwt) as [-> ->].
    erewrite st_bind_call; [|by rewrite EL]. cbv iota beta. rewrite st_bind_assert, Hread.
    change (true && (zlen [c] =? 1)) with true. change (rd [c] 0) with (Ok c).
    cbv iota. rewrite st_bind_lift, bool_decide_true by done.
    rewrite (store_certificate_run _ _ _ _ content) by congruence.
    eexists. split; [done|]. apply bool_decide_eq_true_2. cbn [m_cert_names set_cert_names].
    rewrite map_app. cbn [map]. set_solver. }
  exists server'. split; [|done]. unfold SetupCertificatesClient, st_catch.
  rewrite st_bind_assert.
  replace (zlen conn >? 0) with true
    by (destruct conn; [done|symmetry; rewrite Z.gtb_ltb; apply Z.ltb_lt; zlen_lia]).
  rewrite st_bind_gets. unfold readfile. rewrite Hpub. cbn [default]. unfold id.
  rewrite st_bind_assert.
  replace (zlen text >? 0) with true by (symmetry; rewrite Z.gtb_ltb; apply Z.ltb_lt; lia).
  by rewrite bool_decide_true.
Qed.
End certificate_files.

Lemma SetupCertificatesServer_overread_witness :
  snd (SetupCertificatesServer (fun _ => true) (fun _ => []) [lit "A"]
         (Ok (replicate 4000 (chr 45))) (lit "tmp") world1) = UB.
Proof.
  apply SetupCertificatesServer_overread.
  - by vm_compute.
  - split; [done|]. split; [by vm_compute|]. intros [Hz _]%elem_of_replicate. discriminate Hz.
Defined.

Lemma delete_certificate_file_keeps_witness :
  let kept := keep (lit "B") (PEM_read (lit "BAB")) in
  exists w', delete_certificate_file (fun _ => true) (lit "other.pem") (lit "B") world1 = (true, w') /\
    load_certificates_file my_certs_name [] w' = (true, kept) /\
    lit "B" ∉ cert_names kept /\
    forall f, f <> my_certs_name -> files w' !! f = files world1 !! f.
Proof.
  apply (delete_certificate_file_keeps (fun _ => true) (lit "other.pem") (lit "B") world1 (lit "BAB"));
    reflexivity.
Defined.

Definition world2 : world :=
  {| files := <[my_certs_name := lit "B"]> (<[my_public_cert_name := lit "A"]> ∅);
     m_cert_names := []; m_activate := []; logged := [] |}.

Lemma exchange_certificates_example :
  exists added w', exchange_certificates (fun _ => true) 0 (lit "tmp") (lit "ABA") world2
    = (w', Ok true) /\
    snd (load_certificates_file my_certs_name [] w') = [false] ++ added /\
    added `sublist_of` [true; false; true].
Proof.
  destruct (exchange_certificates_adds (fun _ => true) 0 (lit "tmp") (lit "ABA") world2)
    as (added & w' & E & Hl & Hs & _).
  - done.
  - done.
  - done.
  - apply NoDup_nil_2.
  - done.
  - exists added, w'. split; [exact E|]. split; [exact Hl|exact Hs].
Defined.

Lemma exchange_end_to_end_witness :
  exists server',
    SetupCertificatesClient (fun _ => []) (lit "A")
      (fun sent => if bool_decide (sent = lit "A") then Ok (zlen sent) else UB) world2
      = (world2, Ok true) /\
    SetupCertificatesServer (fun _ => true) (fun _ => []) [lit "A"] (Ok (lit "A")) (lit "tmp") world1
      = (server', Ok (get_common_name true)) /\
    certificate_available (get_common_name true) server' = true.
Proof.
  apply (exchange_end_to_end (fun _ => true) (fun _ => []) world2 world1 (lit "A") [lit "A"]
           (lit "tmp") (lit "A") true (lit "BAB")); try reflexivity; try discriminate.
  - by vm_compute.
  - intros [Hz|Hz]%elem_of_cons; [discriminate Hz|by apply not_elem_of_nil in Hz].
  - apply list_elem_of_In. left. by vm_compute.
Defined.
