(* ===== verification/Thread.v ===== *)
(** * Threads

    [mylib::thread] ([applutil.h]): starting, stopping and the interruptible
    [sleep].

    The stop flag is an atomic another thread may set at any time: the n-th
    reading of it is [stop n].  A [sleep] is the list of the [msleep]s it makes
    and what it ends with. *)

From S2P Require Import Prelude.

(** ** The thread object *)

(** [running] says whether the function of a joinable thread has not returned;
    [interrupts] counts the calls of the interrupt function. *)
Record thread := {
  m_stop : bool;
  joinable : bool;
  running : bool;
  has_interrupt : bool;
  interrupts : Z }.

Definition new_thread (interrupt_function : bool) : thread :=
  {| m_stop := false; joinable := false; running := false;
     has_interrupt := interrupt_function; interrupts := 0 |}.

(** [start]: a thread that was started and not joined cannot be started. *)
Definition start : st thread unit := fun t =>
  match ASSERTE (negb (joinable t)) thread_already_running [] with
  | Ok _ => ({| m_stop := false; joinable := true; running := true;
                has_interrupt := has_interrupt t; interrupts := interrupts t |}, Ok tt)
  | Throw e => (t, Throw e)
  | UB => (t, UB)
  end.

(** [stop(wait)]: joining waits until the function has returned. *)
Definition stop (wait : bool) (t : thread) : thread :=
  if joinable t then
    {| m_stop := true;
       joinable := negb wait;
       running := if wait then false else running t;
       has_interrupt := has_interrupt t;
       interrupts := if has_interrupt t then interrupts t + 1 else interrupts t |}
  else {| m_stop := true; joinable := joinable t; running := running t;
          has_interrupt := has_interrupt t; interrupts := interrupts t |}.

(** The destructor. *)
Definition destroy (t : thread) : thread :=
  if joinable t then
    {| m_stop := m_stop t; joinable := false; running := false;
       has_interrupt := has_interrupt t; interrupts := interrupts t |}
  else t.

(** [is_running]; [ret] is what [pthread_kill] of the thread returns. *)
Definition ESRCH : Z := 3.

Definition is_running (ret : Z) (t : thread) : bool :=
  joinable t && negb (ret =? ESRCH).

(** ** [check_run] and [sleep] *)

Definition check_run (m_stop throw_exception : bool) : out bool :=
  if m_stop && throw_exception then Throw InterruptException else Ok (negb m_stop).

Definition SLEEP : Z := 5000.

(** The [msleep]s made, and the outcome. *)
Fixpoint sleep_loop (fuel : nat) (stop : nat -> bool) (n : nat) (millisec : Z)
    : list Z * out unit :=
  match fuel with
  | O => ([], UB)
  | S fuel' =>
      if millisec >=? SLEEP then
        match check_run (stop n) true with
        | Ok _ =>
            let '(l, r) := sleep_loop fuel' stop (S n) (millisec - SLEEP) in
            (SLEEP :: l, r)
        | Throw e => ([], Throw e)
        | UB => ([], UB)
        end
      else ([millisec], match check_run (stop n) true with
                        | Ok _ => Ok tt
                        | Throw e => Throw e
                        | UB => UB
                        end)
  end.

Definition sleep (stop : nat -> bool) (millisec : Z) : list Z * out unit :=
  sleep_loop (S (Z.to_nat (millisec / SLEEP))) stop 0 millisec.

(** ** Lemmas *)

Definition sum (l : list Z) : Z := foldr Z.add 0 l.

Lemma sleep_loop_spec fuel stop n millisec :
  0 <= millisec -> millisec / SLEEP < Z.of_nat fuel ->
  let '(l, r) := sleep_loop fuel stop n millisec in
  Forall (fun s => 0 <= s <= SLEEP) l /\
  match r with
  | Ok _ => sum l = millisec /\ forall k, (k < length l)%nat -> stop (n + k)%nat = false
  | Throw e => e = InterruptException /\ sum l <= millisec /\
      exists k, stop (n + k)%nat = true /\ (length l <= S k)%nat /\
                forall j, (j < k)%nat -> stop (n + j)%nat = false
  | UB => False
  end.
Proof.
  unfold SLEEP. revert n millisec. induction fuel as [|fuel IH]; intros n millisec H1 H2.
  - divlia.
  - cbn [sleep_loop]. unfold SLEEP, check_run. rewrite Z.geb_leb.
    destruct (Z.leb_spec 5000 millisec).
    + destruct (stop n) eqn:E; cbn [andb].
      * split; [constructor|]. split; [done|]. split; [cbn; lia|].
        exists 0%nat. rewrite Nat.add_0_r. split; [done|]. split; [cbn; lia|lia].
      * specialize (IH (S n) (millisec - 5000)).
        destruct (sleep_loop fuel stop (S n) (millisec - 5000)) as [l r].
        destruct IH as [IH1 IH2]; [divlia..|]. split; [constructor; [lia|done]|].
        assert (sum (5000 :: l) = 5000 + sum l) as -> by done.
        destruct r as [u|e|]; [| |done].
        -- destruct IH2 as [Hsum IH2]. split; [lia|]. intros [|k] Hk.
           ++ by rewrite Nat.add_0_r.
           ++ replace (n + S k)%nat with (S n + k)%nat by lia. apply IH2. cbn in Hk. lia.
        -- destruct IH2 as (-> & Hle & k & Hk & Hlen & Hj). split; [done|]. split; [lia|].
           exists (S k). replace (n + S k)%nat with (S n + k)%nat by lia.
           split; [done|]. split; [cbn; lia|]. intros [|j] Hlt.
           ++ by rewrite Nat.add_0_r.
           ++ replace (n + S j)%nat with (S n + j)%nat by lia. apply Hj. lia.
    + split; [constructor; [lia|done]|]. destruct (stop n) eqn:E; cbn [andb].
      * split; [done|]. split; [cbn; lia|]. exists 0%nat. rewrite Nat.add_0_r.
        split; [done|]. split; [cbn; lia|lia].
      * split; [cbn; lia|]. intros [|k] Hk; [by rewrite Nat.add_0_r|cbn in Hk; lia].
Qed.

(** ** Properties *)

(** [sleep] ends: either it slept exactly the time it was given and never
    found the stop flag set, or it throws at the first reading that finds the
    flag set, having slept no longer than asked for.  It never sleeps longer
    than five seconds between two readings of the flag. *)
Theorem sleep_interruptible stop millisec :
  0 <= millisec ->
  let '(l, r) := sleep stop millisec in
  Forall (fun s => 0 <= s <= 5000) l /\
  match r with
  | Ok _ => sum l = millisec /\ forall k, (k < length l)%nat -> stop k = false
  | Throw e => e = InterruptException /\ sum l <= millisec /\
      exists k, stop k = true /\ (length l <= S k)%nat /\
                forall j, (j < k)%nat -> stop j = false
  | UB => False
  end.
Proof.
  intros Hm. apply (sleep_loop_spec _ stop 0 millisec Hm).
  unfold SLEEP. divlia.
Qed.

Lemma sleep_interruptible_witness :
  sleep (fun n => bool_decide (n = 2%nat)) 60000 = ([5000; 5000], Throw InterruptException) /\
  Forall (fun s => 0 <= s <= 5000) [5000; 5000].
Proof.
  split; [reflexivity|].
  exact (proj1 (sleep_interruptible (fun n => bool_decide (n = 2%nat)) 60000 ltac:(lia))).
Defined.
