(* ===== verification/BaseClient.v ===== *)
(** * Clients

    [BaseClient] ([baseclient.h], [baseclient.cpp]): what the two kinds of
    client connections, [LocalHost] ([localclient.cpp]) and [ProviderClient]
    ([providerclient.cpp]), share, with their constructors and their [start]
    and [stop].

    Clock readings, the outcome of a connection attempt and what arrives on
    the network are arguments.  The static counter of the ids is threaded. *)

From S2P Require Import Prelude CppString Json Endpoints Activation Certs Thread.

(** The size of the data buffers, which have one byte more. *)
Definition max_length : Z := 1024.

(** The members the derived classes add. *)
Inductive kind :=
  | Local (read_timeout : Z) (auto_reconnect : bool)
  | Provider (local_endpoints : list LocalEndpoint) (buffer_size : Z) (use_buffer : bool).

Record BaseClient := {
  m_kind : kind;
  m_id : Z;
  m_proxy_endpoints : list RemoteEndpoint;
  m_proxy_index : Z;
  m_active : bool;
  m_local_port : Z;
  m_activate_port : Z;
  m_max_connections : Z;
  m_activate_stamp : Z;
  m_log : list ascii;
  m_thread_activate : thread;
  m_thread_write : thread;
  m_thread : thread }.

Definition set_proxy_index (i : Z) (c : BaseClient) : BaseClient :=
  {| m_kind := m_kind c; m_id := m_id c; m_proxy_endpoints := m_proxy_endpoints c;
     m_proxy_index := i; m_active := m_active c; m_local_port := m_local_port c;
     m_activate_port := m_activate_port c; m_max_connections := m_max_connections c;
     m_activate_stamp := m_activate_stamp c; m_log := m_log c;
     m_thread_activate := m_thread_activate c; m_thread_write := m_thread_write c;
     m_thread := m_thread c |}.

Definition set_activate_stamp (t : Z) (c : BaseClient) : BaseClient :=
  {| m_kind := m_kind c; m_id := m_id c; m_proxy_endpoints := m_proxy_endpoints c;
     m_proxy_index := m_proxy_index c; m_active := m_active c;
     m_local_port := m_local_port c; m_activate_port := m_activate_port c;
     m_max_connections := m_max_connections c; m_activate_stamp := t; m_log := m_log c;
     m_thread_activate := m_thread_activate c; m_thread_write := m_thread_write c;
     m_thread := m_thread c |}.

Definition set_active_flag (active : bool) (c : BaseClient) : BaseClient :=
  {| m_kind := m_kind c; m_id := m_id c; m_proxy_endpoints := m_proxy_endpoints c;
     m_proxy_index := m_proxy_index c; m_active := active;
     m_local_port := m_local_port c; m_activate_port := m_activate_port c;
     m_max_connections := m_max_connections c; m_activate_stamp := m_activate_stamp c;
     m_log := m_log c; m_thread_activate := m_thread_activate c;
     m_thread_write := m_thread_write c; m_thread := m_thread c |}.

Definition set_log (line : list ascii) (c : BaseClient) : BaseClient :=
  {| m_kind := m_kind c; m_id := m_id c; m_proxy_endpoints := m_proxy_endpoints c;
     m_proxy_index := m_proxy_index c; m_active := m_active c;
     m_local_port := m_local_port c; m_activate_port := m_activate_port c;
     m_max_connections := m_max_connections c; m_activate_stamp := m_activate_stamp c;
     m_log := line; m_thread_activate := m_thread_activate c;
     m_thread_write := m_thread_write c; m_thread := m_thread c |}.

Definition set_threads (activate write main : thread) (c : BaseClient) : BaseClient :=
  {| m_kind := m_kind c; m_id := m_id c; m_proxy_endpoints := m_proxy_endpoints c;
     m_proxy_index := m_proxy_index c; m_active := m_active c;
     m_local_port := m_local_port c; m_activate_port := m_activate_port c;
     m_max_connections := m_max_connections c; m_activate_stamp := m_activate_stamp c;
     m_log := m_log c; m_thread_activate := activate; m_thread_write := write;
     m_thread := main |}.

(** ** Construction *)

(** The current remote proxy; the index is not checked. *)
Definition remote_port (c : BaseClient) : out Z :=
  ep ← rd (m_proxy_endpoints c) (m_proxy_index c); mret (r_port ep).

Definition remote_hostname (c : BaseClient) : out (list ascii) :=
  ep ← rd (m_proxy_endpoints c) (m_proxy_index c); mret (r_hostname ep).

Definition info (c : BaseClient) : out (list ascii) :=
  host ← remote_hostname c;
  port ← remote_port c;
  mret (host ++ chr 58 :: to_string port ++ lit " => :" ++ to_string (m_local_port c)
        ++ lit " ").

(** The constructor prints [info()], which reads the first endpoint. *)
Definition new_BaseClient (k : kind) (active : bool) (local_port activate_port : Z)
    (proxy_endpoints : list RemoteEndpoint) (max_connections now : Z)
    (static_local_id : Z) : out (BaseClient * Z) :=
  let id := swrap 32 (static_local_id + 1) in
  let c := {| m_kind := k; m_id := id; m_proxy_endpoints := proxy_endpoints;
              m_proxy_index := 0; m_active := active; m_local_port := local_port;
              m_activate_port := activate_port; m_max_connections := max_connections;
              m_activate_stamp := now; m_log := [];
              m_thread_activate := new_thread true; m_thread_write := new_thread true;
              m_thread := new_thread true |} in
  _ ← info c;
  mret (c, id).

Definition new_LocalHost (active : bool) (local_port activate_port : Z)
    (proxy_endpoints : list RemoteEndpoint) (max_connections read_timeout : Z)
    (auto_reconnect : bool) (now static_local_id : Z) : out (BaseClient * Z) :=
  new_BaseClient (Local read_timeout auto_reconnect) active local_port activate_port
    proxy_endpoints max_connections now static_local_id.

(** [i*1024*1024] in [int], stored into a [size_t]; an overflow is undefined. *)
Definition megabytes (i : Z) : out Z :=
  if bool_decide (in_sint 32 (i * 1024)) then
    if bool_decide (in_sint 32 (i * 1024 * 1024)) then mret (wrap 64 (i * 1024 * 1024))
    else UB
  else UB.

Definition new_ProviderClient `{Json J} (active : bool) (activate_port : Z)
    (local_endpoints : list LocalEndpoint) (proxy_endpoints : list RemoteEndpoint)
    (json : J) (now static_local_id : Z) : out (BaseClient * Z) :=
  '(c, id) ← new_BaseClient (Provider local_endpoints 1000000 false) active 0 activate_port
               proxy_endpoints 1 now static_local_id;
  '(found, i) ← check_int json (lit "buffer_size") None;
  m_buffer_size ← (if found : bool then i ← use_int i; megabytes i else mret 1000000);
  '(_, use_buffer) ← check_bool json (lit "use_buffer") false;
  mret ({| m_kind := Provider local_endpoints m_buffer_size use_buffer; m_id := m_id c;
           m_proxy_endpoints := m_proxy_endpoints c; m_proxy_index := m_proxy_index c;
           m_active := m_active c; m_local_port := m_local_port c;
           m_activate_port := m_activate_port c; m_max_connections := m_max_connections c;
           m_activate_stamp := m_activate_stamp c; m_log := m_log c;
           m_thread_activate := m_thread_activate c; m_thread_write := m_thread_write c;
           m_thread := m_thread c |}, id).

(** [dynamic_cast<const ProviderClient*>] *)
Definition is_provider (c : BaseClient) : bool :=
  match m_kind c with Provider _ _ _ => true | Local _ _ => false end.

Definition local_portname (c : BaseClient) : list ascii :=
  if is_provider c then lit "Provider" else to_string (m_local_port c).

(** ** Start and stop *)

(** [start] of both kinds; [ret] is what [pthread_kill] says of the thread.
    The message that it runs already prints [info()]. *)
Definition client_start (ret : Z) : st BaseClient unit := fun c =>
  if is_running ret (m_thread c) then
    match info c with
    | Ok _ => (c, Ok tt)
    | Throw e => (c, Throw e)
    | UB => (c, UB)
    end
  else
    let '(t, r) := start (m_thread c) in
    (set_threads (m_thread_activate c) (m_thread_write c) t c, r).

Definition stop_activate (c : BaseClient) : BaseClient :=
  set_threads (stop true (m_thread_activate c)) (m_thread_write c) (m_thread c) c.

Definition client_stop (c : BaseClient) : BaseClient :=
  let c := stop_activate c in
  if is_provider c
  then set_threads (m_thread_activate c) (stop true (m_thread_write c))
         (stop true (m_thread c)) c
  else set_threads (m_thread_activate c) (m_thread_write c) (stop true (m_thread c)) c.

Definition start_activate : st BaseClient unit := fun c =>
  let '(t, r) := start (m_thread_activate c) in
  (set_threads t (m_thread_write c) (m_thread c) c, r).

(** ** Commands *)

(** The index of the first endpoint of this name. *)
Fixpoint find_remote (name : list ascii) (eps : list RemoteEndpoint) (index : Z) : option Z :=
  match eps with
  | [] => None
  | r :: eps' =>
      if string_eqb (r_name r) name then Some index
      else find_remote name eps' (index + 1)
  end.

(** Times are seconds; the window of a client is thirty.  Returns the index the
    activation thread is started with. *)
Definition activate (name : list ascii) (now : Z) : st BaseClient (option Z) :=
  eps ← gets m_proxy_endpoints;
  match find_remote name eps 0 with
  | Some index =>
      _ ← modify (set_activate_stamp (now + 30));
      _ ← modify stop_activate;
      _ ← start_activate;
      mret (Some index)
  | None => mret None
  end.

Definition set_active (id : Z) (active : bool) (ret : Z) : st BaseClient bool :=
  c ← gets (fun c => c);
  if m_id c =? id then
    _ ← modify (set_active_flag active);
    _ ← (if active then client_start ret else modify client_stop);
    mret true
  else mret false.

Definition certificate_exists (certname : list ascii) (c : BaseClient) : bool :=
  existsb (fun r => string_eqb (r_name r) certname) (m_proxy_endpoints c).

(** ** The activation thread *)

Section activation.
Context `{X509 cert}.
Context (writable : list ascii -> bool) (library_what : exn -> list ascii).

Definition client_state : Type := BaseClient * world.

Definition on_client {A} (m : st BaseClient A) : st client_state A := fun '(c, w) =>
  let '(c, r) := m c in ((c, w), r).

Definition on_world {A} (m : st world A) : st client_state A := fun '(c, w) =>
  let '(w, r) := m w in ((c, w), r).

Definition dolog (line : list ascii) : st client_state unit := fun '(c, w) =>
  ((set_log line c, log_add line w), Ok tt).

(** [threadproc_activate(index)].  [now1] and [now2] are its clock readings,
    [connect] the outcome of the connection to a host and port. *)
Definition threadproc_activate (index now1 now2 : Z)
    (connect : list ascii -> Z -> out unit) (write : list ascii -> out Z)
    (received : out (list ascii)) (tmpname : list ascii) : st client_state unit :=
  c ← gets fst;
  if now1 <? m_activate_stamp c then
    _ ← on_client (modify (set_proxy_index index));
    c ← gets fst;
    host ← lift (remote_hostname c);
    port ← lift (remote_port c);
    let epz := host ++ chr 58 :: to_string port ++ lit "(" ++ to_string (m_activate_port c)
                 ++ lit ")" in
    st_catch
      (_ ← lift (info c);
       _ ← dolog (lit "Activate Performing remote connection to: " ++ epz);
       _ ← lift (connect host (m_activate_port c));
       ep ← lift (rd (m_proxy_endpoints c) index);
       _ ← dolog (lit "Activate Attempting to perform certificate exchange with " ++ r_name ep);
       _ ← on_client (modify (set_activate_stamp now2));
       sent ← on_world (SetupCertificatesClient library_what (r_name ep) write);
       ok ← (if sent : bool then
               name ← on_world (SetupCertificatesServer writable library_what [r_name ep]
                                  received tmpname);
               mret (negb (bool_decide (name = [])))
             else mret false);
       if ok : bool then dolog (lit "Succeeded in exchanging certificates with " ++ r_name ep)
       else dolog (lit "Failed to exchange certificate"))
      (fun _ => mret tt)
  else mret tt.

End activation.

(** ** Lemmas *)

Lemma find_remote_None name eps i :
  find_remote name eps i = None <-> existsb (fun r => string_eqb (r_name r) name) eps = false.
Proof.
  revert i. induction eps as [|r eps IH]; intros i; [done|]. cbn.
  destruct (string_eqb (r_name r) name); [done|]. apply IH.
Qed.

Lemma find_remote_Some name eps i k :
  find_remote name eps i = Some k ->
  exists r, i <= k /\ eps !! Z.to_nat (k - i) = Some r /\ r_name r = name.
Proof.
  revert i. induction eps as [|r eps IH]; intros i; [done|]. cbn [find_remote].
  destruct (string_eqb (r_name r) name) eqn:E.
  - intros [= <-]. exists r. rewrite Z.sub_diag. split; [lia|]. split; [done|].
    by apply string_eqb_eq.
  - intros (r' & Hi & Hl & Hn)%IH. exists r'. split; [lia|]. split; [|done].
    by replace (Z.to_nat (k - i)) with (S (Z.to_nat (k - (i + 1)))) by lia.
Qed.

(** A client can only be made with a remote proxy. *)
Lemma new_BaseClient_UB k active local_port activate_port eps max now counter :
  new_BaseClient k active local_port activate_port eps max now counter = UB <-> eps = [].
Proof.
  unfold new_BaseClient, info, remote_hostname, remote_port. cbn [m_proxy_endpoints m_proxy_index].
  destruct eps as [|ep eps]; [done|]. by change (rd (ep :: eps) 0) with (Ok ep).
Qed.

Lemma new_BaseClient_Ok k active local_port activate_port ep eps max now counter :
  exists c, new_BaseClient k active local_port activate_port (ep :: eps) max now counter
    = Ok (c, swrap 32 (counter + 1)) /\
  m_kind c = k /\ m_active c = active /\ m_local_port c = local_port /\
  m_activate_port c = activate_port /\ m_proxy_endpoints c = ep :: eps /\
  m_max_connections c = max /\ m_id c = swrap 32 (counter + 1) /\
  m_thread c = new_thread true.
Proof.
  unfold new_BaseClient, info, remote_hostname, remote_port. cbn [m_proxy_endpoints m_proxy_index].
  change (rd (ep :: eps) 0) with (Ok ep). eexists. done.
Qed.
