(* ===== verification/RemoteHost.v ===== *)
(** * Hosts

    [RemoteProxyHost] and [RemoteProxyClient] ([remoteclient.h],
    [remoteclient.cpp]): the list of remote proxies a host serves, the sessions
    it keeps and cleans up, the choice of the endpoint and of the local system,
    and the two loops that move the data.

    Sockets are the scripts of [Plugin]; clock readings, the shuffled order of
    the local endpoints, the outcome of each connection attempt and of the
    handshake are arguments. *)

From S2P Require Import Prelude CppString Endpoints Certs Thread Plugin.

(** ** Sessions *)

(** [system_clock::time_point()], the value of a time that was never set. *)
Definition never : Z := 0.

(** Times are nanoseconds. *)
Definition seconds (n : Z) : Z := n * 1000000000.

Record RemoteProxyClient := {
  c_id : Z;
  c_endpoint : RemoteEndpoint;
  c_thread_ended : Z;
  c_stopped : Z }.

Definition is_thread_active (now : Z) (c : RemoteProxyClient) : bool :=
  if c_thread_ended c =? never then true
  else now - c_thread_ended c <? seconds 2.

(** [stop]: joins both threads, the first time.  [ended] is the moment the
    thread that is joined writes into [thread_ended]; it is [never] for a thread
    that an exception ends before that ([Session]). *)
Definition session_stop (ended now : Z) (c : RemoteProxyClient) : RemoteProxyClient :=
  if c_stopped c =? never then
    {| c_id := c_id c; c_endpoint := c_endpoint c;
       c_thread_ended := if c_thread_ended c =? never then ended else c_thread_ended c;
       c_stopped := now |}
  else c.

(** ** Hosts *)

Record RemoteProxyHost := {
  h_id : Z;
  h_type : list ascii;
  h_active : bool;
  h_remote_ep : list RemoteEndpoint;
  h_local_ep : list LocalEndpoint;
  h_local_port : Z;
  h_thread : thread;
  h_clients : list RemoteProxyClient }.

(** The constructor, apart from the SSL context. *)
Definition new_RemoteProxyHost (local_port : Z) (remote_ep : list RemoteEndpoint)
    (local_ep : list LocalEndpoint) (type : list ascii) (static_remote_count : Z)
    : RemoteProxyHost * Z :=
  let id := swrap 32 (static_remote_count + 1) in
  ({| h_id := id; h_type := type; h_active := true; h_remote_ep := remote_ep;
      h_local_ep := local_ep; h_local_port := local_port; h_thread := new_thread true;
      h_clients := [] |}, id).

Definition set_remote_ep (eps : list RemoteEndpoint) (h : RemoteProxyHost) : RemoteProxyHost :=
  {| h_id := h_id h; h_type := h_type h; h_active := h_active h; h_remote_ep := eps;
     h_local_ep := h_local_ep h; h_local_port := h_local_port h; h_thread := h_thread h;
     h_clients := h_clients h |}.

Definition set_clients (cs : list RemoteProxyClient) (h : RemoteProxyHost) : RemoteProxyHost :=
  {| h_id := h_id h; h_type := h_type h; h_active := h_active h;
     h_remote_ep := h_remote_ep h; h_local_ep := h_local_ep h;
     h_local_port := h_local_port h; h_thread := h_thread h; h_clients := cs |}.

Definition set_h_thread (t : thread) (h : RemoteProxyHost) : RemoteProxyHost :=
  {| h_id := h_id h; h_type := h_type h; h_active := h_active h;
     h_remote_ep := h_remote_ep h; h_local_ep := h_local_ep h;
     h_local_port := h_local_port h; h_thread := t; h_clients := h_clients h |}.

Definition set_h_active (active : bool) (h : RemoteProxyHost) : RemoteProxyHost :=
  {| h_id := h_id h; h_type := h_type h; h_active := active;
     h_remote_ep := h_remote_ep h; h_local_ep := h_local_ep h;
     h_local_port := h_local_port h; h_thread := h_thread h; h_clients := h_clients h |}.

Fixpoint push_all (added eps : list RemoteEndpoint) : list RemoteEndpoint :=
  match added with
  | [] => eps
  | ep :: added' => push_all added' (eps ++ [ep])
  end.

Definition add_remotes (added : list RemoteEndpoint) (h : RemoteProxyHost) : RemoteProxyHost :=
  set_remote_ep (push_all added (h_remote_ep h)) h.

Fixpoint erase_each (removed eps : list RemoteEndpoint) : list RemoteEndpoint :=
  match removed with
  | [] => eps
  | r :: removed' =>
      erase_each removed' (erase_first (fun ep => RemoteEndpoint_eqb ep r) eps)
  end.

Definition remove_remotes (removed : list RemoteEndpoint) (h : RemoteProxyHost)
    : RemoteProxyHost :=
  set_remote_ep (erase_each removed (h_remote_ep h)) h.

Fixpoint stop_named (ended now : Z) (certname : list ascii) (cs : list RemoteProxyClient)
    : list RemoteProxyClient :=
  match cs with
  | [] => []
  | c :: cs' =>
      (if string_eqb (r_name (c_endpoint c)) certname then session_stop ended now c else c)
        :: stop_named ended now certname cs'
  end.

Definition stop_by_name (ended now : Z) (certname : list ascii) (h : RemoteProxyHost)
    : RemoteProxyHost :=
  set_clients (stop_named ended now certname (h_clients h)) h.

(** The loop of [remove_any]. *)
Fixpoint keep_clients (removed : list RemoteEndpoint) (cs : list RemoteProxyClient)
    : list RemoteProxyClient :=
  match cs with
  | [] => []
  | c :: cs' =>
      if existsb (fun ep => RemoteEndpoint_eqb (c_endpoint c) ep) removed
      then keep_clients removed cs'
      else c :: keep_clients removed cs'
  end.

Definition remove_any (removed : list RemoteEndpoint) (h : RemoteProxyHost)
    : bool * RemoteProxyHost :=
  (true, set_clients (keep_clients removed (h_clients h)) h).

(** [start]; [bind] is the outcome of opening and binding the acceptor, [ret]
    what [pthread_kill] says of the thread. *)
Definition host_start (ret : Z) (bind : out unit) : st RemoteProxyHost unit := fun h =>
  if is_running ret (h_thread h) then (h, Ok tt)
  else
    match bind with
    | Ok _ => let '(t, r) := start (h_thread h) in (set_h_thread t h, r)
    | Throw e => (h, Throw e)
    | UB => (h, UB)
    end.

Definition host_stop (ended now : Z) (h : RemoteProxyHost) : RemoteProxyHost :=
  let h := set_h_thread (stop true (h_thread h)) h in
  set_clients (map (session_stop ended now) (h_clients h)) h.

(** The loop of [check_deadline] over the sessions; returns the counts of idle
    and removed ones too. *)
Fixpoint reap (now : Z) (cs : list RemoteProxyClient) (idle removed : Z)
    : list RemoteProxyClient * Z * Z :=
  match cs with
  | [] => ([], idle, removed)
  | c :: cs' =>
      if is_thread_active now c then
        let '(cs, idle, removed) := reap now cs' idle removed in (c :: cs, idle, removed)
      else
        let c := session_stop now now c in
        if now >? c_stopped c + seconds 2 then reap now cs' idle (removed + 1)
        else
          let '(cs, idle, removed) := reap now cs' (idle + 1) removed in
          (c :: cs, idle, removed)
  end.

(** What woke the timer handler up. *)
Inductive timer := Aborted | Fired (expired : bool).

Definition check_deadline (now : Z) (error : timer) (h : RemoteProxyHost) : RemoteProxyHost :=
  match error with
  | Fired true => let '(cs, _, _) := reap now (h_clients h) 0 0 in set_clients cs h
  | _ => h
  end.

(** [handle_accept] without an error: the session joins the list. *)
Definition handle_accept (accepted : option RemoteProxyClient) (h : RemoteProxyHost)
    : RemoteProxyHost :=
  match accepted with
  | Some c => set_clients (h_clients h ++ [c]) h
  | None => h
  end.

(** ** One session *)

(** [get_certificate_issuer_subject]: [peer] is the peer's certificate, whether
    it was verified, its subject and its issuer in one line. *)
Definition get_certificate_issuer_subject (peer : option (bool * list ascii * list ascii))
    : bool * list ascii * list ascii :=
  match peer with
  | Some (true, subject, issuer) => (true, issuer, subject)
  | _ => (false, [], [])
  end.

(** The state of a session: what [RemoteProxyClient] keeps while it runs. *)
Record session := {
  s_endpoint : RemoteEndpoint;
  s_local_connected : bool;
  s_remote_connected : bool;
  s_log : list (list ascii) }.

Definition set_endpoint (ep : RemoteEndpoint) (s : session) : session :=
  {| s_endpoint := ep; s_local_connected := s_local_connected s;
     s_remote_connected := s_remote_connected s; s_log := s_log s |}.

Definition set_local_connected (b : bool) (s : session) : session :=
  {| s_endpoint := s_endpoint s; s_local_connected := b;
     s_remote_connected := s_remote_connected s; s_log := s_log s |}.

Definition set_remote_connected (b : bool) (s : session) : session :=
  {| s_endpoint := s_endpoint s; s_local_connected := s_local_connected s;
     s_remote_connected := b; s_log := s_log s |}.

Definition session_log (line : list ascii) : st session unit :=
  modify (fun s => {| s_endpoint := s_endpoint s; s_local_connected := s_local_connected s;
                      s_remote_connected := s_remote_connected s; s_log := s_log s ++ [line] |}).

(** The first remote endpoint of a name. *)
Definition find_endpoint (name : list ascii) (eps : list RemoteEndpoint) : option RemoteEndpoint :=
  List.find (fun ep => string_eqb name (r_name ep)) eps.

Section sessions.
(** [dinfo()], and the attempt to connect to a local system. *)
Context (dinfo : list ascii) (connect : LocalEndpoint -> out unit).

(** The loop over the shuffled indices; the text of the last endpoint tried. *)
Fixpoint connect_locals (doing : list ascii) (eps : list LocalEndpoint) (indexes : list Z)
    (ep : list ascii) : st session (list ascii) :=
  match indexes with
  | [] => mret ep
  | proxy_index :: indexes' =>
      l ← lift (rd eps proxy_index);
      let ep := l_hostname l ++ chr 58 :: to_string (l_port l) in
      _ ← session_log (dinfo ++ doing ++ ep);
      connected ← st_catch (_ ← lift (connect l); mret true) (fun _ => mret false);
      if connected : bool
      then _ ← modify (set_local_connected true); mret ep
      else connect_locals doing eps indexes' ep
  end.

(** [test_local_connection]; [connect_handler] is the plugin's, [boost] tells
    the exceptions of boost, which are caught without a log line. *)
Definition test_local_connection (what : exn -> list ascii) (boost : exn -> bool)
    (name : list ascii) (remote_ep : list RemoteEndpoint) (local_ep : list LocalEndpoint)
    (indexes : list Z) (connect_handler : RemoteEndpoint -> out bool) : st session Z :=
  st_catch
    (_ ← modify (fun s => match find_endpoint name remote_ep with
                          | Some ep => set_endpoint ep s
                          | None => s
                          end);
     s ← gets (fun s => s);
     if s_local_connected s then mret 429
     else
       ep ← connect_locals (lit "Test Host Performing local connection to: ") local_ep indexes [];
       s ← gets (fun s => s);
       if negb (s_local_connected s) then mret 422
       else
         result ← st_catch
           (_ ← session_log (dinfo ++ lit "Performing logon procedure to " ++ ep);
            ok ← lift (connect_handler (s_endpoint s));
            if ok : bool then
              _ ← session_log (dinfo ++ lit "Test Host Completed successfully " ++ ep);
              mret 200
            else mret 500)
           (fun e => _ ← session_log (dinfo ++ what e); mret 401);
         _ ← session_log (dinfo ++ lit "Test Host done test logon procedure to " ++ ep);
         _ ← modify (set_local_connected false);
         mret result)
    (fun e => if boost e then mret 500
              else _ ← session_log (dinfo ++ what e); mret 500).

(** [remote_threadproc] up to the data loop: which endpoint the peer is, and
    the connection to its local system. *)
Definition open_session `{X509 cert} (remote_ep : list RemoteEndpoint)
    (local_ep : list LocalEndpoint) (handshake : out unit)
    (peer : option (bool * list ascii * list ascii)) (indexes : list Z)
    (plugin_type : list ascii) (connect_handler : RemoteEndpoint -> out bool)
    : st session unit :=
  _ ← lift (if bool_decide (local_ep = [])
            then Throw (RuntimeError (lit "No local endpoints found")) else mret tt);
  _ ← session_log (dinfo ++ lit "Performing SSL hansdshake connection");
  _ ← lift handshake;
  _ ← session_log (dinfo ++ lit "SSL connection ok");
  _ ← modify (set_remote_connected true);
  let '(ok, issuer, _) := get_certificate_issuer_subject peer in
  let '(common_name, found) :=
    if ok && (zlen issuer >? 0) then
      let common_name := match split_regex issuer (lit "/CN=") with
                         | _ :: name :: _ => name
                         | _ => lit "NOT VALID"
                         end in
      (common_name, find_endpoint common_name remote_ep)
    else (lit "NOT VALID", None) in
  _ ← match found with
      | Some ep => modify (set_endpoint ep)
      | None => lift (Throw (RuntimeError
          (lit "Certificate valid but no active connections specified: " ++ common_name)))
      end;
  _ ← modify (set_local_connected false);
  ep ← connect_locals (lit "Performing local connection to: ") local_ep indexes [];
  s ← gets (fun s => s);
  _ ← lift (if s_local_connected s then mret tt
            else Throw (RuntimeError (lit "Failed connection to local host")));
  _ ← session_log (dinfo ++ lit "Performing logon procedure to " ++ ep);
  ok ← lift (connect_handler (s_endpoint s));
  _ ← lift (if ok : bool then mret tt
            else Throw (RuntimeError
              (lit "Failed plugin connect_handler for type: " ++ plugin_type)));
  session_log (dinfo ++ lit "Completed logon procedure to " ++ ep).

End sessions.

(** ** The data loops *)

(** One direction: where it reads, where it writes, the bytes counted, the last
    message, and how often the filter refused. *)
Record pump := {
  p_source : socket;
  p_sink : socket;
  p_count : Z;
  p_last : list ascii;
  p_overflow : Z }.

Definition on_source {A} (m : st socket A) : st pump A := fun p =>
  let '(s, r) := m (p_source p) in
  ({| p_source := s; p_sink := p_sink p; p_count := p_count p; p_last := p_last p;
      p_overflow := p_overflow p |}, r).

Definition on_sink {A} (m : st socket A) : st pump A := fun p =>
  let '(s, r) := m (p_sink p) in
  ({| p_source := p_source p; p_sink := s; p_count := p_count p; p_last := p_last p;
      p_overflow := p_overflow p |}, r).

Definition set_last (l : list ascii) (p : pump) : pump :=
  {| p_source := p_source p; p_sink := p_sink p; p_count := p_count p; p_last := l;
     p_overflow := p_overflow p |}.

Definition count_bytes (n : Z) (p : pump) : pump :=
  {| p_source := p_source p; p_sink := p_sink p; p_count := wrap 64 (p_count p + n);
     p_last := p_last p; p_overflow := p_overflow p |}.

Definition note_overflow (p : pump) : pump :=
  {| p_source := p_source p; p_sink := p_sink p; p_count := p_count p;
     p_last := p_last p; p_overflow := p_overflow p + 1 |}.

(** [read_some] with an error code: an error ends the loop as no bytes do. *)
Definition read_ec (size : nat) : st socket (list ascii) := fun s =>
  match read_some size s with
  | (s, Throw _) => (s, Ok [])
  | r => r
  end.

(** The loop of [remote_threadproc], and with [overflow := false] the one of
    [local_threadproc]: [max] is the plugin's buffer size, [filter] its filter;
    only the first logs when the filter refuses.  A write may take less than
    it is given, and the rest is not written again; or it throws, which ends the
    loop. *)
Fixpoint pump_loop (overflow : bool) (fuel : nat) (stop : nat -> bool) (n max : nat)
    (filter : list ascii -> bool) : st pump unit :=
  match fuel with
  | O => lift UB
  | S fuel' =>
      _ ← lift (check_run (stop n) true);
      buffer ← on_source (read_ec max);
      if bool_decide (buffer = []) then mret tt
      else
        _ ← modify (set_last (c_str buffer));
        _ ← (if filter buffer then
               length ← on_sink (write_some buffer);
               modify (count_bytes length)
             else if overflow then modify note_overflow else mret tt);
        pump_loop overflow fuel' stop (S n) max filter
  end.

(** A read takes a byte or a whole chunk. *)
Definition pump_fuel (p : pump) : nat :=
  S (length (sk_incoming (p_source p))
     + list_sum (map (fun c => match c with Ok l => length l | _ => 0%nat end)
                   (sk_incoming (p_source p))))%nat.

Definition run_pump (overflow : bool) (stop : nat -> bool) (max : nat)
    (filter : list ascii -> bool) (p : pump) : pump * out unit :=
  pump_loop overflow (pump_fuel p) stop 0 max filter p.

(** ** Lemmas: cleaning up *)

(** What one check does with a session. *)
Definition reap_one (now : Z) (c : RemoteProxyClient) : option RemoteProxyClient :=
  if is_thread_active now c then Some c
  else
    let c := session_stop now now c in
    if now >? c_stopped c + seconds 2 then None else Some c.

Lemma reap_omap now cs idle removed :
  fst (fst (reap now cs idle removed)) = omap (reap_one now) cs.
Proof.
  revert idle removed. induction cs as [|c cs IH]; intros idle removed; [done|].
  cbn [reap omap list_omap]. unfold reap_one at 1. destruct (is_thread_active now c).
  - specialize (IH idle removed). by destruct (reap now cs idle removed) as [[cs' i] r]; cbn in *; subst.
  - cbv zeta. destruct (_ >? _); [apply IH|].
    specialize (IH (idle + 1) removed). by destruct (reap now cs (idle + 1) removed) as [[cs' i] r]; cbn in *; subst.
Qed.

Lemma check_deadline_clients now h :
  h_clients (check_deadline now (Fired true) h) = omap (reap_one now) (h_clients h).
Proof.
  unfold check_deadline. rewrite <- (reap_omap now _ 0 0).
  by destruct (reap now (h_clients h) 0 0) as [[cs i] r].
Qed.

(** The times a session carries are in the past. *)
Definition times_ok (now : Z) (c : RemoteProxyClient) : Prop :=
  0 <= c_thread_ended c <= now /\ 0 <= c_stopped c <= now.

Lemma reap_one_ended t c :
  c_thread_ended c <> never -> c_thread_ended c + seconds 2 <= t ->
  reap_one t c = let c := session_stop t t c in
                 if t >? c_stopped c + seconds 2 then None else Some c.
Proof.
  unfold reap_one, is_thread_active. intros Hn He.
  destruct (Z.eqb_spec (c_thread_ended c) never); [done|].
  by destruct (Z.ltb_spec (t - c_thread_ended c) (seconds 2)); [lia|].
Qed.

Lemma reap_one_twice t1 t2 c :
  0 < t1 -> times_ok t1 c -> t1 + seconds 2 < t2 ->
  c_thread_ended c <> never -> c_thread_ended c + seconds 2 <= t1 ->
  (reap_one t1 c ≫= reap_one t2) = None.
Proof.
  intros H0 [Ht1 Ht2] H2 Hn He. rewrite reap_one_ended by done. cbv zeta.
  destruct (_ >? _); [done|]. cbn [mbind option_bind].
  set (c' := session_stop t1 t1 c).
  assert (c_thread_ended c' = c_thread_ended c /\ 0 < c_stopped c' <= t1) as [E1 E2].
  { subst c'. unfold session_stop, never in *. destruct (Z.eqb_spec (c_stopped c) 0); cbn.
    - destruct (Z.eqb_spec (c_thread_ended c) 0); [done|lia].
    - lia. }
  unfold seconds in *. rewrite reap_one_ended by (unfold seconds, never in *; lia). cbv zeta.
  assert (session_stop t2 t2 c' = c') as ->.
  { unfold session_stop, never. destruct (Z.eqb_spec (c_stopped c') 0); [lia|done]. }
  unfold seconds. rewrite Z.gtb_ltb.
  by destruct (Z.ltb_spec (c_stopped c' + 2 * 1000000000) t2); [|lia].
Qed.

(** ** Lemmas: the data loops *)

(** What the sink takes of each piece when it takes at most [accepts]; nothing
    more once a write has failed. *)
Fixpoint taken (accepts : list Z) (pieces : list (list ascii)) : list (list ascii) :=
  match pieces with
  | [] => []
  | p :: pieces' =>
      match accepts with
      | [] => p :: taken [] pieces'
      | n :: accepts' =>
          if n <? 0 then [] else take (Z.to_nat (Z.min n (zlen p))) p :: taken accepts' pieces'
      end
  end.

(** Whether one of the writes fails. *)
Fixpoint fails (accepts : list Z) (pieces : list (list ascii)) {struct pieces} : bool :=
  match pieces, accepts with
  | _ :: pieces', n :: accepts' => (n <? 0) || fails accepts' pieces'
  | _, _ => false
  end.

Fixpoint all_taken (accepts : list Z) (pieces : list (list ascii)) : Prop :=
  match pieces, accepts with
  | p :: pieces', n :: accepts' => zlen p <= n /\ all_taken accepts' pieces'
  | _, _ => True
  end.

Lemma taken_length accepts pieces :
  (length (concat (taken accepts pieces)) <= length (concat pieces))%nat.
Proof.
  revert accepts. induction pieces as [|p pieces IH]; intros accepts; [done|].
  destruct accepts as [|n accepts]; cbn [taken concat].
  - rewrite !length_app. specialize (IH []). lia.
  - destruct (n <? 0); [cbn; lia|]. cbn [concat]. rewrite !length_app.
    specialize (IH accepts). rewrite length_take. lia.
Qed.

(** Nothing is lost exactly when every write takes all it is given. *)
Lemma taken_all accepts pieces :
  Forall (fun p => p <> []) pieces ->
  concat (taken accepts pieces) = concat pieces <-> all_taken accepts pieces.
Proof.
  intros Hne. revert accepts.
  induction Hne as [|p pieces Hp _ IH]; intros accepts; [by destruct accepts|].
  destruct accepts as [|n accepts]; cbn [taken concat all_taken].
  - split; [by destruct pieces|]. intros _. f_equal. apply IH. by destruct pieces.
  - destruct (Z.ltb_spec n 0) as [Hn|Hn].
    { cbn [concat]. split; [intros E|unfold zlen; lia].
      apply (f_equal length) in E. rewrite length_app in E. destruct p; [done|cbn in E; lia]. }
    cbn [concat]. split.
    + intros E. pose proof (taken_length accepts pieces) as Hl.
      assert (Z.to_nat (Z.min n (zlen p)) >= length p)%nat as Hge.
      { apply (f_equal length) in E. rewrite !length_app, length_take in E. lia. }
      rewrite take_ge in E by lia. split.
      * destruct p; [done|]. unfold zlen in *. cbn [length] in *. lia.
      * apply IH. by apply app_inv_head in E.
    + intros [Hge Hr]. rewrite take_ge by (unfold zlen in *; lia). f_equal. by apply IH.
Qed.

Lemma all_taken_fails accepts pieces : all_taken accepts pieces -> fails accepts pieces = false.
Proof.
  revert accepts. induction pieces as [|p pieces IH]; intros [|n accepts]; cbn; try done.
  intros [Hn H]. rewrite IH by done. destruct (Z.ltb_spec n 0); [unfold zlen in Hn; lia|done].
Qed.

(** How the loop ends. *)
Definition pump_end (accepts : list Z) (pieces : list (list ascii)) : out unit :=
  if fails accepts pieces then Throw (BoostError broken_pipe) else Ok tt.

Lemma pump_loop_chunks overflow fuel stop n max filter chunks accepts sent rest e count last ovf :
  (forall k, stop k = false) -> (forall b, filter b = true) ->
  Forall (fun c => c <> [] /\ (length c <= max)%nat) chunks ->
  (length chunks < fuel)%nat ->
  exists p,
  pump_loop overflow fuel stop n max filter
    {| p_source := {| sk_incoming := map Ok chunks ++ Throw e :: rest; sk_accepts := []; sk_sent := [] |};
       p_sink := {| sk_incoming := []; sk_accepts := accepts; sk_sent := sent |};
       p_count := count; p_last := last; p_overflow := ovf |} = (p, pump_end accepts chunks) /\
  sk_sent (p_sink p) = sent ++ taken accepts chunks.
Proof.
  intros Hstop Hfilter Hc. revert n accepts sent fuel count last.
  induction Hc as [|c chunks [Hne Hmax] _ IH]; intros n accepts sent fuel count last Hf;
    (destruct fuel as [|fuel]; [cbn in Hf; lia|]); cbn [pump_loop].
  - unfold check_run. rewrite Hstop. cbn [andb]. rewrite st_bind_lift.
    erewrite st_bind_Ok by done. rewrite bool_decide_true by done. cbn [taken].
    rewrite app_nil_r. eexists. by split.
  - unfold check_run. rewrite Hstop. cbn [andb]. rewrite st_bind_lift.
    erewrite st_bind_Ok; [|unfold on_source, read_ec, read_some; cbn;
      by rewrite drop_ge, take_ge by lia].
    rewrite bool_decide_false, st_bind_modify, Hfilter by done. unfold pump_end.
    destruct accepts as [|a accepts]; unfold on_sink at 1; cbn [taken fails].
    + destruct (IH (S n) [] (sent ++ [c]) fuel (wrap 64 (count + zlen c)) (c_str c)) as (p & E & Hp);
        [cbn in Hf; lia|]. exists p. rewrite <- app_assoc in Hp. split; [|exact Hp].
      etransitivity; [exact E|]. by destruct chunks.
    + unfold mbind at 1 2, st_bind at 1 2, write_some. cbn.
      destruct (a <? 0) eqn:Ea; [eexists; split; [done|]; cbn; by rewrite app_nil_r|].
      destruct (IH (S n) accepts (sent ++ [take (Z.to_nat (Z.min a (zlen c))) c]) fuel
        (wrap 64 (count + Z.min a (zlen c))) (c_str c)) as (p & E & Hp); [cbn in Hf; lia|]. rewrite <- app_assoc in Hp. exists p. split; [exact E|exact Hp].
Qed.

(** A data loop over pieces ends, and writes what its sink takes of each. *)
Lemma run_pump_taken overflow stop max filter chunks accepts e rest :
  (forall k, stop k = false) -> (forall b, filter b = true) ->
  Forall (fun c => c <> [] /\ (length c <= max)%nat) chunks ->
  exists p, run_pump overflow stop max filter
    {| p_source := {| sk_incoming := map Ok chunks ++ Throw e :: rest; sk_accepts := []; sk_sent := [] |};
       p_sink := {| sk_incoming := []; sk_accepts := accepts; sk_sent := [] |};
       p_count := 0; p_last := []; p_overflow := 0 |} = (p, pump_end accepts chunks) /\
    sk_sent (p_sink p) = taken accepts chunks.
Proof.
  intros Hstop Hfilter Hc. unfold run_pump, pump_fuel. cbn [p_source sk_incoming].
  set (fuel := S _). assert (length chunks < fuel)%nat as Hf.
  { subst fuel. rewrite length_app, length_map. cbn [length]. lia. }
  by apply pump_loop_chunks.
Qed.

Lemma reap_one_ended_same t c c' :
  reap_one t c = Some c' -> c_thread_ended c' = c_thread_ended c.
Proof.
  unfold reap_one, is_thread_active. destruct (Z.eqb_spec (c_thread_ended c) never) as [E|E].
  - by intros [= <-].
  - destruct (_ <? _); [by intros [= <-]|]. cbv zeta. destruct (_ >? _); [done|].
    intros [= <-]. unfold session_stop. destruct (_ =? _); [|done]. cbn.
    by destruct (Z.eqb_spec (c_thread_ended c) never).
Qed.

(** ** Lemmas: opening a session *)

Lemma connect_locals_connected dinfo connect doing eps indexes ep s s' r :
  connect_locals dinfo connect doing eps indexes ep s = (s', Ok r) ->
  s_endpoint s' = s_endpoint s /\
  (s_local_connected s' = true ->
   s_local_connected s = true \/ exists l, l ∈ eps /\ connect l = Ok tt).
Proof.
  revert ep s. induction indexes as [|i indexes IH]; intros ep s E; cbn [connect_locals] in E.
  { injection E as <- _. auto. }
  apply st_bind_inv in E as (s1 & l & E1 & E). injection E1 as <- E1.
  apply rd_Ok in E1 as [_ Hl]. apply list_elem_of_lookup_2 in Hl.
  unfold session_log in E. rewrite st_bind_modify in E.
  apply st_bind_inv in E as (s2 & b & E2 & E).
  unfold st_catch in E2.
  destruct (connect l) as [[]|e|] eqn:Ec; cbn in E2; [| |done].
  - injection E2 as <- <-. rewrite st_bind_modify in E. injection E as <- _. cbn. eauto.
  - destruct e; try discriminate E2;
      (injection E2 as <- <-; apply IH in E; exact E).
Qed.

(** ** Properties *)

(** The data loop ends when its source does, or with the error of the first
    write that fails, and every piece it reads before is written once, in order
    and unchanged.  Nothing is lost exactly when every write takes all it is
    given: what a short write leaves over is dropped. *)
Theorem pump_delivers overflow stop max filter chunks accepts e rest :
  (forall k, stop k = false) -> (forall b, filter b = true) ->
  Forall (fun c => c <> [] /\ (length c <= max)%nat) chunks ->
  let source := {| sk_incoming := map Ok chunks ++ Throw e :: rest;
                   sk_accepts := []; sk_sent := [] |} in
  let sink := {| sk_incoming := []; sk_accepts := accepts; sk_sent := [] |} in
  let '(p, r) := run_pump overflow stop max filter
    {| p_source := source; p_sink := sink; p_count := 0; p_last := []; p_overflow := 0 |} in
  r = pump_end accepts chunks /\ sk_sent (p_sink p) = taken accepts chunks /\
  (concat (sk_sent (p_sink p)) = concat chunks <-> all_taken accepts chunks).
Proof.
  intros Hstop Hfilter Hc source sink. subst source sink.
  destruct (run_pump_taken overflow stop max filter chunks accepts e rest Hstop Hfilter Hc)
    as (p & -> & E). split; [done|]. rewrite E. split; [done|].
  apply taken_all. eapply Forall_impl; [|exact Hc]. by intros ? [? _].
Qed.

Lemma pump_delivers_witness :
  let '(p, r) := run_pump true (fun _ => false) 1000 (fun _ => true)
    {| p_source := {| sk_incoming := map Ok [lit "hello"; lit "world"] ++ [Throw (BoostError eof)];
                      sk_accepts := []; sk_sent := [] |};
       p_sink := {| sk_incoming := []; sk_accepts := [3]; sk_sent := [] |};
       p_count := 0; p_last := []; p_overflow := 0 |} in
  r = Ok tt /\ sk_sent (p_sink p) = [lit "hel"; lit "world"] /\
  (concat (sk_sent (p_sink p)) = lit "helloworld" <-> all_taken [3] [lit "hello"; lit "world"]).
Proof.
  apply (pump_delivers true (fun _ => false) 1000 (fun _ => true) [lit "hello"; lit "world"] [3]
           (BoostError eof) []); [done|done|].
  repeat constructor; try discriminate; cbn; lia.
Defined.

(** C6. A session only gets to its data loops when the peer's certificate was
    verified, the common name of its issuer (or the text NOT VALID, when it has
    none) is the name of a configured remote endpoint, the first such endpoint
    is the session's, one of the host's local systems could be connected, and
    the plugin's logon for that endpoint succeeded. *)
Theorem open_session_authorised `{X509 cert} dinfo connect remote_ep local_ep handshake peer
    indexes plugin_type connect_handler s s' :
  open_session dinfo connect remote_ep local_ep handshake peer indexes plugin_type
    connect_handler s = (s', Ok tt) ->
  exists subject issuer ep,
    peer = Some (true, subject, issuer) /\
    find_endpoint match split_regex issuer (lit "/CN=") with
                  | _ :: name :: _ => name
                  | _ => lit "NOT VALID"
                  end remote_ep = Some ep /\
    s_endpoint s' = ep /\ (exists l, l ∈ local_ep /\ connect l = Ok tt) /\ connect_handler ep = Ok true.
Proof.
  unfold open_session. intros E.
  apply st_bind_inv in E as (? & ? & E1 & E). unfold lift in E1. injection E1 as <- _.
  unfold session_log in E. rewrite st_bind_modify in E.
  apply st_bind_inv in E as (? & ? & E1 & E). unfold lift in E1. injection E1 as <- _.
  rewrite !st_bind_modify in E.
  destruct peer as [[[ok subject] issuer]|]; cbn [get_certificate_issuer_subject] in E; [|done].
  destruct ok; [|done]. cbn [andb] in E. destruct (zlen issuer >? 0); [|done].
  exists subject, issuer.
  set (name := match split_regex issuer _ with _ :: name :: _ => name | _ => _ end) in *.
  destruct (find_endpoint name remote_ep) as [ep|]; [|done].
  rewrite !st_bind_modify in E. exists ep. split; [done|]. split; [done|].
  apply st_bind_inv in E as (s1 & doing & E1 & E).
  apply connect_locals_connected in E1 as [Ep Hconn].
  rewrite st_bind_gets in E.
  destruct (s_local_connected s1) eqn:El; [|done].
  apply st_bind_inv in E as (sa & ? & E0 & E). injection E0 as <- _.
  rewrite st_bind_modify in E.
  apply st_bind_inv in E as (s2 & ok & E1 & E). injection E1 as <- E1.
  apply st_bind_inv in E as (s3 & u & E2 & E). injection E2 as <- E2.
  destruct ok; [|done]. injection E as <-. cbn [s_endpoint set_endpoint set_local_connected] in *.
  rewrite Ep in *. split; [done|]. split; [|done].
  destruct (Hconn eq_refl) as [Hc|Hc]; [discriminate Hc|exact Hc].
Qed.

Definition session0 : session :=
  {| s_endpoint := new_RemoteEndpoint; s_local_connected := false;
     s_remote_connected := false; s_log := [] |}.

Definition endpoint_A : RemoteEndpoint :=
  {| r_port := 0; r_name := lit "A"; r_hostname := []; r_username := []; r_password := [] |}.

Definition peer_A : option (bool * list ascii * list ascii) :=
  Some (true, [], lit "/C=DK/CN=A").

Definition opened_A : session * out unit :=
  open_session (cert := bool) [] (fun _ => Ok tt) [endpoint_A] [{| l_hostname := lit "h"; l_port := 1 |}]
    (Ok tt) peer_A [0] [] (fun _ => Ok true) session0.

Lemma open_session_authorised_witness :
  exists subject issuer ep, peer_A = Some (true, subject, issuer) /\
    find_endpoint match split_regex (cert := bool) issuer (lit "/CN=") with
                  | _ :: name :: _ => name
                  | _ => lit "NOT VALID"
                  end [endpoint_A] = Some ep /\ s_endpoint (fst opened_A) = ep.
Proof.
  destruct (open_session_authorised (cert := bool) [] (fun _ => Ok tt) [endpoint_A]
    [{| l_hostname := lit "h"; l_port := 1 |}] (Ok tt) peer_A [0] []
    (fun _ => Ok true) session0 (fst opened_A)) as (subject & issuer & ep & H1 & H2 & H3 & _).
  - vm_compute. reflexivity.
  - exists subject, issuer, ep. split; [exact H1|]. split; [exact H2|exact H3].
Defined.

(** C23. Two checks of a host, more than two seconds apart, remove every session
    whose thread had ended two seconds before the first, and touch no session
    whose thread has not ended. *)
Theorem check_deadline_reaps t1 t2 h :
  0 < t1 -> t1 + seconds 2 < t2 -> Forall (times_ok t1) (h_clients h) ->
  let h2 := check_deadline t2 (Fired true) (check_deadline t1 (Fired true) h) in
  (forall c, c ∈ h_clients h -> c_thread_ended c = never -> c ∈ h_clients h2) /\
  (forall c, c ∈ h_clients h2 ->
     c_thread_ended c = never \/ t1 < c_thread_ended c + seconds 2).
Proof.
  intros H0 Ht Hok h2. subst h2. rewrite !check_deadline_clients. split.
  - intros c Hc Hn. apply list_elem_of_omap. exists c.
    assert (forall t, reap_one t c = Some c) as Hr by (intros; unfold reap_one, is_thread_active; by rewrite Hn).
    split; [|done]. apply list_elem_of_omap. eauto.
  - intros c2 (c1 & (c0 & Hc0 & E1)%list_elem_of_omap & E2)%list_elem_of_omap.
    rewrite (reap_one_ended_same _ _ _ E2), (reap_one_ended_same _ _ _ E1).
    destruct (Z.eq_dec (c_thread_ended c0) never) as [|Hn]; [by left|right].
    destruct (Z.lt_ge_cases t1 (c_thread_ended c0 + seconds 2)) as [|He]; [done|exfalso].
    rewrite Forall_forall in Hok. apply list_elem_of_In in Hc0.
    pose proof (reap_one_twice t1 t2 c0 H0 (Hok _ Hc0) Ht Hn He) as E.
    rewrite E1 in E. cbn in E. congruence.
Qed.

Definition host_with (cs : list RemoteProxyClient) : RemoteProxyHost :=
  set_clients cs (fst (new_RemoteProxyHost 8750 [] [] [] 0)).

Definition ended_client : RemoteProxyClient :=
  {| c_id := 1; c_endpoint := endpoint_A; c_thread_ended := seconds 1; c_stopped := never |}.

Lemma check_deadline_reaps_witness :
  let h2 := check_deadline (seconds 20) (Fired true)
              (check_deadline (seconds 10) (Fired true) (host_with [ended_client])) in
  h_clients h2 = [] /\
  forall c, c ∈ h_clients h2 -> c_thread_ended c = never \/ seconds 10 < c_thread_ended c + seconds 2.
Proof.
  split; [reflexivity|].
  apply (check_deadline_reaps (seconds 10) (seconds 20) (host_with [ended_client])).
  - reflexivity.
  - reflexivity.
  - constructor; [|done]. cbn. unfold times_ok, ended_client, never, seconds. cbn. lia.
Defined.
