(* ===== verification/Session.v ===== *)
(** * The threads of a session

    A [RemoteProxyClient] ([remoteclient.cpp]) runs two threads,
    [remote_threadproc] and [local_threadproc], and a third one may call
    [stop].  Here they run side by side: the state says where each of them is,
    what the threads share, and a [move] is what one of them does between two
    places where another may come in.  What the sockets and the peers do, and
    how each call ends, is part of the move.

    The opening of a session and the data itself are in [RemoteHost]
    ([open_session], [pump_loop]); [Handshake] to [Logon] are the parts of the
    former, [RemoteMoves] and [LocalMoves] one pass of the latter, and
    [Thread] has the thread objects. *)

From S2P Require Import Prelude Endpoints Thread RemoteHost Explore.
From stdpp Require Import relations.

(** ** State *)

(** Where a call of [interrupt] is: before shutting the local socket, before
    telling the peer, before clearing the two flags. *)
Inductive interrupt_pc := IShut | ITell | IForget.

(** Where [remote_threadproc] is: not started; before the handshake, before
    setting [m_remote_connected]; before the connection to a local system,
    before setting and before testing [m_local_connected]; in the logon, before
    the start of the local thread; at the condition of the loop, in its read,
    after it; in [interrupt(true)], before closing the socket; at its end, and
    ended by an exception nothing in it catches. *)
Inductive remote_pc :=
  | RNone | RHandshake | RShaken | RConnect | RConnecting | RConnected | RLogon | RStart
  | RTest | RRead | RMove | RLeave (i : interrupt_pc) | RClose | RDone | RKilled.

(** Where [local_threadproc] is. *)
Inductive local_pc :=
  | LNone | LTest | LRead | LMove | LLeave (i : interrupt_pc) | LDone | LKilled.

(** Where the caller of [stop] is: before it; for the local thread in its
    interrupt function and in the join; before the stop of the remote thread, in
    its interrupt function and in the join; after it. *)
Inductive stop_pc :=
  | SNone | SLocal (i : interrupt_pc) | SJoinLocal
  | SStopRemote | SRemote (i : interrupt_pc) | SJoinRemote | SDone.

#[export] Instance interrupt_pc_eq_dec : EqDecision interrupt_pc.
Proof. solve_decision. Defined.
#[export] Instance remote_pc_eq_dec : EqDecision remote_pc.
Proof. solve_decision. Defined.
#[export] Instance local_pc_eq_dec : EqDecision local_pc.
Proof. solve_decision. Defined.
#[export] Instance stop_pc_eq_dec : EqDecision stop_pc.
Proof. solve_decision. Defined.

(** The local socket: not connected, connected, or shut down. *)
Inductive local_socket := Unconnected | Connected | ShutDown.

#[export] Instance local_socket_eq_dec : EqDecision local_socket.
Proof. solve_decision. Defined.

(** [x_remote_shut]: the peer was told that no more comes, or the socket was
    closed.  [x_thread_ended]: [thread_ended] was set. *)
Record live_session := {
  x_remote : remote_pc;
  x_local : local_pc;
  x_stop : stop_pc;
  x_remote_thread : thread;
  x_local_thread : thread;
  x_local_connected : bool;
  x_remote_connected : bool;
  x_local_socket : local_socket;
  x_remote_shut : bool;
  x_thread_ended : bool }.

Definition set_remote (pc : remote_pc) (s : live_session) : live_session :=
  {| x_remote := pc; x_local := x_local s; x_stop := x_stop s;
     x_remote_thread := x_remote_thread s; x_local_thread := x_local_thread s;
     x_local_connected := x_local_connected s; x_remote_connected := x_remote_connected s;
     x_local_socket := x_local_socket s; x_remote_shut := x_remote_shut s;
     x_thread_ended := x_thread_ended s |}.
Definition set_local (pc : local_pc) (s : live_session) : live_session :=
  {| x_remote := x_remote s; x_local := pc; x_stop := x_stop s;
     x_remote_thread := x_remote_thread s; x_local_thread := x_local_thread s;
     x_local_connected := x_local_connected s; x_remote_connected := x_remote_connected s;
     x_local_socket := x_local_socket s; x_remote_shut := x_remote_shut s;
     x_thread_ended := x_thread_ended s |}.
Definition set_stop (pc : stop_pc) (s : live_session) : live_session :=
  {| x_remote := x_remote s; x_local := x_local s; x_stop := pc;
     x_remote_thread := x_remote_thread s; x_local_thread := x_local_thread s;
     x_local_connected := x_local_connected s; x_remote_connected := x_remote_connected s;
     x_local_socket := x_local_socket s; x_remote_shut := x_remote_shut s;
     x_thread_ended := x_thread_ended s |}.
Definition set_x_threads (r l : thread) (s : live_session) : live_session :=
  {| x_remote := x_remote s; x_local := x_local s; x_stop := x_stop s;
     x_remote_thread := r; x_local_thread := l;
     x_local_connected := x_local_connected s; x_remote_connected := x_remote_connected s;
     x_local_socket := x_local_socket s; x_remote_shut := x_remote_shut s;
     x_thread_ended := x_thread_ended s |}.
Definition set_connected (local remote : bool) (s : live_session) : live_session :=
  {| x_remote := x_remote s; x_local := x_local s; x_stop := x_stop s;
     x_remote_thread := x_remote_thread s; x_local_thread := x_local_thread s;
     x_local_connected := local; x_remote_connected := remote;
     x_local_socket := x_local_socket s; x_remote_shut := x_remote_shut s;
     x_thread_ended := x_thread_ended s |}.
Definition set_sockets (l : local_socket) (r : bool) (s : live_session) : live_session :=
  {| x_remote := x_remote s; x_local := x_local s; x_stop := x_stop s;
     x_remote_thread := x_remote_thread s; x_local_thread := x_local_thread s;
     x_local_connected := x_local_connected s; x_remote_connected := x_remote_connected s;
     x_local_socket := l; x_remote_shut := r; x_thread_ended := x_thread_ended s |}.
Definition set_thread_ended (s : live_session) : live_session :=
  {| x_remote := x_remote s; x_local := x_local s; x_stop := x_stop s;
     x_remote_thread := x_remote_thread s; x_local_thread := x_local_thread s;
     x_local_connected := x_local_connected s; x_remote_connected := x_remote_connected s;
     x_local_socket := x_local_socket s; x_remote_shut := x_remote_shut s;
     x_thread_ended := true |}.

(** The function of a thread returns, or is left by an exception. *)
Definition returned (t : thread) : thread :=
  {| m_stop := m_stop t; joinable := joinable t; running := false;
     has_interrupt := has_interrupt t; interrupts := interrupts t |}.

(** Joining waits for [running] to be false. *)
Definition joined (t : thread) : bool := negb (joinable t && running t).

(** ** Operations *)

(** One part of [interrupt(synced)], and the next one; a socket that is not
    connected has nothing to shut. *)
Definition interrupt (synced : bool) (i : interrupt_pc) (s : live_session)
    : live_session * option interrupt_pc :=
  match i with
  | IShut =>
      (set_sockets (match x_local_socket s with Connected => ShutDown | k => k end)
         (x_remote_shut s) s, Some (if synced then IForget else ITell))
  | ITell =>
      (if x_remote_connected s then set_sockets (x_local_socket s) true s else s, Some IForget)
  | IForget => (set_connected false false s, None)
  end.

(** A session that was accepted and put into the list; [start] is the first
    move. *)
Definition new_session : live_session :=
  {| x_remote := RNone; x_local := LNone; x_stop := SNone;
     x_remote_thread := new_thread true; x_local_thread := new_thread true;
     x_local_connected := false; x_remote_connected := false;
     x_local_socket := Unconnected; x_remote_shut := false; x_thread_ended := false |}.

(** What one of the threads does; [ok] says whether the call succeeds, for a
    read whether it brings data, for the rest of a pass that no exception ends
    it. *)
Inductive move :=
  | StartRemote | Handshake (ok : bool) | SetRemoteConnected
  | ConnectLocal (ok : bool) | SetLocalConnected | TestConnected | Logon (ok : bool)
  | StartLocal | RemoteTest | RemoteReads (ok : bool) | RemoteMoves (ok : bool)
  | RemoteLeaves | RemoteCloses
  | LocalTest | LocalReads (ok : bool) | LocalMoves (ok : bool) | LocalLeaves
  | StopLocal | StopInterrupts | JoinLocal | StopRemote | JoinRemote.

#[export] Instance move_eq_dec : EqDecision move.
Proof. solve_decision. Defined.

(** The parts of [start] and [remote_threadproc].  Its exceptions are caught, but
    for the one of [check_run], which ends the thread at once. *)
Definition remote_move (m : move) (s : live_session) : option live_session :=
  match m, x_remote s with
  | StartRemote, RNone =>
      Some (match start (x_remote_thread s) with
            | (t, Ok _) => set_remote RHandshake (set_x_threads t (x_local_thread s) s)
            | (t, _) => s
            end)
  | Handshake ok, RHandshake => Some (set_remote (if ok then RShaken else RLeave IShut) s)
  | SetRemoteConnected, RShaken =>
      Some (set_remote RConnect (set_connected (x_local_connected s) true s))
  | ConnectLocal ok, RConnect =>
      let s := set_connected false (x_remote_connected s) s in
      Some (if ok then set_remote RConnecting (set_sockets Connected (x_remote_shut s) s)
            else set_remote (RLeave IShut) s)
  | SetLocalConnected, RConnecting =>
      Some (set_remote RConnected (set_connected true (x_remote_connected s) s))
  | TestConnected, RConnected =>
      Some (set_remote (if x_local_connected s then RLogon else RLeave IShut) s)
  | Logon ok, RLogon => Some (set_remote (if ok then RStart else RLeave IShut) s)
  | StartLocal, RStart =>
      Some (match start (x_local_thread s) with
            | (t, Ok _) => set_remote RTest (set_local LTest (set_x_threads (x_remote_thread s) t s))
            | (t, _) => set_remote (RLeave IShut) s
            end)
  | RemoteTest, RTest =>
      Some (match check_run (m_stop (x_remote_thread s)) true with
            | Ok _ => set_remote RRead s
            | _ => set_remote RKilled
                     (set_x_threads (returned (x_remote_thread s)) (x_local_thread s) s)
            end)
  | RemoteReads ok, RRead => Some (set_remote (if ok then RMove else RLeave IShut) s)
  | RemoteMoves ok, RMove => Some (set_remote (if ok then RTest else RLeave IShut) s)
  | RemoteLeaves, RLeave i =>
      let '(s, next) := interrupt true i s in
      Some (set_remote (match next with Some i => RLeave i | None => RClose end) s)
  | RemoteCloses, RClose =>
      Some (set_remote RDone (set_thread_ended (set_sockets (x_local_socket s) true
              (set_x_threads (returned (x_remote_thread s)) (x_local_thread s) s))))
  | _, _ => None
  end.

(** The parts of [local_threadproc]. *)
Definition local_move (m : move) (s : live_session) : option live_session :=
  match m, x_local s with
  | LocalTest, LTest =>
      Some (match check_run (m_stop (x_local_thread s)) true with
            | Ok _ => set_local LRead s
            | _ => set_local LKilled
                     (set_x_threads (x_remote_thread s) (returned (x_local_thread s)) s)
            end)
  | LocalReads ok, LRead => Some (set_local (if ok then LMove else LLeave IShut) s)
  | LocalMoves ok, LMove => Some (set_local (if ok then LTest else LLeave IShut) s)
  | LocalLeaves, LLeave i =>
      Some (match interrupt false i s with
            | (s, Some i) => set_local (LLeave i) s
            | (s, None) =>
                set_local LDone (set_x_threads (x_remote_thread s) (returned (x_local_thread s)) s)
            end)
  | _, _ => None
  end.

(** The parts of [stop], which does its work once: for each thread its flag, its
    interrupt function and the join. *)
Definition stop_move (m : move) (s : live_session) : option live_session :=
  match m, x_stop s with
  | StopLocal, SNone =>
      Some (set_stop (if joinable (x_local_thread s) then SLocal IShut else SStopRemote)
              (set_x_threads (x_remote_thread s) (stop false (x_local_thread s)) s))
  | StopInterrupts, SLocal i =>
      let '(s, next) := interrupt false i s in
      Some (set_stop (match next with Some i => SLocal i | None => SJoinLocal end) s)
  | JoinLocal, SJoinLocal =>
      if joined (x_local_thread s)
      then Some (set_stop SStopRemote
                   (set_x_threads (x_remote_thread s) (destroy (x_local_thread s)) s))
      else None
  | StopRemote, SStopRemote =>
      Some (set_stop (if joinable (x_remote_thread s) then SRemote IShut else SDone)
              (set_x_threads (stop false (x_remote_thread s)) (x_local_thread s) s))
  | StopInterrupts, SRemote i =>
      let '(s, next) := interrupt false i s in
      Some (set_stop (match next with Some i => SRemote i | None => SJoinRemote end) s)
  | JoinRemote, SJoinRemote =>
      if joined (x_remote_thread s)
      then Some (set_stop SDone
                   (set_x_threads (destroy (x_remote_thread s)) (x_local_thread s) s))
      else None
  | _, _ => None
  end.

Definition make_move (m : move) (s : live_session) : option live_session :=
  match m with
  | LocalTest | LocalReads _ | LocalMoves _ | LocalLeaves => local_move m s
  | StopLocal | StopInterrupts | JoinLocal | StopRemote | JoinRemote => stop_move m s
  | _ => remote_move m s
  end.

Definition step : live_session -> live_session -> Prop := moves_to make_move.

Definition reachable (s : live_session) : Prop := rtc step new_session s.

(** A peer that was told to end sends no more, nor does a socket bring more
    that was shut down. *)
Definition polite (m : move) (s : live_session) : bool :=
  match m with
  | RemoteReads true => negb (x_remote_shut s)
  | LocalReads true => bool_decide (x_local_socket s = Connected)
  | _ => true
  end.

Definition polite_step (s s' : live_session) : Prop :=
  exists m, polite m s = true /\ make_move m s = Some s'.

(** ** The states *)

#[export] Instance thread_eq_dec : EqDecision thread.
Proof. solve_decision. Defined.
#[export] Instance live_session_eq_dec : EqDecision live_session.
Proof. solve_decision. Defined.

Definition all_moves : list move :=
  [StartRemote; Handshake true; Handshake false; SetRemoteConnected; ConnectLocal true;
   ConnectLocal false; SetLocalConnected; TestConnected; Logon true; Logon false; StartLocal;
   RemoteTest; RemoteReads true; RemoteReads false; RemoteMoves true; RemoteMoves false;
   RemoteLeaves; RemoteCloses; LocalTest; LocalReads true; LocalReads false; LocalMoves true;
   LocalMoves false; LocalLeaves; StopLocal; StopInterrupts; JoinLocal; StopRemote; JoinRemote].

Lemma all_moves_all m : m ∈ all_moves.
Proof. destruct m as [|[]| |[]| | |[]| | |[]|[]| | | |[]|[]| | | | | |]; apply (bool_decide_unpack _); by vm_compute. Qed.

(** A number for the places of the threads. *)
Definition interrupt_code (i : interrupt_pc) : N :=
  match i with IShut => 0 | ITell => 1 | IForget => 2 end.

Definition remote_code (pc : remote_pc) : N :=
  match pc with
  | RNone => 0 | RHandshake => 1 | RShaken => 2 | RConnect => 3 | RConnecting => 4
  | RConnected => 5 | RLogon => 6 | RStart => 7 | RTest => 8 | RRead => 9 | RMove => 10
  | RClose => 11 | RDone => 12 | RKilled => 13 | RLeave i => 14 + interrupt_code i
  end.

Definition local_code (pc : local_pc) : N :=
  match pc with
  | LNone => 0 | LTest => 1 | LRead => 2 | LMove => 3 | LDone => 4 | LKilled => 5
  | LLeave i => 6 + interrupt_code i
  end.

Definition stop_code (pc : stop_pc) : N :=
  match pc with
  | SNone => 0 | SJoinLocal => 1 | SStopRemote => 2 | SJoinRemote => 3 | SDone => 4
  | SLocal i => 5 + interrupt_code i | SRemote i => 8 + interrupt_code i
  end.

Definition session_key (s : live_session) : positive :=
  N.succ_pos (remote_code (x_remote s) + 32 * (local_code (x_local s) + 16 * stop_code (x_stop s))).

Definition all_states : list live_session :=
  Eval vm_compute in explore make_move all_moves session_key (Z.to_nat 200000) [new_session] [] ∅.

(** ** Ends *)

(** The remote thread is past its [interrupt]. *)
Definition left_remote (pc : remote_pc) : bool :=
  match pc with RClose | RDone => true | _ => false end.

Definition ended_remote (pc : remote_pc) : bool :=
  match pc with RDone | RKilled => true | _ => false end.

Definition ended_local (pc : local_pc) : bool :=
  match pc with LDone | LKilled => true | _ => false end.

(** [stop] has interrupted the local thread. *)
Definition stopping (pc : stop_pc) : bool :=
  match pc with SNone | SLocal _ => false | _ => true end.

(** The session was open before [stop] was called, if it was. *)
Definition open_first (s : live_session) : bool :=
  negb (bool_decide (x_local s = LNone)) &&
  (bool_decide (x_stop s = SNone) || m_stop (x_local_thread s)).

(** One of the threads is at its end, or [stop] waits for them. *)
Definition ending (s : live_session) : bool :=
  left_remote (x_remote s) ||
  open_first s && (bool_decide (x_local s = LDone) || stopping (x_stop s)).

(** Both threads are at their end, and nobody waits for them; [thread_ended] is
    set unless an exception ended the thread, for which [stop] is the reason. *)
Definition over (s : live_session) : bool :=
  ended_remote (x_remote s) && (ended_local (x_local s) || bool_decide (x_local s = LNone)) &&
  negb (running (x_remote_thread s)) && negb (running (x_local_thread s)) &&
  bool_decide (x_stop s = SNone \/ x_stop s = SDone) &&
  bool_decide (x_thread_ended s = bool_decide (x_remote s = RDone)) &&
  (bool_decide (x_remote s = RDone) || bool_decide (x_stop s = SDone)) &&
  negb (bool_decide (x_local_socket s = Connected)).

(** How far the threads are from their ends. *)
Definition interrupt_rank (i : interrupt_pc) : nat :=
  match i with IShut => 2 | ITell => 1 | IForget => 0 end.

Definition rank (s : live_session) : nat :=
  (match x_remote s with
   | RMove => 7 | RTest => 6 | RRead => 5 | RLeave i => 2 + interrupt_rank i | RClose => 1
   | _ => 0
   end +
   match x_local s with
   | LMove => 6 | LTest => 5 | LRead => 4 | LLeave i => 1 + interrupt_rank i
   | _ => 0
   end +
   match x_stop s with
   | SNone => 10 | SLocal i => 7 + interrupt_rank i | SJoinLocal => 6 | SStopRemote => 5
   | SRemote i => 2 + interrupt_rank i | SJoinRemote => 1 | SDone => 0
   end)%nat.

(** ** Lemmas *)

Lemma all_states_closed : closed make_move all_moves session_key all_states = true.
Proof. vm_compute. reflexivity. Qed.

Lemma all_states_start : new_session ∈ all_states.
Proof. apply (bool_decide_unpack _). vm_compute. exact I. Qed.

(** What is true of every state of the list is true of the reachable ones. *)
Lemma session_always p s : forallb p all_states = true -> reachable s -> p s = true.
Proof.
  intros Hp Hr. apply (always make_move all_moves all_moves_all session_key all_states new_session s p);
    [exact all_states_closed|exact all_states_start|exact Hp|exact Hr].
Qed.

Lemma session_implies p q s :
  forallb (implies p q) all_states = true -> reachable s -> p s = true -> q s = true.
Proof.
  intros Hp Hr Hs. apply (always_implies make_move all_moves all_moves_all session_key all_states new_session s p);
    [exact all_states_closed|exact all_states_start|done..].
Qed.

(** The check that polite moves bring an ending session nearer to its end. *)
Definition nearer : live_session -> bool :=
  each_edge make_move all_moves
    (fun m s s' => negb (polite m s) || ending s' && (rank s' <? rank s)%nat).

Lemma ending_nearer : forallb (implies ending nearer) all_states = true.
Proof. vm_compute. reflexivity. Qed.

(** Nothing can move but a caller of [stop]. *)
Definition stuck (s : live_session) : bool :=
  forallb (fun m => bool_decide (m = StopLocal) || negb (polite m s) ||
             bool_decide (make_move m s = None)) all_moves.

Lemma stuck_over : forallb (implies stuck over) all_states = true.
Proof. vm_compute. reflexivity. Qed.

Lemma stuck_intro s :
  (forall m s', m <> StopLocal -> polite m s = true -> make_move m s <> Some s') -> stuck s = true.
Proof.
  intros Hs. apply forallb_forall. intros m _. case_bool_decide as Hm; [done|].
  destruct (polite m s) eqn:Hp; [|done]. cbn. apply bool_decide_eq_true.
  destruct (make_move m s) as [s'|] eqn:E; [|done]. by destruct (Hs m s').
Qed.

Lemma polite_step_reachable s s' : reachable s -> polite_step s s' -> reachable s'.
Proof. intros Hr (m & _ & E). eapply rtc_r; [exact Hr|by exists m]. Qed.

Lemma ending_step s s' :
  reachable s /\ ending s = true -> polite_step s s' ->
  (reachable s' /\ ending s' = true) /\ (rank s' < rank s)%nat.
Proof.
  intros [Hr He] Hs. pose proof Hs as (m & Hp & E).
  pose proof (session_implies _ _ s ending_nearer Hr He) as H.
  pose proof (forallb_elem _ _ m H (all_moves_all m)) as H'. cbn in H'. rewrite E, Hp in H'.
  apply andb_true_iff in H' as [H1 H2%Nat.ltb_lt].
  split; [split; [by apply (polite_step_reachable s)|done]|done].
Qed.

(** ** Properties *)


(** A session that was opened, and whose local system goes. *)
Definition opened : list move :=
  [StartRemote; Handshake true; SetRemoteConnected; ConnectLocal true; SetLocalConnected;
   TestConnected; Logon true; StartLocal; RemoteTest].

Definition local_goes : list move :=
  opened ++ [LocalTest; LocalReads false; LocalLeaves; LocalLeaves; LocalLeaves].

Definition after (moves : list move) : live_session := default new_session (play make_move moves new_session).

Lemma after_reachable moves : play make_move moves new_session = Some (after moves) -> reachable (after moves).
Proof. apply played. constructor. Qed.


(** When [stop] was called for an open session and has returned, both threads
    have ended; and the remote thread never finds the local thread started
    already. *)
Theorem stop_joins_both s :
  reachable s ->
  (open_first s = true -> x_stop s = SDone ->
   running (x_remote_thread s) = false /\ running (x_local_thread s) = false) /\
  (x_remote s = RStart -> exists t, start (x_local_thread s) = (t, Ok tt)).
Proof.
  intros Hr. split.
  - intros Ho Hs.
    assert (implies (fun s => open_first s && bool_decide (x_stop s = SDone))
      (fun s => negb (running (x_remote_thread s)) && negb (running (x_local_thread s))) s = true) as H
      by (apply session_always; [vm_compute; reflexivity|done]).
    unfold implies in H. rewrite Ho, bool_decide_true in H by done. cbn in H.
    by destruct (running (x_remote_thread s)), (running (x_local_thread s)).
  - intros Hs.
    assert (implies (fun s => bool_decide (x_remote s = RStart))
      (fun s => negb (joinable (x_local_thread s))) s = true) as H
      by (apply session_always; [vm_compute; reflexivity|done]).
    unfold implies in H. rewrite bool_decide_true in H by done. cbn in H.
    unfold start. rewrite H. cbn. eauto.
Qed.

Lemma stop_joins_both_witness :
  let s := after (opened ++ [LocalTest; StopLocal; StopInterrupts; StopInterrupts; StopInterrupts;
                    LocalReads false; LocalLeaves; LocalLeaves; LocalLeaves; JoinLocal; StopRemote;
                    StopInterrupts; StopInterrupts; StopInterrupts; RemoteReads true;
                    RemoteMoves false; RemoteLeaves; RemoteLeaves; RemoteCloses; JoinRemote]) in
  running (x_remote_thread s) = false /\ running (x_local_thread s) = false.
Proof.
  intros s. apply (stop_joins_both s); [apply after_reachable; vm_compute; reflexivity|vm_compute; reflexivity..].
Defined.

(** C31. A session that is stopped while it is being opened may not end.  Its
    local thread is started after [stop] has dealt with it, and goes on carrying
    data, for as long as there is some, when [stop] has returned and the remote
    thread has ended; the end of the remote thread is not noted, so that no
    check of the host ever removes the session.  And when the peer keeps silent
    in the handshake, [stop] does not return: nothing but the handshake can
    move. *)
Theorem early_stop_leaves_running :
  (exists s, reachable s /\ x_stop s = SDone /\ x_remote s = RKilled /\ x_thread_ended s = false /\
     x_local s = LRead /\ x_local_socket s = Connected /\
     play make_move [LocalReads true; LocalMoves true; LocalTest] s = Some s) /\
  (forall now c h, c_thread_ended c = never -> c ∈ h_clients h ->
     c ∈ h_clients (check_deadline now (Fired true) h)) /\
  (exists s, reachable s /\ x_stop s = SJoinRemote /\
     forall m s', make_move m s = Some s' -> exists ok, m = Handshake ok).
Proof.
  split; [|split].
  - exists (after [StartRemote; StopLocal; StopRemote; StopInterrupts; StopInterrupts; StopInterrupts;
      Handshake true; SetRemoteConnected; ConnectLocal true; SetLocalConnected; TestConnected;
      Logon true; StartLocal; RemoteTest; JoinRemote; LocalTest]).
    split; [apply after_reachable; vm_compute; reflexivity|]. split_and!; vm_compute; reflexivity.
  - intros now c h Hn Hc. rewrite check_deadline_clients. apply list_elem_of_omap. exists c.
    split; [done|]. unfold reap_one, is_thread_active. by rewrite Hn.
  - exists (after [StartRemote; StopLocal; StopRemote; StopInterrupts; StopInterrupts; StopInterrupts]).
    split; [apply after_reachable; vm_compute; reflexivity|]. split; [vm_compute; reflexivity|].
    intros m s' E. destruct m as [|ok| |[]| | |[]| | |[]|[]| | | |[]|[]| | | | | |];
      first [by exists ok|vm_compute in E; discriminate E].
Qed.
