(* ===== verification/HostThread.v ===== *)
(** * The thread of a host

    [RemoteProxyHost::start], [threadproc], [handle_accept], [check_deadline],
    [interrupt], [unlock] and [stop] ([remoteclient.cpp]): opening the acceptor,
    the loop that runs the handlers of the host's [io_service], and its end.

    The state has, besides the host of [RemoteHost], whether the [io_service]
    was stopped, whether the acceptor is open, and how many accepts and waits
    are pending.  Once it was stopped, or has run out of work, an [io_service]
    runs nothing until it is reset, as its documentation says.  What happens
    while it runs is a script of events; [false] says that the script ends
    there.  *)

From S2P Require Import Prelude CppString Endpoints Thread Plugin RemoteHost.

Record host_io := {
  i_host : RemoteProxyHost;
  i_stopped : bool;
  i_open : bool;
  i_accepts : nat;
  i_waits : nat;
  i_log : list (list ascii) }.

Definition set_i_host (h : RemoteProxyHost) (t : host_io) : host_io :=
  {| i_host := h; i_stopped := i_stopped t; i_open := i_open t; i_accepts := i_accepts t;
     i_waits := i_waits t; i_log := i_log t |}.
Definition set_i_stopped (t : host_io) : host_io :=
  {| i_host := i_host t; i_stopped := true; i_open := i_open t; i_accepts := i_accepts t;
     i_waits := i_waits t; i_log := i_log t |}.
Definition set_i_open (b : bool) (t : host_io) : host_io :=
  {| i_host := i_host t; i_stopped := i_stopped t; i_open := b; i_accepts := i_accepts t;
     i_waits := i_waits t; i_log := i_log t |}.
Definition set_i_pending (accepts waits : nat) (t : host_io) : host_io :=
  {| i_host := i_host t; i_stopped := i_stopped t; i_open := i_open t; i_accepts := accepts;
     i_waits := waits; i_log := i_log t |}.
Definition set_i_log (lines : list (list ascii)) (t : host_io) : host_io :=
  {| i_host := i_host t; i_stopped := i_stopped t; i_open := i_open t; i_accepts := i_accepts t;
     i_waits := i_waits t; i_log := lines |}.

(** A new host. *)
Definition new_host_io (h : RemoteProxyHost) : host_io :=
  {| i_host := h; i_stopped := false; i_open := false; i_accepts := 0; i_waits := 0; i_log := [] |}.

Definition post_accept (t : host_io) : host_io := set_i_pending (S (i_accepts t)) (i_waits t) t.
Definition post_wait (t : host_io) : host_io := set_i_pending (i_accepts t) (S (i_waits t)) t.

(** What ends while the [io_service] runs: an accept, with the session it was
    for, or an error; the wait of the timer; or [stop] of the [io_service], from
    another thread. *)
Inductive host_event :=
  | Accepted (c : RemoteProxyClient) (load started : out unit)
  | AcceptFailed
  | Timer (now : Z) (error : timer)
  | IoStop.

(** One pass of the loop: the readings of the stop flag, and the events. *)
Record host_pass := {
  hp_stop : bool;
  hp_events : list host_event;
  hp_sleep : nat -> bool }.

Section host_thread.
Context (library_what : exn -> list ascii).

Definition dinfo (t : host_io) : list ascii :=
  lit "Port: " ++ to_string (h_local_port (i_host t)) ++ lit " ".

Definition host_log (line : list ascii) : st host_io unit :=
  modify (fun t => set_i_log
    (i_log t ++ [lit " Host port: " ++ to_string (h_local_port (i_host t)) ++ lit ": " ++ line]) t).

Definition log_exception (e : exn) : st host_io unit :=
  t ← gets (fun t => t); host_log (dinfo t ++ library_what e).

Definition on_h_thread {A} (m : st thread A) : st host_io A := fun t =>
  let '(th, r) := m (h_thread (i_host t)) in (set_i_host (set_h_thread th (i_host t)) t, r).

(** [start]: the acceptor is opened before its thread starts, and stays open
    when it cannot be bound; one that is open cannot be opened. *)
Definition start_host (ret : Z) (bind : out unit) : st host_io unit :=
  t ← gets (fun t => t);
  if is_running ret (h_thread (i_host t)) then mret tt
  else
    _ ← host_log (dinfo t ++ lit "opening connection on port: " ++ to_string (h_local_port (i_host t)));
    _ ← lift (if i_open t then Throw (BoostError 1) else mret tt);
    _ ← modify (set_i_open true);
    _ ← lift bind;
    on_h_thread start.

(** [unlock] closes the acceptor. *)
Definition unlock (t : host_io) : host_io := set_i_open false t.

(** [handle_accept] starts the next accept at its end. *)
Definition host_accept (accepted : option (RemoteProxyClient * out unit * out unit)) : st host_io unit :=
  match accepted with
  | Some (c, load, started) =>
      st_catch
        (_ ← lift load;
         _ ← modify (fun t => set_i_host (handle_accept (Some c) (i_host t)) t);
         _ ← lift started;
         modify post_accept)
        log_exception
  | None => modify (fun t => set_i_host (handle_accept None (i_host t)) t)
  end.

(** [check_deadline]: the wait is started again unless the timer fired early. *)
Definition host_deadline (now : Z) (error : timer) : st host_io unit :=
  _ ← modify (fun t => set_i_host (check_deadline now error (i_host t)) t);
  match error with
  | Fired false => mret tt
  | _ => modify post_wait
  end.

(** [io_service.run()] *)
Fixpoint run_io (events : list host_event) : st host_io bool :=
  t ← gets (fun t => t);
  if i_stopped t then mret true
  else if bool_decide (i_accepts t = 0%nat /\ i_waits t = 0%nat) then
    _ ← modify set_i_stopped; mret true
  else
    match events with
    | [] => mret false
    | Accepted c load started :: events' =>
        if bool_decide (i_accepts t <> 0%nat) && i_open t then
          _ ← modify (set_i_pending (pred (i_accepts t)) (i_waits t));
          _ ← host_accept (Some (c, load, started)); run_io events'
        else mret false
    | AcceptFailed :: events' =>
        if bool_decide (i_accepts t <> 0%nat) then
          _ ← modify (set_i_pending (pred (i_accepts t)) (i_waits t));
          _ ← host_accept None; run_io events'
        else mret false
    | Timer now error :: events' =>
        if bool_decide (i_waits t <> 0%nat) then
          _ ← modify (set_i_pending (i_accepts t) (pred (i_waits t)));
          _ ← host_deadline now error; run_io events'
        else mret false
    | IoStop :: _ => _ ← modify set_i_stopped; mret true
    end.

(** One pass: the timer, the handlers, the pause. *)
Definition host_pass_body (p : host_pass) : st host_io bool :=
  _ ← lift (check_run (hp_stop p) true);
  ended ← st_catch (_ ← modify post_wait; run_io (hp_events p))
                   (fun e => _ ← log_exception e; mret true);
  if ended : bool then _ ← lift (snd (sleep (hp_sleep p) 1000)); mret true else mret false.

Fixpoint host_loop (passes : list host_pass) : st host_io bool :=
  match passes with
  | [] => mret false
  | p :: passes' => ended ← host_pass_body p; if ended : bool then host_loop passes' else mret false
  end.

(** The [scope_exit] of [threadproc]. *)
Definition with_unlock (m : st host_io bool) : st host_io bool := fun t =>
  match m t with
  | (t, Ok false) => (t, Ok false)
  | (t, r) => (unlock t, r)
  end.

Definition host_threadproc (listen : out unit) (passes : list host_pass) : st host_io bool :=
  st_catch
    (t ← gets (fun t => t);
     _ ← host_log (dinfo t ++ lit "Waiting for remote connection on port: "
                   ++ to_string (h_local_port (i_host t)));
     _ ← lift listen;
     _ ← modify post_accept;
     with_unlock (host_loop passes))
    (fun e => _ ← log_exception e; mret true).

(** [stop]: the flag, [interrupt], the join, and the sessions. *)
Definition stop_host (ended now : Z) (t : host_io) : host_io :=
  let joined := joinable (h_thread (i_host t)) in
  let t := set_i_host (host_stop ended now (i_host t)) t in
  if joined then set_i_stopped t else t.

End host_thread.

(** ** A host that serves *)

(** An accept that succeeds, with its session started; a timer that is on time. *)
Definition fine (ev : host_event) : Prop :=
  match ev with
  | Accepted _ load started => load = Ok tt /\ started = Ok tt
  | Timer _ (Fired false) | AcceptFailed | IoStop => False
  | Timer _ _ => True
  end.

(** What an event does to the sessions. *)
Definition serve (clients : list RemoteProxyClient) (ev : host_event) : list RemoteProxyClient :=
  match ev with
  | Accepted c _ _ => clients ++ [c]
  | Timer now (Fired true) => omap (reap_one now) clients
  | _ => clients
  end.

Section lemmas.
Context (library_what : exn -> list ascii).

Lemma run_io_serves events t :
  Forall fine events -> i_stopped t = false -> i_open t = true -> i_accepts t = 1%nat ->
  (0 < i_waits t)%nat ->
  exists t', run_io library_what events t = (t', Ok false) /\ i_stopped t' = false /\
    i_open t' = true /\ i_accepts t' = 1%nat /\ (0 < i_waits t')%nat /\
    h_clients (i_host t') = foldl serve (h_clients (i_host t)) events.
Proof.
  intros Hf. revert t. induction Hf as [|ev events Hev _ IH]; intros t H1 H2 H3 H4;
    cbn [run_io]; rewrite st_bind_gets, H1, bool_decide_false by lia; [by exists t|].
  destruct ev as [c load started| |now error|]; try done.
  - destruct Hev as [-> ->]. rewrite H2, H3, bool_decide_true by done. cbn [andb pred].
    rewrite st_bind_modify. unfold host_accept.
    destruct (IH (post_accept (set_i_host (handle_accept (Some c) (i_host t))
      (set_i_pending 0 (i_waits t) t)))) as (t' & E & H); [done..|]. by exists t'.
  - rewrite bool_decide_true by lia. rewrite st_bind_modify. unfold host_deadline.
    destruct (IH (post_wait (set_i_host (check_deadline now error (i_host t))
      (set_i_pending (i_accepts t) (pred (i_waits t)) t)))) as (t' & E & H); [done..|cbn; lia|].
    exists t'. destruct error as [|[|]]; [by split| |done]. split; [exact E|].
    cbn [foldl serve]. by rewrite <- check_deadline_clients.
Qed.

(** ** A host that is deaf *)

(** No accept is pending, or the [io_service] runs nothing. *)
Definition deaf (t : host_io) : Prop := i_stopped t = true \/ i_accepts t = 0%nat.

(** A deaf host stays deaf, and its sessions can only get fewer. *)
Definition stays_deaf (t t' : host_io) : Prop :=
  (i_stopped t = true -> i_stopped t' = true) /\
  (deaf t -> deaf t' /\ map c_id (h_clients (i_host t')) `sublist_of` map c_id (h_clients (i_host t))).

#[local] Instance stays_deaf_preorder : PreOrder stays_deaf.
Proof.
  split; [by intros t|]. intros t1 t2 t3 [H1 H2] [H3 H4]. split; [auto|]. intros Hd.
  destruct (H2 Hd) as [Hd2 S2]. destruct (H4 Hd2) as [Hd3 S3]. split; [done|by etransitivity].
Qed.

Lemma reap_one_id now c c' : reap_one now c = Some c' -> c_id c' = c_id c.
Proof.
  unfold reap_one. destruct (is_thread_active now c); [by intros [= <-]|]. cbv zeta.
  destruct (_ >? _); [done|]. intros [= <-]. unfold session_stop. by destruct (_ =? _).
Qed.

Lemma reaped_ids now cs : map c_id (omap (reap_one now) cs) `sublist_of` map c_id cs.
Proof.
  induction cs as [|c cs IH]; [done|]. cbn.
  destruct (reap_one now c) as [c'|] eqn:E; cbn; [|by apply sublist_cons].
  rewrite (reap_one_id _ _ _ E). by apply sublist_skip.
Qed.

Lemma log_stays_deaf line : preserves stays_deaf (host_log line).
Proof. apply preserves_modify. by intros t. Qed.

Lemma log_exception_stays_deaf e : preserves stays_deaf (log_exception library_what e).
Proof. unfold log_exception. frames. apply log_stays_deaf. Qed.

Lemma deadline_stays_deaf now error : preserves stays_deaf (host_deadline now error).
Proof.
  unfold host_deadline. frames; try (by apply preserves_modify; intros t).
  apply preserves_modify. intros t. split; [done|]. intros Hd. split; [done|]. cbn.
  destruct error as [|[|]]; [done| |done]. rewrite check_deadline_clients. apply reaped_ids.
Qed.

Lemma run_io_stays_deaf events : preserves stays_deaf (run_io library_what events).
Proof.
  induction events as [|ev events IH]; cbn [run_io]; intros t t' r.
  - rewrite st_bind_gets. destruct (i_stopped t) eqn:Es; [by intros [= <- _]|].
    case_bool_decide; [|by intros [= <- _]]. rewrite st_bind_modify. intros [= <- _].
    split; [done|]. intros _. split; [by left|done].
  - rewrite st_bind_gets. destruct (i_stopped t) eqn:Es; [by intros [= <- _]|].
    case_bool_decide as Hw.
    { rewrite st_bind_modify. intros [= <- _]. split; [done|]. intros _. split; [by left|done]. }
    destruct ev as [c load started| |now error|].
    + case_bool_decide as Ha; [|by intros [= <- _]]. cbn [andb].
      intros _. split; [by rewrite Es|]. intros [Hd|Hd]; [by rewrite Es in Hd|done].
    + case_bool_decide as Ha; [|by intros [= <- _]].
      intros _. split; [by rewrite Es|]. intros [Hd|Hd]; [by rewrite Es in Hd|done].
    + case_bool_decide as Ha; [|by intros [= <- _]].
      rewrite st_bind_modify. intros E.
      assert (stays_deaf t (set_i_pending (i_accepts t) (pred (i_waits t)) t)) as Hs by by split.
      etransitivity; [exact Hs|]. revert E. 
      apply (preserves_bind stays_deaf (host_deadline now error) (fun _ => run_io library_what events));
        [apply deadline_stays_deaf|intros _; exact IH].
    + rewrite st_bind_modify. intros [= <- _]. split; [done|]. intros _. split; [by left|done].
Qed.

Lemma host_loop_stays_deaf passes : preserves stays_deaf (host_loop library_what passes).
Proof.
  induction passes as [|p passes IH]; cbn [host_loop]; unfold host_pass_body; frames;
    first [exact IH|apply run_io_stays_deaf|apply log_exception_stays_deaf
          |by apply preserves_modify; intros t].
Qed.

(** The rest of a run, and what follows. *)
Lemma rest_stays_deaf events passes :
  preserves stays_deaf (_ ← run_io library_what events; host_loop library_what passes).
Proof. frames; [apply run_io_stays_deaf|apply host_loop_stays_deaf]. Qed.

(** What the [io_service] does when it is stopped. *)
Definition stays_stopped (t t' : host_io) : Prop :=
  i_stopped t = true -> i_stopped t' = true /\ h_clients (i_host t') = h_clients (i_host t).

#[local] Instance stays_stopped_preorder : PreOrder stays_stopped.
Proof.
  split; [by intros t|]. intros t1 t2 t3 H1 H2 Hs. destruct (H1 Hs) as [Hs2 E1].
  destruct (H2 Hs2) as [Hs3 E2]. split; [done|congruence].
Qed.

Lemma run_io_stays_stopped events : preserves stays_stopped (run_io library_what events).
Proof.
  intros t t' r E Hs. destruct events; cbn [run_io] in E; rewrite st_bind_gets, Hs in E;
    by injection E as <- _.
Qed.

Lemma log_stays_stopped line : preserves stays_stopped (host_log line).
Proof. apply preserves_modify. by intros t. Qed.

Lemma log_exception_stays_stopped e : preserves stays_stopped (log_exception library_what e).
Proof. unfold log_exception. frames. apply log_stays_stopped. Qed.

Lemma host_loop_stays_stopped passes : preserves stays_stopped (host_loop library_what passes).
Proof.
  induction passes as [|p passes IH]; cbn [host_loop]; unfold host_pass_body; frames;
    first [exact IH|apply run_io_stays_stopped|apply log_exception_stays_stopped
          |by apply preserves_modify; intros t].
Qed.

Lemma with_unlock_stays_stopped m :
  preserves stays_stopped m -> preserves stays_stopped (with_unlock m).
Proof.
  intros Hm t t' r. unfold with_unlock. destruct (m t) as [t1 [[|]|e|]] eqn:E;
    (intros [= <- _]; by apply Hm in E).
Qed.

Lemma host_threadproc_stays_stopped listen passes :
  preserves stays_stopped (host_threadproc library_what listen passes).
Proof.
  unfold host_threadproc. frames;
    first [apply log_stays_stopped|apply with_unlock_stays_stopped, host_loop_stays_stopped
          |apply log_exception_stays_stopped|by apply preserves_modify; intros t].
Qed.

Lemma start_host_stays_stopped ret bind : preserves stays_stopped (start_host ret bind).
Proof.
  unfold start_host. frames;
    first [apply log_stays_stopped|by apply preserves_modify; intros t|unfold on_h_thread].
  intros t t' r. destruct (start (h_thread (i_host t))) as [th o]. by intros [= <- _].
Qed.

End lemmas.

(** ** Properties *)


(** A host that accepts two connections, the first of which has ended. *)
Definition sample_io : host_io := set_i_open true (new_host_io (host_with [])).

Definition session_of (id ended : Z) : RemoteProxyClient :=
  {| c_id := id; c_endpoint := endpoint_A; c_thread_ended := ended; c_stopped := never |}.

Definition two_sessions : host_pass :=
  {| hp_stop := false;
     hp_events := [Accepted (session_of 1 (seconds 1)) (Ok tt) (Ok tt); Timer (seconds 1) Aborted;
                   Accepted (session_of 2 never) (Ok tt) (Ok tt);
                   Timer (seconds 10) (Fired true); Timer (seconds 20) (Fired true)];
     hp_sleep := fun _ => false |}.


(** One accept that fails, or one certificate file that cannot be read when
    a connection is accepted, and the host accepts nothing any more: however
    long its thread runs on, its sessions can only get fewer. *)
Theorem failed_accept_is_final library_what accepted events passes t :
  i_accepts t = 0%nat ->
  (accepted = None \/ exists c e started, accepted = Some (c, Throw e, started)) ->
  let '(t1, _) := host_accept library_what accepted t in
  let '(t', _) := (_ ← run_io library_what events; host_loop library_what passes) t1 in
  map c_id (h_clients (i_host t')) `sublist_of` map c_id (h_clients (i_host t)).
Proof.
  intros Ha Hacc.
  assert (exists t1 r1, host_accept library_what accepted t = (t1, r1) /\ i_accepts t1 = 0%nat /\
            h_clients (i_host t1) = h_clients (i_host t)) as (t1 & r1 & -> & Ha1 & Ec).
  { destruct Hacc as [->|(c & e & started & ->)]; [by do 2 eexists|].
    unfold host_accept, st_catch. erewrite st_bind_Throw by reflexivity.
    destruct (is_std_exception e); by do 2 eexists. }
  destruct ((_ ← run_io library_what events; host_loop library_what passes) t1) as [t' r] eqn:E.
  apply rest_stays_deaf in E as [_ H].
  rewrite <- Ec. apply H. by right.
Qed.

Lemma failed_accept_is_final_witness :
  let '(t1, _) := host_accept (fun _ => []) None sample_io in
  let '(t', _) := (_ ← run_io (fun _ => []) []; host_loop (fun _ => []) [two_sessions]) t1 in
  map c_id (h_clients (i_host t')) `sublist_of` [].
Proof. apply (failed_accept_is_final (fun _ => []) None [] [two_sessions] sample_io); [reflexivity|by left]. Defined.

(** A host that was stopped and is started again accepts nothing: its
    [io_service] stays stopped, since nothing resets it, and every [run] returns
    at once. *)
Theorem restarted_host_deaf library_what ended now ret bind listen passes t :
  joinable (h_thread (i_host t)) = true ->
  let t1 := stop_host ended now t in
  let '(t2, _) := start_host ret bind t1 in
  let '(t3, _) := host_threadproc library_what listen passes t2 in
  h_clients (i_host t3) = h_clients (i_host t1).
Proof.
  intros Hj t1. assert (i_stopped t1 = true) as Hs by (subst t1; unfold stop_host; by rewrite Hj).
  destruct (start_host ret bind t1) as [t2 r2] eqn:E2.
  destruct (host_threadproc library_what listen passes t2) as [t3 r3] eqn:E3.
  destruct (start_host_stays_stopped _ _ _ _ _ E2 Hs) as [Hs2 Ec2].
  destruct (host_threadproc_stays_stopped _ _ _ _ _ _ E3 Hs2) as [_ Ec3]. congruence.
Qed.

Lemma restarted_host_deaf_witness :
  let t0 := fst (start_host ESRCH (Ok tt) (new_host_io (host_with []))) in
  let t1 := unlock (stop_host 0 1 t0) in
  let '(t2, r2) := start_host ESRCH (Ok tt) t1 in
  let '(t3, _) := host_threadproc (fun _ => []) (Ok tt) [two_sessions] t2 in
  r2 = Ok tt /\ h_clients (i_host t3) = [].
Proof.
  intros t0 t1.
  assert (joinable (h_thread (i_host (unlock t0))) = true) as Hj by (vm_compute; reflexivity).
  pose proof (restarted_host_deaf (fun _ => []) 0 1 ESRCH (Ok tt) (Ok tt) [two_sessions]
    (unlock t0) Hj) as H.
  change (stop_host 0 1 (unlock t0)) with t1 in H. cbv zeta in H.
  destruct (start_host ESRCH (Ok tt) t1) as [t2 r2] eqn:E2.
  destruct (host_threadproc (fun _ => []) (Ok tt) [two_sessions] t2) as [t3 r3] eqn:E3.
  split; [vm_compute in E2; by injection E2 as _ <-|].
  rewrite H. vm_compute. reflexivity.
Defined.
