(* ===== verification/SessionRun.v ===== *)
(** * A session from beginning to end

    The thread functions of [RemoteProxyClient] ([remoteclient.cpp]) put
    together: [start], [remote_threadproc] with the opening and the data loop of
    [RemoteHost], the logon of a [Plugin.PluginHandler] over the local socket, the
    start of the local thread, what is caught, [interrupt], the closing of the
    sockets, and [local_threadproc].

    [Session] has the same threads as moves between places of the code, with no
    data.  Here every run of the functions is shown to be a run of [Session], so
    that what is shown there of the threads side by side is about these
    functions. *)

From S2P Require Import Prelude Endpoints Certs Plugin Thread RemoteHost Explore Session.

(** ** The state *)

(** A [RemoteProxyClient]: what opening it sets, its threads, its two sockets,
    whether [thread_ended] is set, and what its two data loops use. *)
Record run := {
  n_session : session;
  n_remote_thread : thread;
  n_local_thread : thread;
  n_socket : local_socket;
  n_shut : bool;
  n_ended : bool;
  n_in : pump;
  n_out : pump }.

Definition set_n_session (s : session) (r : run) : run :=
  {| n_session := s; n_remote_thread := n_remote_thread r; n_local_thread := n_local_thread r;
     n_socket := n_socket r; n_shut := n_shut r; n_ended := n_ended r;
     n_in := n_in r; n_out := n_out r |}.
Definition set_n_threads (t l : thread) (r : run) : run :=
  {| n_session := n_session r; n_remote_thread := t; n_local_thread := l;
     n_socket := n_socket r; n_shut := n_shut r; n_ended := n_ended r;
     n_in := n_in r; n_out := n_out r |}.
Definition set_n_sockets (k : local_socket) (shut : bool) (r : run) : run :=
  {| n_session := n_session r; n_remote_thread := n_remote_thread r;
     n_local_thread := n_local_thread r; n_socket := k; n_shut := shut; n_ended := n_ended r;
     n_in := n_in r; n_out := n_out r |}.
Definition set_n_ended (b : bool) (r : run) : run :=
  {| n_session := n_session r; n_remote_thread := n_remote_thread r;
     n_local_thread := n_local_thread r; n_socket := n_socket r; n_shut := n_shut r; n_ended := b;
     n_in := n_in r; n_out := n_out r |}.
Definition set_n_pumps (p q : pump) (r : run) : run :=
  {| n_session := n_session r; n_remote_thread := n_remote_thread r;
     n_local_thread := n_local_thread r; n_socket := n_socket r; n_shut := n_shut r;
     n_ended := n_ended r; n_in := p; n_out := q |}.

(** A client that was made; [incoming] and [outgoing] are for its two loops. *)
Definition new_run (incoming outgoing : pump) : run :=
  {| n_session := session0; n_remote_thread := new_thread true; n_local_thread := new_thread true;
     n_socket := Unconnected; n_shut := false; n_ended := false;
     n_in := incoming; n_out := outgoing |}.

Definition on_session {A} (m : st session A) : st run A := fun r =>
  let '(s, o) := m (n_session r) in (set_n_session s r, o).

Definition on_remote_thread {A} (m : st thread A) : st run A := fun r =>
  let '(t, o) := m (n_remote_thread r) in (set_n_threads t (n_local_thread r) r, o).

Definition on_local_thread {A} (m : st thread A) : st run A := fun r =>
  let '(t, o) := m (n_local_thread r) in (set_n_threads (n_remote_thread r) t r, o).

Definition on_in {A} (m : st pump A) : st run A := fun r =>
  let '(p, o) := m (n_in r) in (set_n_pumps p (n_out r) r, o).

Definition on_out {A} (m : st pump A) : st run A := fun r =>
  let '(p, o) := m (n_out r) in (set_n_pumps (n_in r) p r, o).

(** The local socket: [local_threadproc] reads from it, [remote_threadproc]
    writes to it. *)
Definition local_side (r : run) : socket :=
  {| sk_incoming := sk_incoming (p_source (n_out r)); sk_accepts := sk_accepts (p_sink (n_in r));
     sk_sent := sk_sent (p_sink (n_in r)) |}.

Definition set_local_side (k : socket) (r : run) : run :=
  let p := n_in r in
  let q := n_out r in
  set_n_pumps
    {| p_source := p_source p;
       p_sink := {| sk_incoming := sk_incoming (p_sink p); sk_accepts := sk_accepts k;
                    sk_sent := sk_sent k |};
       p_count := p_count p; p_last := p_last p; p_overflow := p_overflow p |}
    {| p_source := {| sk_incoming := sk_incoming k; sk_accepts := sk_accepts (p_source q);
                      sk_sent := sk_sent (p_source q) |};
       p_sink := p_sink q; p_count := p_count q; p_last := p_last q; p_overflow := p_overflow q |} r.

(** What the plugin reads of an endpoint. *)
Definition logon_of (ep : RemoteEndpoint) : logon_data :=
  {| ep_name := r_name ep; ep_username := r_username ep; ep_password := r_password ep |}.

(** ** The functions *)

(** [interrupt(synced)] *)
Definition run_interrupt (synced : bool) : st run unit :=
  _ ← modify (fun r => set_n_sockets (match n_socket r with Connected => ShutDown | k => k end)
                         (n_shut r) r);
  _ ← (if synced then mret tt
       else modify (fun r => if s_remote_connected (n_session r)
                             then set_n_sockets (n_socket r) true r else r));
  modify (fun r => set_n_session
    (RemoteHost.set_local_connected false (RemoteHost.set_remote_connected false (n_session r))) r).

Section run.
(** What a session is opened with, as in [open_session]; the plugin; the text of
    an exception, with its code when it is one of boost; and the readings of the
    two stop flags. *)
Context `{X509 cert} (dinfo : list ascii) (connect : LocalEndpoint -> out unit)
  (remote_ep : list RemoteEndpoint) (local_ep : list LocalEndpoint) (handshake : out unit)
  (peer : option (bool * list ascii * list ascii)) (indexes : list Z)
  (plugin : PluginHandler) (what : exn -> list ascii)
  (remote_stop local_stop : nat -> bool).

(** The plugin's logon over the local socket. *)
Definition logon (ep : RemoteEndpoint) : st socket bool := base_connect_handler plugin (logon_of ep).

(** The opening.  The local socket is connected when [m_local_connected] is set;
    then the logon has taken place over it. *)
Definition opening : st run unit := fun r =>
  let k := local_side r in
  let '(s, o) := open_session dinfo connect remote_ep local_ep handshake peer indexes
                   (m_type plugin) (fun ep => snd (logon ep k)) (n_session r) in
  let r := set_n_session s r in
  (if s_local_connected s
   then set_local_side (fst (logon (s_endpoint s) k)) (set_n_sockets Connected (n_shut r) r)
   else r, o).

(** The [try] of [remote_threadproc]. *)
Definition remote_body : st run unit :=
  st_catch
    (_ ← opening;
     _ ← on_local_thread start;
     on_in (run_pump true remote_stop (Z.to_nat (max_buffer_size plugin))
              (ph_filter_remote2local plugin)))
    (fun e => on_session (session_log (dinfo ++ what e))).

Definition remote_threadproc : st run unit :=
  _ ← remote_body;
  _ ← run_interrupt true;
  _ ← modify (fun r => set_n_sockets (n_socket r) true r);
  modify (set_n_ended true).

(** The [try] of [local_threadproc]. *)
Definition local_body : st run unit :=
  st_catch
    (if ph_stream_local2remote plugin then mret tt
     else on_out (run_pump false local_stop (Z.to_nat (max_buffer_size plugin))
                    (ph_filter_local2remote plugin)))
    (fun e => on_session (session_log (dinfo ++ what e))).

Definition local_threadproc : st run unit := _ ← local_body; run_interrupt false.

(** [start] of the client, and its thread up to its end; what the function
    throws ends the thread. *)
Definition session_start : st run unit := on_remote_thread start.

Definition remote_run : st run unit := fun r =>
  let '(r, o) := (_ ← session_start; remote_threadproc) r in
  (set_n_threads (returned (n_remote_thread r)) (n_local_thread r) r, o).

(** The local thread, when it was started. *)
Definition local_run : st run unit := fun r =>
  if joinable (n_local_thread r) then
    let '(r, o) := local_threadproc r in
    (set_n_threads (n_remote_thread r) (returned (n_local_thread r)) r, o)
  else (r, Ok tt).

(** ** Lemmas: the data loops *)

(** The libraries throw what derives from [std::exception]. *)
Definition std_call {A} (m : out A) : Prop :=
  match m with Ok _ => True | Throw e => is_std_exception e = true | UB => False end.

(** So does what the script of a socket says. *)
Definition intact (k : socket) : Prop := Forall std_call (sk_incoming k).

Definition readable (p : pump) : Prop := intact (p_source p).

(** The readings of the flag a loop makes: it went through [k] passes, and left
    the loop in one more, or a write failed there, or the flag was set. *)
Definition passes (stop : nat -> bool) (n : nat) (o : out unit) : Prop :=
  exists k, (forall j, (j < k)%nat -> stop (n + j)%nat = false) /\
    match o with
    | Ok _ => stop (n + k)%nat = false
    | Throw e => is_std_exception e = true /\ stop (n + k)%nat = false \/
                 e = InterruptException /\ stop (n + k)%nat = true
    | UB => False
    end.

Lemma passes_next stop n o : stop n = false -> passes stop (S n) o -> passes stop n o.
Proof.
  intros Hn (k & Hj & Ho). exists (S k). replace (n + S k)%nat with (S n + k)%nat by lia.
  split; [|done]. intros [|j] Hlt; [by rewrite Nat.add_0_r|].
  replace (n + S j)%nat with (S n + j)%nat by lia. apply Hj. lia.
Qed.

(** A loop that ends in this pass. *)
Lemma passes_now stop n o :
  match o with
  | Ok _ => stop n = false
  | Throw e => is_std_exception e = true /\ stop n = false \/ e = InterruptException /\ stop n = true
  | UB => False
  end -> passes stop n o.
Proof. intros Ho. exists 0%nat. rewrite Nat.add_0_r. split; [lia|done]. Qed.

(** A read takes something of the script, unless it brings nothing. *)
Lemma read_ec_less n p p' o :
  readable p -> on_source (read_ec n) p = (p', o) ->
  exists data, o = Ok data /\ readable p' /\ (data <> [] -> (pump_fuel p' < pump_fuel p)%nat).
Proof.
  unfold on_source, read_ec, read_some, readable, intact, pump_fuel. intros Hr E.
  destruct p as [[inc acc sent] sink c l v]. cbn in *.
  destruct inc as [|[chunk|e|] rest]; cbn in E; [| | |by inversion Hr].
  - injection E as <- <-. exists []. cbn. by split_and!.
  - injection E as <- <-. apply list.Forall_cons in Hr as [_ Hr]. exists (take n chunk). split; [done|].
    destruct (drop n chunk) as [|a d] eqn:Ed; cbn; [split; [done|lia]|].
    split; [by constructor|]. intros Ht.
    assert (length chunk = length (take n chunk) + length (a :: d))%nat as ->
      by by rewrite <- Ed, <- length_app, take_drop.
    destruct (take n chunk); [done|cbn; lia].
  - injection E as <- <-. apply list.Forall_cons in Hr as [_ Hr]. exists []. cbn. by split_and!.
Qed.

Lemma pump_loop_ends overflow stop max' filter fuel n p :
  readable p -> (pump_fuel p <= fuel)%nat ->
  passes stop n (pump_loop overflow fuel stop n max' filter p).2.
Proof.
  revert n p. induction fuel as [|fuel IH]; intros n p Hr Hf; [unfold pump_fuel in Hf; lia|].
  cbn [pump_loop]. unfold check_run. destruct (stop n) eqn:En; cbn [andb negb].
  { apply passes_now. by right. }
  rewrite st_bind_lift. unfold mbind at 1, st_bind at 1.
  destruct (on_source (read_ec max') p) as [p1 o] eqn:E.
  apply (read_ec_less _ _ _ _ Hr) in E as (data & -> & Hr1 & Hless).
  case_bool_decide as Hd.
  { by apply passes_now. }
  specialize (Hless Hd). rewrite st_bind_modify.
  assert (forall p2, p_source p2 = p_source p1 ->
    passes stop n (pump_loop overflow fuel stop (S n) max' filter p2).2) as Hnext.
  { intros p2 E2. apply passes_next; [done|].
    apply IH; unfold readable, pump_fuel in *; rewrite E2; [done|lia]. }
  destruct (filter data); [|destruct overflow; by apply Hnext].
  unfold mbind at 1 2, st_bind at 1 2, on_sink, write_some. cbn.
  destruct (sk_accepts (p_sink p1)) as [|a acc]; [by apply Hnext|].
  destruct (a <? 0); [apply passes_now; by left|by apply Hnext].
Qed.

Lemma run_pump_ends overflow stop max' filter p :
  readable p -> passes stop 0 (run_pump overflow stop max' filter p).2.
Proof. intros Hr. by apply pump_loop_ends. Qed.

(** ** Lemmas: the opening *)

Context (handshake_std : std_call handshake) (connect_std : forall l, std_call (connect l))
  (logon_std : forall ep k, intact k -> intact (fst (logon ep k)) /\ std_call (snd (logon ep k)))
  (indexes_ok : Forall (fun i => 0 <= i < zlen local_ep) indexes).

Definition flags (l r : bool) (s : session) : Prop :=
  s_local_connected s = l /\ s_remote_connected s = r.

(** How far an opening that failed had come. *)
Definition failed (e : exn) (s : session) : Prop :=
  is_std_exception e = true /\ (s_local_connected s = true -> s_remote_connected s = true).

Lemma log_ok l r line E : triple (flags l r) (session_log line) (fun _ => flags l r) E.
Proof. by apply triple_modify. Qed.

Lemma std_lift_ok {A} l r (m : out A) :
  std_call m -> (l = true -> r = true) -> triple (flags l r) (lift m) (fun _ => flags l r) failed.
Proof. intros Hm Hlr s [<- <-]. unfold lift. by destruct m. Qed.

Lemma connect_locals_ok doing eps l ep :
  Forall (fun i => 0 <= i < zlen eps) l ->
  triple (flags false true) (connect_locals dinfo connect doing eps l ep)
    (fun _ s => s_remote_connected s = true) failed.
Proof.
  intros Hl. revert ep. induction Hl as [|i l Hi _ IH]; intros ep; cbn [connect_locals].
  { by intros s [_ E]. }
  destruct (rd_in eps i Hi) as [a ->].
  eapply triple_bind; [by apply (std_lift_ok _ _ (Ok a))|intros a'].
  eapply triple_bind; [apply log_ok|intros ?].
  eapply (triple_bind _ (fun _ => flags false true)).
  { intros s Hs. pose proof (connect_std a') as Ha. unfold st_catch, mbind, st_bind, lift.
    destruct (connect a') as [[]|e|]; [done|by rewrite Ha|done]. }
  intros [|]; [|apply IH].
  eapply (triple_bind _ (fun _ s => s_remote_connected s = true)); [by apply triple_modify; intros s []|].
  by intros ? s.
Qed.

Lemma open_ok k :
  intact k ->
  triple (flags false false)
    (open_session dinfo connect remote_ep local_ep handshake peer indexes (m_type plugin)
       (fun ep => snd (logon ep k)))
    (fun _ => flags true true) failed.
Proof.
  intros Hk. unfold open_session.
  eapply triple_bind; [apply std_lift_ok; [by case_bool_decide|done]|intros ?].
  eapply triple_bind; [apply log_ok|intros ?].
  eapply triple_bind; [by apply std_lift_ok|intros ?].
  eapply triple_bind; [apply log_ok|intros ?].
  eapply (triple_bind _ (fun _ => flags false true)); [apply triple_modify; by intros s [? _]|intros ?].
  destruct (get_certificate_issuer_subject peer) as [[ok issuer] ?].
  destruct (if ok && (zlen issuer >? 0) then _ else _) as [name found].
  eapply (triple_bind _ (fun _ => flags false true)); [|intros ?].
  { destruct found as [ep|]; [by apply triple_modify|by apply std_lift_ok]. }
  eapply (triple_bind _ (fun _ => flags false true)); [apply triple_modify; by intros s [_ ?]|intros ?].
  eapply triple_bind; [by apply connect_locals_ok|intros ep].
  eapply (triple_bind _ (fun s' s => s' = s /\ s_remote_connected s = true)); [by intros s Hs|intros s'].
  eapply (triple_bind _ (fun _ => flags true true)); [|intros ?].
  { intros s [-> Hs]. unfold lift. destruct (s_local_connected s) eqn:El; [done|].
    split; [done|]. by rewrite El. }
  eapply triple_bind; [apply log_ok|intros ?].
  eapply triple_bind; [apply std_lift_ok; [by apply logon_std|done]|intros ok'].
  eapply triple_bind; [by apply std_lift_ok; [destruct ok'|]|intros ?]. apply log_ok.
Qed.

(** ** Lemmas: a run of the functions is one of [Session] *)

(** The shared state is the same. *)
Record agrees (r : run) (x : live_session) : Prop := {
  ag_flags : flags (x_local_connected x) (x_remote_connected x) (n_session r);
  ag_remote : n_remote_thread r = x_remote_thread x;
  ag_local : n_local_thread r = x_local_thread x;
  ag_socket : n_socket r = x_local_socket x;
  ag_shut : n_shut r = x_remote_shut x;
  ag_ended : n_ended r = x_thread_ended x }.

(** The moves of the remote thread that open a session, those of one pass of
    its loop, and those of its end. *)
Definition opening_moves : list move :=
  [StartRemote; Handshake true; SetRemoteConnected; ConnectLocal true; SetLocalConnected;
   TestConnected; Logon true; StartLocal].
Definition remote_pass : list move := [RemoteTest; RemoteReads true; RemoteMoves true].
Definition remote_end : list move := [RemoteLeaves; RemoteLeaves; RemoteCloses].
Definition local_pass : list move := [LocalTest; LocalReads true; LocalMoves true].
Definition local_end : list move := [LocalLeaves; LocalLeaves; LocalLeaves].

(** The moves of the remote thread when its opening fails. *)
Definition failing_moves (l r : bool) : list move :=
  match l, r with
  | true, _ => [StartRemote; Handshake true; SetRemoteConnected; ConnectLocal true;
                SetLocalConnected; TestConnected; Logon false]
  | false, true => [StartRemote; Handshake true; SetRemoteConnected; ConnectLocal false]
  | false, false => [StartRemote; Handshake false]
  end.

(** The last pass of a loop that cannot write. *)
Definition write_fails : list move := [RemoteTest; RemoteReads true; RemoteMoves false].

(** [stop] of an open session, whose local thread is at its test. *)
Definition stopping_moves : list move :=
  [StopLocal; StopInterrupts; StopInterrupts; StopInterrupts; LocalTest; JoinLocal; StopRemote].

Definition is_remote (m : move) : bool :=
  match m with
  | LocalTest | LocalReads _ | LocalMoves _ | LocalLeaves
  | StopLocal | StopInterrupts | JoinLocal | StopRemote | JoinRemote => false
  | _ => true
  end.

Definition is_thread (m : move) : bool :=
  match m with
  | StopLocal | StopInterrupts | JoinLocal | StopRemote | JoinRemote => false
  | _ => true
  end.

Lemma play_remote_passes k :
  play make_move (opening_moves ++ mjoin (replicate k remote_pass)) new_session =
  Some (after opening_moves).
Proof.
  apply (play_app _ _ _ _ (after opening_moves)); [vm_compute; reflexivity|].
  apply play_repeat. vm_compute. reflexivity.
Qed.

Lemma remote_passes k : forallb is_remote (mjoin (replicate k remote_pass)) = true.
Proof. induction k as [|k IH]; [done|]. by cbn. Qed.

(** The end of the remote thread, wherever it comes from. *)
Lemma remote_end_agrees r x :
  x_remote x = RLeave IShut -> agrees r x ->
  exists r' x',
    (_ ← run_interrupt true; _ ← modify (fun r => set_n_sockets (n_socket r) true r);
     modify (set_n_ended true)) r = (r', Ok tt) /\
    play make_move remote_end x = Some x' /\ x_remote x' = RDone /\
    x_local x' = x_local x /\ x_stop x' = x_stop x /\
    n_local_thread r' = n_local_thread r /\ n_out r' = n_out r /\
    agrees (set_n_threads (returned (n_remote_thread r')) (n_local_thread r') r') x'.
Proof.
  intros Hx [Hf Hr Hl Hs Hsh He]. destruct x as [xr xl xs xt xu xc xd xk xh xe]. cbn in *. subst xr.
  eexists _, _. split; [reflexivity|]. split; [reflexivity|]. split_and!; try done.
  split; cbn; try congruence; [by split|by rewrite Hs].
Qed.

Lemma local_end_agrees r x :
  x_local x = LLeave IShut -> agrees r x ->
  exists r' x', run_interrupt false r = (r', Ok tt) /\
    play make_move local_end x = Some x' /\ x_local x' = LDone /\
    x_remote x' = x_remote x /\ x_stop x' = x_stop x /\
    agrees (set_n_threads (n_remote_thread r') (returned (n_local_thread r')) r') x'.
Proof.
  intros Hx [[Hf1 Hf2] Hr Hl Hs Hsh He]. destruct x as [xr xl xs xt xu xc xd xk xh xe]. cbn in *. subst xl.
  eexists _, _. split; [reflexivity|]. split; [reflexivity|].
  destruct (s_remote_connected _) eqn:E; cbn; rewrite ?E; destruct xd; try congruence; cbn;
    (split_and!; try done; split; cbn; try congruence; [by split|by rewrite Hs]).
Qed.

(** The moves of the interrupted thread: [k] passes of its loop, and its end. *)
Definition killed_moves (k : nat) : list move :=
  opening_moves ++ mjoin (replicate k remote_pass) ++ stopping_moves ++ [RemoteTest].

Lemma remote_body_moves r :
  agrees r (after [StartRemote]) -> readable (n_in r) -> readable (n_out r) ->
  match remote_body r with
  | (r', Ok _) => exists l x, forallb is_remote l = true /\
      play make_move l new_session = Some x /\ x_remote x = RLeave IShut /\
      x_stop x = SNone /\ x_local x = (if joinable (n_local_thread r') then LTest else LNone) /\
      m_stop (n_local_thread r') = false /\ agrees r' x /\ readable (n_out r')
  | (r', Throw e) => e = InterruptException /\ n_ended r' = false /\
      exists k, remote_stop k = true /\ forall j, (j < k)%nat -> remote_stop j = false
  | (_, UB) => False
  end.
Proof.
  intros [Hf Hr Hl Hs Hsh He] Hin Hout.
  pose proof (open_ok (local_side r) Hout (n_session r) Hf) as Ho.
  unfold remote_body, st_catch, opening, mbind, st_bind. revert Ho.
  pose proof (fun p => run_pump_ends true remote_stop (Z.to_nat (max_buffer_size plugin))
    (ph_filter_remote2local plugin) p) as Hp.
  set (pump_in := run_pump true remote_stop _ _) in *. clearbody pump_in.
  destruct (open_session dinfo _ _ _ _ _ _ _ _ (n_session r)) as [s [u|e|]]; [| |done].
  - intros Ht. rewrite (proj1 Ht). pose proof (proj1 (logon_std (s_endpoint s) (local_side r) Hout)) as Hout'.
    destruct (logon (s_endpoint s) (local_side r)) as [k1 ok]. cbn [fst] in *.
    unfold on_local_thread, set_local_side. cbn [n_local_thread set_n_sockets set_n_session set_n_pumps].
    rewrite Hl. cbn. unfold on_in. cbn.
    match goal with |- context [pump_in ?p] => specialize (Hp p Hin) end.
    destruct Hp as (k & Hj & Hp).
    destruct (pump_in _) as [p [u'|e|]]; cbn in Hp; [|destruct Hp as [[Hstd _]|[-> Hk]]|done].
    + exists ((opening_moves ++ mjoin (replicate k remote_pass)) ++ [RemoteTest; RemoteReads false]).
      exists (after (opening_moves ++ [RemoteTest; RemoteReads false])).
      split; [by rewrite !forallb_app, remote_passes|].
      split; [eapply play_app; [apply play_remote_passes|vm_compute; reflexivity]|].
      split_and!; try (vm_compute; reflexivity); [split; cbn; done|exact Hout'].
    + cbn. rewrite Hstd. unfold on_session. cbn.
      exists ((opening_moves ++ mjoin (replicate k remote_pass)) ++ write_fails).
      exists (after (opening_moves ++ write_fails)).
      split; [by rewrite !forallb_app, remote_passes|].
      split; [eapply play_app; [apply play_remote_passes|vm_compute; reflexivity]|].
      split_and!; try (vm_compute; reflexivity); [split; cbn; done|exact Hout'].
    + cbn. split_and!; [done|done|]. by exists k.
  - intros [He' Hlr]. rewrite He'. cbn.
    pose proof (proj1 (logon_std (s_endpoint s) (local_side r) Hout)) as Hout'.
    destruct (logon (s_endpoint s) (local_side r)) as [k1 ok]. cbn [fst] in *.
    unfold on_session, set_local_side.
    destruct (s_local_connected s) eqn:El; cbn; rewrite Hl;
      exists (failing_moves (s_local_connected s) (s_remote_connected s));
      exists (after (failing_moves (s_local_connected s) (s_remote_connected s)));
      rewrite El; destruct (s_remote_connected s) eqn:Er;
      try (specialize (Hlr eq_refl); discriminate Hlr);
      (split_and!; try (vm_compute; reflexivity); [|done]; split; cbn; rewrite ?El, ?Hs; done).
Qed.

(** The local thread leaves its loop after [k] passes, wherever the others are. *)
Lemma local_leaves x k last :
  x_local x = LTest -> m_stop (x_local_thread x) = false ->
  last = [LocalTest; LocalReads false] \/ last = [LocalTest; LocalReads true; LocalMoves false] ->
  play make_move (mjoin (replicate k local_pass) ++ last) x = Some (set_local (LLeave IShut) x) /\
  forallb is_thread (mjoin (replicate k local_pass) ++ last) = true.
Proof.
  intros Hx Hm Hlast. destruct x as [xr xl xs xt xu xc xd xk xh xe]. cbn in Hx, Hm. subst xl. split.
  - eapply (play_app make_move).
    + apply play_repeat. unfold local_pass. cbn. unfold check_run. by rewrite Hm.
    + destruct Hlast as [-> | ->]; cbn; unfold check_run; by rewrite Hm.
  - rewrite forallb_app. apply andb_true_intro. split; [by induction k|by destruct Hlast as [-> | ->]].
Qed.

Lemma local_threadproc_moves r x :
  x_local x = LTest -> m_stop (x_local_thread x) = false -> agrees r x -> readable (n_out r) ->
  (forall k, local_stop k = false) ->
  exists r' l x', local_threadproc r = (r', Ok tt) /\ forallb is_thread l = true /\
    play make_move l x = Some x' /\ x_local x' = LDone /\ x_remote x' = x_remote x /\
    x_stop x' = x_stop x /\
    agrees (set_n_threads (n_remote_thread r') (returned (n_local_thread r')) r') x'.
Proof.
  intros Hx Hm Ha Hr Hstop. unfold local_threadproc.
  pose proof (run_pump_ends false local_stop (Z.to_nat (max_buffer_size plugin))
    (ph_filter_local2remote plugin) (n_out r) Hr) as (k & _ & Hp).
  assert (exists r1 last, local_body r = (r1, Ok tt) /\ agrees r1 x /\
      (last = [LocalTest; LocalReads false] \/ last = [LocalTest; LocalReads true; LocalMoves false]))
    as (r1 & last & E & Ha1 & Hlast).
  { unfold local_body, st_catch. destruct (ph_stream_local2remote plugin).
    { eexists _, _. split; [done|]. split; [done|by left]. }
    unfold on_out. revert Hp.
    destruct (run_pump false local_stop _ _ (n_out r)) as [p [[]|e|]]; intros Hp; [| |done].
    - eexists _, _. split; [done|]. split; [by destruct Ha; split|by left].
    - cbn [snd] in Hp. destruct Hp as [[Hstd _]|[_ Hk]]; [|by rewrite Hstop in Hk].
      rewrite Hstd. eexists _, _. split; [done|]. split; [by destruct Ha; split|by right]. }
  rewrite (st_bind_Ok _ _ _ _ _ E).
  destruct (local_leaves x k last Hx Hm Hlast) as [F1 F2].
  destruct (local_end_agrees r1 (set_local (LLeave IShut) x))
    as (r' & x' & E1 & E2 & H1 & H2 & H3 & H4); [done|by destruct Ha1; split|].
  eexists r', _, x'. split; [done|]. split; [|split; [by eapply play_app|done]].
  by rewrite forallb_app, F2.
Qed.

Lemma remote_run_moves r :
  agrees r new_session -> readable (n_in r) -> readable (n_out r) ->
  match remote_run r with
  | (r', Ok _) => exists l x, forallb is_remote l = true /\
      play make_move l new_session = Some x /\ x_remote x = RDone /\ x_stop x = SNone /\
      x_local x = (if joinable (n_local_thread r') then LTest else LNone) /\
      m_stop (n_local_thread r') = false /\ agrees r' x /\ readable (n_out r')
  | (r', Throw e) => e = InterruptException /\ n_ended r' = false /\
      exists k, remote_stop k = true /\ forall j, (j < k)%nat -> remote_stop j = false
  | (_, UB) => False
  end.
Proof.
  intros [Hf Hr Hl Hs Hsh He] Hin Hout. unfold remote_run.
  set (r0 := set_n_threads (x_remote_thread (after [StartRemote])) (n_local_thread r) r).
  assert (session_start r = (r0, Ok tt)) as E0.
  { unfold session_start, on_remote_thread. rewrite Hr. reflexivity. }
  rewrite (st_bind_Ok _ _ _ _ _ E0).
  assert (agrees r0 (after [StartRemote])) as H0 by by split.
  pose proof (remote_body_moves r0 H0 Hin Hout) as Hb. unfold remote_threadproc.
  unfold mbind at 1, st_bind at 1. destruct (remote_body r0) as [r1 [u|e|]]; [| |done].
  - destruct Hb as (l & x & H1 & H2 & H3 & H4 & H5 & H6 & H7 & H8).
    destruct (remote_end_agrees r1 x H3 H7) as (r' & x' & E1 & E2 & F1 & F2 & F3 & F4 & F5 & F6).
    rewrite E1. cbn [n_out set_n_threads]. exists (l ++ remote_end), x'. cbn [n_local_thread set_n_threads n_out].
    rewrite forallb_app, H1, F2, F3, F4, F5. split_and!; try done; [by eapply play_app|by rewrite <- F4].
  - cbn. done.
Qed.

(** ** Properties *)



End run.

(** ** Examples *)

Definition pump_of (chunks : list (list ascii)) : pump :=
  {| p_source := {| sk_incoming := map Ok chunks; sk_accepts := []; sk_sent := [] |};
     p_sink := {| sk_incoming := []; sk_accepts := []; sk_sent := [] |};
     p_count := 0; p_last := []; p_overflow := 0 |}.

Definition client_A : run :=
  new_run (pump_of [lit "hello"; lit "world"]) (pump_of [lit "welcome"; lit "answer"]).

(** A plugin whose logon may fail. *)
Definition plugin_A (logon : bool) : PluginHandler :=
  {| m_type := lit "A"; max_buffer_size := 1000;
     ph_connect := Some (fun _ => _ ← read_some 200; mret logon);
     ph_stream_local2remote := false; ph_filter_local2remote := fun _ => true;
     ph_filter_remote2local := fun _ => true |}.

(** It reads one reply, whatever it is. *)
Lemma plugin_A_std b ep k :
  intact k -> intact (fst (logon (plugin_A b) ep k)) /\ std_call (snd (logon (plugin_A b) ep k)).
Proof.
  destruct k as [[|[c|e|] inc] acc sent]; intros Hk; [by split|..];
    apply list.Forall_cons in Hk as [Hc Hk]; [|by split|done].
  unfold logon, base_connect_handler, intact. cbn [plugin_A ph_connect].
  unfold mbind, st_bind, read_some. cbn.
  split; [|done]. destruct (drop 200 c); [done|by constructor].
Qed.

(** The remote thread of that client. *)
#[local] Notation remote_A logon stop :=
  (remote_run (cert := bool) [] (fun _ => Ok tt) [endpoint_A] [{| l_hostname := lit "h"; l_port := 1 |}]
    (Ok tt) peer_A [0] (plugin_A logon) (fun _ => []) stop client_A).

Lemma client_A_agrees : agrees client_A new_session.
Proof. by split. Qed.


