(* ===== verification/Config.v ===== *)
(** * Configuration and commands

    [proxy_global] ([proxy_global.h], [proxy_global.cpp]): the lists of hosts
    and clients, how a configuration builds them ([populate_json]), how a new
    configuration takes down what no longer matches ([is_same],
    [unpopulate_json], [is_new_configuration]), and the commands on them.

    The text of a time span is parsed by boost, the parameter
    [parse_duration]; times are seconds.  The static counters of the ids are
    part of the state. *)

From S2P Require Import Prelude CppString Json Endpoints Activation Certs Thread BaseClient RemoteHost.

Record proxy_global := {
  remotehosts : list RemoteProxyHost;
  localclients : list BaseClient;
  uniproxies : list LocalEndpoint;
  m_web_port : Z;
  m_debug : bool;
  m_activate_timeout : Z;
  m_activate_port : Z;
  accept_short_certs : bool;
  min_tls_protocol : Z;
  m_name : list ascii;
  m_log_path : list ascii;
  static_local_id : Z;
  static_remote_count : Z }.

(** The member initialisers. *)
Definition new_proxy_global : proxy_global :=
  {| remotehosts := []; localclients := []; uniproxies := []; m_web_port := 8085;
     m_debug := false; m_activate_timeout := 60; m_activate_port := 25500;
     accept_short_certs := true; min_tls_protocol := 12; m_name := [];
     m_log_path := lit "log/"; static_local_id := 0; static_remote_count := 0 |}.

Definition set_lists (hosts : list RemoteProxyHost) (clients : list BaseClient) (g : proxy_global)
    : proxy_global :=
  {| remotehosts := hosts; localclients := clients; uniproxies := uniproxies g;
     m_web_port := m_web_port g; m_debug := m_debug g;
     m_activate_timeout := m_activate_timeout g; m_activate_port := m_activate_port g;
     accept_short_certs := accept_short_certs g; min_tls_protocol := min_tls_protocol g;
     m_name := m_name g; m_log_path := m_log_path g;
     static_local_id := static_local_id g; static_remote_count := static_remote_count g |}.

Definition set_counters (local_id remote_count : Z) (g : proxy_global) : proxy_global :=
  {| remotehosts := remotehosts g; localclients := localclients g; uniproxies := uniproxies g;
     m_web_port := m_web_port g; m_debug := m_debug g;
     m_activate_timeout := m_activate_timeout g; m_activate_port := m_activate_port g;
     accept_short_certs := accept_short_certs g; min_tls_protocol := min_tls_protocol g;
     m_name := m_name g; m_log_path := m_log_path g;
     static_local_id := local_id; static_remote_count := remote_count |}.

Definition set_web_port (p : Z) (g : proxy_global) : proxy_global :=
  {| remotehosts := remotehosts g; localclients := localclients g; uniproxies := uniproxies g;
     m_web_port := p; m_debug := m_debug g;
     m_activate_timeout := m_activate_timeout g; m_activate_port := m_activate_port g;
     accept_short_certs := accept_short_certs g; min_tls_protocol := min_tls_protocol g;
     m_name := m_name g; m_log_path := m_log_path g;
     static_local_id := static_local_id g; static_remote_count := static_remote_count g |}.

(** The members the entry [config] sets. *)
Definition set_settings (debug : bool) (activate_timeout activate_port : Z) (short_certs : bool)
    (min_tls : Z) (name log_path : list ascii) (g : proxy_global) : proxy_global :=
  {| remotehosts := remotehosts g; localclients := localclients g; uniproxies := uniproxies g;
     m_web_port := m_web_port g; m_debug := debug;
     m_activate_timeout := activate_timeout; m_activate_port := activate_port;
     accept_short_certs := short_certs; min_tls_protocol := min_tls;
     m_name := name; m_log_path := log_path;
     static_local_id := static_local_id g; static_remote_count := static_remote_count g |}.

Definition set_uniproxies (l : list LocalEndpoint) (g : proxy_global) : proxy_global :=
  {| remotehosts := remotehosts g; localclients := localclients g; uniproxies := l;
     m_web_port := m_web_port g; m_debug := m_debug g;
     m_activate_timeout := m_activate_timeout g; m_activate_port := m_activate_port g;
     accept_short_certs := accept_short_certs g; min_tls_protocol := min_tls_protocol g;
     m_name := m_name g; m_log_path := m_log_path g;
     static_local_id := static_local_id g; static_remote_count := static_remote_count g |}.

(** [reset] *)
Definition reset (g : proxy_global) : proxy_global :=
  set_settings (m_debug g) (m_activate_timeout g) 25500 true 12 (m_name g) (m_log_path g) g.

Section config.
Context `{Json J}.
Context (parse_duration : list ascii -> Z -> Z).

(** ** Comparing with a configuration *)

Definition has_array (obj : J) (name : list ascii) : bool :=
  bool_decide (type (find obj name) = is_array).

(** The overload for clients: never the same. *)
Definition is_same_client (c : BaseClient) (obj : J) : bool * bool * bool :=
  (false, true, true).

Definition load_failed : list ascii := lit "Failed to load remote item in new configuration".

(** The first loop of [is_same] over the remotes: the new ones. *)
Fixpoint added_loop (remote_ep : list RemoteEndpoint) (items : list J)
    (rem_added : list RemoteEndpoint) : out (list RemoteEndpoint) :=
  match items with
  | [] => mret rem_added
  | rem :: items' =>
      '(ok, ep) ← RemoteEndpoint_load rem new_RemoteEndpoint;
      _ ← ASSERTD ok load_failed;
      added_loop remote_ep items'
        (if existsb (fun ep' => RemoteEndpoint_eqb ep ep') remote_ep
         then rem_added else rem_added ++ [ep])
  end.

(** Whether [h] is among the remotes. *)
Fixpoint hit_loop (h : RemoteEndpoint) (items : list J) (hit : bool) : out bool :=
  match items with
  | [] => mret hit
  | rem :: items' =>
      '(ok, ep) ← RemoteEndpoint_load rem new_RemoteEndpoint;
      _ ← ASSERTD ok load_failed;
      hit_loop h items' (if RemoteEndpoint_eqb h ep then true else hit)
  end.

(** The second loop: the ones that are gone. *)
Fixpoint removed_loop (remote_ep : list RemoteEndpoint) (items : list J)
    (rem_removed : list RemoteEndpoint) : out (list RemoteEndpoint) :=
  match remote_ep with
  | [] => mret rem_removed
  | h :: remote_ep' =>
      hit ← hit_loop h items false;
      removed_loop remote_ep' items (if hit : bool then rem_removed else rem_removed ++ [h])
  end.

(** The loop over the local endpoints, two lists of the same length. *)
Fixpoint locals_loop (items : list J) (local_ep : list LocalEndpoint) (changed : bool) : out bool :=
  match local_ep with
  | [] => mret changed
  | l :: local_ep' =>
      match items with
      | item :: items' =>
          '(ok, ep) ← LocalEndpoint_load item new_LocalEndpoint;
          locals_loop items' local_ep'
            (if negb ok || negb (LocalEndpoint_eqb ep l) then true else changed)
      | [] => Throw BadCast
      end
  end.

(** The answer of the overload for hosts: whether it is the same host, and then
    what has changed. *)
Record difference := {
  param_changed : bool;
  locals_changed : bool;
  rem_added : list RemoteEndpoint;
  rem_removed : list RemoteEndpoint }.

Definition is_same (host : RemoteProxyHost) (obj : J) : out (option difference) :=
  '(_, host_port) ← check_port obj (lit "port") 0;
  if negb (h_local_port host =? host_port) then mret None
  else if host_port >? 0 then
    let res := find obj (lit "remotes") in
    _ ← ASSERTD (bool_decide (type res = is_array))
          (lit "Invalid host without remotes in new configuration");
    remotes ← array res;
    added ← added_loop (h_remote_ep host) remotes [];
    removed ← removed_loop (h_remote_ep host) remotes [];
    let res := find obj (lit "locals") in
    locals ← (if bool_decide (type res = is_array) then
                items ← array res;
                if zlen items =? zlen (h_local_ep host)
                then locals_loop items (h_local_ep host) false
                else mret true
              else mret true);
    plugin_type ← check_string_default obj (lit "type") [] false;
    mret (Some {| param_changed := negb (string_eqb (h_type host) plugin_type);
                  locals_changed := locals; rem_added := added; rem_removed := removed |})
  else mret None.

(** ** Taking down *)

(** Whether a client is kept, and the object, whose member is made if it was
    not there. *)
Definition keep_client (obj : J) (c : BaseClient) : out (bool * J) :=
  '(v, obj) ← member obj (lit "clients");
  if bool_decide (type v = is_array) then
    items ← array v;
    mret (foldl (fun keep item =>
            let '(same, param, connections) := is_same_client c item in
            if same : bool then negb (param || connections) else keep) false items, obj)
  else mret (false, obj).

(** The loop over the clients; one that is not kept is stopped and erased. *)
Fixpoint unpopulate_clients (obj : J) (clients : list BaseClient) : list BaseClient * out J :=
  match clients with
  | [] => ([], Ok obj)
  | c :: clients' =>
      match keep_client obj c with
      | Ok (keep, obj) =>
          let '(rest, r) := unpopulate_clients obj clients' in
          (if keep : bool then c :: rest else rest, r)
      | Throw e => (c :: clients', Throw e)
      | UB => (c :: clients', UB)
      end
  end.

(** The loop over the new hosts for one existing host: whether to keep it, and
    the remotes that were cancelled. *)
Fixpoint keep_loop (ehost : RemoteProxyHost) (newhosts : list J) (keep : bool)
    (removed : list RemoteEndpoint) : out (bool * list RemoteEndpoint) :=
  match newhosts with
  | [] => mret (keep, removed)
  | newhost :: newhosts' =>
      same ← is_same ehost newhost;
      match same with
      | Some d => keep_loop ehost newhosts' (negb (param_changed d || locals_changed d))
                    (removed ++ rem_removed d)
      | None => keep_loop ehost newhosts' keep removed
      end
  end.

Definition keep_host (obj : J) (ehost : RemoteProxyHost)
    : out (bool * list RemoteEndpoint * J) :=
  '(v, obj) ← member obj (lit "hosts");
  if bool_decide (type v = is_array) then
    newhosts ← array v;
    '(keep, removed) ← keep_loop ehost newhosts false [];
    mret (keep, removed, obj)
  else mret (false, [], obj).

(** The loop over the hosts; one that is not kept is stopped and erased. *)
Fixpoint unpopulate_hosts (obj : J) (hosts : list RemoteProxyHost)
    : list RemoteProxyHost * out unit :=
  match hosts with
  | [] => ([], Ok tt)
  | ehost :: hosts' =>
      match keep_host obj ehost with
      | Ok (keep, removed, obj) =>
          let '(rest, r) := unpopulate_hosts obj hosts' in
          (if keep : bool then snd (remove_any removed ehost) :: rest else rest, r)
      | Throw e => (ehost :: hosts', Throw e)
      | UB => (ehost :: hosts', UB)
      end
  end.

(** A loop over one of the two lists. *)
Definition on_clients {A} (m : st (list BaseClient) A) : st proxy_global A := fun g =>
  let '(clients, r) := m (localclients g) in (set_lists (remotehosts g) clients g, r).

Definition on_hosts {A} (m : st (list RemoteProxyHost) A) : st proxy_global A := fun g =>
  let '(hosts, r) := m (remotehosts g) in (set_lists hosts (localclients g) g, r).

Definition unpopulate_json (obj : J) : st proxy_global unit :=
  obj ← on_clients (unpopulate_clients obj);
  on_hosts (unpopulate_hosts obj).

(** ** Building up *)

(** The endpoints of an array that load; the others are left out. *)
Fixpoint load_each {E} (load : J -> E -> out (bool * E)) (new : E) (items : list J) : out (list E) :=
  match items with
  | [] => mret []
  | item :: items' =>
      '(ok, ep) ← load item new;
      rest ← load_each load new items';
      mret (if ok : bool then ep :: rest else rest)
  end.

(** [item["name"]] of an item, when it is an array. *)
Definition load_member {E} (load : J -> E -> out (bool * E)) (new : E) (item : J)
    (name : list ascii) : out (list E * J) :=
  '(v, item) ← member item name;
  if bool_decide (type v = is_array) then
    items ← array v; l ← load_each load new items; mret (l, item)
  else mret ([], item).

(** One entry of [clients]: the client it makes, if any, and the counter. *)
Definition make_client (item1 : J) (now counter : Z) (localclients : list BaseClient)
    : out (option BaseClient * Z) :=
  active ← check_bool_default item1 (lit "active") true false;
  provider ← check_bool_default item1 (lit "provider") false false;
  port ← check_int_default item1 (lit "port") 0 (negb provider);
  activate_port ← check_int_default item1 (lit "activate.port") 25500 false;
  let client_port := wrap 16 port in
  let activate_port := wrap 16 activate_port in
  if existsb (fun c => client_port =? m_local_port c) localclients then mret (None, counter)
  else
    '(found, shelp) ← check_string item1 (lit "read_timeout") [];
    let read_timeout := if found && negb (bool_decide (shelp = []))
                        then parse_duration shelp 300 else 300 in
    '(_, auto_reconnect) ← check_bool item1 (lit "auto_reconnect") false;
    max_connections ← check_int_default item1 (lit "max_connections") 1 false;
    '(proxy_endpoints, item1) ←
      load_member RemoteEndpoint_load new_RemoteEndpoint item1 (lit "remotes");
    if provider : bool then
      '(provider_endpoints, item1) ←
        load_member LocalEndpoint_load new_LocalEndpoint item1 (lit "locals");
      if bool_decide (provider_endpoints = []) then mret (None, counter)
      else
        '(c, counter) ← new_ProviderClient active activate_port provider_endpoints
                          proxy_endpoints item1 now counter;
        mret (Some c, counter)
    else if active && negb (bool_decide (proxy_endpoints = [])) then
      '(c, counter) ← new_LocalHost active client_port activate_port proxy_endpoints
                        max_connections read_timeout auto_reconnect now counter;
      mret (Some c, counter)
    else mret (None, counter).

Fixpoint populate_clients (items : list J) (now : Z) : st proxy_global unit :=
  match items with
  | [] => mret tt
  | item1 :: items' =>
      g ← gets (fun g => g);
      '(c, counter) ← lift (make_client item1 now (static_local_id g) (localclients g));
      _ ← modify (fun g => set_counters counter (static_remote_count g)
             (set_lists (remotehosts g)
                (localclients g ++ match c with Some c => [c] | None => [] end) g));
      populate_clients items' now
  end.

Definition should_be_deleted (host : RemoteProxyHost) : list ascii :=
  lit "Host should have been deleted: " ++ to_string (h_local_port host).

(** The loop over the existing hosts for one entry of [hosts]: bring the remotes
    of those that are the same up to date. *)
Fixpoint update_hosts (item1 : J) (hosts : list RemoteProxyHost)
    : list RemoteProxyHost * out bool :=
  match hosts with
  | [] => ([], Ok false)
  | host :: hosts' =>
      match is_same host item1 with
      | Ok (Some d) =>
          match ASSERTD (negb (param_changed d || locals_changed d)) (should_be_deleted host) with
          | Ok _ =>
              let host := remove_remotes (rem_removed d) (add_remotes (rem_added d) host) in
              let '(rest, r) := update_hosts item1 hosts' in
              (host :: rest, _ ← r; mret true)
          | Throw e => (host :: hosts', Throw e)
          | UB => (host :: hosts', UB)
          end
      | Ok None =>
          let '(rest, r) := update_hosts item1 hosts' in (host :: rest, r)
      | Throw e => (host :: hosts', Throw e)
      | UB => (host :: hosts', UB)
      end
  end.

(** The plugin of a type: the last with that name, the standard one otherwise. *)
Definition find_plugin (plugins : list (list ascii)) (plugin_type : list ascii) : list ascii :=
  if bool_decide (plugin_type <> []) && existsb (string_eqb plugin_type) plugins
  then plugin_type else [].

Definition make_host (plugins : list (list ascii)) (item1 : J) (counter : Z)
    : out (option RemoteProxyHost * Z) :=
  port ← check_int_default item1 (lit "port") 0 true;
  let host_port := wrap 16 port in
  '(local_endpoints, item1) ←
    load_member LocalEndpoint_load new_LocalEndpoint item1 (lit "locals");
  '(remote_endpoints, item1) ←
    load_member RemoteEndpoint_load new_RemoteEndpoint item1 (lit "remotes");
  plugin_type ← check_string_default item1 (lit "type") [] false;
  if negb (bool_decide (remote_endpoints = [])) && negb (bool_decide (local_endpoints = []))
  then
    let '(host, counter) := new_RemoteProxyHost host_port remote_endpoints local_endpoints
                              (find_plugin plugins plugin_type) counter in
    mret (Some host, counter)
  else mret (None, counter).

(** The loop over [hosts]. *)
Fixpoint populate_hosts (plugins : list (list ascii)) (items : list J) : st proxy_global unit :=
  match items with
  | [] => mret tt
  | item1 :: items' =>
      found ← on_hosts (update_hosts item1);
      _ ← (if found : bool then mret tt
           else
             counter ← gets static_remote_count;
             '(host, counter) ← lift (make_host plugins item1 counter);
             _ ← modify (fun g => set_counters (static_local_id g) counter g);
             on_hosts (modify (fun hosts =>
               hosts ++ match host with Some h => [h] | None => [] end)));
      populate_hosts plugins items'
  end.

(** The loop over the other proxies: those that are new are added. *)
Fixpoint uniproxies_loop (items : list J) : st (list LocalEndpoint) unit :=
  match items with
  | [] => mret tt
  | item :: items' =>
      '(ok, ep) ← lift (LocalEndpoint_load item {| l_hostname := []; l_port := 8085 |});
      _ ← modify (fun l =>
        if ok && negb (existsb (fun ep' => LocalEndpoint_eqb ep' ep) l) then l ++ [ep] else l);
      uniproxies_loop items'
  end.

Definition on_uniproxies {A} (m : st (list LocalEndpoint) A) : st proxy_global A := fun g =>
  let '(l, r) := m (uniproxies g) in (set_uniproxies l g, r).

(** One setting at a time, so that those before an error stay. *)
Definition set_name (name : list ascii) (g : proxy_global) : proxy_global :=
  set_settings (m_debug g) (m_activate_timeout g) (m_activate_port g) (accept_short_certs g)
    (min_tls_protocol g) name (m_log_path g) g.
Definition set_debug (b : bool) (g : proxy_global) : proxy_global :=
  set_settings b (m_activate_timeout g) (m_activate_port g) (accept_short_certs g)
    (min_tls_protocol g) (m_name g) (m_log_path g) g.
Definition set_log_path (path : list ascii) (g : proxy_global) : proxy_global :=
  set_settings (m_debug g) (m_activate_timeout g) (m_activate_port g) (accept_short_certs g)
    (min_tls_protocol g) (m_name g) path g.
Definition set_timeout (t : Z) (g : proxy_global) : proxy_global :=
  set_settings (m_debug g) t (m_activate_port g) (accept_short_certs g)
    (min_tls_protocol g) (m_name g) (m_log_path g) g.
Definition set_activate_port (p : Z) (g : proxy_global) : proxy_global :=
  set_settings (m_debug g) (m_activate_timeout g) p (accept_short_certs g)
    (min_tls_protocol g) (m_name g) (m_log_path g) g.
Definition set_min_tls (v : Z) (g : proxy_global) : proxy_global :=
  set_settings (m_debug g) (m_activate_timeout g) (m_activate_port g) (accept_short_certs g)
    v (m_name g) (m_log_path g) g.
Definition set_short_certs (b : bool) (g : proxy_global) : proxy_global :=
  set_settings (m_debug g) (m_activate_timeout g) (m_activate_port g) b
    (min_tls_protocol g) (m_name g) (m_log_path g) g.

(** The time limit of an activation: a number, or the text of a time span. *)
Definition read_activate_timeout (config_obj : J) (old : Z) : out Z :=
  '(found, i) ← check_int config_obj (lit "activate.timeout") None;
  if found : bool then use_int i
  else
    '(found, shelp) ← check_string config_obj (lit "activate.timeout") [];
    mret (if found : bool then parse_duration shelp old else old).

(** The entry [config]. *)
Definition populate_config (config_obj : J) : st proxy_global unit :=
  g ← gets (fun g => g);
  '(_, name) ← lift (check_string config_obj (lit "name") (m_name g));
  _ ← modify (set_name name);
  '(_, debug) ← lift (check_bool config_obj (lit "debug") (m_debug g));
  _ ← modify (set_debug debug);
  '(_, log_path) ← lift (check_string config_obj (lit "log_path") (m_log_path g));
  _ ← modify (set_log_path log_path);
  let proxies := find config_obj (lit "uniproxies") in
  timeout ← lift (read_activate_timeout config_obj (m_activate_timeout g));
  _ ← modify (set_timeout timeout);
  '(_, activate_port) ← lift (check_port config_obj (lit "activate.port") (m_activate_port g));
  _ ← modify (set_activate_port activate_port);
  '(_, min_tls) ← lift (check_int config_obj (lit "min_tls_protocol") (Some (min_tls_protocol g)));
  min_tls ← lift (use_int min_tls);
  _ ← modify (set_min_tls min_tls);
  '(_, short_certs) ← lift (check_bool config_obj (lit "accept_short_certificates")
                              (accept_short_certs g));
  _ ← modify (set_short_certs short_certs);
  _ ← lift (ASSERTE ((min_tls >=? 12) && (min_tls <=? 13)) parse_file_failed
              (lit "Invalid TLS protocol, must be 12 r 13 is: " ++ to_string min_tls));
  if bool_decide (type proxies = is_array) then
    items ← lift (array proxies);
    on_uniproxies (uniproxies_loop items)
  else mret tt.

(** [json_acl] *)
Record json_acl := { acl_hosts : bool; acl_clients : bool; acl_web : bool; acl_config : bool }.
Definition acl_all : json_acl :=
  {| acl_hosts := true; acl_clients := true; acl_web := true; acl_config := true |}.

Definition populate_json (plugins : list (list ascii)) (obj : J) (acl : json_acl) (now : Z)
    : st proxy_global unit :=
  _ ← modify reset;
  obj ← (if acl_clients acl then
           '(v, obj) ← lift (member obj (lit "clients"));
           _ ← (if bool_decide (type v = is_array) then
                  items ← lift (array v); populate_clients items now
                else mret tt);
           mret obj
         else mret obj);
  obj ← (if acl_hosts acl then
           '(v, obj) ← lift (member obj (lit "hosts"));
           _ ← (if bool_decide (type v = is_array) then
                  items ← lift (array v); populate_hosts plugins items
                else mret tt);
           mret obj
         else mret obj);
  obj ← (if acl_web acl then
           '(v, obj) ← lift (member obj (lit "web"));
           _ ← (if bool_decide (type v = is_object) then
                  g ← gets (fun g => g);
                  '(_, port) ← lift (check_port v (lit "port") (m_web_port g));
                  modify (set_web_port port)
                else mret tt);
           mret obj
         else mret obj);
  if acl_config acl then
    '(v, obj) ← lift (member obj (lit "config"));
    if bool_decide (type v = is_object) then populate_config v else mret tt
  else mret tt.

(** ** Must everything be restarted? *)

Fixpoint new_uniproxies (items : list J) (l : list LocalEndpoint) : out bool :=
  match items with
  | [] => mret false
  | item :: items' =>
      '(ok, ep) ← LocalEndpoint_load item new_LocalEndpoint;
      if negb ok then mret true
      else if negb (existsb (fun ep' => LocalEndpoint_eqb ep' ep) l) then mret true
      else new_uniproxies items' l
  end.

Definition is_new_configuration (newobj : J) (g : proxy_global) : out bool :=
  if bool_decide (m_name g = []) then mret true
  else
    '(v, newobj) ← member newobj (lit "config");
    if negb (bool_decide (type v = is_object)) then mret true
    else
      name ← check_string_default newobj (lit "config.name") [] false;
      if negb (string_eqb name (m_name g)) then mret true
      else
        let proxies := find newobj (lit "config.uniproxies") in
        if bool_decide (type proxies = is_array) then
          items ← array proxies; new_uniproxies items (uniproxies g)
        else mret (negb (bool_decide (uniproxies g = []))).

End config.

(** ** Commands *)

(** The hosts' and clients' answers that come from outside: what [pthread_kill]
    says of a thread, by the id of its owner, and the outcome of binding a
    port. *)
Section commands.
Context (ret_host ret_client : Z -> Z) (bind : Z -> out unit).

Fixpoint start_hosts (hosts : list RemoteProxyHost) : list RemoteProxyHost * out unit :=
  match hosts with
  | [] => ([], Ok tt)
  | h :: hosts' =>
      match host_start (ret_host (h_id h)) (bind (h_local_port h)) h with
      | (h, Ok _) => let '(rest, r) := start_hosts hosts' in (h :: rest, r)
      | (h, Throw e) => (h :: hosts', Throw e)
      | (h, UB) => (h :: hosts', UB)
      end
  end.

Fixpoint start_clients (clients : list BaseClient) : list BaseClient * out unit :=
  match clients with
  | [] => ([], Ok tt)
  | c :: clients' =>
      match (if m_active c then client_start (ret_client (m_id c)) c else (c, Ok tt)) with
      | (c, Ok _) => let '(rest, r) := start_clients clients' in (c :: rest, r)
      | (c, Throw e) => (c :: clients', Throw e)
      | (c, UB) => (c :: clients', UB)
      end
  end.

(** [lock], apart from the activation thread. *)
Definition lock : st proxy_global unit :=
  _ ← on_hosts start_hosts; on_clients start_clients.

(** [stopall]: everything is stopped, then both lists are emptied. *)
Definition stopall (g : proxy_global) : proxy_global := set_lists [] [] g.

(** Is a name among the remotes of a host? *)
Definition serves (param : list ascii) (h : RemoteProxyHost) : bool :=
  existsb (fun ep => string_eqb (r_name ep) param) (h_remote_ep h).

(** [host_activate]: the name is put on the activation list. *)
Definition host_activate (param : list ascii) (now : Z) (g : proxy_global) : st world bool :=
  if existsb (serves param) (remotehosts g) then
    _ ← modify (fun w => set_activate (Activation.add now (m_activate_timeout g) param
                                         (m_activate w)) w);
    mret true
  else mret false.

(** The loop of [client_activate]. *)
Fixpoint activate_clients (param sid : list ascii) (now : Z) (clients : list BaseClient)
    : list BaseClient * out bool :=
  match clients with
  | [] => ([], Ok false)
  | c :: clients' =>
      match use_int (from_string sid None) with
      | Ok id =>
          if m_id c =? id then
            match activate param now c with
            | (c, Ok (Some _)) => (c :: clients', Ok true)
            | (c, Ok None) =>
                let '(rest, r) := activate_clients param sid now clients' in (c :: rest, r)
            | (c, Throw e) => (c :: clients', Throw e)
            | (c, UB) => (c :: clients', UB)
            end
          else let '(rest, r) := activate_clients param sid now clients' in (c :: rest, r)
      | Throw e => (c :: clients', Throw e)
      | UB => (c :: clients', UB)
      end
  end.

Definition client_activate (param sid : list ascii) (now : Z) : st proxy_global bool :=
  on_clients (activate_clients param sid now).

(** The loop of [client_set_active]: the first client with this id. *)
Fixpoint set_active_clients (id : Z) (active : bool) (clients : list BaseClient)
    : list BaseClient * out unit :=
  match clients with
  | [] => ([], Ok tt)
  | c :: clients' =>
      match set_active id active (ret_client (m_id c)) c with
      | (c, Ok true) => (c :: clients', Ok tt)
      | (c, Ok false) => let '(rest, r) := set_active_clients id active clients' in (c :: rest, r)
      | (c, Throw e) => (c :: clients', Throw e)
      | (c, UB) => (c :: clients', UB)
      end
  end.

Definition client_set_active (id : Z) (active : bool) : st proxy_global unit :=
  on_clients (set_active_clients id active).

(** The loop of [host_set_active]: every host with this id. *)
Fixpoint set_active_hosts (id : Z) (active : bool) (now : Z) (hosts : list RemoteProxyHost)
    : list RemoteProxyHost * out unit :=
  match hosts with
  | [] => ([], Ok tt)
  | h :: hosts' =>
      match (if h_id h =? id then
               if active then host_start (ret_host id) (bind (h_local_port h)) (set_h_active true h)
               else (host_stop now now (set_h_active false h), Ok tt)
             else (h, Ok tt)) with
      | (h, Ok _) => let '(rest, r) := set_active_hosts id active now hosts' in (h :: rest, r)
      | (h, Throw e) => (h :: hosts', Throw e)
      | (h, UB) => (h :: hosts', UB)
      end
  end.

Definition host_set_active (id : Z) (active : bool) (now : Z) : st proxy_global unit :=
  on_hosts (set_active_hosts id active now).

Definition client_certificate_exists (certname : list ascii) (g : proxy_global) : bool :=
  existsb (certificate_exists certname) (localclients g).

Definition host_certificate_exists (certname : list ascii) (g : proxy_global) : bool :=
  existsb (serves certname) (remotehosts g).

(** [host_active] and [client_active] of [main.cpp]; [from_string] returns the
    number, so the test is whether it is zero. *)
Definition host_active (param id checked : list ascii) (now : Z) : st proxy_global unit :=
  n ← lift (use_int (from_string id None));
  if negb (n =? 0) then host_set_active n (string_eqb checked (lit "true")) now else mret tt.

Definition client_active (param id checked : list ascii) : st proxy_global unit :=
  n ← lift (use_int (from_string id None));
  if negb (n =? 0) then client_set_active n (string_eqb checked (lit "true")) else mret tt.

(** [certificate_delete] of [main.cpp]. *)
Definition certificate_delete `{X509 cert} (writable : list ascii -> bool)
    (certname : list ascii) (g : proxy_global) : st world unit :=
  ok ← call (delete_certificate_file writable my_certs_name certname);
  _ ← (if ok : bool then
         _ ← (if client_certificate_exists certname g then
                _ ← modify (log_add (lit "Found matching client certificate " ++ certname));
                lift (Throw ReloadException)
              else mret tt);
         _ ← (if host_certificate_exists certname g
              then modify (log_add (lit "Found matching host certificate " ++ certname))
              else mret tt);
         call (load_certificate_names my_certs_name)
       else mret false);
  modify (log_add (lit "Completed deleting certificate " ++ certname)).

End commands.

(** ** [host_test] and its mutex *)

(** A mutex as the thread that uses it sees it; unlocking one that is not
    locked is undefined. *)
Definition mutex_lock : st bool unit := fun locked => (true, Ok tt).
Definition mutex_unlock : st bool unit := fun locked =>
  if locked : bool then (false, Ok tt) else (false, UB).

(** [std::lock_guard] around the rest of a function. *)
Definition lock_guard {A} (m : st bool A) : st bool A :=
  _ ← mutex_lock;
  ((fun locked =>
      match m locked with
      | (locked, Ok a) => (_ ← mutex_unlock; mret a) locked
      | (locked, Throw e) => (_ ← mutex_unlock; lift (Throw e)) locked
      | (locked, UB) => (locked, UB)
      end) : st bool A).

(** The state is whether [m_mutex_list] is locked; [test] is the connection test
    of the host. *)
Definition host_test (test : RemoteProxyHost -> out Z) (param : list ascii) (g : proxy_global)
    : st bool Z :=
  lock_guard
    match List.find (serves param) (remotehosts g) with
    | Some host => _ ← mutex_unlock; code ← lift (test host); mret code
    | None => mret 422
    end.

(** ** Lemmas: the difference of two lists of remotes *)

Section lemmas.
Context `{Json J}.
Implicit Types (items : list J) (eps l : list RemoteEndpoint) (h : RemoteProxyHost).

(** Every item loads, as these endpoints. *)
Definition loads items eps : Prop :=
  Forall2 (fun item ep => RemoteEndpoint_load item new_RemoteEndpoint = Ok (true, ep)) items eps.

(** Is an equal endpoint in the list? *)
Definition among l (ep : RemoteEndpoint) : bool := existsb (fun ep' => RemoteEndpoint_eqb ep ep') l.

Lemma eqb_refl ep : RemoteEndpoint_eqb ep ep = true.
Proof. by apply RemoteEndpoint_eqb_spec. Qed.

Lemma among_spec l ep : among l ep = true <-> exists e, e ∈ l /\ RemoteEndpoint_equiv ep e.
Proof.
  unfold among. rewrite existsb_exists. unfold RemoteEndpoint_equiv.
  split; intros (e & He & E); exists e; (split; [by apply list_elem_of_In|done]).
Qed.

Lemma among_equiv l ep1 ep2 : RemoteEndpoint_equiv ep1 ep2 -> among l ep1 = among l ep2.
Proof.
  intros E. unfold among. induction l as [|e l IH]; [done|]. cbn. by rewrite IH, E.
Qed.

Lemma load_ASSERTD item (k : RemoteEndpoint -> out (list RemoteEndpoint)) a :
  ('(ok, ep) ← RemoteEndpoint_load item new_RemoteEndpoint;
   _ ← ASSERTD ok load_failed; k ep) = Ok a ->
  exists ep, RemoteEndpoint_load item new_RemoteEndpoint = Ok (true, ep) /\ k ep = Ok a.
Proof.
  intros ([[] ep] & El & E)%bind_Ok_inv; [|done]. exists ep. by split.
Qed.

Lemma added_loop_inv l items acc a :
  added_loop l items acc = Ok a ->
  exists eps, loads items eps /\ a = acc ++ List.filter (fun ep => negb (among l ep)) eps.
Proof.
  revert acc. induction items as [|item items IH]; intros acc E; cbn [added_loop] in E.
  - injection E as <-. exists []. rewrite app_nil_r. split; [constructor|done].
  - apply (load_ASSERTD item (fun ep => added_loop l items _)) in E as (ep & El & E).
    apply IH in E as (eps & Hl & ->). exists (ep :: eps). split; [by constructor|].
    cbn [List.filter]. fold (among l ep). destruct (among l ep); [done|].
    cbn [negb]. by rewrite <- app_assoc.
Qed.

Lemma hit_loop_spec r items eps b :
  loads items eps -> hit_loop r items b = Ok (b || among eps r).
Proof.
  intros Hl. revert b. induction Hl as [|item ep items eps El _ IH]; intros b; cbn [hit_loop].
  - by rewrite orb_false_r.
  - rewrite El. cbn. rewrite IH. fold (among eps r).
    by destruct (RemoteEndpoint_eqb r ep), b.
Qed.

Lemma removed_loop_spec l items eps acc :
  loads items eps ->
  removed_loop l items acc = Ok (acc ++ List.filter (fun ep => negb (among eps ep)) l).
Proof.
  intros Hl. revert acc. induction l as [|r l IH]; intros acc; cbn [removed_loop List.filter].
  - by rewrite app_nil_r.
  - rewrite (hit_loop_spec _ _ eps), bind_Ok, IH by done. cbn [orb].
    destruct (among eps r); [done|]. cbn [negb]. by rewrite <- app_assoc.
Qed.

Lemma push_all_app l eps : push_all l eps = eps ++ l.
Proof.
  revert eps. induction l as [|e l IH]; intros eps; cbn [push_all].
  - by rewrite app_nil_r.
  - by rewrite IH, <- app_assoc.
Qed.

Lemma erase_first_skip (p : RemoteEndpoint -> bool) pre x post :
  Forall (fun e => p e = false) pre -> p x = true ->
  erase_first p (pre ++ x :: post) = pre ++ post.
Proof.
  induction 1 as [|e pre He _ IH]; intros Hx; cbn [app erase_first].
  - by rewrite Hx.
  - rewrite He. f_equal. by apply IH.
Qed.

(** Erasing what is not wanted leaves what is wanted. *)
Lemma erase_each_filter (P : RemoteEndpoint -> bool) pre l post :
  (forall e1 e2, RemoteEndpoint_equiv e1 e2 -> P e1 = P e2) ->
  Forall (fun e => P e = true) pre ->
  erase_each (List.filter (fun e => negb (P e)) l) (pre ++ l ++ post)
  = pre ++ List.filter P l ++ post.
Proof.
  intros HP. revert pre. induction l as [|x l IH]; intros pre Hpre; cbn [List.filter]; [done|].
  destruct (P x) eqn:Ex; cbn [negb].
  - change ((x :: l) ++ post) with ([x] ++ l ++ post).
    change ((x :: List.filter P l) ++ post) with ([x] ++ List.filter P l ++ post).
    rewrite !(app_assoc pre [x]). apply IH. apply Forall_app. split; [done|by constructor].
  - cbn [erase_each app]. rewrite erase_first_skip; [by apply IH| |apply eqb_refl].
    eapply Forall_impl; [|exact Hpre]. cbn. intros e He.
    destruct (RemoteEndpoint_eqb e x) eqn:E; [|done].
    rewrite (HP e x) in He; [congruence|done].
Qed.

(** ** Lemmas: [is_same] *)

(** What makes the answer [None] depends on the ports only. *)
Lemma is_same_None_port h h' item :
  h_local_port h' = h_local_port h -> is_same h item = Ok None -> is_same h' item = Ok None.
Proof.
  unfold is_same. intros -> (x & -> & E)%bind_Ok_inv. rewrite bind_Ok. destruct x as [b p].
  destruct (negb (h_local_port h =? p)); [done|]. destruct (p >? 0); [|done].
  apply bind_Ok_inv in E as (? & _ & E). apply bind_Ok_inv in E as (? & _ & E).
  apply bind_Ok_inv in E as (? & _ & E). apply bind_Ok_inv in E as (? & _ & E).
  apply bind_Ok_inv in E as (? & _ & E). by apply bind_Ok_inv in E as (? & _ & E).
Qed.

Lemma is_same_inv h item d :
  is_same h item = Ok (Some d) ->
  (exists b, check_port item (lit "port") 0 = Ok (b, h_local_port h)) /\ 0 < h_local_port h /\
  exists remotes eps, array (find item (lit "remotes")) = Ok remotes /\ loads remotes eps /\
    rem_added d = List.filter (fun ep => negb (among (h_remote_ep h) ep)) eps /\
    rem_removed d = List.filter (fun ep => negb (among eps ep)) (h_remote_ep h).
Proof.
  unfold is_same. intros ([b p] & Ep & E)%bind_Ok_inv.
  destruct (Z.eqb_spec (h_local_port h) p) as [<-|]; [|done]. cbn [negb] in E.
  rewrite Z.gtb_ltb in E. destruct (Z.ltb_spec 0 (h_local_port h)); [|done].
  split; [by exists b|]. split; [done|].
  apply bind_Ok_inv in E as (? & _ & E). apply bind_Ok_inv in E as (remotes & Er & E).
  apply bind_Ok_inv in E as (a & Ea & E). apply added_loop_inv in Ea as (eps & Hl & ->).
  apply bind_Ok_inv in E as (r & Ed & E). rewrite (removed_loop_spec _ _ eps) in Ed by done.
  injection Ed as <-. apply bind_Ok_inv in E as (? & _ & E).
  apply bind_Ok_inv in E as (? & _ & E). injection E as <-.
  by exists remotes, eps.
Qed.

Lemma is_same_other_port h item b p :
  check_port item (lit "port") 0 = Ok (b, p) -> p <> h_local_port h -> is_same h item = Ok None.
Proof.
  intros Ep Hp. unfold is_same. rewrite Ep, bind_Ok.
  by rewrite (proj2 (Z.eqb_neq (h_local_port h) p)).
Qed.

(** The host brought up to date. *)
Definition synced (d : difference) h : RemoteProxyHost :=
  remove_remotes (rem_removed d) (add_remotes (rem_added d) h).

Lemma synced_remote_ep h eps d :
  rem_added d = List.filter (fun ep => negb (among (h_remote_ep h) ep)) eps ->
  rem_removed d = List.filter (fun ep => negb (among eps ep)) (h_remote_ep h) ->
  h_remote_ep (synced d h) =
  List.filter (among eps) (h_remote_ep h)
  ++ List.filter (fun ep => negb (among (h_remote_ep h) ep)) eps.
Proof.
  intros Ha Hr. cbn [synced remove_remotes add_remotes set_remote_ep h_remote_ep].
  rewrite push_all_app, Hr, Ha.
  apply (erase_each_filter (among eps) []); [|constructor].
  apply among_equiv.
Qed.

Lemma among_synced l eps ep :
  among (List.filter (among eps) l ++ List.filter (fun e => negb (among l e)) eps) ep = among eps ep.
Proof.
  apply eq_true_iff_eq. rewrite !among_spec. split.
  - intros (e & [He|He]%elem_of_app & E); apply list_elem_of_In, filter_In in He as [He Hp].
    + apply among_spec in Hp as (e' & He' & E'). exists e'. split; [done|by transitivity e].
    + exists e. split; [by apply list_elem_of_In|done].
  - intros (e & He & E). destruct (among l e) eqn:Hl.
    + apply among_spec in Hl as (o & Ho & E'). exists o. split; [|by transitivity e].
      apply elem_of_app. left. apply list_elem_of_In, filter_In.
      split; [by apply list_elem_of_In|]. apply among_spec. exists e. by split.
    + exists e. split; [|done]. apply elem_of_app. right.
      apply list_elem_of_In, filter_In. split; [by apply list_elem_of_In|by rewrite Hl].
Qed.

End lemmas.

(** ** Lemmas: a reload *)

Section reload.
Context `{Json J}.
Context (plugins : list (list ascii)).
Implicit Types (items : list J) (h : RemoteProxyHost) (hosts : list RemoteProxyHost).

(** The ports of the items are there and all different. *)
Definition ports_ok items (ports : list Z) : Prop :=
  Forall2 (fun item p => exists b, check_port item (lit "port") 0 = Ok (b, p)) items ports /\
  NoDup ports.

Definition unchanged (d : difference) : Prop := param_changed d = false /\ locals_changed d = false.

(** How the items see a host: none is the same, or just one is, unchanged. *)
Definition other h items : Prop := Forall (fun item => is_same h item = Ok None) items.

Definition expected h items : Prop :=
  other h items \/
  exists pre item post d, items = pre ++ item :: post /\ other h pre /\ other h post /\
    is_same h item = Ok (Some d) /\ unchanged d.

(** What an item does to a host. *)
Definition upd h (item : J) : RemoteProxyHost :=
  match is_same h item with Ok (Some d) => synced d h | _ => h end.

Lemma update_hosts_spec item hosts :
  Forall (fun h => is_same h item = Ok None \/
            exists d, is_same h item = Ok (Some d) /\ unchanged d) hosts ->
  exists found, update_hosts item hosts = (map (fun h => upd h item) hosts, Ok found).
Proof.
  induction 1 as [|h hosts Hh _ [found IH]]; cbn [update_hosts map]; [by eexists|].
  unfold upd at 1. destruct Hh as [->|(d & -> & Hd1 & Hd2)].
  - rewrite IH. by eexists.
  - rewrite Hd1, Hd2, IH. by eexists.
Qed.

Lemma upd_port h item : h_local_port (upd h item) = h_local_port h.
Proof. unfold upd. by destruct (is_same h item) as [[d|]|e|]. Qed.

Lemma other_port h h' items :
  h_local_port h' = h_local_port h -> other h items -> other h' items.
Proof. intros Hp. apply Forall_impl. intros item. by apply is_same_None_port. Qed.

Lemma expected_tail h item items : expected h (item :: items) -> expected (upd h item) items.
Proof.
  intros [Ho|(pre & item' & post & d & E & Hpre & Hpost & Hs & Hd)].
  - left. apply (other_port h); [apply upd_port|]. by inversion Ho.
  - destruct pre as [|x pre]; injection E as -> ->.
    + left. apply (other_port h); [apply upd_port|done].
    + assert (is_same h x = Ok None) as Hx by by inversion Hpre.
      assert (upd h x = h) as -> by (unfold upd; by rewrite Hx).
      right. exists pre, item', post, d. split; [done|]. split; [by inversion Hpre|done].
Qed.

Lemma expected_head h item items :
  expected h (item :: items) ->
  is_same h item = Ok None \/ exists d, is_same h item = Ok (Some d) /\ unchanged d.
Proof.
  intros [Ho|(pre & item' & post & d & E & Hpre & _ & Hs & Hd)].
  - left. by inversion Ho.
  - destruct pre as [|x pre]; injection E as -> ->; [right; by exists d|].
    left. by inversion Hpre.
Qed.

(** After the loop over the items a host is what its own item made of it. *)
Lemma foldl_upd_other h items : other h items -> foldl upd h items = h.
Proof.
  induction 1 as [|x items Hx _ IH]; [done|]. cbn. unfold upd at 2. by rewrite Hx.
Qed.

Lemma foldl_upd_synced h pre item post d :
  other h pre -> other h post -> is_same h item = Ok (Some d) ->
  foldl upd h (pre ++ item :: post) = synced d h.
Proof.
  intros Hpre Hpost Hs. rewrite foldl_app, (foldl_upd_other h pre) by done. cbn [foldl].
  unfold upd at 2. rewrite Hs. apply foldl_upd_other. by apply (other_port h).
Qed.

(** The port a new host gets is the one [check_port] reads. *)
Lemma port_default item b p n :
  check_port item (lit "port") 0 = Ok (b, p) ->
  check_int_default item (lit "port") 0 true = Ok n -> p = wrap 16 n.
Proof.
  unfold check_port, check_int, check_int_default.
  change (zlen (lit "port") >? 0) with true. cbv iota.
  destruct (type (find item (lit "port"))); intros E1 E2;
    try (injection E1 as _ <-; injection E2 as <-; done).
  - rewrite E2 in E1. by injection E1 as _ <-.
  - destruct (get_string (find item (lit "port"))) as [sz|e|]; [|done..].
    cbn in E1, E2. unfold from_string in *.
    destruct (skip_space sz) as [|c s]; [done|].
    injection E1 as _ <-. by injection E2 as <-.
Qed.

Lemma make_host_port item c host c' :
  make_host plugins item c = Ok (Some host, c') ->
  exists n, check_int_default item (lit "port") 0 true = Ok n /\ h_local_port host = wrap 16 n.
Proof.
  unfold make_host. intros (n & En & E)%bind_Ok_inv.
  apply bind_Ok_inv in E as ([l i1] & _ & E). apply bind_Ok_inv in E as ([r i2] & _ & E).
  apply bind_Ok_inv in E as (s & _ & E). destruct (_ && _); [|done].
  exists n. split; [done|]. cbn in E. by injection E as <- _.
Qed.

Lemma ports_ok_cons item items ports :
  ports_ok (item :: items) ports ->
  exists b p ports', check_port item (lit "port") 0 = Ok (b, p) /\ ports_ok items ports' /\
    Forall (fun item' => exists b' p', check_port item' (lit "port") 0 = Ok (b', p') /\ p' <> p) items.
Proof.
  intros [Hf Hn]. inversion Hf as [|? p ? ports' (b & Hp) Hf']; subst.
  apply list.NoDup_cons in Hn as [Hnin Hn]. exists b, p, ports'.
  split; [done|]. split; [by split|].
  clear Hf Hp b. induction Hf' as [|x q items ports' (b & Hq) _ IH]; constructor.
  - exists b, q. split; [done|]. set_solver.
  - apply IH; [set_solver|]. by apply list.NoDup_cons in Hn as [_ Hn].
Qed.

Lemma update_expected item items hosts :
  Forall (fun h => expected h (item :: items)) hosts ->
  (exists found, update_hosts item hosts = (map (fun h => upd h item) hosts, Ok found)) /\
  Forall (fun h => expected h items) (map (fun h => upd h item) hosts).
Proof.
  intros Hall. split.
  - apply update_hosts_spec. eapply Forall_impl; [|exact Hall]. intros h. apply expected_head.
  - apply Forall_map. eapply Forall_impl; [|exact Hall]. intros h. apply expected_tail.
Qed.

(** The whole loop: it only fails where an item makes no host for a reason of
    its own, and otherwise keeps every host at its place. *)
Lemma populate_hosts_spec items ports g :
  ports_ok items ports -> Forall (fun h => expected h items) (remotehosts g) ->
  let '(g', r) := populate_hosts plugins items g in
  match r with
  | Ok _ => forall k h, remotehosts g !! k = Some h ->
              remotehosts g' !! k = Some (foldl upd h items)
  | Throw e => exists item c, item ∈ items /\ make_host plugins item c = Throw e
  | UB => exists item c, item ∈ items /\ make_host plugins item c = UB
  end.
Proof.
  revert ports g. induction items as [|item items IH]; intros ports g Hp Hall;
    [exact (fun k h Hk => Hk)|cbn [populate_hosts]].
  destruct (ports_ok_cons item items ports Hp) as (b & p & ports' & Ep & Hp' & Hothers).
  destruct (update_expected item items (remotehosts g) Hall) as [(found & Eu) Hall'].
  set (g1 := set_lists (map (fun h => upd h item) (remotehosts g)) (localclients g) g).
  erewrite st_bind_Ok; [|unfold on_hosts; rewrite Eu; done]. fold g1.
  assert (forall g2 extra, remotehosts g2 = remotehosts g1 ++ extra ->
            Forall (fun h => expected h items) extra ->
            let '(g', r) := populate_hosts plugins items g2 in
            match r with
            | Ok _ => forall k h, remotehosts g !! k = Some h ->
                remotehosts g' !! k = Some (foldl upd h (item :: items))
            | Throw e => exists item' c, item' ∈ item :: items /\ make_host plugins item' c = Throw e
            | UB => exists item' c, item' ∈ item :: items /\ make_host plugins item' c = UB
            end) as Hrest.
  { intros g2 extra E2 Hextra.
    assert (Forall (fun h => expected h items) (remotehosts g2)) as Hall2
      by (rewrite E2; by apply Forall_app).
    specialize (IH ports' g2 Hp' Hall2).
    destruct (populate_hosts plugins items g2) as [g' [[]|e|]].
    - intros k h Hk. apply IH. rewrite E2. apply lookup_app_l_Some. cbn.
      change (map ?f ?l) with (f <$> l). by rewrite list_lookup_fmap, Hk.
    - destruct IH as (i & c & Hi & E). exists i, c. split; [set_solver|done].
    - destruct IH as (i & c & Hi & E). exists i, c. split; [set_solver|done]. }
  destruct found.
  - rewrite (st_bind_Ok _ _ g1 g1 tt) by done.
    apply (Hrest g1 []); [by rewrite app_nil_r|constructor].
  - destruct (make_host plugins item (static_remote_count g1)) as [[host c]|e|] eqn:Em.
    + set (extra := match host with Some h => [h] | None => [] end).
      erewrite st_bind_Ok; [|rewrite st_bind_gets; unfold lift; rewrite Em; done].
      apply (Hrest _ extra); [done|]. subst extra. destruct host as [host|]; [|constructor].
      constructor; [|constructor]. left.
      destruct (make_host_port _ _ _ _ Em) as (n & En & Hport).
      pose proof (port_default _ _ _ _ Ep En) as ->.
      eapply Forall_impl; [|exact Hothers]. intros item' (b' & p' & Ep' & Hne).
      apply (is_same_other_port _ _ b' p' Ep'). congruence.
    + erewrite st_bind_Throw; [|rewrite st_bind_gets; unfold lift; rewrite Em; done].
      exists item, (static_remote_count g1). split; [set_solver|done].
    + unfold mbind at 1, st_bind at 1. rewrite st_bind_gets. unfold lift. rewrite Em.
      exists item, (static_remote_count g1). split; [set_solver|done].
Qed.

(** What [keep_loop] answers for a host that no item is the same as. *)
Lemma keep_loop_other h items keep removed :
  other h items -> keep_loop h items keep removed = Ok (keep, removed).
Proof. induction 1 as [|item items Hi _ IH]; [done|]. cbn [keep_loop]. by rewrite Hi. Qed.

Lemma keep_loop_ports items ports h keep removed :
  ports_ok items ports ->
  keep_loop h items false [] = Ok (keep, removed) ->
  other h items /\ keep = false \/
  exists pre item post d, items = pre ++ item :: post /\ other h pre /\ other h post /\
    is_same h item = Ok (Some d) /\ removed = rem_removed d /\
    keep = negb (param_changed d || locals_changed d).
Proof.
  revert ports. induction items as [|item items IH]; intros ports Hp; cbn [keep_loop].
  - intros E. injection E as <- <-. left. by split; [constructor|].
  - destruct (ports_ok_cons item items ports Hp) as (b & p & ports' & Ep & Hp' & Hothers).
    intros ([d|] & Es & E)%bind_Ok_inv.
    + right. destruct (is_same_inv _ _ _ Es) as ((b' & Eb) & _).
      assert (other h items) as Ho.
      { eapply Forall_impl; [|exact Hothers]. intros x (b'' & p' & Ep' & Hne).
        apply (is_same_other_port _ _ b'' p' Ep'). congruence. }
      rewrite keep_loop_other in E by done. injection E as <- <-.
      exists [], item, items, d. by split_and!; [|constructor|..].
    + destruct (IH ports' Hp' E) as [[Ho ->]|(pre & x & post & d & -> & Hpre & H')].
      * left. by split; [constructor|].
      * right. exists (item :: pre), x, post, d. split; [done|]. by split; [constructor|].
Qed.

(** The hosts that stay, with the sessions they keep. *)
Definition survivor items h : option RemoteProxyHost :=
  match keep_loop h items false [] with
  | Ok (true, removed) => Some (snd (remove_any removed h))
  | _ => None
  end.

Lemma unpopulate_hosts_spec (obj v : J) items hosts hosts' :
  member obj (lit "hosts") = Ok (v, obj) -> type v = is_array -> array v = Ok items ->
  unpopulate_hosts obj hosts = (hosts', Ok tt) ->
  hosts' = omap (survivor items) hosts /\
  Forall (fun h => exists r, keep_loop h items false [] = Ok r) hosts.
Proof.
  intros Hm Ht Ha. revert hosts'. induction hosts as [|h hosts IH]; intros hosts' E.
  - cbn in E. by injection E as <-.
  - cbn [unpopulate_hosts] in E. unfold keep_host in E.
    rewrite Hm, bind_Ok, bool_decide_true, Ha, bind_Ok in E by done.
    cbn [omap list_omap]. unfold survivor at 1.
    destruct (keep_loop h items false []) as [[keep removed]|e|] eqn:Ek; [|done..].
    rewrite bind_Ok in E. cbn [mret out_ret] in E.
    destruct (unpopulate_hosts obj hosts) as [rest r]. injection E as <- ->.
    destruct (IH rest eq_refl) as [-> Hall]. split; [by destruct keep|].
    constructor; [by eexists|done].
Qed.

Lemma keep_clients_spec removed cs c :
  c ∈ keep_clients removed cs <->
  c ∈ cs /\ existsb (fun ep => RemoteEndpoint_eqb (c_endpoint c) ep) removed = false.
Proof.
  induction cs as [|x cs IH]; cbn [keep_clients]; [set_solver|].
  destruct (existsb (fun ep => RemoteEndpoint_eqb (c_endpoint x) ep) removed) eqn:E;
    rewrite !elem_of_cons.
  - rewrite IH. split; [naive_solver|]. intros [[->|Hc] Hr]; [congruence|done].
  - rewrite IH. naive_solver.
Qed.

(** A survivor is the same host for some item, unchanged, and what it keeps are
    the sessions of the remotes that are not gone. *)
Lemma survivor_inv items ports h h1 :
  ports_ok items ports -> survivor items h = Some h1 ->
  exists pre item post d, items = pre ++ item :: post /\ other h pre /\ other h post /\
    is_same h item = Ok (Some d) /\ unchanged d /\ h1 = snd (remove_any (rem_removed d) h).
Proof.
  unfold survivor. intros Hp E.
  destruct (keep_loop h items false []) as [[[] removed]|e|] eqn:Ek; [|done..].
  injection E as <-.
  destruct (keep_loop_ports _ _ _ _ _ Hp Ek) as [[_ ?]|(pre & item & post & d & -> & Hpre & Hpost & Hs & -> & Hk)];
    [done|].
  exists pre, item, post, d. split_and!; try done.
  symmetry in Hk. by apply negb_true_iff, orb_false_iff in Hk.
Qed.

(** The comparison does not look at the sessions. *)
Lemma is_same_clients cs h item : is_same (set_clients cs h) item = is_same h item.
Proof. done. Qed.

Lemma survivor_expected items ports h h1 :
  ports_ok items ports -> survivor items h = Some h1 -> expected h1 items.
Proof.
  intros Hp E.
  destruct (survivor_inv _ _ _ _ Hp E) as (pre & item & post & d & -> & Hpre & Hpost & Hs & Hd & ->).
  right. exists pre, item, post, d. split_and!; try done.
Qed.

(** Which sessions go. *)
Lemma dropped_spec (l eps : list RemoteEndpoint) ep :
  existsb (fun e => RemoteEndpoint_eqb ep e) (List.filter (fun e => negb (among eps e)) l) = false <->
  forall e, e ∈ l -> RemoteEndpoint_equiv ep e -> among eps ep = true.
Proof.
  rewrite <- not_true_iff_false, existsb_exists. split.
  - intros Hn e He E. destruct (among eps ep) eqn:Ea; [done|]. exfalso. apply Hn.
    exists e. split; [|exact E]. apply filter_In. split; [by apply list_elem_of_In|].
    by rewrite <- (among_equiv eps ep e E), Ea.
  - intros Hall (e & [He Hn]%filter_In & E). apply list_elem_of_In in He.
    rewrite <- (among_equiv eps ep e E), (Hall e He E) in Hn. done.
Qed.

Lemma keep_loop_unchanged items ports h keep removed item d :
  ports_ok items ports -> keep_loop h items false [] = Ok (keep, removed) ->
  item ∈ items -> is_same h item = Ok (Some d) -> unchanged d -> keep = true.
Proof.
  intros Hp Ek Hi Hs [Hd1 Hd2]. apply list_elem_of_In in Hi.
  destruct (keep_loop_ports _ _ _ _ _ Hp Ek) as [[Ho _]|(pre & x & post & d' & -> & Hpre & Hpost & Hs' & _ & ->)].
  - unfold other in Ho. rewrite List.Forall_forall in Ho. rewrite (Ho item Hi) in Hs. done.
  - unfold other in Hpre, Hpost. rewrite List.Forall_forall in Hpre, Hpost.
    apply in_app_or in Hi as [Hi|[<-|Hi]].
    + by rewrite (Hpre item Hi) in Hs.
    + rewrite Hs in Hs'. injection Hs' as <-. by rewrite Hd1, Hd2.
    + by rewrite (Hpost item Hi) in Hs.
Qed.

(** The remotes of an item. *)
Definition item_remotes (item : J) eps : Prop :=
  exists remotes, array (find item (lit "remotes")) = Ok remotes /\ loads remotes eps.

End reload.

(** ** Lemmas: the mutex *)

Lemma lock_guard_UB {A} (m : st bool A) locked :
  snd (lock_guard m locked) = UB <->
  snd (m true) = UB \/ snd (m true) <> UB /\ fst (m true) = false.
Proof.
  unfold lock_guard, mutex_lock, mbind, st_bind. cbn.
  destruct (m true) as [[] [a|e|]]; cbn; intuition congruence.
Qed.

(** ** Lemmas: the other proxies *)

Section uniproxies.
Context `{Json J}.
Implicit Types (l : list LocalEndpoint) (item : J).

(** An endpoint that loads has its port from the item. *)
Lemma LocalEndpoint_load_port item ep port :
  LocalEndpoint_load item new_LocalEndpoint = Ok (true, ep) ->
  LocalEndpoint_load item {| l_hostname := []; l_port := port |} = Ok (true, ep).
Proof.
  unfold LocalEndpoint_load. destruct (bool_decide _); [|done]. cbn [l_port l_hostname].
  intros ([b p] & Ep & E)%bind_Ok_inv.
  assert (0 < p) as Hp.
  { apply bind_Ok_inv in E as ([? ?] & _ & E). injection E as E _.
    rewrite Z.gtb_ltb in E. by apply Z.ltb_lt in E. }
  enough (check_port item (lit "port") port = Ok (b, p)) as -> by (by rewrite bind_Ok).
  revert Ep. unfold check_port, check_int. cbn [new_LocalEndpoint l_port].
  change (zlen (lit "port") >? 0) with true. cbv iota.
  destruct (type (find item (lit "port"))); try (intros E'; injection E' as _ <-; lia).
  - by destruct (get_int (find item (lit "port"))); rewrite ?bind_Ok.
  - by destruct (get_string (find item (lit "port"))); rewrite ?bind_Ok.
Qed.

Lemma new_uniproxies_false items l :
  new_uniproxies items l = Ok false <->
  Forall (fun item => exists ep, LocalEndpoint_load item new_LocalEndpoint = Ok (true, ep) /\
            exists ep', ep' ∈ l /\ LocalEndpoint_eqb ep' ep = true) items.
Proof.
  induction items as [|item items IH]; cbn [new_uniproxies].
  - by split; [constructor|].
  - rewrite Forall_cons_iff, <- IH.
    destruct (LocalEndpoint_load item new_LocalEndpoint) as [[ok ep]|e|] eqn:El; cycle 1.
    { split; [done|]. by intros [(? & ? & _) _]. }
    { split; [done|]. by intros [(? & ? & _) _]. }
    rewrite bind_Ok. destruct ok; cbn [negb]; cycle 1.
    { split; [done|]. by intros [(? & ? & _) _]. }
    destruct (existsb (fun ep' => LocalEndpoint_eqb ep' ep) l) eqn:Ex; cbn [negb].
    + split; [|tauto]. intros Hr. split; [|done]. exists ep. split; [done|].
      apply existsb_exists in Ex as (ep' & Hin & Heq). exists ep'.
      by split; [apply list_elem_of_In|].
    + split; [done|]. intros [(ep1 & E1 & ep' & Hin & Heq) _]. exfalso.
      injection E1 as <-. apply not_true_iff_false in Ex. apply Ex, existsb_exists.
      exists ep'. by split; [apply list_elem_of_In|].
Qed.

Lemma uniproxies_loop_known items l :
  Forall (fun item => exists ep, LocalEndpoint_load item new_LocalEndpoint = Ok (true, ep) /\
            exists ep', ep' ∈ l /\ LocalEndpoint_eqb ep' ep = true) items ->
  uniproxies_loop items l = (l, Ok tt).
Proof.
  induction 1 as [|item items (ep & El & ep' & Hin & Heq) _ IH]; cbn [uniproxies_loop]; [done|].
  rewrite (LocalEndpoint_load_port _ _ _ El), st_bind_lift, st_bind_modify.
  assert (existsb (fun ep' => LocalEndpoint_eqb ep' ep) l = true) as ->; [|done].
  apply existsb_exists. exists ep'. by split; [apply list_elem_of_In|].
Qed.

End uniproxies.

(** ** Properties *)


(** A configuration with one host that has lost the remote A and got B. *)
Definition remote_item (name : list ascii) : tree := Object [(lit "name", Str name)].

Definition host_item : tree :=
  Object [(lit "port", Number 8750);
          (lit "remotes", Array [remote_item (lit "K"); remote_item (lit "B")]);
          (lit "locals", Array [Object [(lit "hostname", Str (lit "h")); (lit "port", Number 1)]])].

Definition hosts_obj : tree := Object [(lit "hosts", Array [host_item])].

Definition remote (name : list ascii) : RemoteEndpoint :=
  {| r_port := 0; r_name := name; r_hostname := []; r_username := []; r_password := [] |}.

Definition session_of (name : list ascii) : RemoteProxyClient :=
  {| c_id := 0; c_endpoint := remote name; c_thread_ended := never; c_stopped := never |}.

Definition running_host (names : list (list ascii)) : RemoteProxyHost :=
  set_clients (map session_of names)
    (fst (new_RemoteProxyHost 8750 [remote (lit "A"); remote (lit "K")]
            [{| l_hostname := lit "h"; l_port := 1 |}] [] 0)).

Definition kept_host : RemoteProxyHost := running_host [lit "K"].

Definition after_unpopulate : proxy_global := set_lists [kept_host] [] new_proxy_global.

Lemma host_item_port : ports_ok [host_item] [8750].
Proof.
  split; [|apply NoDup_singleton].
  constructor; [|constructor]. exists true. by vm_compute.
Qed.


(** Taking down what a new configuration does not have: a host stays exactly
    when some entry has its port, its plugin type and its local systems; a host
    that stays is the same but for its sessions, of which it loses exactly those
    whose endpoint was one of its remotes and is not one of the entry's. *)
Theorem unpopulate_hosts_sessions `{Json J} (obj v : J) items ports hosts hosts' :
  member obj (lit "hosts") = Ok (v, obj) -> type v = is_array -> array v = Ok items ->
  ports_ok items ports -> unpopulate_hosts obj hosts = (hosts', Ok tt) ->
  (forall h1, h1 ∈ hosts' ->
     exists h0 item d eps, h0 ∈ hosts /\ item ∈ items /\
       is_same h0 item = Ok (Some d) /\ unchanged d /\ item_remotes item eps /\
       h1 = set_clients (h_clients h1) h0 /\
       forall c, c ∈ h_clients h1 <-> c ∈ h_clients h0 /\
         (forall e, e ∈ h_remote_ep h0 -> RemoteEndpoint_equiv (c_endpoint c) e ->
                    among eps (c_endpoint c) = true)) /\
  (forall h0 item d, h0 ∈ hosts -> item ∈ items -> is_same h0 item = Ok (Some d) -> unchanged d ->
     exists h1, h1 ∈ hosts' /\ h1 = set_clients (h_clients h1) h0).
Proof.
  intros Hm Ht Ha Hp Hun.
  destruct (unpopulate_hosts_spec _ _ _ _ _ Hm Ht Ha Hun) as [-> Hall]. split.
  - intros h1 (h0 & Hin & E)%list_elem_of_omap.
    destruct (survivor_inv _ _ _ _ Hp E) as (pre & item & post & d & -> & _ & _ & Hs & Hd & ->).
    destruct (is_same_inv h0 item d Hs) as (_ & _ & remotes & eps & Er & Hl & _ & Hrem).
    exists h0, item, d, eps. split; [done|]. split; [set_solver|]. split; [done|]. split; [done|].
    split; [by exists remotes|]. split; [by destruct h0|].
    intros c. cbn [remove_any snd set_clients h_clients]. rewrite keep_clients_spec, Hrem.
    by rewrite dropped_spec.
  - intros h0 item d Hin Hi Hs Hd.
    assert (exists r, keep_loop h0 items false [] = Ok r) as [[keep removed] Ek].
    { rewrite List.Forall_forall in Hall. by apply Hall, list_elem_of_In. }
    assert (keep = true) as -> by by apply (keep_loop_unchanged _ _ _ _ _ _ _ Hp Ek Hi Hs Hd).
    exists (snd (remove_any removed h0)). split; [|by destruct h0].
    apply list_elem_of_omap. exists h0. split; [done|]. unfold survivor. by rewrite Ek.
Qed.

Definition difference_AB : difference :=
  {| param_changed := false; locals_changed := false;
     rem_added := [remote (lit "B")]; rem_removed := [remote (lit "A")] |}.

Lemma unpopulate_hosts_sessions_witness :
  snd (unpopulate_hosts hosts_obj [running_host [lit "A"; lit "K"]]) = Ok tt /\
  exists h1, h1 ∈ fst (unpopulate_hosts hosts_obj [running_host [lit "A"; lit "K"]]) /\
    h1 = set_clients (h_clients h1) (running_host [lit "A"; lit "K"]).
Proof.
  split; [vm_compute; reflexivity|].
  apply (unpopulate_hosts_sessions hosts_obj (Array [host_item]) [host_item] [8750]
           [running_host [lit "A"; lit "K"]]
           (fst (unpopulate_hosts hosts_obj [running_host [lit "A"; lit "K"]])))
    with (item := host_item) (d := difference_AB).
  - reflexivity.
  - reflexivity.
  - reflexivity.
  - exact host_item_port.
  - vm_compute. reflexivity.
  - apply list_elem_of_singleton. reflexivity.
  - apply list_elem_of_singleton. reflexivity.
  - vm_compute. reflexivity.
  - split; reflexivity.
Defined.

(** Testing a host unlocks the list mutex twice, which is undefined, exactly
    when some host serves the name, whatever the test of the connection says; a
    name no host serves is answered with status 422. *)
Theorem host_test_UB_iff test param g :
  (snd (host_test test param g false) = UB <-> exists h, h ∈ remotehosts g /\ serves param h = true) /\
  ((forall h, h ∈ remotehosts g -> serves param h = false) ->
   host_test test param g false = (false, Ok 422)).
Proof.
  unfold host_test. split.
  - rewrite lock_guard_UB. destruct (List.find (serves param) (remotehosts g)) as [h|] eqn:E.
    + apply find_some in E as [Hin Hs].
      split; [intros _; exists h; by split; [apply list_elem_of_In|]|intros _].
      unfold mutex_unlock, mbind, st_bind, lift. cbn. destruct (test h); cbn; auto.
    + split; [by intros [?|[_ ?]]|]. intros (h & Hin & Hs).
      pose proof (find_none _ _ E h) as F. rewrite F in Hs; [done|by apply list_elem_of_In].
  - intros Hn. destruct (List.find (serves param) (remotehosts g)) as [h|] eqn:E; [|done].
    apply find_some in E as [Hin Hs]. rewrite Hn in Hs; [done|by apply list_elem_of_In].
Qed.

Lemma host_test_UB_iff_witness :
  host_test (fun _ => Ok 200) (lit "Z") after_unpopulate false = (false, Ok 422) /\
  snd (host_test (fun _ => Ok 200) (lit "A") after_unpopulate false) = UB.
Proof.
  split.
  - apply (host_test_UB_iff (fun _ => Ok 200) (lit "Z") after_unpopulate).
    intros h Hh. apply list_elem_of_singleton in Hh as ->. reflexivity.
  - apply (host_test_UB_iff (fun _ => Ok 200) (lit "A") after_unpopulate).
    exists kept_host. split; [apply list_elem_of_singleton; reflexivity|reflexivity].
Defined.

(** A configuration that does not need a restart never changes the list of
    the other proxies: every proxy it lists is already known, so the update adds
    none, and a proxy that it does not list any more is kept. *)
Theorem update_keeps_uniproxies `{Json J} (newobj : J) g :
  is_new_configuration newobj g = Ok false ->
  exists v obj, member newobj (lit "config") = Ok (v, obj) /\
    let proxies := find obj (lit "config.uniproxies") in
    (type proxies <> is_array /\ uniproxies g = [] \/
     exists items, array proxies = Ok items /\
       uniproxies_loop items (uniproxies g) = (uniproxies g, Ok tt)).
Proof.
  unfold is_new_configuration. destruct (bool_decide (m_name g = [])); [done|].
  intros ([v obj] & Em & E)%bind_Ok_inv. exists v, obj. split; [done|].
  destruct (negb (bool_decide (type v = is_object))); [done|].
  apply bind_Ok_inv in E as (name & _ & E). destruct (negb (string_eqb name (m_name g))); [done|].
  cbn zeta. cbn zeta in E. case_bool_decide as Ht.
  - apply bind_Ok_inv in E as (items & Ea & E). right. exists items. split; [done|].
    apply uniproxies_loop_known. by apply new_uniproxies_false.
  - left. split; [done|]. injection E as E. apply negb_false_iff in E. by apply bool_decide_eq_true in E.
Qed.

Definition proxy_ep (name : list ascii) : LocalEndpoint := {| l_hostname := name; l_port := 8085 |}.

(** The proxy "q" is gone from the new configuration. *)
Definition fewer_proxies : tree :=
  Object [(lit "config",
    Object [(lit "name", Str (lit "n"));
            (lit "uniproxies", Array [Object [(lit "hostname", Str (lit "p")); (lit "port", Number 8085)]])])].

Definition two_proxies : proxy_global :=
  set_uniproxies [proxy_ep (lit "p"); proxy_ep (lit "q")] (set_name (lit "n") new_proxy_global).

Lemma update_keeps_uniproxies_witness :
  is_new_configuration fewer_proxies two_proxies = Ok false /\
  exists v obj, member fewer_proxies (lit "config") = Ok (v, obj) /\
    let proxies := find obj (lit "config.uniproxies") in
    (type proxies <> is_array /\ uniproxies two_proxies = [] \/
     exists items, array proxies = Ok items /\
       uniproxies_loop items (uniproxies two_proxies) = (uniproxies two_proxies, Ok tt)).
Proof.
  split; [vm_compute; reflexivity|].
  apply (update_keeps_uniproxies fewer_proxies two_proxies). vm_compute. reflexivity.
Defined.
