(* ===== verification/Tls.v ===== *)
(** * The TLS settings

    [proxy_global::set_ssl_context] ([proxy_global.cpp]): the protocols a
    connection may use, how the certificate of a peer is judged and which files
    are used.

    The context is a library's object, here the record of what it was told;
    reading a file into it is a parameter.  [key_too_small] is OpenSSL's
    [X509_V_ERR_EE_KEY_TOO_SMALL]. *)

From S2P Require Import Prelude CppString Json Endpoints Activation Certs Thread BaseClient RemoteHost Config.

(** [boost::asio::ssl::context::options] *)
Inductive ssl_option :=
  | default_workarounds | no_sslv2 | no_sslv3 | no_tlsv1 | no_tlsv1_1 | no_tlsv1_2 | single_dh_use.

#[export] Instance ssl_option_eq_dec : EqDecision ssl_option.
Proof. solve_decision. Defined.

(** [boost::asio::ssl::verify_mode] *)
Inductive verify_flag := verify_peer | verify_fail_if_no_peer_cert.

Record ssl_context := {
  s_options : list ssl_option;
  s_password : list ascii;
  s_verify : bool -> Z -> bool;
  s_verify_mode : list verify_flag;
  s_verify_file : option (list ascii);
  s_chain_file : option (list ascii);
  s_key_file : option (list ascii) }.

(** A context judges a peer as the library does, and asks for no certificate. *)
Definition new_ssl_context : ssl_context :=
  {| s_options := []; s_password := []; s_verify := fun preverified _ => preverified;
     s_verify_mode := []; s_verify_file := None; s_chain_file := None; s_key_file := None |}.

Definition set_options (options : list ssl_option) (ctx : ssl_context) : ssl_context :=
  {| s_options := s_options ctx ++ options; s_password := s_password ctx;
     s_verify := s_verify ctx; s_verify_mode := s_verify_mode ctx;
     s_verify_file := s_verify_file ctx; s_chain_file := s_chain_file ctx;
     s_key_file := s_key_file ctx |}.

Definition set_callbacks (password : list ascii) (verify : bool -> Z -> bool)
    (mode : list verify_flag) (ctx : ssl_context) : ssl_context :=
  {| s_options := s_options ctx; s_password := password; s_verify := verify;
     s_verify_mode := mode; s_verify_file := s_verify_file ctx;
     s_chain_file := s_chain_file ctx; s_key_file := s_key_file ctx |}.

Definition set_key_files (verify_file chain key : option (list ascii)) (ctx : ssl_context)
    : ssl_context :=
  {| s_options := s_options ctx; s_password := s_password ctx; s_verify := s_verify ctx;
     s_verify_mode := s_verify_mode ctx; s_verify_file := verify_file; s_chain_file := chain;
     s_key_file := key |}.

Section tls.
Context (key_too_small : Z) (read_file : list ascii -> out unit).

Definition get_password : list ascii := lit "1234".

(** The [switch] on the lowest protocol. *)
Definition tls_options (min_tls_protocol : Z) : list ssl_option :=
  if min_tls_protocol =? 12
  then [default_workarounds; no_sslv2; no_sslv3; no_tlsv1; no_tlsv1_1; single_dh_use]
  else [default_workarounds; no_sslv2; no_sslv3; no_tlsv1; no_tlsv1_1; no_tlsv1_2; single_dh_use].

(** The verify callback: what the library found, and its error. *)
Definition verify_callback (accept_short_certs preverified : bool) (error : Z) : bool :=
  if negb preverified then
    if error =? key_too_small then if accept_short_certs then true else preverified
    else preverified
  else preverified.

(** [load_verify_file]: a missing or empty file is not read. *)
Definition load_verify_file (w : world) (filename : list ascii) : st ssl_context unit :=
  if match files w !! filename with Some (_ :: _) => true | _ => false end then
    _ ← lift (read_file filename);
    modify (fun ctx => set_key_files (Some filename) (s_chain_file ctx) (s_key_file ctx) ctx)
  else mret tt.

Definition set_ssl_context (g : proxy_global) (w : world) : st ssl_context unit :=
  _ ← modify (set_options (tls_options (min_tls_protocol g)));
  _ ← modify (set_callbacks get_password (verify_callback (accept_short_certs g))
                [verify_peer; verify_fail_if_no_peer_cert]);
  _ ← load_verify_file w my_certs_name;
  _ ← lift (read_file my_public_cert_name);
  _ ← modify (fun ctx => set_key_files (s_verify_file ctx) (Some my_public_cert_name)
                           (s_key_file ctx) ctx);
  _ ← lift (read_file my_private_key_name);
  modify (fun ctx => set_key_files (s_verify_file ctx) (s_chain_file ctx)
                       (Some my_private_key_name) ctx).

End tls.

(** ** What a context allows *)

Inductive protocol := SSLv2 | SSLv3 | TLSv1_0 | TLSv1_1 | TLSv1_2 | TLSv1_3.

(** The number the configuration uses for a protocol. *)
Definition version (p : protocol) : Z :=
  match p with SSLv2 => 2 | SSLv3 => 3 | TLSv1_0 => 10 | TLSv1_1 => 11 | TLSv1_2 => 12 | TLSv1_3 => 13 end.

(** The option that forbids it; there is none for the latest. *)
Definition forbids (p : protocol) : option ssl_option :=
  match p with
  | SSLv2 => Some no_sslv2 | SSLv3 => Some no_sslv3 | TLSv1_0 => Some no_tlsv1
  | TLSv1_1 => Some no_tlsv1_1 | TLSv1_2 => Some no_tlsv1_2 | TLSv1_3 => None
  end.

Definition allows (ctx : ssl_context) (p : protocol) : bool :=
  match forbids p with
  | Some o => negb (bool_decide (o ∈ s_options ctx))
  | None => true
  end.

(** ** Lemmas *)

(** What the files leave alone. *)
Definition same_terms (ctx ctx' : ssl_context) : Prop :=
  s_options ctx' = s_options ctx /\ s_verify ctx' = s_verify ctx /\
  s_verify_mode ctx' = s_verify_mode ctx.

#[export] Instance same_terms_preorder : PreOrder same_terms.
Proof.
  unfold same_terms. split; [done|]. intros ? ? ? (?&?&?) (?&?&?). split_and!; congruence.
Qed.

Lemma same_terms_files (f g h : ssl_context -> option (list ascii)) :
  preserves same_terms (modify (fun ctx => set_key_files (f ctx) (g ctx) (h ctx) ctx)).
Proof. by intros ctx ctx' r [= <- _]. Qed.

#[export] Hint Resolve same_terms_files : frames.

Section tls_lemmas.
Context (key_too_small : Z) (read_file : list ascii -> out unit).

(** The terms of a context are set before any file is read. *)
Lemma set_ssl_context_terms g w ctx ctx' r :
  set_ssl_context key_too_small read_file g w ctx = (ctx', r) ->
  s_options ctx' = s_options ctx ++ tls_options (min_tls_protocol g) /\
  s_verify ctx' = verify_callback key_too_small (accept_short_certs g) /\
  s_verify_mode ctx' = [verify_peer; verify_fail_if_no_peer_cert].
Proof.
  unfold set_ssl_context. rewrite !st_bind_modify.
  match goal with |- ?m ?c = _ -> _ => assert (preserves same_terms m) as Hm end.
  { unfold load_verify_file. frames.
    all: apply (same_terms_files s_verify_file s_chain_file (fun _ => Some _)). }
  intros E. exact (Hm _ _ _ E).
Qed.

End tls_lemmas.

(** The lowest protocol is as before. *)
Definition same_tls (g g' : proxy_global) : Prop := min_tls_protocol g' = min_tls_protocol g.

#[export] Instance same_tls_preorder : PreOrder same_tls.
Proof. unfold same_tls. split; [done|]. intros ? ? ?. congruence. Qed.

Lemma same_tls_on_hosts {A} (m : st (list RemoteProxyHost) A) : preserves same_tls (on_hosts m).
Proof. intros g g' r. unfold on_hosts. destruct (m _). by intros [= <- _]. Qed.

Lemma same_tls_on_uniproxies {A} (m : st (list LocalEndpoint) A) :
  preserves same_tls (on_uniproxies m).
Proof. intros g g' r. unfold on_uniproxies. destruct (m _). by intros [= <- _]. Qed.

Lemma same_tls_modify (f : proxy_global -> proxy_global) :
  (forall g, min_tls_protocol (f g) = min_tls_protocol g) -> preserves same_tls (modify f).
Proof. intros Hf g g' r [= <- _]. exact (Hf g). Qed.

#[export] Hint Resolve same_tls_on_hosts same_tls_on_uniproxies : frames.
#[export] Hint Extern 1 (preserves same_tls (modify _)) =>
  (apply same_tls_modify; reflexivity) : frames.

Section loading.
Context `{Json J}.
Context (parse_duration : list ascii -> Z -> Z).

(** Settings that load leave one of the two known protocols as the lowest. *)
Lemma populate_config_tls (o : J) g g' :
  populate_config parse_duration o g = (g', Ok tt) -> 12 <= min_tls_protocol g' <= 13.
Proof.
  unfold populate_config. rewrite st_bind_gets.
  repeat match goal with
    | |- (lift _ ≫= _) _ = _ -> _ => intros (? & ? & [= <- ?] & E)%st_bind_inv; revert E
    | x : _ * _ |- _ => destruct x
    | |- (modify _ ≫= _) _ = _ -> _ => rewrite st_bind_modify
    end.
  match goal with |- ?m ?g1 = _ -> _ => assert (preserves same_tls m) as Hm by frames end.
  intros E. rewrite (Hm _ _ _ E).
  match goal with Ha : ASSERTE ?c _ _ = Ok _ |- _ => destruct c eqn:Hc; [|done] end.
  apply andb_true_iff in Hc as [Hlo%Z.geb_le Hhi%Z.leb_le]. cbn. lia.
Qed.

Lemma populate_clients_tls (items : list J) now :
  preserves same_tls (populate_clients parse_duration items now).
Proof. induction items as [|item items IH]; cbn [populate_clients]; frames. Qed.

Lemma populate_hosts_tls plugins (items : list J) : preserves same_tls (populate_hosts plugins items).
Proof. induction items as [|item items IH]; cbn [populate_hosts]; frames. Qed.

(** A configuration that loads, with or without settings, does so too. *)
Lemma populate_json_tls plugins (o : J) acl now g g' :
  acl_config acl = true -> populate_json parse_duration plugins o acl now g = (g', Ok tt) ->
  12 <= min_tls_protocol g' <= 13.
Proof.
  intros Ha. pose proof populate_clients_tls. pose proof populate_hosts_tls.
  unfold populate_json. rewrite st_bind_modify, Ha.
  intros (g1 & o1 & E1 & E)%st_bind_inv.
  match type of E1 with ?m _ = _ => assert (preserves same_tls m) as Hm by frames end.
  apply Hm in E1. apply st_bind_inv in E as (g2 & o2 & E2 & E).
  match type of E2 with ?m _ = _ => assert (preserves same_tls m) as Hm2 by frames end.
  apply Hm2 in E2. apply st_bind_inv in E as (g3 & o3 & E3 & E).
  match type of E3 with ?m _ = _ => assert (preserves same_tls m) as Hm3 by frames end.
  apply Hm3 in E3.
  apply st_bind_inv in E as (g4 & [v o4] & [= <- _] & E).
  destruct (bool_decide _); [by apply populate_config_tls in E|].
  injection E as <-. unfold same_tls in *. rewrite E3, E2, E1. cbn. lia.
Qed.

End loading.

(** ** Properties *)

(** C19. A context never allows a protocol before TLS 1.2, and after a
    configuration has loaded exactly those from its lowest protocol on.  The
    certificate of a peer is always asked for; one is accepted that the library
    accepts, or whose only fault is a short key when the configuration accepts
    those.  All of this also holds when a file could not be read. *)
Theorem tls_terms `{Json J} parse_duration plugins (o : J) acl now g g' key_too_small read_file w
    ctx r :
  acl_config acl = true -> populate_json parse_duration plugins o acl now g = (g', Ok tt) ->
  set_ssl_context key_too_small read_file g' w new_ssl_context = (ctx, r) ->
  (forall p, allows ctx p = true <-> min_tls_protocol g' <= version p) /\
  12 <= min_tls_protocol g' /\
  s_verify_mode ctx = [verify_peer; verify_fail_if_no_peer_cert] /\
  forall preverified error, s_verify ctx preverified error = true <->
    preverified = true \/ error = key_too_small /\ accept_short_certs g' = true.
Proof.
  intros Ha Ep Es. destruct (populate_json_tls _ _ _ _ _ _ _ Ha Ep) as [H12 H13].
  destruct (set_ssl_context_terms _ _ _ _ _ _ _ Es) as (Ho & Hv & ->).
  split; [|split; [done|split; [done|]]].
  - intros p. unfold allows. rewrite Ho. cbn [s_options new_ssl_context app]. unfold tls_options.
    destruct (Z.eqb_spec (min_tls_protocol g') 12) as [->|Hne].
    + destruct p; vm_compute; split; intros Hx; (done || by destruct Hx).
    + replace (min_tls_protocol g') with 13 by lia.
      destruct p; vm_compute; split; intros Hx; (done || by destruct Hx).
  - intros preverified error. rewrite Hv. unfold verify_callback.
    destruct preverified; cbn [negb]; [tauto|].
    destruct (Z.eqb_spec error key_too_small); [destruct (accept_short_certs g'); naive_solver|].
    naive_solver.
Qed.

(** ** Witnesses *)

Definition tls_world : world :=
  {| files := ∅; m_cert_names := []; m_activate := []; logged := [] |}.

Lemma tls_terms_witness :
  allows (fst (set_ssl_context 66 (fun _ => Ok tt) new_proxy_global tls_world new_ssl_context))
    TLSv1_1 = false.
Proof.
  destruct (populate_json (fun _ d => d) [] (Object []) acl_all 0 new_proxy_global) as [g' r'] eqn:Ep.
  assert (r' = Ok tt) as -> by (vm_compute in Ep; by injection Ep as _ <-).
  destruct (set_ssl_context 66 (fun _ => Ok tt) g' tls_world new_ssl_context) as [ctx r] eqn:Es.
  destruct (tls_terms (fun _ d => d) [] (Object []) acl_all 0 new_proxy_global g' 66
              (fun _ => Ok tt) tls_world ctx r eq_refl Ep Es) as (Hp & H12 & _).
  assert (g' = new_proxy_global) as -> by (vm_compute in Ep; by injection Ep as <-).
  rewrite Es. cbn [fst]. apply not_true_is_false. rewrite Hp. cbn. lia.
Defined.
