(* ===== verification/ProviderClient.v ===== *)
(** * Provider clients

    [ProviderClient] ([providerclient.cpp]): the message buffer between its two
    threads, the connection to a remote proxy, and one round of each thread.

    The two threads meet in the buffer only, under its mutex; [event] is what
    one of them does while it has the mutex, and [run] any interleaving of
    them.  Sockets are the scripts of [Plugin.socket]; the outcome of a
    connection attempt, the shuffled indices, the n-th reading of a stop flag
    and the plugin's filter are arguments. *)

From S2P Require Import Prelude CppString Json Endpoints Activation Certs Thread Plugin BaseClient.

(** ** The message buffer *)

Record message_buffer := {
  m_buffer : list (list ascii);
  m_buffer_count : Z }.

Definition new_message_buffer : message_buffer := {| m_buffer := []; m_buffer_count := 0 |}.

(** The loop that drops messages; [m_buffer_count] is a [size_t]. *)
Fixpoint make_room (m_buffer_size : Z) (m_buffer : list (list ascii)) (m_buffer_count : Z)
    : list (list ascii) * Z :=
  match m_buffer with
  | [] => ([], m_buffer_count)
  | front :: rest =>
      if m_buffer_count >? m_buffer_size
      then make_room m_buffer_size rest (wrap 64 (m_buffer_count - zlen front))
      else (m_buffer, m_buffer_count)
  end.

(** What the reader does with the bytes it got; [push_back(m_local_data)] takes
    them for a C string. *)
Definition push_message (m_buffer_size : Z) (local_data : list ascii) (b : message_buffer)
    : message_buffer :=
  let '(buffer, count) := make_room m_buffer_size (m_buffer b) (m_buffer_count b) in
  let count := match buffer with [] => 0 | _ => count end in
  {| m_buffer := buffer ++ [c_str local_data];
     m_buffer_count := wrap 64 (count + zlen local_data) |}.

(** What the writer takes: nothing, when there is nothing. *)
Definition take_message (b : message_buffer) : list ascii * message_buffer :=
  match m_buffer b with
  | [] => ([], b)
  | front :: rest => (front, {| m_buffer := rest; m_buffer_count := m_buffer_count b |})
  end.

(** ** The interleaving of the reader and the writer *)

(** The writer waits for the condition, empties the buffer, or has lost its
    connection. *)
Inductive writer_pc := Waiting | Draining | Disconnected.

Record buffered := {
  b_buffer : message_buffer;
  b_pc : writer_pc;
  b_taken : list (list ascii);
  b_written : list (list ascii);
  b_count_out : Z }.

Definition new_buffered : buffered :=
  {| b_buffer := new_message_buffer; b_pc := Disconnected; b_taken := []; b_written := [];
     b_count_out := 0 |}.

(** The reader got bytes; the writer's wait ended (notified, timed out or for
    no reason); it took a message, with the outcome of writing it; it
    connected again. *)
Inductive event :=
  | Received (local_data : list ascii)
  | Woken
  | Taken (written : out Z)
  | Connected.

Section interleaving.
Context (m_buffer_size : Z) (message_filter : list ascii -> bool).

(** Writing one message: [written] says how many bytes the socket takes. *)
Definition write_message (data : list ascii) (written : out Z) (s : buffered) : buffered :=
  let '(_, b) := take_message (b_buffer s) in
  let s := {| b_buffer := b; b_pc := b_pc s; b_taken := b_taken s ++ [data];
              b_written := b_written s; b_count_out := b_count_out s |} in
  if message_filter data then
    match written with
    | Ok n =>
        let n := Z.max 0 (Z.min n (zlen data)) in
        {| b_buffer := b_buffer s; b_pc := Draining; b_taken := b_taken s;
           b_written := b_written s ++ [take (Z.to_nat n) data];
           b_count_out := wrap 64 (b_count_out s + n) |}
    | _ => {| b_buffer := b_buffer s; b_pc := Disconnected; b_taken := b_taken s;
              b_written := b_written s; b_count_out := b_count_out s |}
    end
  else s.

Definition set_pc (pc : writer_pc) (s : buffered) : buffered :=
  {| b_buffer := b_buffer s; b_pc := pc; b_taken := b_taken s; b_written := b_written s;
     b_count_out := b_count_out s |}.

Definition set_buffer (b : message_buffer) (s : buffered) : buffered :=
  {| b_buffer := b; b_pc := b_pc s; b_taken := b_taken s; b_written := b_written s;
     b_count_out := b_count_out s |}.

(** An event that cannot happen in a state leaves it alone.  [count_out] is
    cleared before a connection. *)
Definition step (s : buffered) (e : event) : buffered :=
  match e with
  | Received local_data => set_buffer (push_message m_buffer_size local_data (b_buffer s)) s
  | Woken =>
      match b_pc s with
      | Waiting => set_pc Draining s
      | _ => s
      end
  | Taken written =>
      match b_pc s with
      | Draining =>
          match take_message (b_buffer s) with
          | ([], b) =>
              {| b_buffer := b; b_pc := Waiting;
                 b_taken := b_taken s ++ match m_buffer (b_buffer s) with [] => [] | _ => [[]] end;
                 b_written := b_written s; b_count_out := b_count_out s |}
          | (data, _) => write_message data written s
          end
      | _ => s
      end
  | Connected =>
      match b_pc s with
      | Disconnected => {| b_buffer := b_buffer s; b_pc := Waiting; b_taken := b_taken s;
                           b_written := b_written s; b_count_out := 0 |}
      | _ => s
      end
  end.

Definition run : list event -> buffered -> buffered := fun evs s => foldl step s evs.

End interleaving.

(** What the reader received. *)
Definition received (evs : list event) : list (list ascii) :=
  omap (fun e => match e with Received d => Some d | _ => None end) evs.

Definition bytes (l : list (list ascii)) : Z := foldr (fun m n => zlen m + n) 0 l.

(** ** The remote proxy *)

Section provider.
Context (what : exn -> list ascii).

Definition endpoint_text (c : BaseClient) : out (list ascii) :=
  host ← remote_hostname c;
  port ← remote_port c;
  mret (host ++ chr 58 :: to_string port).

(** The loop over the shuffled indices: whether one could be connected.  [stop]
    is the stop flag of the writer thread, [connect] the connection attempt. *)
Fixpoint try_proxies (stop : nat -> bool) (connect : list ascii -> Z -> out unit) (n : nat)
    (indexes : list Z) : st client_state bool :=
  match indexes with
  | [] => mret false
  | index :: indexes' =>
      _ ← lift (check_run (stop n) true);
      _ ← on_client (modify (set_proxy_index index));
      c ← gets fst;
      ep ← lift (endpoint_text c);
      r ← lift (rd (m_proxy_endpoints c) (m_proxy_index c));
      w ← gets snd;
      if certificate_available (r_name r) w then
        connected ← st_catch
          (_ ← dolog (lit "Performing remote connection to: " ++ ep);
           host ← lift (remote_hostname c);
           port ← lift (remote_port c);
           _ ← lift (connect host port);
           mret true)
          (fun e => _ ← dolog (lit "Failed connection to remote: " ++ ep ++ chr 32 :: what e);
                    mret false);
        if connected : bool then mret true else try_proxies stop connect (S n) indexes'
      else try_proxies stop connect (S n) indexes'
  end.

Definition connect_remote (stop : nat -> bool) (connect : list ascii -> Z -> out unit)
    (handshake : out unit) (indexes : list Z) : st client_state unit :=
  connected ← try_proxies stop connect 0 indexes;
  _ ← lift (ASSERTE connected socket_invalid (lit "Provider failed connection to remote host"));
  c ← gets fst;
  ep ← lift (endpoint_text c);
  _ ← dolog (lit "Provider connected to remote host: " ++ ep ++ lit " Attempting SSL handshake");
  _ ← lift handshake;
  dolog (lit "Succesfull SSL handshake to remote host: " ++ ep).

(** ** A round of the reader *)

Record provider := {
  p_client : client_state;
  p_buffer : message_buffer;
  p_local_connected_index : Z;
  p_local : socket;
  p_remote : socket;
  p_count_out : Z }.

Definition on_state {A} (m : st client_state A) : st provider A := fun p =>
  let '(s, r) := m (p_client p) in
  ({| p_client := s; p_buffer := p_buffer p;
      p_local_connected_index := p_local_connected_index p; p_local := p_local p;
      p_remote := p_remote p; p_count_out := p_count_out p |}, r).

Definition on_local {A} (m : st socket A) : st provider A := fun p =>
  let '(s, r) := m (p_local p) in
  ({| p_client := p_client p; p_buffer := p_buffer p;
      p_local_connected_index := p_local_connected_index p; p_local := s;
      p_remote := p_remote p; p_count_out := p_count_out p |}, r).

Definition on_remote {A} (m : st socket A) : st provider A := fun p =>
  let '(s, r) := m (p_remote p) in
  ({| p_client := p_client p; p_buffer := p_buffer p;
      p_local_connected_index := p_local_connected_index p; p_local := p_local p;
      p_remote := s; p_count_out := p_count_out p |}, r).

Definition set_local_index (i : Z) (p : provider) : provider :=
  {| p_client := p_client p; p_buffer := p_buffer p; p_local_connected_index := i;
     p_local := p_local p; p_remote := p_remote p; p_count_out := p_count_out p |}.

Definition set_p_buffer (b : message_buffer) (p : provider) : provider :=
  {| p_client := p_client p; p_buffer := b;
     p_local_connected_index := p_local_connected_index p;
     p_local := p_local p; p_remote := p_remote p; p_count_out := p_count_out p |}.

Definition add_count (n : Z) (p : provider) : provider :=
  {| p_client := p_client p; p_buffer := p_buffer p;
     p_local_connected_index := p_local_connected_index p;
     p_local := p_local p; p_remote := p_remote p; p_count_out := wrap 64 (p_count_out p + n) |}.

(** The loop over the local systems: the text of the last one tried, and
    whether one could be connected. *)
Fixpoint connect_local (connect : LocalEndpoint -> out unit) (eps : list LocalEndpoint)
    (index : Z) (ep : list ascii) : st provider (bool * list ascii) :=
  match eps with
  | [] => mret (false, ep)
  | l :: eps' =>
      let ep := l_hostname l ++ chr 58 :: to_string (l_port l) in
      connected ← st_catch
        (_ ← on_state (dolog (lit "Provider connecting to local: " ++ ep));
         _ ← lift (connect l);
         _ ← modify (set_local_index index);
         mret true)
        (fun _ => mret false);
      if connected : bool then mret (true, ep) else connect_local connect eps' (index + 1) ep
  end.

(** The loop that fills the buffer.  It is left by an exception only: of the
    stop flag or of the read. *)
Fixpoint fill_loop (fuel : nat) (stop : nat -> bool) (n : nat) (size : Z) : st provider unit :=
  match fuel with
  | O => lift UB
  | S fuel' =>
      _ ← lift (check_run (stop n) true);
      data ← on_local (read_some (Z.to_nat (max_length - 1)));
      _ ← (if zlen data >? 0
           then modify (fun p => set_p_buffer (push_message size data (p_buffer p)) p)
           else mret tt);
      fill_loop fuel' stop (S n) size
  end.

(** The loop without a buffer. *)
Fixpoint forward_loop (fuel : nat) (stop : nat -> bool) (n : nat)
    (message_filter : list ascii -> bool) : st provider unit :=
  match fuel with
  | O => lift UB
  | S fuel' =>
      _ ← lift (check_run (stop n) true);
      data ← on_local (read_some (Z.to_nat (max_length - 1)));
      _ ← (if (zlen data >? 0) && message_filter data then
             length ← on_remote (write_some data);
             modify (add_count length)
           else mret tt);
      forward_loop fuel' stop (S n) message_filter
  end.

(** A read takes a byte or a whole chunk. *)
Definition read_fuel (s : socket) : nat :=
  (2 + length (sk_incoming s)
   + list_sum (map (fun c => match c with Ok l => length l | _ => 0%nat end) (sk_incoming s)))%nat.

(** The part of a round up to the choice of the data loop: a local system must
    be connected. *)
Definition open_local (connect_l : LocalEndpoint -> out unit) (eps : list LocalEndpoint)
    : st provider unit :=
  _ ← on_state (on_client (modify (set_proxy_index 0)));
  _ ← modify (set_local_index 0);
  '(connected, ep) ← connect_local connect_l eps 0 [];
  lift (ASSERTE connected socket_invalid
          (lit "Provider failed connection to local host: " ++ ep)).

(** [m_thread_write.start] *)
Definition start_writer : st provider unit :=
  on_state (on_client (fun c =>
    let '(t, r) := start (m_thread_write c) in
    (set_threads (m_thread_activate c) t (m_thread c) c, r))).

(** The body of the [try] of [threadproc_reader], after the sleep.  [stop] is
    the flag of the thread itself.  In the loop without a buffer it is the flag
    of the other thread that [connect_remote] reads. *)
Definition reader_round (stop : nat -> bool) (connect_l : LocalEndpoint -> out unit)
    (connect_r : list ascii -> Z -> out unit) (handshake : out unit) (indexes : list Z)
    (message_filter : list ascii -> bool) : st provider unit :=
  p ← gets (fun p => p);
  let c := fst (p_client p) in
  let w := snd (p_client p) in
  match m_kind c with
  | Local _ _ => mret tt
  | Provider local_endpoints size use_buffer =>
      if negb (existsb (fun ep => certificate_available (r_name ep) w) (m_proxy_endpoints c))
      then mret tt
      else
        _ ← open_local connect_l local_endpoints;
        if use_buffer then
          _ ← start_writer;
          fill_loop (read_fuel (p_local p)) stop 0 size
        else
          _ ← on_state (connect_remote (fun _ => m_stop (m_thread_write c)) connect_r
                          handshake indexes);
          forward_loop (read_fuel (p_local p)) stop 0 message_filter
  end.

(** The handler around it: the exception's text is logged. *)
Definition reader_body (stop : nat -> bool) (connect_l : LocalEndpoint -> out unit)
    (connect_r : list ascii -> Z -> out unit) (handshake : out unit) (indexes : list Z)
    (message_filter : list ascii -> bool) : st provider unit :=
  st_catch (reader_round stop connect_l connect_r handshake indexes message_filter)
    (fun e => on_state (dolog (what e))).

End provider.

(** ** Lemmas: the buffer *)

Lemma bytes_app l1 l2 : bytes (l1 ++ l2) = bytes l1 + bytes l2.
Proof. induction l1 as [|m l1 IH]; cbn [app bytes foldr]; [done|]. unfold bytes in *. lia. Qed.

Lemma bytes_nonneg l : 0 <= bytes l.
Proof. induction l as [|m l IH]; cbn; [done|]. pose proof (zlen_nonneg m). unfold bytes in *. lia. Qed.

Lemma bytes_cons m l : bytes (m :: l) = zlen m + bytes l.
Proof. done. Qed.

Lemma c_str_length l : zlen (c_str l) <= zlen l.
Proof.
  destruct (c_str_split l) as (rest & E & _). apply (f_equal zlen) in E.
  rewrite zlen_app in E. pose proof (zlen_nonneg rest). lia.
Qed.

(** What is dropped comes off the front, and nothing is while the count is
    within the limit. *)
Lemma make_room_spec size buffer count :
  0 <= size -> bytes buffer <= count -> in_uint 64 count ->
  let '(b, n) := make_room size buffer count in
  exists dropped, buffer = dropped ++ b /\ n = count - bytes dropped /\
    (b = [] \/ n <= size) /\ (count <= size -> dropped = []).
Proof.
  intros Hs. revert count. induction buffer as [|m buffer IH]; intros count Hb Hc;
    cbn [make_room].
  - exists []. cbn. split; [done|]. split; [lia|]. auto.
  - rewrite bytes_cons in Hb. pose proof (bytes_nonneg buffer). pose proof (zlen_nonneg m).
    rewrite Z.gtb_ltb. destruct (Z.ltb_spec size count).
    + unfold in_uint in *. rewrite wrap_small by (unfold in_uint; lia).
      specialize (IH (count - zlen m) ltac:(lia) ltac:(lia)).
      destruct (make_room size buffer (count - zlen m)) as [b n].
      destruct IH as (dropped & -> & -> & Hor & _). exists (m :: dropped).
      rewrite bytes_cons. split; [done|]. split; [lia|]. split; [done|lia].
    + exists []. cbn. split; [done|]. split; [lia|]. auto.
Qed.

Definition small (size : Z) : Prop := 0 <= size /\ size + max_length < 2 ^ 64.

(** The count is never less than what is buffered, nor more than the limit and
    one message. *)
Definition buffer_ok (size : Z) (b : message_buffer) : Prop :=
  bytes (m_buffer b) <= m_buffer_count b <= size + max_length - 1.

Lemma push_message_spec size data b :
  small size -> buffer_ok size b -> zlen data < max_length ->
  buffer_ok size (push_message size data b) /\
  exists dropped, m_buffer b = dropped ++ removelast (m_buffer (push_message size data b)) /\
    m_buffer (push_message size data b)
      = removelast (m_buffer (push_message size data b)) ++ [c_str data] /\
    m_buffer_count (push_message size data b) <= m_buffer_count b + zlen data /\
    (m_buffer_count b <= size -> dropped = []).
Proof.
  intros [Hs1 Hs2] [Hb1 Hb2] Hd. unfold push_message, max_length in *.
  pose proof (bytes_nonneg (m_buffer b)).
  pose proof (make_room_spec size (m_buffer b) (m_buffer_count b) Hs1 Hb1
                ltac:(unfold in_uint; lia)) as Hm.
  destruct (make_room size (m_buffer b) (m_buffer_count b)) as [b' n].
  destruct Hm as (dropped & E & -> & Hor & Hno).
  pose proof (c_str_length data). pose proof (zlen_nonneg data).
  pose proof (bytes_nonneg b'). pose proof (bytes_nonneg dropped).
  rewrite E, bytes_app in Hb1.
  assert (let c := match b' with [] => 0 | _ => m_buffer_count b - bytes dropped end in
          bytes b' <= c <= size /\ c <= m_buffer_count b) as [Hc Hle].
  { destruct b'; [cbn; lia|]. destruct Hor as [?|?]; [done|]. lia. }
  set (c := match b' with [] => 0 | _ => m_buffer_count b - bytes dropped end) in *.
  cbv zeta in Hc. unfold buffer_ok, max_length. cbn [m_buffer m_buffer_count].
  rewrite bytes_app, bytes_cons, removelast_last. cbn [bytes foldr].
  rewrite wrap_small by (unfold in_uint; lia).
  split; [lia|]. exists dropped. split; [done|]. split; [done|]. split; [lia|done].
Qed.

(** *** The invariant of the interleaving *)

Definition buffered_ok (size : Z) (ds : list (list ascii)) (s : buffered) : Prop :=
  buffer_ok size (b_buffer s) /\ m_buffer_count (b_buffer s) <= bytes ds /\
  (b_taken s ++ m_buffer (b_buffer s)) `sublist_of` map c_str ds /\
  (bytes ds <= size -> b_taken s ++ m_buffer (b_buffer s) = map c_str ds).

(** Events of the writer keep the count, and move at most one message. *)
Lemma buffered_ok_move size ds s s' :
  m_buffer_count (b_buffer s') = m_buffer_count (b_buffer s) ->
  b_taken s' ++ m_buffer (b_buffer s') = b_taken s ++ m_buffer (b_buffer s) ->
  bytes (m_buffer (b_buffer s')) <= bytes (m_buffer (b_buffer s)) ->
  buffered_ok size ds s -> buffered_ok size ds s'.
Proof.
  unfold buffered_ok, buffer_ok. intros -> -> Hle (H1 & H2 & H3 & H4).
  split; [lia|]. by split_and!.
Qed.

Lemma write_message_move filter data written s rest :
  m_buffer (b_buffer s) = data :: rest ->
  let s' := write_message filter data written s in
  m_buffer_count (b_buffer s') = m_buffer_count (b_buffer s) /\
  b_taken s' = b_taken s ++ [data] /\ m_buffer (b_buffer s') = rest.
Proof.
  intros E. unfold write_message, take_message. rewrite E.
  destruct (filter data); [|done]. by destruct written.
Qed.

Lemma step_writer_ok size filter ds s e :
  match e with Received _ => False | _ => True end ->
  buffered_ok size ds s -> buffered_ok size ds (step size filter s e).
Proof.
  intros He. destruct e as [d| |w|]; [done|..]; cbn [step].
  - by destruct (b_pc s).
  - destruct (b_pc s); try done. unfold take_message at 1.
    destruct (m_buffer (b_buffer s)) as [|m rest] eqn:E.
    + apply buffered_ok_move; cbn [b_buffer b_taken]; [done| |done]. by rewrite app_nil_r.
    + assert (bytes rest <= bytes (m_buffer (b_buffer s))) as Hle.
      { rewrite E, bytes_cons. pose proof (zlen_nonneg m). lia. }
      destruct m as [|x m].
      * apply buffered_ok_move; cbn [b_buffer b_taken m_buffer m_buffer_count]; [done| |done].
        by rewrite E, <- app_assoc.
      * destruct (write_message_move filter (x :: m) w s rest E) as (E1 & E2 & E3).
        apply buffered_ok_move; [done| |by rewrite E3]. by rewrite E2, E3, E, <- app_assoc.
  - by destruct (b_pc s).
Qed.

Lemma step_reader_ok size filter ds s data :
  small size -> zlen data < max_length ->
  buffered_ok size ds s -> buffered_ok size (ds ++ [data]) (step size filter s (Received data)).
Proof.
  intros Hs Hd (H1 & H2 & H3 & H4). cbn [step].
  destruct (push_message_spec size data (b_buffer s) Hs H1 Hd)
    as (Hok & dropped & Ed & Ep & Hc & Hno).
  unfold buffered_ok. cbn [set_buffer b_buffer b_taken].
  rewrite bytes_app, bytes_cons, map_app. cbn [bytes foldr map].
  split; [done|]. split; [lia|].
  set (kept := removelast _) in *. rewrite Ep, app_assoc. split.
  - apply sublist_app; [|done]. etransitivity; [|exact H3].
    rewrite Ed. apply sublist_app; [done|]. by apply sublist_inserts_l.
  - intros Hle. rewrite <- H4 by (pose proof (zlen_nonneg data); lia).
    rewrite Ed, Hno by (pose proof (zlen_nonneg data); lia). done.
Qed.

Lemma run_ok size filter evs :
  small size -> Forall (fun d => zlen d < max_length) (received evs) ->
  buffered_ok size (received evs) (run size filter evs new_buffered).
Proof.
  intros Hs. unfold run. induction evs as [|e evs IH] using rev_ind; intros Hf.
  - destruct Hs. unfold buffered_ok, buffer_ok, max_length in *. cbn. split; [lia|]. by split.
  - rewrite foldl_app. cbn [foldl]. unfold received in *. rewrite omap_app in *.
    apply Forall_app in Hf as [Hf1 Hf2]. specialize (IH Hf1).
    destruct e as [d| |w|]; cbn [omap list_omap] in *; rewrite ?app_nil_r.
    + apply step_reader_ok; [done| |done]. by inversion Hf2.
    + by apply step_writer_ok.
    + by apply step_writer_ok.
    + by apply step_writer_ok.
Qed.

(** ** Lemmas: what a round leaves alone *)

Section frames.
Context (what : exn -> list ascii).

(** The threads, the kind and the remote proxies of the client stay. *)
Definition client_frame (s s' : client_state) : Prop :=
  m_thread_write (fst s') = m_thread_write (fst s) /\ m_kind (fst s') = m_kind (fst s) /\
  m_proxy_endpoints (fst s') = m_proxy_endpoints (fst s) /\
  m_cert_names (snd s') = m_cert_names (snd s).

(** Nothing is read, written or put into the buffer. *)
Definition frame (p p' : provider) : Prop :=
  client_frame (p_client p) (p_client p') /\ p_buffer p' = p_buffer p /\
  p_local p' = p_local p /\ p_remote p' = p_remote p.

#[export] Instance client_frame_preorder : PreOrder client_frame.
Proof. unfold client_frame. split; [by intros ?|intros ???; intuition congruence]. Qed.

#[export] Instance frame_preorder : PreOrder frame.
Proof.
  split; [by intros ?|]. intros p1 p2 p3 (H1 & ?) (H2 & ?). split; [by etransitivity|].
  intuition congruence.
Qed.

Lemma dolog_frame line : preserves client_frame (dolog line).
Proof. intros [c w] s' r [= <- _]. done. Qed.

Lemma set_proxy_index_frame i : preserves client_frame (on_client (modify (set_proxy_index i))).
Proof. intros [c w] s' r [= <- _]. done. Qed.

Lemma on_state_frame {A} (m : st client_state A) :
  preserves client_frame m -> preserves frame (on_state m).
Proof.
  intros Hm p p' r. unfold on_state. destruct (m (p_client p)) as [s r'] eqn:E.
  intros [= <- _]. split; [by eapply Hm|done].
Qed.

Lemma set_local_index_frame i : preserves frame (modify (set_local_index i)).
Proof. intros p p' r [= <- _]. done. Qed.

Hint Resolve dolog_frame set_proxy_index_frame on_state_frame set_local_index_frame : frames.

Lemma connect_local_frame connect eps i ep : preserves frame (connect_local connect eps i ep).
Proof.
  revert i ep. induction eps as [|l eps IH]; intros i ep; cbn [connect_local]; frames.
Qed.

Lemma try_proxies_frame stop connect n indexes :
  preserves client_frame (try_proxies what stop connect n indexes).
Proof.
  revert n. induction indexes as [|i indexes IH]; intros n; cbn [try_proxies]; frames.
Qed.

Hint Resolve connect_local_frame try_proxies_frame : frames.

Lemma connect_remote_frame stop connect handshake indexes :
  preserves client_frame (connect_remote what stop connect handshake indexes).
Proof. unfold connect_remote. frames. Qed.

End frames.

#[export] Hint Resolve dolog_frame set_proxy_index_frame on_state_frame set_local_index_frame
  connect_local_frame try_proxies_frame connect_remote_frame : frames.

(** *** The loops *)

(** The loop that fills the buffer leaves the client alone. *)
Definition same_client (p p' : provider) : Prop := p_client p' = p_client p.

#[export] Instance same_client_preorder : PreOrder same_client.
Proof. unfold same_client. split; [by intros ?|intros ???; congruence]. Qed.

Lemma read_same_client n : preserves same_client (on_local (read_some n)).
Proof.
  intros p p' r. unfold on_local. destruct (read_some n (p_local p)). by intros [= <- _].
Qed.

Lemma set_p_buffer_same_client f : preserves same_client (modify (fun p => set_p_buffer (f p) p)).
Proof. by intros p p' r [= <- _]. Qed.

Lemma fill_loop_same_client fuel stop n size : preserves same_client (fill_loop fuel stop n size).
Proof.
  revert n. induction fuel as [|fuel IH]; intros n; cbn [fill_loop]; frames.
  - apply read_same_client.
  - apply (set_p_buffer_same_client (fun p => push_message size a0 (p_buffer p))).
Qed.

Lemma forward_loop_buffer fuel stop n filter p p' r :
  forward_loop fuel stop n filter p = (p', r) -> p_buffer p' = p_buffer p.
Proof.
  set (R := fun p p' : provider => p_buffer p' = p_buffer p).
  assert (PreOrder R) as HR by (subst R; split; [by intros ?|intros ???; congruence]).
  enough (preserves R (forward_loop fuel stop n filter)) as Hp by apply Hp.
  revert n. induction fuel as [|fuel IH]; intros n; cbn [forward_loop]; frames.
  - intros q q' r0. unfold on_local. destruct (read_some _ (p_local q)). by intros [= <- _].
  - intros q q' r0. unfold on_remote. destruct (write_some _ (p_remote q)). by intros [= <- _].
  - by intros q q' r0 [= <- _].
Qed.

Section rounds.
Context (what : exn -> list ascii).

(** The part of a round up to the data loop. *)
Definition writer_joinable (p : provider) : bool := joinable (m_thread_write (fst (p_client p))).

Lemma frame_joinable p p' : frame p p' -> writer_joinable p' = writer_joinable p.
Proof. unfold writer_joinable. intros ((-> & _) & _). done. Qed.

Lemma start_writer_joinable p :
  writer_joinable p = true -> start_writer p = (p, Throw (SystemError thread_already_running [])).
Proof.
  unfold start_writer, on_state, on_client, start, writer_joinable.
  destruct p as [[c w] b i l r n]. cbn [fst snd p_client]. intros ->. cbn.
  by destruct c.
Qed.

Lemma start_writer_started p p' r :
  writer_joinable p = false -> start_writer p = (p', r) ->
  writer_joinable p' = true /\ r = Ok tt /\
  m_kind (fst (p_client p')) = m_kind (fst (p_client p)).
Proof.
  unfold start_writer, on_state, on_client, start, writer_joinable.
  destruct p as [[c w] b i l r0 n]. cbn [fst snd p_client]. intros ->. cbn. by intros [= <- <-].
Qed.

Lemma open_local_frame cl eps : preserves frame (open_local cl eps).
Proof. unfold open_local. frames. Qed.

(** A round whose writer thread was started before does nothing but connect. *)
Lemma reader_round_joinable stop cl cr hs idx filter p p' r eps size :
  m_kind (fst (p_client p)) = Provider eps size true -> writer_joinable p = true ->
  reader_round what stop cl cr hs idx filter p = (p', r) -> frame p p'.
Proof.
  intros Hk Hj. unfold reader_round. rewrite st_bind_gets, Hk.
  destruct (negb _); [by intros [= <- _]|]. unfold mbind at 1, st_bind at 1.
  destruct (open_local cl eps p) as [p1 r1] eqn:E1.
  pose proof (open_local_frame cl eps _ _ _ E1) as F1.
  destruct r1 as [u|e|]; [|by intros [= <- _]..].
  rewrite (st_bind_Throw _ _ p1 p1 (SystemError thread_already_running [])).
  - by intros [= <- _].
  - apply start_writer_joinable. by rewrite (frame_joinable p).
Qed.

(** A round that puts something into the buffer has started the writer. *)
Lemma reader_round_fills stop cl cr hs idx filter p p' r :
  reader_round what stop cl cr hs idx filter p = (p', r) ->
  p_buffer p' = p_buffer p \/
  writer_joinable p' = true /\
  exists eps size, m_kind (fst (p_client p')) = Provider eps size true.
Proof.
  unfold reader_round. rewrite st_bind_gets.
  destruct (m_kind (fst (p_client p))) as [?|eps size use_buffer] eqn:Hk;
    [intros [= <- _]; by left|].
  destruct (negb _); [intros [= <- _]; by left|]. unfold mbind at 1, st_bind at 1.
  destruct (open_local cl eps p) as [p1 r1] eqn:E1.
  pose proof (open_local_frame cl eps _ _ _ E1) as (F1 & Fb & _).
  destruct r1 as [u|e|]; [|intros [= <- _]; by left..].
  destruct use_buffer.
  - destruct (writer_joinable p1) eqn:Hj.
    { rewrite (st_bind_Throw _ _ p1 p1 (SystemError thread_already_running []))
        by (by apply start_writer_joinable).
      intros [= <- _]. by left. }
    unfold mbind, st_bind. destruct (start_writer p1) as [p2 r2] eqn:E2.
    destruct (start_writer_started _ _ _ Hj E2) as (Hj2 & -> & Hk2). intros E.
    pose proof (fill_loop_same_client _ _ _ _ _ _ _ E) as Hc. right. split.
    + unfold writer_joinable. by rewrite Hc.
    + exists eps, size. destruct F1 as (_ & F1 & _). by rewrite Hc, Hk2, F1.
  - intros E. left. rewrite <- Fb. apply st_bind_split in E as [(p2 & ? & E2 & E3)|(? & E2 & _)].
    + apply forward_loop_buffer in E3. rewrite E3.
      by apply (on_state_frame _ (connect_remote_frame what _ _ _ _)) in E2 as (_ & ? & _).
    + by apply (on_state_frame _ (connect_remote_frame what _ _ _ _)) in E2 as (_ & ? & _).
Qed.

Lemma dolog_Ok line s : exists s', dolog line s = (s', Ok tt).
Proof. destruct s as [c w]. by eexists. Qed.

Lemma connect_local_Ok connect eps i ep p :
  Forall (fun l => connect l = Ok tt \/ exists e, connect l = Throw e /\ is_std_exception e = true) eps ->
  Exists (fun l => connect l = Ok tt) eps ->
  exists p' ep', connect_local connect eps i ep p = (p', Ok (true, ep')).
Proof.
  intros Hall Hex. revert i ep p. induction Hall as [|l eps Hl _ IH]; intros i ep p; [by inversion Hex|].
  cbn [connect_local]. unfold mbind at 1, st_bind at 1, st_catch.
  destruct (dolog_Ok (lit "Provider connecting to local: " ++ l_hostname l ++ chr 58 :: to_string (l_port l))
              (p_client p)) as [s' E].
  erewrite st_bind_Ok; [|unfold on_state; rewrite E; done].
  destruct Hl as [Hl|(e & Hl & He)].
  - rewrite Hl. do 2 eexists. done.
  - rewrite Hl. unfold lift at 1, mbind at 1, st_bind at 1. rewrite He. cbn [mret st_ret].
    apply IH. inversion Hex as [? ? Hx|]; subst; [congruence|done].
Qed.

Lemma open_local_Ok cl eps p :
  Forall (fun l => cl l = Ok tt \/ exists e, cl l = Throw e /\ is_std_exception e = true) eps ->
  Exists (fun l => cl l = Ok tt) eps ->
  exists p', open_local cl eps p = (p', Ok tt).
Proof.
  intros Hall Hex. unfold open_local. destruct p as [[c w] b i l r n].
  erewrite st_bind_Ok by (unfold on_state, on_client; cbn; reflexivity).
  rewrite st_bind_modify. match goal with |- context [(_ ≫= _) ?p0] => set (q := p0) end.
  destruct (connect_local_Ok cl eps 0 [] q Hall Hex) as (p' & ep' & E).
  erewrite st_bind_Ok by exact E. by eexists.
Qed.

Lemma connect_remote_stopped cr hs idx s :
  idx <> [] -> connect_remote what (fun _ => true) cr hs idx s = (s, Throw InterruptException).
Proof. by destruct idx. Qed.

Lemma client_restart_stopped ret c :
  is_provider c = true ->
  let c' := fst (client_start ret (client_stop c)) in
  m_stop (m_thread_write c') = true /\ m_kind c' = m_kind c /\
  m_proxy_endpoints c' = m_proxy_endpoints c.
Proof.
  intros Hp. unfold client_stop. assert (is_provider (stop_activate c) = true) as -> by done.
  unfold client_start. destruct (is_running _ _).
  - destruct (info _); cbn; unfold stop; by destruct (joinable _).
  - destruct (start _). cbn. unfold stop. by destruct (joinable _).
Qed.

End rounds.

(** ** Properties *)

(** C13. However the reader and the writer interleave, the buffer never holds
    more than its limit and one message; what the writer took and what is left
    are, in order, messages that were received, cut at their first NUL, each at
    most once; and none is lost while no more than the limit was received in
    all. *)
Theorem buffer_bounded_fifo size filter evs :
  0 <= size -> size + max_length < 2 ^ 64 ->
  Forall (fun d => zlen d < max_length) (received evs) ->
  let s := run size filter evs new_buffered in
  bytes (m_buffer (b_buffer s)) <= size + max_length - 1 /\
  (b_taken s ++ m_buffer (b_buffer s)) `sublist_of` map c_str (received evs) /\
  (bytes (received evs) <= size ->
   b_taken s ++ m_buffer (b_buffer s) = map c_str (received evs)).
Proof.
  intros H1 H2 Hf s. destruct (run_ok size filter evs (conj H1 H2) Hf) as ([Hb1 Hb2] & _ & H3 & H4).
  fold s in Hb1, Hb2, H3, H4. split; [lia|]. by split.
Qed.

(** A message is lost although the buffer holds half of what it may: the count
    still has the bytes of the messages the writer took. *)
Definition early : list event :=
  [Connected; Woken; Received (lit "11111"); Received (lit "22222"); Taken (Ok 5);
   Received (lit "33333"); Taken (Ok 5); Received (lit "4")].

Lemma buffer_bounded_fifo_witness :
  let s := run 10 (fun _ => true) early new_buffered in
  bytes (m_buffer (b_buffer s)) <= 10 + max_length - 1 /\
  b_taken s ++ m_buffer (b_buffer s) = [lit "11111"; lit "22222"; lit "4"] /\
  (b_taken s ++ m_buffer (b_buffer s)) `sublist_of` map c_str (received early).
Proof.
  destruct (buffer_bounded_fifo 10 (fun _ => true) early) as (H1 & H2 & _).
  - lia.
  - reflexivity.
  - vm_compute. repeat constructor.
  - split; [exact H1|]. split; [vm_compute; reflexivity|exact H2].
Defined.

(** The provider with the socket of a new connection to a local system. *)
Definition with_local (s : socket) (p : provider) : provider :=
  {| p_client := p_client p; p_buffer := p_buffer p;
     p_local_connected_index := p_local_connected_index p; p_local := s;
     p_remote := p_remote p; p_count_out := p_count_out p |}.

(** A provider with a buffer gets data from one connection to its local
    systems only: once a round of the reader has put something into the buffer,
    the next round, whatever its connections do, reads nothing from its new
    socket and puts nothing into the buffer, since the writer thread cannot be
    started again. *)
Theorem buffered_provider_one_round what stop1 cl1 cr1 hs1 idx1 filter1
    stop2 cl2 cr2 hs2 idx2 filter2 p p1 r1 sock p2 r2 :
  reader_body what stop1 cl1 cr1 hs1 idx1 filter1 p = (p1, r1) ->
  p_buffer p1 <> p_buffer p ->
  reader_body what stop2 cl2 cr2 hs2 idx2 filter2 (with_local sock p1) = (p2, r2) ->
  p_buffer p2 = p_buffer p1 /\ p_local p2 = sock.
Proof.
  intros E1 Hne E2.
  assert (exists p0 r0, reader_round what stop1 cl1 cr1 hs1 idx1 filter1 p = (p0, r0) /\
            frame p0 p1) as (p0 & r0 & E0 & F0 & Fb & _).
  { unfold reader_body, st_catch in E1.
    destruct (reader_round what stop1 cl1 cr1 hs1 idx1 filter1 p) as [p0 r0]. exists p0, r0.
    split; [done|]. destruct r0 as [u|e|]; [by injection E1 as <- _| |by injection E1 as <- _].
    destruct (is_std_exception e); [|by injection E1 as <- _].
    by eapply (on_state_frame _ (dolog_frame _)). }
  destruct (reader_round_fills _ _ _ _ _ _ _ _ _ _ E0) as [?|(Hj & eps & size & Hk)]; [congruence|].
  assert (writer_joinable (with_local sock p1) = true) as Hj1.
  { destruct F0 as (Ft & _). unfold writer_joinable in *. cbn [with_local p_client]. by rewrite Ft. }
  assert (m_kind (fst (p_client (with_local sock p1))) = Provider eps size true) as Hk1.
  { destruct F0 as (_ & Fk & _). cbn [with_local p_client]. by rewrite Fk. }
  enough (frame (with_local sock p1) p2) as (_ & F2 & F3 & _) by by split.
  unfold reader_body in E2. revert E2. unfold st_catch.
  destruct (reader_round what stop2 cl2 cr2 hs2 idx2 filter2 (with_local sock p1)) as [p3 r3] eqn:E3.
  pose proof (reader_round_joinable _ _ _ _ _ _ _ _ _ _ _ _ Hk1 Hj1 E3) as F3.
  destruct r3 as [u|e|]; [by intros [= <- _]| |by intros [= <- _]].
  destruct (is_std_exception e); [|by intros [= <- _]]. intros E4.
  etransitivity; [exact F3|]. by eapply (on_state_frame _ (dolog_frame _)).
Qed.

Definition sample_provider (use_buffer : bool) : BaseClient :=
  {| m_kind := Provider [{| l_hostname := lit "h"; l_port := 1 |}] 1000000 use_buffer;
     m_id := 1;
     m_proxy_endpoints := [{| r_port := 2; r_name := lit "A"; r_hostname := lit "a";
                              r_username := []; r_password := [] |}];
     m_proxy_index := 0; m_active := true; m_local_port := 0; m_activate_port := 25500;
     m_max_connections := 1; m_activate_stamp := 0; m_log := [];
     m_thread_activate := new_thread true; m_thread_write := new_thread true;
     m_thread := new_thread true |}.

Definition sample_world : world :=
  {| files := ∅; m_cert_names := [lit "A"]; m_activate := []; logged := [] |}.

Definition socket_with (chunks : list (out (list ascii))) : socket :=
  {| sk_incoming := chunks; sk_accepts := []; sk_sent := [] |}.

Definition sample_state (c : BaseClient) (chunks : list (out (list ascii))) : provider :=
  {| p_client := (c, sample_world); p_buffer := new_message_buffer;
     p_local_connected_index := 0; p_local := socket_with chunks; p_remote := socket_with [];
     p_count_out := 0 |}.

Definition sample_body (p : provider) : provider * out unit :=
  reader_body (fun _ => []) (fun _ => false) (fun _ => Ok tt) (fun _ _ => Ok tt)
    (Ok tt) [0] (fun _ => true) p.

Definition first_round : provider * out unit :=
  sample_body (sample_state (sample_provider true) [Ok (lit "one")]).

Definition second_round : provider * out unit :=
  sample_body (with_local (socket_with [Ok (lit "two")]) (fst first_round)).

Lemma buffered_provider_one_round_witness :
  m_buffer (p_buffer (fst first_round)) = [lit "one"] /\
  m_buffer (p_buffer (fst second_round)) = [lit "one"] /\
  p_local (fst second_round) = socket_with [Ok (lit "two")].
Proof.
  destruct (buffered_provider_one_round (fun _ => []) (fun _ => false) (fun _ => Ok tt)
    (fun _ _ => Ok tt) (Ok tt) [0] (fun _ => true) (fun _ => false) (fun _ => Ok tt)
    (fun _ _ => Ok tt) (Ok tt) [0] (fun _ => true)
    (sample_state (sample_provider true) [Ok (lit "one")]) (fst first_round) (snd first_round)
    (socket_with [Ok (lit "two")]) (fst second_round) (snd second_round)) as [Hb Hl].
  - vm_compute. reflexivity.
  - vm_compute. discriminate.
  - vm_compute. reflexivity.
  - split; [vm_compute; reflexivity|]. split; [|exact Hl]. rewrite Hb. vm_compute. reflexivity.
Defined.

(** A provider without a buffer that was stopped and started again never
    connects to a remote proxy: once one of its local systems is connected, its
    thread ends with the interrupt exception, and nothing was read or sent; the
    writer thread it does not use is the one whose stop flag is looked at, and
    that flag is only cleared when the writer thread is started. *)
Theorem restarted_provider_ends what stop cl cr hs idx filter ret c eps size p :
  m_kind c = Provider eps size false ->
  fst (p_client p) = fst (client_start ret (client_stop c)) ->
  Exists (fun ep => certificate_available (r_name ep) (snd (p_client p)) = true) (m_proxy_endpoints c) ->
  Forall (fun l => cl l = Ok tt \/ exists e, cl l = Throw e /\ is_std_exception e = true) eps ->
  Exists (fun l => cl l = Ok tt) eps ->
  idx <> [] ->
  exists p', reader_body what stop cl cr hs idx filter p = (p', Throw InterruptException) /\
    p_remote p' = p_remote p /\ p_local p' = p_local p.
Proof.
  intros Hk Hc Hcert Hall Hex Hidx.
  destruct (client_restart_stopped ret c ltac:(unfold is_provider; by rewrite Hk))
    as (Hstop & Hk' & Heps). rewrite <- Hc in *.
  unfold reader_body, st_catch, reader_round. rewrite st_bind_gets, Hk', Hk, Heps.
  rewrite (proj2 (existsb_exists _ _)); cycle 1.
  { apply List.Exists_exists in Hcert as (x & Hin & Hx). by exists x. }
  cbn [negb]. destruct (open_local_Ok cl eps p Hall Hex) as [p1 E1].
  destruct (open_local_frame cl eps _ _ _ E1) as (_ & _ & Hl & Hr).
  rewrite (st_bind_Ok _ _ p p1 tt), Hstop by exact E1.
  erewrite st_bind_Throw; cycle 1.
  { unfold on_state. by rewrite connect_remote_stopped. }
  cbn [is_std_exception]. eexists. by split.
Qed.

Definition restarted : BaseClient :=
  fst (client_start 0 (client_stop (sample_provider false))).

Lemma restarted_provider_ends_witness :
  snd (sample_body (sample_state restarted [Ok (lit "one")])) = Throw InterruptException /\
  p_remote (fst (sample_body (sample_state restarted [Ok (lit "one")]))) = socket_with [].
Proof.
  destruct (restarted_provider_ends (fun _ => []) (fun _ => false) (fun _ => Ok tt)
    (fun _ _ => Ok tt) (Ok tt) [0] (fun _ => true) 0 (sample_provider false)
    [{| l_hostname := lit "h"; l_port := 1 |}] 1000000
    (sample_state restarted [Ok (lit "one")])) as (p' & E & Hr & _).
  - reflexivity.
  - reflexivity.
  - constructor. vm_compute. reflexivity.
  - constructor; [left; reflexivity|constructor].
  - constructor. reflexivity.
  - discriminate.
  - unfold sample_body. rewrite E. split; [reflexivity|exact Hr].
Defined.
