(* ===== verification/ProviderStop.v ===== *)
(** * Stopping a provider

    A [ProviderClient] ([providerclient.cpp]) runs a reader thread
    ([threadproc_reader]) and, when it buffers, a writer thread
    ([threadproc_writer]); [proxy_global::stopall] calls [stop] and then destroys
    the client.  Here the three run side by side, as in [Session]: the state says
    where each of them is, and a [move] is what one of them does between two
    places where another may come in.

    The data that is carried is in [ProviderClient]; here it matters whether a
    call ends, what it leaves of the two sockets and of the pointers through which
    [interrupt] reaches them. *)

From S2P Require Import Prelude Thread Explore Session.
From stdpp Require Import relations.

(** ** State *)

(** Where [threadproc_reader] is: not started; at the loop's condition; in the
    sleep; before the local socket is made, in the connection to the local
    system; before the start of the writer; without a buffer, before the remote
    socket is made and in [connect_remote], at its test, its connection and its
    handshake; at the condition of the inner loop, reading, writing; before the
    end of the block, and in its [unlock]; ended.  [killed] says whether the block
    is left by the exception of [check_run]. *)
Inductive reader_pc :=
  | PNone | PTest | PSleep | POpen | PConnect | PStartWriter
  | PGuard | PProxy | PDial | PShake | PLoop | PRead | PWrite
  | PDrop (killed : bool) | PUnlock (killed : bool) | PKilled.

(** Where [threadproc_writer] is: at the loop's condition; before the remote
    socket is made; in [connect_remote]; at the condition of the inner loop, in
    the wait, taking and writing messages; before the end of the block; in the
    sleep; ended. *)
Inductive writer_pc :=
  | WNone | WTest | WGuard | WProxy | WDial | WShake | WLoop | WWait | WDrain
  | WDrop (killed : bool) | WSleep | WKilled.

(** Where the caller of [stop] is: before it; joining the writer; before the
    reader's stop; before shutting the local and the remote socket; joining the
    reader; after [stop]; in the destructor of the writer's thread; after it. *)
Inductive caller_pc :=
  | TNone | TJoinWriter | TStopReader | TLocal | TRemote | TJoinReader | TStopped
  | TDestroy | TGone.

#[export] Instance reader_pc_eq_dec : EqDecision reader_pc.
Proof. solve_decision. Defined.
#[export] Instance writer_pc_eq_dec : EqDecision writer_pc.
Proof. solve_decision. Defined.
#[export] Instance caller_pc_eq_dec : EqDecision caller_pc.
Proof. solve_decision. Defined.

(** A socket object: destroyed or not made yet, not connected, connected, shut
    down. *)
Inductive socket_object := NoSocket | Has (s : local_socket).

#[export] Instance socket_object_eq_dec : EqDecision socket_object.
Proof. solve_decision. Defined.

(** [y_use_buffer] is [m_use_buffer]; the pointers are [mp_local_socket] and
    [mp_remote_socket], set or null. *)
Record provider_threads := {
  y_use_buffer : bool;
  y_reader : reader_pc;
  y_writer : writer_pc;
  y_caller : caller_pc;
  m_thread : thread;
  m_thread_write : thread;
  mp_local_socket : bool;
  y_local : socket_object;
  mp_remote_socket : bool;
  y_remote : socket_object }.

Definition set_reader (pc : reader_pc) (s : provider_threads) : provider_threads :=
  {| y_use_buffer := y_use_buffer s; y_reader := pc; y_writer := y_writer s; y_caller := y_caller s;
     m_thread := m_thread s; m_thread_write := m_thread_write s;
     mp_local_socket := mp_local_socket s; y_local := y_local s;
     mp_remote_socket := mp_remote_socket s; y_remote := y_remote s |}.
Definition set_writer (pc : writer_pc) (s : provider_threads) : provider_threads :=
  {| y_use_buffer := y_use_buffer s; y_reader := y_reader s; y_writer := pc; y_caller := y_caller s;
     m_thread := m_thread s; m_thread_write := m_thread_write s;
     mp_local_socket := mp_local_socket s; y_local := y_local s;
     mp_remote_socket := mp_remote_socket s; y_remote := y_remote s |}.
Definition set_caller (pc : caller_pc) (s : provider_threads) : provider_threads :=
  {| y_use_buffer := y_use_buffer s; y_reader := y_reader s; y_writer := y_writer s; y_caller := pc;
     m_thread := m_thread s; m_thread_write := m_thread_write s;
     mp_local_socket := mp_local_socket s; y_local := y_local s;
     mp_remote_socket := mp_remote_socket s; y_remote := y_remote s |}.
Definition set_threads (r w : thread) (s : provider_threads) : provider_threads :=
  {| y_use_buffer := y_use_buffer s; y_reader := y_reader s; y_writer := y_writer s;
     y_caller := y_caller s; m_thread := r; m_thread_write := w;
     mp_local_socket := mp_local_socket s; y_local := y_local s;
     mp_remote_socket := mp_remote_socket s; y_remote := y_remote s |}.
Definition set_local (p : bool) (k : socket_object) (s : provider_threads) : provider_threads :=
  {| y_use_buffer := y_use_buffer s; y_reader := y_reader s; y_writer := y_writer s;
     y_caller := y_caller s; m_thread := m_thread s; m_thread_write := m_thread_write s;
     mp_local_socket := p; y_local := k;
     mp_remote_socket := mp_remote_socket s; y_remote := y_remote s |}.
Definition set_remote (p : bool) (k : socket_object) (s : provider_threads) : provider_threads :=
  {| y_use_buffer := y_use_buffer s; y_reader := y_reader s; y_writer := y_writer s;
     y_caller := y_caller s; m_thread := m_thread s; m_thread_write := m_thread_write s;
     mp_local_socket := mp_local_socket s; y_local := y_local s;
     mp_remote_socket := p; y_remote := k |}.

(** ** Operations *)

(** [shutdown] of a socket found through its pointer; it does nothing to one that
    is not connected. *)
Definition shut (pointer : bool) (k : socket_object) : socket_object :=
  match k with
  | Has Connected => if pointer then Has ShutDown else k
  | _ => k
  end.

(** The two parts of [interrupt]. *)
Definition interrupt_local (s : provider_threads) : provider_threads :=
  set_local (mp_local_socket s) (shut (mp_local_socket s) (y_local s)) s.
Definition interrupt_remote (s : provider_threads) : provider_threads :=
  set_remote (mp_remote_socket s) (shut (mp_remote_socket s) (y_remote s)) s.

(** The client as it is made. *)
Definition new_provider (use_buffer : bool) : provider_threads :=
  {| y_use_buffer := use_buffer; y_reader := PNone; y_writer := WNone; y_caller := TNone;
     m_thread := new_thread true; m_thread_write := new_thread true;
     mp_local_socket := false; y_local := NoSocket;
     mp_remote_socket := false; y_remote := NoSocket |}.

(** How a connection to the next proxy ends: it is made, the next one is tried,
    or there is none left. *)
Inductive dialled := Reached | NextProxy | NoProxy.

(** What the writer finds: no message, a message that is written or held back by
    the plugin, a message whose writing fails. *)
Inductive taken := Emptied | Sent | Failed.

(** [ok] says whether the call succeeds; [found] whether the certificate of a
    proxy is there. *)
Inductive move :=
  | StartReader | ReaderTests | ReaderWakes (found : bool) | ReaderOpens | ReaderConnects (ok : bool)
  | ReaderStartsWriter | ReaderGuards | ReaderChecks | ReaderDials (d : dialled)
  | ReaderShakes (ok : bool) | ReaderLoops | ReaderReads (ok : bool) | ReaderWrites (ok : bool)
  | ReaderDrops | ReaderUnlocks
  | WriterTests | WriterGuards | WriterChecks | WriterDials (d : dialled) | WriterShakes (ok : bool)
  | WriterLoops | WriterWakes | WriterTakes (t : taken) | WriterDrops | WriterSleeps
  | StopWriter | JoinWriter | StopReader | StopLocal | StopRemote | JoinReader
  | Destroy | DestroyWriter.

#[export] Instance dialled_eq_dec : EqDecision dialled.
Proof. solve_decision. Defined.
#[export] Instance taken_eq_dec : EqDecision taken.
Proof. solve_decision. Defined.
#[export] Instance move_eq_dec : EqDecision move.
Proof. solve_decision. Defined.

(** The function of a thread is left by the exception of [check_run]. *)
Definition kill_reader (s : provider_threads) : provider_threads :=
  set_reader PKilled (set_threads (returned (m_thread s)) (m_thread_write s) s).
Definition kill_writer (s : provider_threads) : provider_threads :=
  set_writer WKilled (set_threads (m_thread s) (returned (m_thread_write s)) s).

(** [connect_remote], whichever thread runs it, tests the writer's flag. *)
Definition writer_runs (s : provider_threads) : bool :=
  match check_run (m_stop (m_thread_write s)) true with Ok _ => true | _ => false end.
Definition reader_runs (s : provider_threads) : bool :=
  match check_run (m_stop (m_thread s)) true with Ok _ => true | _ => false end.

(** [start], which nobody calls after [stop], and the parts of
    [threadproc_reader]. *)
Definition reader_move (m : move) (s : provider_threads) : option provider_threads :=
  match m, y_reader s with
  | StartReader, PNone =>
      if bool_decide (y_caller s = TNone) then
        Some (match start (m_thread s) with
              | (t, Ok _) => set_reader PTest (set_threads t (m_thread_write s) s)
              | (t, _) => s
              end)
      else None
  | ReaderTests, PTest => Some (if reader_runs s then set_reader PSleep s else kill_reader s)
  | ReaderWakes found, PSleep =>
      Some (if reader_runs s then set_reader (if found then POpen else PTest) s else kill_reader s)
  | ReaderOpens, POpen => Some (set_reader PConnect (set_local true (Has Unconnected) s))
  | ReaderConnects ok, PConnect =>
      Some (if ok then set_reader (if y_use_buffer s then PStartWriter else PGuard)
                         (set_local (mp_local_socket s) (Has Connected) s)
            else set_reader (PDrop false) s)
  | ReaderStartsWriter, PStartWriter =>
      Some (match start (m_thread_write s) with
            | (t, Ok _) => set_reader PLoop (set_writer WTest (set_threads (m_thread s) t s))
            | (t, _) => set_reader (PDrop false) s
            end)
  | ReaderGuards, PGuard => Some (set_reader PProxy (set_remote true (Has Unconnected) s))
  | ReaderChecks, PProxy => Some (set_reader (if writer_runs s then PDial else PDrop true) s)
  | ReaderDials d, PDial =>
      Some (match d with
            | Reached => set_reader PShake (set_remote (mp_remote_socket s) (Has Connected) s)
            | NextProxy => set_reader PProxy s
            | NoProxy => set_reader (PDrop false) s
            end)
  | ReaderShakes ok, PShake => Some (set_reader (if ok then PLoop else PDrop false) s)
  | ReaderLoops, PLoop => Some (set_reader (if reader_runs s then PRead else PDrop true) s)
  | ReaderReads ok, PRead =>
      Some (set_reader (if ok then if y_use_buffer s then PLoop else PWrite else PDrop false) s)
  | ReaderWrites ok, PWrite => Some (set_reader (if ok then PLoop else PDrop false) s)
  | ReaderDrops, PDrop killed =>
      Some (set_reader (PUnlock killed) (set_local false NoSocket
              (if y_use_buffer s then s else set_remote false NoSocket s)))
  | ReaderUnlocks, PUnlock killed =>
      let s := interrupt_remote (interrupt_local s) in
      Some (if killed then kill_reader s else set_reader PTest s)
  | _, _ => None
  end.

(** The parts of [threadproc_writer]. *)
Definition writer_move (m : move) (s : provider_threads) : option provider_threads :=
  match m, y_writer s with
  | WriterTests, WTest => Some (if writer_runs s then set_writer WGuard s else kill_writer s)
  | WriterGuards, WGuard => Some (set_writer WProxy (set_remote true (Has Unconnected) s))
  | WriterChecks, WProxy => Some (set_writer (if writer_runs s then WDial else WDrop true) s)
  | WriterDials d, WDial =>
      Some (match d with
            | Reached => set_writer WShake (set_remote (mp_remote_socket s) (Has Connected) s)
            | NextProxy => set_writer WProxy s
            | NoProxy => set_writer (WDrop false) s
            end)
  | WriterShakes ok, WShake => Some (set_writer (if ok then WLoop else WDrop false) s)
  | WriterLoops, WLoop => Some (set_writer (if writer_runs s then WWait else WDrop true) s)
  | WriterWakes, WWait => Some (set_writer WDrain s)
  | WriterTakes t, WDrain =>
      Some (set_writer (match t with Emptied => WLoop | Sent => WDrain | Failed => WDrop false end) s)
  | WriterDrops, WDrop killed =>
      let s := set_remote false NoSocket s in
      Some (if killed then kill_writer s else set_writer WSleep s)
  | WriterSleeps, WSleep => Some (if writer_runs s then set_writer WTest s else kill_writer s)
  | _, _ => None
  end.

(** The parts of [stop] and of the destructors, the reader's thread first.  The
    writer's interrupt function only wakes a wait, which may end by itself.  The
    activation thread, which [stop] joins before, has no part in it. *)
Definition caller_move (m : move) (s : provider_threads) : option provider_threads :=
  match m, y_caller s with
  | StopWriter, TNone =>
      Some (set_caller (if joinable (m_thread_write s) then TJoinWriter else TStopReader)
              (set_threads (m_thread s) (stop false (m_thread_write s)) s))
  | JoinWriter, TJoinWriter =>
      if joined (m_thread_write s)
      then Some (set_caller TStopReader (set_threads (m_thread s) (destroy (m_thread_write s)) s))
      else None
  | StopReader, TStopReader =>
      Some (set_caller (if joinable (m_thread s) then TLocal else TStopped)
              (set_threads (stop false (m_thread s)) (m_thread_write s) s))
  | StopLocal, TLocal => Some (set_caller TRemote (interrupt_local s))
  | StopRemote, TRemote => Some (set_caller TJoinReader (interrupt_remote s))
  | JoinReader, TJoinReader =>
      if joined (m_thread s)
      then Some (set_caller TStopped (set_threads (destroy (m_thread s)) (m_thread_write s) s))
      else None
  | Destroy, TStopped =>
      if joined (m_thread s)
      then Some (set_caller TDestroy (set_threads (destroy (m_thread s)) (m_thread_write s) s))
      else None
  | DestroyWriter, TDestroy =>
      if joined (m_thread_write s)
      then Some (set_caller TGone (set_threads (m_thread s) (destroy (m_thread_write s)) s))
      else None
  | _, _ => None
  end.

Definition make_move (m : move) (s : provider_threads) : option provider_threads :=
  match m with
  | WriterTests | WriterGuards | WriterChecks | WriterDials _ | WriterShakes _ | WriterLoops
  | WriterWakes | WriterTakes _ | WriterDrops | WriterSleeps => writer_move m s
  | StopWriter | JoinWriter | StopReader | StopLocal | StopRemote | JoinReader
  | Destroy | DestroyWriter => caller_move m s
  | _ => reader_move m s
  end.

Definition step : provider_threads -> provider_threads -> Prop := moves_to make_move.

Definition reachable (s : provider_threads) : Prop :=
  exists use_buffer, rtc step (new_provider use_buffer) s.

(** Nothing arrives on a socket that was shut down, nothing can be written to it,
    and no handshake succeeds on it. *)
Definition polite (m : move) (s : provider_threads) : bool :=
  match m with
  | ReaderReads true => bool_decide (y_local s = Has Connected)
  | ReaderWrites true | ReaderShakes true | WriterShakes true | WriterTakes Sent =>
      bool_decide (y_remote s = Has Connected)
  | _ => true
  end.

Definition polite_step (s s' : provider_threads) : Prop :=
  exists m, polite m s = true /\ make_move m s = Some s'.

(** ** The states *)

#[export] Instance provider_threads_eq_dec : EqDecision provider_threads.
Proof. solve_decision. Defined.

Definition all_moves : list move :=
  [StartReader; ReaderTests; ReaderWakes true; ReaderWakes false; ReaderOpens; ReaderConnects true;
   ReaderConnects false; ReaderStartsWriter; ReaderGuards; ReaderChecks; ReaderDials Reached;
   ReaderDials NextProxy; ReaderDials NoProxy; ReaderShakes true; ReaderShakes false; ReaderLoops;
   ReaderReads true; ReaderReads false; ReaderWrites true; ReaderWrites false; ReaderDrops;
   ReaderUnlocks; WriterTests; WriterGuards; WriterChecks; WriterDials Reached;
   WriterDials NextProxy; WriterDials NoProxy; WriterShakes true; WriterShakes false; WriterLoops;
   WriterWakes; WriterTakes Emptied; WriterTakes Sent; WriterTakes Failed; WriterDrops;
   WriterSleeps; StopWriter; JoinWriter; StopReader; StopLocal; StopRemote; JoinReader; Destroy;
   DestroyWriter].

Lemma provider_moves_all m : m ∈ all_moves.
Proof.
  destruct m as [| |[]| |[]| | | |[]|[]| |[]|[]| | | | | |[]|[]| | |[]| | | | | | | | | |];
    apply (bool_decide_unpack _); by vm_compute.
Qed.

(** A number for the places of the threads. *)
Definition reader_code (pc : reader_pc) : N :=
  match pc with
  | PNone => 0 | PTest => 1 | PSleep => 2 | POpen => 3 | PConnect => 4 | PStartWriter => 5
  | PGuard => 6 | PProxy => 7 | PDial => 8 | PShake => 9 | PLoop => 10 | PRead => 11
  | PWrite => 12 | PDrop false => 13 | PDrop true => 14 | PUnlock false => 15
  | PUnlock true => 16 | PKilled => 17
  end.

Definition writer_code (pc : writer_pc) : N :=
  match pc with
  | WNone => 0 | WTest => 1 | WGuard => 2 | WProxy => 3 | WDial => 4 | WShake => 5 | WLoop => 6
  | WWait => 7 | WDrain => 8 | WDrop false => 9 | WDrop true => 10 | WSleep => 11 | WKilled => 12
  end.

Definition caller_code (pc : caller_pc) : N :=
  match pc with
  | TNone => 0 | TJoinWriter => 1 | TStopReader => 2 | TLocal => 3 | TRemote => 4
  | TJoinReader => 5 | TStopped => 6 | TDestroy => 7 | TGone => 8
  end.

Definition provider_key (s : provider_threads) : positive :=
  N.succ_pos (reader_code (y_reader s) +
    32 * (writer_code (y_writer s) + 16 * caller_code (y_caller s))).

Definition all_states : list provider_threads :=
  Eval vm_compute in
    explore make_move all_moves provider_key (Z.to_nat 200000)
      [new_provider true; new_provider false] [] ∅.

(** ** Ends *)

Definition ended_reader (s : provider_threads) : bool :=
  bool_decide (y_reader s = PKilled) && negb (running (m_thread s)).

Definition ended_writer (s : provider_threads) : bool :=
  bool_decide (y_writer s = WKilled \/ y_writer s = WNone) && negb (running (m_thread_write s)).

(** The writer was started after [stop] had dealt with it. *)
Definition late_writer (s : provider_threads) : bool :=
  negb (bool_decide (y_caller s = TNone)) && negb (m_stop (m_thread_write s)).

(** How many moves a thread that was told to stop has left at most. *)
Definition reader_rank (pc : reader_pc) : nat :=
  match pc with
  | POpen => 15 | PConnect => 14 | PGuard => 13 | PStartWriter => 12 | PDial => 12
  | PProxy => 11 | PShake => 11 | PRead => 11 | PWrite => 10 | PLoop => 9
  | PDrop false => 4 | PUnlock false => 3 | PTest => 2 | PSleep => 1
  | PDrop true => 2 | PUnlock true => 1
  | PNone => 1 | PKilled => 0
  end.

Definition writer_rank (pc : writer_pc) : nat :=
  match pc with
  | WGuard => 7 | WDial => 7 | WProxy => 6 | WShake => 6 | WWait => 7 | WDrain => 6 | WLoop => 5
  | WDrop false => 2 | WDrop true => 1 | WSleep => 1 | WTest => 1 | WNone => 1 | WKilled => 0
  end.

(** The moves of the two threads; a message that was written is not counted. *)
Definition by_reader (m : move) : bool :=
  match m with
  | StartReader | ReaderTests | ReaderWakes _ | ReaderOpens | ReaderConnects _
  | ReaderStartsWriter | ReaderGuards | ReaderChecks | ReaderDials _ | ReaderShakes _
  | ReaderLoops | ReaderReads _ | ReaderWrites _ | ReaderDrops | ReaderUnlocks => true
  | _ => false
  end.

Definition by_writer (m : move) : bool :=
  match m with
  | WriterTests | WriterGuards | WriterChecks | WriterDials _ | WriterShakes _ | WriterLoops
  | WriterWakes | WriterTakes Emptied | WriterTakes Failed | WriterDrops | WriterSleeps => true
  | _ => false
  end.

Definition count (p : move -> bool) (l : list move) : nat :=
  sum_list ((fun m => if p m then 1%nat else 0%nat) <$> l).

(** The moves that need no other process: a call on a connected socket that was
    not shut may wait for the other end for ever. *)
Definition certain (m : move) (s : provider_threads) : bool :=
  match m with
  | StopWriter => false
  | ReaderReads _ => negb (bool_decide (y_local s = Has Connected))
  | ReaderWrites _ | ReaderShakes _ | WriterShakes _ | WriterTakes _ =>
      negb (bool_decide (y_remote s = Has Connected))
  | _ => true
  end.

Definition blocked (s : provider_threads) : bool :=
  forallb (fun m => negb (certain m s) || bool_decide (make_move m s = None)) all_moves.

(** The client is gone with its threads and sockets. *)
Definition gone (s : provider_threads) : bool :=
  bool_decide (y_caller s = TGone) &&
  (ended_reader s || bool_decide (y_reader s = PNone)) && ended_writer s &&
  bool_decide (y_local s = NoSocket /\ y_remote s = NoSocket).

(** A thread waits for a proxy, in a handshake or, with a buffer, in a write. *)
Definition awaits_proxy (s : provider_threads) : bool :=
  bool_decide (y_remote s = Has Connected) &&
  if y_use_buffer s then bool_decide (y_writer s = WShake \/ y_writer s = WDrain)
  else bool_decide (y_reader s = PShake).

(** ** Lemmas *)

Lemma provider_states_closed : closed make_move all_moves provider_key all_states = true.
Proof. vm_compute. reflexivity. Qed.

Lemma provider_states_start use_buffer : new_provider use_buffer ∈ all_states.
Proof. destruct use_buffer; apply (bool_decide_unpack _); vm_compute; exact I. Qed.

Lemma provider_implies p q s :
  forallb (implies p q) all_states = true -> reachable s -> p s = true -> q s = true.
Proof.
  intros Hp [b Hr] Hs.
  apply (always_implies make_move all_moves provider_moves_all provider_key all_states (new_provider b) s p);
    [exact provider_states_closed|apply provider_states_start|done..].
Qed.

Lemma provider_always (P : provider_threads -> Prop) `{!forall s, Decision (P s)} s :
  forallb (fun s => bool_decide (P s)) all_states = true -> reachable s -> P s.
Proof.
  intros HP Hr. apply (bool_decide_eq_true_1 (P s)).
  apply (provider_implies (fun _ => true) (fun s => bool_decide (P s)) s); done.
Qed.

Lemma provider_edge (p : provider_threads -> bool) q m s s' :
  forallb (implies p (each_edge make_move all_moves q)) all_states = true ->
  reachable s -> p s = true -> make_move m s = Some s' -> q m s s' = true.
Proof.
  intros Hp Hr Hs E. pose proof (provider_implies _ _ s Hp Hr Hs) as H.
  pose proof (forallb_elem _ _ m H (provider_moves_all m)) as H'. cbn in H'. by rewrite E in H'.
Qed.

Lemma reachable_step m s s' : reachable s -> make_move m s = Some s' -> reachable s'.
Proof. intros [b Hr] E. exists b. eapply rtc_r; [exact Hr|by exists m]. Qed.

(** A thread that was told to stop stays told. *)
Definition told_reader (s : provider_threads) : bool := m_stop (m_thread s).
Definition told_writer (s : provider_threads) : bool := bool_decide (y_caller s = TJoinWriter).

Definition reader_nearer (m : move) (s s' : provider_threads) : bool :=
  told_reader s' &&
  ((if by_reader m then 1 else 0) + reader_rank (y_reader s') <=? reader_rank (y_reader s))%nat.

Definition writer_nearer (m : move) (s s' : provider_threads) : bool :=
  bool_decide (m = JoinWriter) ||
  told_writer s' &&
  ((if by_writer m then 1 else 0) + writer_rank (y_writer s') <=? writer_rank (y_writer s))%nat.

Lemma told_reader_nearer : forallb (implies told_reader (each_edge make_move all_moves reader_nearer)) all_states = true.
Proof. vm_compute. reflexivity. Qed.

Lemma told_writer_nearer : forallb (implies told_writer (each_edge make_move all_moves writer_nearer)) all_states = true.
Proof. vm_compute. reflexivity. Qed.

Lemma count_bounded (told allowed by_thread : _ -> bool) rank l s s' :
  (forall m s1 s2, reachable s1 -> told s1 = true -> allowed m = true -> make_move m s1 = Some s2 ->
     told s2 = true /\ ((if by_thread m then 1 else 0) + rank s2 <= rank s1)%nat) ->
  reachable s -> told s = true -> forallb allowed l = true -> play make_move l s = Some s' ->
  (count by_thread l <= rank s)%nat.
Proof.
  intros Hstep Hr Ht Hl Hp.
  pose proof (play_weight make_move (fun s => reachable s /\ told s = true) allowed
    (fun m => if by_thread m then 1 else 0)%nat rank l s s') as H.
  etransitivity; [|apply H; [|done..]]; [unfold count; lia|].
  intros s1 s2 m [Hr1 Ht1] Hm E. destruct (Hstep m s1 s2) as [H1 H2]; [done..|].
  split; [split; [by apply (reachable_step m s1)|done]|done].
Qed.

Lemma blocked_intro s :
  (forall m s', certain m s = true -> make_move m s <> Some s') -> blocked s = true.
Proof.
  intros Hs. apply forallb_forall. intros m _. destruct (certain m s) eqn:Hm; [|done]. cbn.
  apply bool_decide_eq_true. destruct (make_move m s) as [s'|] eqn:E; [|done]. by destruct (Hs m s').
Qed.

(** ** Properties *)

(** C10. A thread of a provider that was told to stop comes to its end whatever it
    was doing and whatever the other threads and its sockets do: in any run in
    which [stop] waits for the writer, the writer makes at most seven moves, not
    counting the messages it still writes; and once [stop] has told the reader, it
    makes at most fifteen. *)
Theorem provider_stop_bounded s l s' :
  reachable s -> play make_move l s = Some s' ->
  (y_caller s = TJoinWriter -> JoinWriter ∉ l -> (count by_writer l <= 7)%nat) /\
  (m_stop (m_thread s) = true -> (count by_reader l <= 15)%nat).
Proof.
  intros Hr Hp. split.
  - intros Hc Hl. transitivity (writer_rank (y_writer s));
      [|by destruct (y_writer s) as [| | | | | | | | |[]| |]; cbn; lia].
    apply (count_bounded told_writer (fun m => negb (bool_decide (m = JoinWriter)))
             by_writer (fun s => writer_rank (y_writer s)) l s s'); [|done|by apply bool_decide_eq_true| |done].
    + intros m s1 s2 Hr1 Ht Hm E.
      pose proof (provider_edge _ _ m s1 s2 told_writer_nearer Hr1 Ht E) as H.
      unfold writer_nearer in H. apply negb_true_iff in Hm. rewrite Hm in H.
      by apply andb_true_iff in H as [H1 H2%Nat.leb_le].
    + apply forallb_forall. intros m Hm%list_elem_of_In. apply negb_true_iff, bool_decide_eq_false.
      by intros ->.
  - intros Hc. transitivity (reader_rank (y_reader s));
      [|by destruct (y_reader s) as [| | | | | | | | | | | | |[]|[]|]; cbn; lia].
    apply (count_bounded told_reader (fun _ => true) by_reader (fun s => reader_rank (y_reader s)) l s s');
      [|done..|by apply forallb_forall|done].
    intros m s1 s2 Hr1 Ht _ E.
    pose proof (provider_edge _ _ m s1 s2 told_reader_nearer Hr1 Ht E) as H.
    by apply andb_true_iff in H as [H1 H2%Nat.leb_le].
Qed.

(** A run of a buffering provider up to its data, and one of the writer that was
    told to stop. *)
Definition after (use_buffer : bool) (l : list move) : provider_threads :=
  default (new_provider use_buffer) (play make_move l (new_provider use_buffer)).

Lemma provider_after b l :
  play make_move l (new_provider b) = Some (after b l) -> reachable (after b l).
Proof. intros Hl. exists b. eapply played; [constructor|exact Hl]. Qed.

Definition to_connect : list move :=
  [StartReader; ReaderTests; ReaderWakes true; ReaderOpens].

Definition buffering : list move :=
  to_connect ++ [ReaderConnects true; ReaderStartsWriter; ReaderLoops; WriterTests; WriterGuards;
    WriterChecks; WriterDials NextProxy; WriterChecks; WriterDials Reached; WriterShakes true;
    WriterLoops].

Definition writer_winds_down : list move :=
  [ReaderReads true; WriterWakes; WriterTakes Sent; WriterTakes Emptied; ReaderLoops; WriterLoops;
   WriterDrops].

Definition reader_winds_down : list move :=
  [ReaderReads false; StopLocal; StopRemote; ReaderDrops; ReaderUnlocks; ReaderTests].

Lemma provider_stop_bounded_witness :
  let s1 := after true (buffering ++ [StopWriter]) in
  let s2 := after true (buffering ++ [StopWriter] ++ writer_winds_down ++ [JoinWriter; ReaderReads true;
              ReaderLoops; StopReader]) in
  (count by_writer writer_winds_down <= 7)%nat /\ (count by_reader reader_winds_down <= 15)%nat.
Proof.
  intros s1 s2. split.
  - apply (provider_stop_bounded s1 writer_winds_down (default s1 (play make_move writer_winds_down s1)));
      [apply provider_after; vm_compute; reflexivity|vm_compute; reflexivity..|].
    apply (bool_decide_unpack _). vm_compute. exact I.
  - apply (provider_stop_bounded s2 reader_winds_down (default s2 (play make_move reader_winds_down s2)));
      [apply provider_after; vm_compute; reflexivity|vm_compute; reflexivity..].
Defined.

(** C4. When the stop and the destruction of a provider cannot go on without
    another process, they are over, with both threads ended and no socket left,
    or they wait for a proxy: for its answer in a handshake, or, with a buffer,
    for it to take a message.  In particular the local system, however silent,
    does not hold a stop up, and the threads and the caller never wait for each
    other in a circle. *)
Theorem provider_stop_waits s :
  reachable s -> y_caller s <> TNone ->
  (forall m s', certain m s = true -> make_move m s <> Some s') ->
  gone s = true \/ awaits_proxy s = true.
Proof.
  intros Hr Hc Hs%blocked_intro. apply orb_true_iff.
  apply (provider_implies (fun s => negb (bool_decide (y_caller s = TNone)) && blocked s)
           (fun s => gone s || awaits_proxy s)); [vm_compute; reflexivity|done|].
  by rewrite Hs, bool_decide_false by done.
Qed.

Definition stopped_run : list move :=
  buffering ++ [StopWriter; WriterWakes; WriterTakes Emptied; WriterLoops; WriterDrops; JoinWriter;
    StopReader; StopLocal; StopRemote; ReaderReads false; ReaderDrops; ReaderUnlocks; ReaderTests;
    JoinReader; Destroy; DestroyWriter].

Lemma provider_stop_waits_witness : gone (after true stopped_run) = true.
Proof.
  destruct (provider_stop_waits (after true stopped_run)) as [H|H];
    [apply provider_after; vm_compute; reflexivity|vm_compute; discriminate| |exact H|vm_compute in H; discriminate H].
  intros m s' _ E.
  destruct m as [| |[]| |[]| | | |[]|[]| |[]|[]| | | | | |[]|[]| | |[]| | | | | | | | | |];
    vm_compute in E; discriminate E.
Defined.

(** In every reachable state [mp_local_socket] and [mp_remote_socket] are set
    exactly while the socket they point to is there, so that [interrupt] never
    touches one that was destroyed and misses none that is there.  When [stop] has
    returned, the reader has ended, and so has the writer unless it was started
    after [stop] had dealt with it; without a buffer there is none. *)
Theorem provider_stop_complete s :
  reachable s ->
  (mp_local_socket s = true <-> y_local s <> NoSocket) /\
  (mp_remote_socket s = true <-> y_remote s <> NoSocket) /\
  (y_caller s = TStopped ->
   running (m_thread s) = false /\ (late_writer s = false -> running (m_thread_write s) = false) /\
   (y_use_buffer s = false -> y_writer s = WNone)).
Proof.
  intros Hr. pattern s. eapply provider_always; [vm_compute; reflexivity|done].
Qed.

Lemma provider_stop_complete_witness :
  let s := after true (removelast (removelast stopped_run)) in
  y_caller s = TStopped /\ running (m_thread s) = false.
Proof.
  intros s. split; [vm_compute; reflexivity|].
  destruct (provider_stop_complete s) as (_ & _ & H);
    [apply provider_after; vm_compute; reflexivity|apply H; vm_compute; reflexivity].
Defined.

(** [stop] finds no writer, and the reader starts one. *)
Definition late_run : list move :=
  to_connect ++ [StopWriter; ReaderConnects true; ReaderStartsWriter; StopReader; StopLocal;
    StopRemote; ReaderLoops; ReaderDrops; ReaderUnlocks; JoinReader; Destroy].

(** What a run can get to that was late. *)
Definition late_states : list provider_threads :=
  Eval vm_compute in
    explore make_move all_moves provider_key (Z.to_nat 200000) [after true late_run] [] ∅.

(** C32. A provider that buffers and is stopped while its reader connects to the
    local system: the reader starts the writer after [stop] has dealt with it,
    which clears the writer's stop flag again.  [stop] returns and the reader
    ends, but the writer goes on connecting to the proxies for ever, and the
    destructor of the client, which waits for it, never returns, whatever
    happens. *)
Theorem late_writer_hangs :
  exists s, reachable s /\ y_caller s = TDestroy /\ ended_reader s = true /\
    forall s', rtc step s s' -> y_caller s' = TDestroy /\ running (m_thread_write s') = true.
Proof.
  exists (after true late_run). split; [apply provider_after; vm_compute; reflexivity|].
  split; [vm_compute; reflexivity|]. split; [vm_compute; reflexivity|]. intros s' Hr.
  apply (bool_decide_eq_true_1 (y_caller s' = TDestroy /\ running (m_thread_write s') = true)).
  apply (always make_move all_moves provider_moves_all provider_key late_states (after true late_run) s'
    (fun s' => bool_decide (y_caller s' = TDestroy /\ running (m_thread_write s') = true)));
    [vm_compute; reflexivity|apply (bool_decide_unpack _); vm_compute; exact I|vm_compute; reflexivity|done].
Qed.
