(* ===== verification/LocalHost.v ===== *)
(** * Local hosts

    [LocalHost] and [LocalHostSocket] ([localclient.h], [localclient.cpp]): the
    relay between local connections and one remote proxy, run by handlers of an
    [io_service].

    The state has the members of the class, the operations that are pending in
    the [io_service], and four observations: what was read and written on
    either side, in pieces (the data flow meters get their lengths).  A [step] takes one pending operation and an outcome it may
    have, and runs its handler; [round_start] is [go_out] up to [run].  A local
    socket is named by the id of its [LocalHostSocket].  Times are seconds. *)

From S2P Require Import Prelude CppString Plugin BaseClient.

(** ** State *)

(** A pending operation.  [keeps] tells whether the handler of a local read
    shares the ownership of the [LocalHostSocket], or someone else does, so that
    it is still there when the handler runs.  [round] is the connection to the
    remote proxy the operation belongs to. *)
Inductive op :=
  | LocalRead (id : Z) (keeps : bool)
  | LocalWrite (id : Z) (length : nat)
  | RemoteRead (round : nat)
  | RemoteWrite (round : nat) (id : Z) (length : nat)
  | Handshake (round : nat)
  | Wait (round : nat)
  | Accept.

#[export] Instance op_eq_dec : EqDecision op.
Proof. solve_decision. Defined.

Record LocalHost := {
  l_port : Z;
  l_max_connections : Z;
  l_read_timeout : Z;
  l_auto_reconnect : bool;
  l_logging : bool;
  id_gen : Z;
  m_local_sockets : list Z;
  l_local_data : list ascii;
  l_remote_data : list ascii;
  m_write_count : Z;
  l_deadline : option Z;
  l_round : nat;
  l_remote_open : bool;
  l_pending : list op;
  l_last_outgoing : list ascii;
  l_last_incoming : list ascii;
  l_read : list (list ascii);
  l_sent : list (list ascii);
  l_received : list (list ascii);
  l_delivered : list (Z * list ascii) }.

(** Updates of single members. *)
Definition with_sockets (ids : list Z) (gen : Z) (h : LocalHost) : LocalHost :=
  {| l_port := l_port h; l_max_connections := l_max_connections h;
     l_read_timeout := l_read_timeout h; l_auto_reconnect := l_auto_reconnect h;
     l_logging := l_logging h; id_gen := gen; m_local_sockets := ids;
     l_local_data := l_local_data h; l_remote_data := l_remote_data h;
     m_write_count := m_write_count h; l_deadline := l_deadline h; l_round := l_round h;
     l_remote_open := l_remote_open h; l_pending := l_pending h;
     l_last_outgoing := l_last_outgoing h; l_last_incoming := l_last_incoming h;
     l_read := l_read h; l_sent := l_sent h; l_received := l_received h;
     l_delivered := l_delivered h |}.

Definition with_pending (ops : list op) (h : LocalHost) : LocalHost :=
  {| l_port := l_port h; l_max_connections := l_max_connections h;
     l_read_timeout := l_read_timeout h; l_auto_reconnect := l_auto_reconnect h;
     l_logging := l_logging h; id_gen := id_gen h; m_local_sockets := m_local_sockets h;
     l_local_data := l_local_data h; l_remote_data := l_remote_data h;
     m_write_count := m_write_count h; l_deadline := l_deadline h; l_round := l_round h;
     l_remote_open := l_remote_open h; l_pending := ops;
     l_last_outgoing := l_last_outgoing h; l_last_incoming := l_last_incoming h;
     l_read := l_read h; l_sent := l_sent h; l_received := l_received h;
     l_delivered := l_delivered h |}.

Definition with_local_data (data last : list ascii) (read : list (list ascii)) (h : LocalHost)
    : LocalHost :=
  {| l_port := l_port h; l_max_connections := l_max_connections h;
     l_read_timeout := l_read_timeout h; l_auto_reconnect := l_auto_reconnect h;
     l_logging := l_logging h; id_gen := id_gen h; m_local_sockets := m_local_sockets h;
     l_local_data := data; l_remote_data := l_remote_data h;
     m_write_count := m_write_count h; l_deadline := l_deadline h; l_round := l_round h;
     l_remote_open := l_remote_open h; l_pending := l_pending h;
     l_last_outgoing := last; l_last_incoming := l_last_incoming h;
     l_read := read; l_sent := l_sent h; l_received := l_received h;
     l_delivered := l_delivered h |}.

Definition with_remote_data (data last : list ascii) (received : list (list ascii))
    (h : LocalHost) : LocalHost :=
  {| l_port := l_port h; l_max_connections := l_max_connections h;
     l_read_timeout := l_read_timeout h; l_auto_reconnect := l_auto_reconnect h;
     l_logging := l_logging h; id_gen := id_gen h; m_local_sockets := m_local_sockets h;
     l_local_data := l_local_data h; l_remote_data := data;
     m_write_count := m_write_count h; l_deadline := l_deadline h; l_round := l_round h;
     l_remote_open := l_remote_open h; l_pending := l_pending h;
     l_last_outgoing := l_last_outgoing h; l_last_incoming := last;
     l_read := l_read h; l_sent := l_sent h; l_received := received;
     l_delivered := l_delivered h |}.

Definition with_write_count (n : Z) (h : LocalHost) : LocalHost :=
  {| l_port := l_port h; l_max_connections := l_max_connections h;
     l_read_timeout := l_read_timeout h; l_auto_reconnect := l_auto_reconnect h;
     l_logging := l_logging h; id_gen := id_gen h; m_local_sockets := m_local_sockets h;
     l_local_data := l_local_data h; l_remote_data := l_remote_data h;
     m_write_count := n; l_deadline := l_deadline h; l_round := l_round h;
     l_remote_open := l_remote_open h; l_pending := l_pending h;
     l_last_outgoing := l_last_outgoing h; l_last_incoming := l_last_incoming h;
     l_read := l_read h; l_sent := l_sent h; l_received := l_received h;
     l_delivered := l_delivered h |}.

(** The connection to the remote proxy: its round, its state, its deadline. *)
Definition with_remote (round : nat) (open : bool) (deadline : option Z) (h : LocalHost)
    : LocalHost :=
  {| l_port := l_port h; l_max_connections := l_max_connections h;
     l_read_timeout := l_read_timeout h; l_auto_reconnect := l_auto_reconnect h;
     l_logging := l_logging h; id_gen := id_gen h; m_local_sockets := m_local_sockets h;
     l_local_data := l_local_data h; l_remote_data := l_remote_data h;
     m_write_count := m_write_count h; l_deadline := deadline; l_round := round;
     l_remote_open := open; l_pending := l_pending h;
     l_last_outgoing := l_last_outgoing h; l_last_incoming := l_last_incoming h;
     l_read := l_read h; l_sent := l_sent h; l_received := l_received h;
     l_delivered := l_delivered h |}.

(** The observations of what was written. *)
Definition with_written (sent : list (list ascii)) (delivered : list (Z * list ascii))
    (h : LocalHost) : LocalHost :=
  {| l_port := l_port h; l_max_connections := l_max_connections h;
     l_read_timeout := l_read_timeout h; l_auto_reconnect := l_auto_reconnect h;
     l_logging := l_logging h; id_gen := id_gen h; m_local_sockets := m_local_sockets h;
     l_local_data := l_local_data h; l_remote_data := l_remote_data h;
     m_write_count := m_write_count h; l_deadline := l_deadline h; l_round := l_round h;
     l_remote_open := l_remote_open h; l_pending := l_pending h;
     l_last_outgoing := l_last_outgoing h; l_last_incoming := l_last_incoming h;
     l_read := l_read h; l_sent := sent; l_received := l_received h;
     l_delivered := delivered |}.

Definition post (o : op) (h : LocalHost) : LocalHost := with_pending (l_pending h ++ [o]) h.

Definition expires_from_now (now : Z) (h : LocalHost) : LocalHost :=
  with_remote (l_round h) (l_remote_open h) (Some (now + l_read_timeout h)) h.

(** Bytes that arrive at the front of a buffer. *)
Definition overwrite (data buffer : list ascii) : list ascii := data ++ drop (length data) buffer.

(** Assigning a [char] array to a string: without a NUL in it the search for
    one leaves the array. *)
Definition string_of (buffer : list ascii) : out (list ascii) :=
  if bool_decide (zero ∈ buffer) then Ok (c_str buffer) else UB.

(** ** The handlers *)

(** What an operation ended with: an error, or the bytes that were read (none
    for the other operations). *)
Inductive result :=
  | Done (data : list ascii)
  | Failed.

Definition remove_socket (id : Z) (h : LocalHost) : LocalHost :=
  with_sockets (erase_first (Z.eqb id) (m_local_sockets h)) (id_gen h) h.

Definition local_closed (h : LocalHost) : exn :=
  RuntimeError (lit "Local connection closed for " ++ to_string (l_port h)).

(** The handler of a local read is a member of the [LocalHostSocket], which
    [remove_socket] destroys when the list is its only owner. *)
Definition handle_local_read (id : Z) (keeps : bool) (r : result) : st LocalHost unit :=
  h ← gets (fun h => h);
  if negb keeps && negb (bool_decide (id ∈ m_local_sockets h)) then lift UB
  else
    match r with
    | Done data =>
        let buffer := overwrite data (l_local_data h) in
        last ← lift (string_of buffer);
        let buffer := if l_logging h then <[length data := zero]> buffer else buffer in
        _ ← modify (with_local_data buffer last (l_read h ++ [data]));
        modify (post (RemoteWrite (l_round h) id (length data)))
    | Failed =>
        _ ← modify (remove_socket id);
        h ← gets (fun h => h);
        match m_local_sockets h with
        | [] => lift (Throw (local_closed h))
        | _ => mret tt
        end
    end.

Definition handle_local_write (now id : Z) (length : nat) (r : result) : st LocalHost unit :=
  _ ← modify (fun h => with_write_count (swrap 32 (m_write_count h - 1)) h);
  _ ← match r with
      | Done _ => modify (fun h => with_written (l_sent h)
                    (l_delivered h ++ [(id, take length (l_remote_data h))]) h)
      | Failed => modify (remove_socket id)
      end;
  h ← gets (fun h => h);
  _ ← (if (m_write_count h =? 0) && (zlen (m_local_sockets h) >? 0)
       then _ ← modify (expires_from_now now); modify (post (RemoteRead (l_round h)))
       else mret tt);
  match m_local_sockets h with
  | [] => lift (Throw (RuntimeError (lit "handle_local_write")))
  | _ => mret tt
  end.

(** The loop over the sockets. *)
Fixpoint write_all (ids : list Z) (length : nat) (h : LocalHost) : LocalHost :=
  match ids with
  | [] => h
  | id :: ids' => write_all ids' length (post (LocalWrite id length) h)
  end.

Definition handle_remote_read (now : Z) (r : result) : st LocalHost unit :=
  match r with
  | Done data =>
      _ ← modify (fun h => let buffer := overwrite (data ++ [zero]) (l_remote_data h) in
             with_remote_data buffer (c_str buffer) (l_received h ++ [data]) h);
      _ ← modify (fun h => with_write_count (zlen (m_local_sockets h)) h);
      _ ← modify (expires_from_now now);
      modify (fun h => write_all (m_local_sockets h) (length data) h)
  | Failed => lift (Throw (BoostError eof))
  end.

Definition handle_remote_write (id : Z) (length : nat) (r : result) : st LocalHost unit :=
  match r with
  | Done _ =>
      h ← gets (fun h => h);
      _ ← modify (with_written (l_sent h ++ [take length (l_local_data h)]) (l_delivered h));
      if bool_decide (id ∈ m_local_sockets h) then modify (post (LocalRead id true)) else mret tt
  | Failed => lift (Throw (BoostError eof))
  end.

Definition handle_accept (r : result) : st LocalHost unit :=
  _ ← match r with
      | Done _ =>
          h ← gets (fun h => h);
          if zlen (m_local_sockets h) <? l_max_connections h then
            let id := swrap 32 (id_gen h + 1) in
            _ ← modify (with_sockets (m_local_sockets h ++ [id]) id);
            modify (post (LocalRead id false))
          else mret tt
      | Failed => mret tt
      end;
  h ← gets (fun h => h);
  if zlen (m_local_sockets h) >? 0 then modify (post Accept) else mret tt.

(** The wait of the deadline timer ends with an error when the deadline was
    moved, and otherwise at the deadline. *)
Definition check_deadline (now : Z) (r : result) : st LocalHost unit :=
  h ← gets (fun h => h);
  match r with
  | Failed => modify (post (Wait (l_round h)))
  | Done _ =>
      let expired := match l_deadline h with Some t => t <=? now | None => false end in
      if expired then
        _ ← modify (with_remote (l_round h) false None);
        if l_auto_reconnect h then mret tt else lift (Throw (BoostError 110))
      else mret tt
  end.

Definition handle_handshake (now : Z) (r : result) : st LocalHost unit :=
  match r with
  | Done _ =>
      _ ← modify (expires_from_now now);
      h ← gets (fun h => h);
      modify (post (RemoteRead (l_round h)))
  | Failed => lift (Throw (BoostError eof))
  end.

Definition handle (now : Z) (o : op) (r : result) : st LocalHost unit :=
  match o with
  | LocalRead id keeps => handle_local_read id keeps r
  | LocalWrite id n => handle_local_write now id n r
  | RemoteRead _ => handle_remote_read now r
  | RemoteWrite _ id n => handle_remote_write id n r
  | Handshake _ => handle_handshake now r
  | Wait _ => check_deadline now r
  | Accept => handle_accept r
  end.

(** ** Steps *)

(** The outcomes an operation may have: what belongs to a socket that was closed
    fails, and a read gets at least one byte and no more than the buffer. *)
Definition may_end (h : LocalHost) (o : op) (r : result) : Prop :=
  match r with
  | Failed => True
  | Done data =>
      let ours round := round = l_round h /\ l_remote_open h = true in
      let some := data <> [] /\ Z.of_nat (length data) <= max_length in
      match o with
      | LocalRead id _ => id ∈ m_local_sockets h /\ some
      | LocalWrite id _ => id ∈ m_local_sockets h
      | RemoteRead round => ours round /\ some
      | RemoteWrite round _ _ | Handshake round => ours round
      | Wait round => round = l_round h
      | Accept => True
      end
  end.

#[export] Instance may_end_dec h o r : Decision (may_end h o r).
Proof. destruct r; [destruct o|]; cbn [may_end]; cbv zeta; apply _. Defined.

(** One operation ends and its handler runs. *)
Definition complete (now : Z) (o : op) (r : result) (h : LocalHost) : LocalHost * out unit :=
  handle now o r (with_pending (erase_first (fun o' => bool_decide (o = o')) (l_pending h)) h).

Inductive step (h : LocalHost) : LocalHost -> Prop :=
  | step_handler now o r h' :
      o ∈ l_pending h -> may_end h o r -> complete now o r h = (h', Ok tt) -> step h h'.

(** ** A connection *)

(** [threadproc] up to the loop: the first local connection.  The first
    [LocalHostSocket] is also held by a variable of [threadproc]. *)
Definition accepted (h : LocalHost) : LocalHost :=
  let id := swrap 32 (id_gen h + 1) in
  let h := with_sockets (m_local_sockets h ++ [id]) id h in
  post Accept (post (LocalRead id true) h).

(** [go_out] up to [run]: the connection to the remote proxy is there and its
    handshake has begun. *)
Definition round_start (now : Z) (h : LocalHost) : LocalHost :=
  let round := S (l_round h) in
  post (Handshake round) (post (Wait round) (with_remote round true (Some (now + 20)) h)).

(** A new object; [memory] is what its buffers are made of, and [garbage] the
    write count, which has no initialiser. *)
Definition new_LocalHost_state (port max_connections read_timeout : Z) (auto_reconnect logging : bool)
    (gen garbage : Z) (memory : list ascii) : LocalHost :=
  {| l_port := port; l_max_connections := max_connections; l_read_timeout := read_timeout;
     l_auto_reconnect := auto_reconnect; l_logging := logging; id_gen := gen;
     m_local_sockets := []; l_local_data := memory; l_remote_data := memory;
     m_write_count := garbage; l_deadline := None; l_round := 0; l_remote_open := false;
     l_pending := []; l_last_outgoing := []; l_last_incoming := []; l_read := [];
     l_sent := []; l_received := []; l_delivered := [] |}.

(** The states of the first connection to the remote proxy. *)
Inductive reachable (h0 : LocalHost) (now : Z) : LocalHost -> Prop :=
  | reachable_start : reachable h0 now (round_start now (accepted h0))
  | reachable_step h h' : reachable h0 now h -> step h h' -> reachable h0 now h'.

(** A sequence of steps, when it is one. *)
Fixpoint play (moves : list (Z * op * result)) (h : LocalHost) : option LocalHost :=
  match moves with
  | [] => Some h
  | (now, o, r) :: moves' =>
      if bool_decide (o ∈ l_pending h) && bool_decide (may_end h o r)
      then match complete now o r h with
           | (h', Ok _) => play moves' h'
           | _ => None
           end
      else None
  end.

Lemma play_reachable h0 now moves h h' :
  reachable h0 now h -> play moves h = Some h' -> reachable h0 now h'.
Proof.
  revert h. induction moves as [|[[t o] r] moves IH]; intros h Hr; cbn [play]; [by intros [= <-]|].
  do 2 (case_bool_decide; [|done]). cbn [andb].
  destruct (complete t o r h) as [h1 [[]|e|]] eqn:E; [|done..].
  apply IH. apply (reachable_step _ _ h); [done|]. by apply (step_handler h t o r).
Qed.

(** ** Lemmas: pending operations *)

Definition tally (f : op -> bool) (ops : list op) : nat := length (List.filter f ops).

Arguments tally : simpl never.

Definition one (b : bool) : nat := if b then 1%nat else 0%nat.

Lemma tally_app f l1 l2 : tally f (l1 ++ l2) = (tally f l1 + tally f l2)%nat.
Proof. unfold tally. by rewrite filter_app, length_app. Qed.

Lemma tally_cons f o l : tally f (o :: l) = (one (f o) + tally f l)%nat.
Proof. unfold tally. cbn [List.filter]. by destruct (f o). Qed.

Lemma tally_one f o : tally f [o] = one (f o).
Proof. unfold tally. cbn. by destruct (f o). Qed.

Lemma tally_erase f o ops :
  o ∈ ops -> tally f ops = (one (f o) + tally f (erase_first (fun o' => bool_decide (o = o')) ops))%nat.
Proof.
  induction ops as [|x ops IH]; intros Ho; [by inversion Ho|]. cbn [erase_first].
  destruct (bool_decide (o = x)) eqn:E.
  - apply bool_decide_eq_true in E as <-. by rewrite tally_cons.
  - apply bool_decide_eq_false in E. apply elem_of_cons in Ho as [->|Ho]; [done|].
    rewrite !tally_cons, IH by done. lia.
Qed.

Lemma tally_0 f ops : tally f ops = 0%nat -> forall o, o ∈ ops -> f o = false.
Proof.
  intros E o Ho. destruct (f o) eqn:Ef; [|done]. pose proof (tally_erase f o ops Ho) as H.
  rewrite Ef in H. cbn in H. lia.
Qed.

Lemma tally_pos f ops o : o ∈ ops -> f o = true -> (0 < tally f ops)%nat.
Proof. intros Ho Ef. rewrite (tally_erase f o ops Ho), Ef. cbn. lia. Qed.

Definition is_local_write (o : op) : bool := match o with LocalWrite _ _ => true | _ => false end.
Definition is_local_read (o : op) : bool := match o with LocalRead _ _ => true | _ => false end.
Definition is_remote_write (o : op) : bool := match o with RemoteWrite _ _ _ => true | _ => false end.
Definition from_remote (o : op) : bool :=
  match o with RemoteRead _ | Handshake _ => true | _ => false end.

Lemma write_all_spec ids n h :
  write_all ids n h = with_pending (l_pending h ++ map (fun id => LocalWrite id n) ids) h.
Proof.
  revert h. induction ids as [|id ids IH]; intros h; cbn [write_all map].
  - rewrite app_nil_r. by destruct h.
  - rewrite IH. unfold post. cbn. by rewrite <- app_assoc.
Qed.

Lemma tally_writes f ids n :
  (forall id, f (LocalWrite id n) = true) -> tally f (map (fun id => LocalWrite id n) ids) = length ids.
Proof.
  intros Hf. induction ids as [|id ids IH]; [done|]. cbn [map].
  by rewrite tally_cons, IH, Hf.
Qed.

Lemma tally_no_writes f ids n :
  (forall id, f (LocalWrite id n) = false) -> tally f (map (fun id => LocalWrite id n) ids) = 0%nat.
Proof.
  intros Hf. induction ids as [|id ids IH]; [done|]. cbn [map].
  by rewrite tally_cons, IH, Hf.
Qed.

Lemma take_overwrite data buffer : take (length data) (overwrite data buffer) = data.
Proof. unfold overwrite. by rewrite take_app_length. Qed.

Lemma overwrite_snoc data c buffer :
  take (length data) (overwrite (data ++ [c]) buffer) = data.
Proof. unfold overwrite. rewrite <- app_assoc. by rewrite take_app_length. Qed.

(** ** The exchange with the remote proxy *)

(** The last message from the remote proxy is in the buffer while it is being
    written. *)
Definition message_in_buffer (h : LocalHost) : Prop :=
  forall id n, LocalWrite id n ∈ l_pending h ->
    exists pre d, l_received h = pre ++ [d] /\ n = length d /\ take n (l_remote_data h) = d.

Record exchange_ok (h : LocalHost) : Prop := {
  ex_count : (0 < tally is_local_write (l_pending h))%nat ->
    m_write_count h = Z.of_nat (tally is_local_write (l_pending h));
  ex_turn : (tally from_remote (l_pending h) = 1 /\ tally is_local_write (l_pending h) = 0 \/
             tally from_remote (l_pending h) = 0 /\ 0 < tally is_local_write (l_pending h))%nat;
  ex_sockets : 1 <= zlen (m_local_sockets h) <= Z.max 1 (l_max_connections h);
  ex_writes : Z.of_nat (tally is_local_write (l_pending h)) <= Z.max 1 (l_max_connections h);
  ex_message : message_in_buffer h }.

Lemma message_erase o h :
  message_in_buffer h ->
  message_in_buffer (with_pending (erase_first (fun o' => bool_decide (o = o')) (l_pending h)) h).
Proof. intros Hm id n Hin%erase_first_elem_of. by apply (Hm id). Qed.

(** What a handler finds: its operation is gone from the pending ones. *)
Record exchange_left (o : op) (h : LocalHost) : Prop := {
  el_count : (0 < one (is_local_write o) + tally is_local_write (l_pending h))%nat ->
    m_write_count h = Z.of_nat (one (is_local_write o) + tally is_local_write (l_pending h));
  el_turn : (one (from_remote o) + tally from_remote (l_pending h) = 1 /\
               one (is_local_write o) + tally is_local_write (l_pending h) = 0 \/
             one (from_remote o) + tally from_remote (l_pending h) = 0 /\
               0 < one (is_local_write o) + tally is_local_write (l_pending h))%nat;
  el_sockets : 1 <= zlen (m_local_sockets h) <= Z.max 1 (l_max_connections h);
  el_writes : Z.of_nat (one (is_local_write o) + tally is_local_write (l_pending h))
                <= Z.max 1 (l_max_connections h);
  el_message : message_in_buffer h }.

Lemma exchange_take o h :
  exchange_ok h -> o ∈ l_pending h ->
  exchange_left o (with_pending (erase_first (fun o' => bool_decide (o = o')) (l_pending h)) h).
Proof.
  intros [H1 H2 H3 H4 H5] Ho.
  rewrite (tally_erase is_local_write o), (tally_erase from_remote o) in * by done.
  split; try done. by apply message_erase.
Qed.

(** Operations that neither read from the proxy nor write to a local socket do
    not matter to the exchange. *)
Definition neutral (o : op) : Prop := is_local_write o = false /\ from_remote o = false.

Lemma tally_neutral ops :
  Forall neutral ops -> tally is_local_write ops = 0%nat /\ tally from_remote ops = 0%nat.
Proof.
  induction 1 as [|o ops [H1 H2] _ [IH1 IH2]]; [done|]. by rewrite !tally_cons, H1, H2, IH1, IH2.
Qed.

Lemma exchange_neutral ops o h h' :
  neutral o -> exchange_left o h -> Forall neutral ops ->
  l_pending h' = l_pending h ++ ops ->
  m_write_count h' = m_write_count h -> l_max_connections h' = l_max_connections h ->
  l_received h' = l_received h -> l_remote_data h' = l_remote_data h ->
  1 <= zlen (m_local_sockets h') <= Z.max 1 (l_max_connections h) ->
  exchange_ok h'.
Proof.
  intros [N1 N2] [H1 H2 H3 H4 H5] Hops Ep E1 E2 E3 E4 Hs. rewrite N1, N2 in *.
  destruct (tally_neutral ops Hops) as [T1 T2].
  split; rewrite ?Ep, ?E1, ?E2, ?tally_app, ?T1, ?T2, ?Nat.add_0_r; try done.
  intros id n Hin. rewrite Ep in Hin. rewrite E3, E4. apply (H5 id).
  apply elem_of_app in Hin as [|Hin]; [done|].
  pose proof (proj1 (List.Forall_forall _ _) Hops _ (proj1 (list_elem_of_In _ _) Hin)) as [? _]. done.
Qed.

Lemma remove_socket_length id h : zlen (m_local_sockets (remove_socket id h)) <= zlen (m_local_sockets h).
Proof.
  cbn. pose proof (sublist_length _ _ (erase_first_sublist (Z.eqb id) (m_local_sockets h))).
  unfold zlen. lia.
Qed.

Lemma zlen_1 {A} (a : A) l : 1 <= zlen (a :: l).
Proof. unfold zlen. cbn. lia. Qed.

(** The pending operations got [ops], the sockets are left to show. *)
Ltac by_neutral ops o h :=
  apply (exchange_neutral ops o h);
  [done|done|by repeat constructor|first [done|by rewrite app_nil_r]|done..|].

Lemma exchange_local_read now id keeps r h h' :
  exchange_left (LocalRead id keeps) h -> handle now (LocalRead id keeps) r h = (h', Ok tt) ->
  exchange_ok h'.
Proof.
  intros Hl. cbn [handle]. unfold handle_local_read. rewrite st_bind_gets.
  destruct (negb keeps && _); [done|]. destruct r as [data|].
  - intros (h1 & last & E1 & E)%st_bind_inv. injection E1 as <- _. injection E as <-.
    by_neutral [RemoteWrite (l_round h) id (length data)] (LocalRead id keeps) h. apply Hl.
  - rewrite st_bind_modify, st_bind_gets. pose proof (remove_socket_length id h) as Hle.
    destruct (m_local_sockets (remove_socket id h)) as [|x l] eqn:E; [done|]. intros [= <-].
    pose proof (el_sockets _ _ Hl). pose proof (zlen_1 x l).
    by_neutral (@nil op) (LocalRead id keeps) h. rewrite E. lia.
Qed.

Lemma exchange_remote_write now round id n r h h' :
  exchange_left (RemoteWrite round id n) h ->
  handle now (RemoteWrite round id n) r h = (h', Ok tt) -> exchange_ok h'.
Proof.
  intros Hl. cbn [handle]. unfold handle_remote_write. destruct r as [data|]; [|done].
  rewrite st_bind_gets, st_bind_modify. case_bool_decide.
  - intros [= <-]. by_neutral [LocalRead id true] (RemoteWrite round id n) h. apply Hl.
  - intros [= <-]. by_neutral (@nil op) (RemoteWrite round id n) h. apply Hl.
Qed.

(** [handle_accept] adds at most a socket, its read and the next accept. *)
Lemma handle_accept_spec r h :
  exists ids ops gen, handle_accept r h = (with_pending (l_pending h ++ ops)
                        (with_sockets (m_local_sockets h ++ ids) gen h), Ok tt) /\
    (ids = [] /\ (ops = [] \/ ops = [Accept]) \/
     exists id, ids = [id] /\ zlen (m_local_sockets h) < l_max_connections h /\
                ops = [LocalRead id false; Accept]).
Proof.
  unfold handle_accept.
  assert (exists b, (h0 ← gets (fun h => h);
            if zlen (m_local_sockets h0) >? 0 then modify (post Accept) else mret tt) h
          = ((if b : bool then post Accept h else h), Ok tt)) as [b Eb].
  { exists (zlen (m_local_sockets h) >? 0). rewrite st_bind_gets. by destruct (_ >? 0). }
  assert (exists ops, (if b : bool then post Accept h else h) = with_pending (l_pending h ++ ops)
            (with_sockets (m_local_sockets h ++ []) (id_gen h) h) /\ (ops = [] \/ ops = [Accept]))
    as (ops & Eo & Ho).
  { exists (if b then [Accept] else []). destruct b; (split; [|auto]); unfold post;
      rewrite !app_nil_r; by destruct h. }
  destruct r as [data|]; cycle 1.
  { exists [], ops, (id_gen h). split; [|auto]. by rewrite <- Eo, <- Eb. }
  unfold mbind at 1, st_bind at 1. rewrite st_bind_gets.
  destruct (Z.ltb_spec (zlen (m_local_sockets h)) (l_max_connections h)) as [Hlt|]; cycle 1.
  { exists [], ops, (id_gen h). split; [|auto]. by rewrite <- Eo, <- Eb. }
  set (id := swrap 32 (id_gen h + 1)). rewrite st_bind_modify.
  exists [id], [LocalRead id false; Accept], id. split; [|eauto 6].
  unfold modify at 1. rewrite st_bind_gets.
  change (m_local_sockets (post (LocalRead id false) _)) with (m_local_sockets h ++ [id]).
  rewrite zlen_app, Z.gtb_ltb. pose proof (zlen_nonneg (m_local_sockets h)).
  destruct (Z.ltb_spec 0 (zlen (m_local_sockets h) + zlen [id])); [|unfold zlen in *; cbn in *; lia].
  unfold modify, post. cbn. by rewrite <- app_assoc.
Qed.

Lemma exchange_accept now r h h' :
  exchange_left Accept h -> handle now Accept r h = (h', Ok tt) -> exchange_ok h'.
Proof.
  intros Hl. cbn [handle]. destruct (handle_accept_spec r h) as (ids & ops & gen & -> & Hor).
  intros [= <-]. pose proof (el_sockets _ _ Hl). pose proof (zlen_nonneg ids).
  assert (zlen (m_local_sockets h ++ ids) <= Z.max 1 (l_max_connections h)) as Hle.
  { rewrite zlen_app. destruct Hor as [[-> _]|(id & -> & Hlt & _)]; unfold zlen in *; cbn [length]; lia. }
  apply (exchange_neutral ops Accept h); try done.
  - destruct Hor as [[_ [->| ->]]|(id & _ & _ & ->)]; by repeat constructor.
  - cbn. rewrite zlen_app in *. lia.
Qed.

Lemma exchange_wait now round r h h' :
  exchange_left (Wait round) h -> handle now (Wait round) r h = (h', Ok tt) -> exchange_ok h'.
Proof.
  intros Hl. cbn [handle]. unfold check_deadline. rewrite st_bind_gets. destruct r as [data|].
  - destruct (match l_deadline h with Some _ => _ | None => _ end).
    + rewrite st_bind_modify. destruct (l_auto_reconnect _); [|done]. intros [= <-].
      by_neutral (@nil op) (Wait round) h. apply Hl.
    + intros [= <-]. by_neutral (@nil op) (Wait round) h. apply Hl.
  - intros [= <-]. by_neutral [Wait (l_round h)] (Wait round) h. apply Hl.
Qed.

(** A message from the proxy goes to every local socket. *)
Lemma exchange_remote_read now round r h h' :
  exchange_left (RemoteRead round) h -> in_sint 32 (l_max_connections h) ->
  handle now (RemoteRead round) r h = (h', Ok tt) -> exchange_ok h'.
Proof.
  intros Hl Hmax. cbn [handle]. unfold handle_remote_read. destruct r as [data|]; [|done].
  rewrite !st_bind_modify. intros [= <-]. rewrite write_all_spec.
  destruct Hl as [H1 H2 H3 H4 H5]. cbn [one is_local_write from_remote] in *.
  assert (tally from_remote (l_pending h) = 0 /\ tally is_local_write (l_pending h) = 0)%nat
    as [T1 T2] by lia.
  set (ids := m_local_sockets h).
  pose proof (tally_writes is_local_write ids (length data) ltac:(done)) as W1.
  pose proof (tally_no_writes from_remote ids (length data) ltac:(done)) as W2.
  unfold zlen in H3. fold ids in H3.
  split; cbn; fold ids; rewrite ?tally_app, ?T1, ?T2, ?W1, ?W2; unfold zlen; try lia.
  intros id n Hin. cbn in Hin. exists (l_received h), data. split; [done|].
  apply elem_of_app in Hin as [Hin|Hin].
  - by pose proof (tally_0 _ _ T2 _ Hin).
  - apply list_elem_of_fmap in Hin as (id' & E & _). injection E as -> ->. split; [done|].
    cbn. apply overwrite_snoc.
Qed.

Lemma exchange_handshake now round r h h' :
  exchange_left (Handshake round) h ->
  handle now (Handshake round) r h = (h', Ok tt) -> exchange_ok h'.
Proof.
  intros Hl. cbn [handle]. unfold handle_handshake. destruct r as [data|]; [|done].
  rewrite !st_bind_modify. intros [= <-].
  destruct Hl as [H1 H2 H3 H4 H5]. cbn [one is_local_write from_remote] in *.
  split; cbn; rewrite ?tally_app, ?tally_one; cbn [one is_local_write from_remote];
    rewrite ?Nat.add_0_r; try done; try lia.
  intros id n Hin. cbn in Hin. apply (H5 id).
  apply elem_of_app in Hin as [|Hin%list_elem_of_singleton]; [done|by subst].
Qed.

(** The last write to a local socket starts the next read from the proxy. *)
Lemma handle_local_write_spec now id n r h h' :
  handle_local_write now id n r h = (h', Ok tt) ->
  exists h1, h1 = match r with
                  | Done _ => with_written (l_sent h) (l_delivered h ++ [(id, take n (l_remote_data h))])
                                (with_write_count (swrap 32 (m_write_count h - 1)) h)
                  | Failed => remove_socket id (with_write_count (swrap 32 (m_write_count h - 1)) h)
                  end /\
    0 < zlen (m_local_sockets h1) /\
    h' = if m_write_count h1 =? 0 then post (RemoteRead (l_round h)) (expires_from_now now h1) else h1.
Proof.
  unfold handle_local_write. rewrite st_bind_modify.
  set (h0 := with_write_count _ h). intros (h1 & [] & E1 & E)%st_bind_inv. exists h1.
  assert (h1 = match r with
               | Done _ => with_written (l_sent h) (l_delivered h ++ [(id, take n (l_remote_data h))]) h0
               | Failed => remove_socket id h0
               end) as Eh1 by (destruct r; by injection E1 as <-).
  split; [done|]. rewrite st_bind_gets in E.
  apply st_bind_inv in E as (h2 & [] & E2 & E).
  destruct (m_local_sockets h1) as [|x l] eqn:Es; [done|]. injection E as <-.
  split; [unfold zlen; cbn; lia|].
  rewrite Z.gtb_ltb in E2. destruct (Z.ltb_spec 0 (zlen (x :: l))); [|unfold zlen in *; cbn in *; lia].
  rewrite andb_true_r in E2. assert (l_round h1 = l_round h) as Er by (subst h1; by destruct r).
  destruct (m_write_count h1 =? 0); injection E2 as <-; [|done]. by rewrite <- Er.
Qed.

Lemma exchange_local_write now id n r h h' :
  exchange_left (LocalWrite id n) h -> in_sint 32 (l_max_connections h) ->
  handle now (LocalWrite id n) r h = (h', Ok tt) -> exchange_ok h'.
Proof.
  intros Hl Hmax (h1 & Eh1 & Hpos & ->)%handle_local_write_spec.
  destruct Hl as [H1 H2 H3 H4 H5]. cbn [one is_local_write from_remote] in *.
  rewrite H1 in Eh1 by lia. unfold in_sint in Hmax.
  rewrite swrap_small in Eh1 by (unfold in_sint; lia).
  assert (m_write_count h1 = Z.of_nat (tally is_local_write (l_pending h)) /\
          l_pending h1 = l_pending h /\ l_received h1 = l_received h /\
          l_remote_data h1 = l_remote_data h /\ l_max_connections h1 = l_max_connections h /\
          zlen (m_local_sockets h1) <= zlen (m_local_sockets h)) as (E1 & E2 & E3 & E4 & E5 & E6).
  { subst h1. destruct r.
    - cbn. by split_and!; [lia|..].
    - split; [cbn; lia|]. do 4 (split; [done|]).
      apply (remove_socket_length id (with_write_count _ h)). }
  assert (forall h2, l_pending h2 = l_pending h1 \/ l_pending h2 = l_pending h1 ++ [RemoteRead (l_round h)] ->
            l_received h2 = l_received h1 -> l_remote_data h2 = l_remote_data h1 ->
            message_in_buffer h2) as Hmsg.
  { intros h2 Hp Ec Ed id' n' Hin. rewrite Ec, Ed, E3, E4. apply (H5 id').
    destruct Hp as [Hp|Hp]; rewrite Hp, E2 in Hin; [done|].
    apply elem_of_app in Hin as [|Hin%list_elem_of_singleton]; [done|by subst]. }
  rewrite E1. destruct (Z.eqb_spec (Z.of_nat (tally is_local_write (l_pending h))) 0) as [Ez|Ez];
    split; cbn; rewrite ?tally_app, ?tally_one, ?E2, ?E5; cbn [one is_local_write from_remote];
    try lia; apply Hmsg; cbn; rewrite ?E2; auto.
Qed.

Lemma exchange_step h h' :
  in_sint 32 (l_max_connections h) -> exchange_ok h -> step h h' -> exchange_ok h'.
Proof.
  intros Hmax Hok [now o r h1 Ho _ E]. pose proof (exchange_take o h Hok Ho) as Hl.
  unfold complete in E. destruct o.
  - by eapply exchange_local_read.
  - by eapply exchange_local_write.
  - by eapply exchange_remote_read.
  - by eapply exchange_remote_write.
  - by eapply exchange_handshake.
  - by eapply exchange_wait.
  - by eapply exchange_accept.
Qed.

(** *** What does not change *)

Definition same_limits (h h' : LocalHost) : Prop :=
  l_max_connections h' = l_max_connections h /\ l_logging h' = l_logging h.

#[export] Instance same_limits_preorder : PreOrder same_limits.
Proof. unfold same_limits. split; [by intros ?|intros ???; intuition congruence]. Qed.

Lemma modify_limits f : (forall h, same_limits h (f h)) -> preserves same_limits (modify f).
Proof. apply preserves_modify. Qed.

Lemma write_all_limits ids n h : same_limits h (write_all ids n h).
Proof. rewrite write_all_spec. done. Qed.

Lemma handle_limits now o r : preserves same_limits (handle now o r).
Proof.
  destruct o; cbn [handle].
  - unfold handle_local_read. frames; by apply modify_limits.
  - unfold handle_local_write. frames; by apply modify_limits.
  - unfold handle_remote_read. frames; try by apply modify_limits.
    apply modify_limits. intros h. apply write_all_limits.
  - unfold handle_remote_write. frames; by apply modify_limits.
  - unfold handle_handshake. frames; by apply modify_limits.
  - unfold check_deadline. frames; by apply modify_limits.
  - unfold handle_accept. frames; by apply modify_limits.
Qed.

Lemma step_limits h h' : step h h' -> same_limits h h'.
Proof.
  intros [now o r h1 _ _ E]. unfold complete in E.
  destruct (handle_limits now o r _ _ _ E) as [E1 E2]. by split; rewrite ?E1, ?E2.
Qed.

(** *** An object no connection was made to yet *)

Definition fresh (h : LocalHost) : Prop :=
  l_pending h = [] /\ m_local_sockets h = [] /\ l_read h = [] /\ l_sent h = [] /\
  in_sint 32 (l_max_connections h).

Lemma round_start_spec now h :
  fresh h -> let id := swrap 32 (id_gen h + 1) in let h' := round_start now (accepted h) in
  l_pending h' = [LocalRead id true; Accept; Wait (S (l_round h)); Handshake (S (l_round h))] /\
  m_local_sockets h' = [id].
Proof. intros (Ep & Es & _). cbn. rewrite Ep, Es. done. Qed.

Lemma exchange_start now h : fresh h -> exchange_ok (round_start now (accepted h)).
Proof.
  intros Hf. destruct (round_start_spec now h Hf) as [Ep Es]. cbv zeta in *.
  split; rewrite ?Ep, ?Es, ?tally_cons; cbn [one is_local_write from_remote tally];
    unfold tally; cbn; try lia.
  - unfold zlen. cbn. lia.
  - intros id n Hin. rewrite Ep in Hin. rewrite !elem_of_cons in Hin. set_solver.
Qed.

Lemma reachable_limits h0 now h : reachable h0 now h -> same_limits h0 h.
Proof.
  induction 1 as [|h h' _ IH Hs]; [done|]. etransitivity; [exact IH|by apply step_limits].
Qed.

Lemma reachable_exchange h0 now h : fresh h0 -> reachable h0 now h -> exchange_ok h.
Proof.
  intros Hf Hr. assert (in_sint 32 (l_max_connections h0)) as Hmax by apply Hf.
  induction Hr as [|h h' Hr IH Hs]; [by apply exchange_start|].
  apply exchange_step with h; [|done|done].
  destruct (reachable_limits _ _ _ Hr) as [-> _]. done.
Qed.

(** ** One local connection *)

(** The bytes of the one connection: what was sent to the proxy is what was
    read, but for at most one message, which is in the buffer. *)
Record relay_ok (h : LocalHost) : Prop := {
  re_sockets : exists id, m_local_sockets h = [id];
  re_keeps : forall id keeps, LocalRead id keeps ∈ l_pending h -> keeps = true;
  re_buffer : length (l_local_data h) = Z.to_nat (max_length + 1) /\
              l_local_data h !! Z.to_nat max_length = Some zero;
  re_turn : (tally is_local_read (l_pending h) + tally is_remote_write (l_pending h) <= 1)%nat;
  re_data : exists flight, l_read h = l_sent h ++ flight /\ (length flight <= 1)%nat /\
    (tally is_local_read (l_pending h) = 1%nat -> flight = []) /\
    forall round id n, RemoteWrite round id n ∈ l_pending h ->
      exists d, flight = [d] /\ n = length d /\ take n (l_local_data h) = d }.

(** Operations that are neither reads from a local socket nor writes to the
    proxy do not matter to the relay. *)
Definition aside (o : op) : Prop := is_local_read o = false /\ is_remote_write o = false.

Lemma tally_aside ops :
  Forall aside ops -> tally is_local_read ops = 0%nat /\ tally is_remote_write ops = 0%nat.
Proof.
  induction 1 as [|o ops [H1 H2] _ [IH1 IH2]]; [done|]. by rewrite !tally_cons, H1, H2, IH1, IH2.
Qed.

Lemma aside_elem o ops : Forall aside ops -> o ∈ ops -> aside o.
Proof. intros Hops Ho. by apply (proj1 (List.Forall_forall _ _) Hops), list_elem_of_In. Qed.

(** The pending operations of the relay are the same. *)
Lemma relay_aside h h' :
  relay_ok h ->
  tally is_local_read (l_pending h') = tally is_local_read (l_pending h) ->
  tally is_remote_write (l_pending h') = tally is_remote_write (l_pending h) ->
  (forall o, o ∈ l_pending h' -> o ∈ l_pending h \/ aside o) ->
  m_local_sockets h' = m_local_sockets h -> l_local_data h' = l_local_data h ->
  l_read h' = l_read h -> l_sent h' = l_sent h -> relay_ok h'.
Proof.
  intros [H1 H2 H3 H4 (flight & H5 & H6 & H7 & H8)] T1 T2 Hp E1 E2 E3 E4.
  split; rewrite ?T1, ?T2, ?E1, ?E2; try done.
  - intros id keeps Hin. destruct (Hp _ Hin) as [Hin'|[? _]]; [by apply (H2 id)|done].
  - exists flight. rewrite E3, E4. split; [done|]. split; [done|]. split; [done|].
    intros round id n Hin. destruct (Hp _ Hin) as [Hin'|[_ ?]]; [by apply (H8 round id)|done].
Qed.

(** The same for a handler that posts [ops]. *)
Lemma relay_post o ops h h' :
  aside o -> relay_ok h -> o ∈ l_pending h -> Forall aside ops ->
  l_pending h' = erase_first (fun o' => bool_decide (o = o')) (l_pending h) ++ ops ->
  m_local_sockets h' = m_local_sockets h -> l_local_data h' = l_local_data h ->
  l_read h' = l_read h -> l_sent h' = l_sent h -> relay_ok h'.
Proof.
  intros [A1 A2] Hr Ho Hops Ep. destruct (tally_aside ops Hops) as [T1 T2].
  apply relay_aside; [done|..].
  - rewrite Ep, tally_app, T1, (tally_erase is_local_read o (l_pending h) Ho), A1. cbn. lia.
  - rewrite Ep, tally_app, T2, (tally_erase is_remote_write o (l_pending h) Ho), A2. cbn. lia.
  - intros x Hx. rewrite Ep in Hx. apply elem_of_app in Hx as [Hx|Hx].
    + left. by apply erase_first_elem_of in Hx.
    + right. by apply (aside_elem x ops).
Qed.

(** The one socket is only removed by ending the round. *)
Lemma remove_other id0 id h :
  m_local_sockets h = [id0] -> m_local_sockets (remove_socket id h) <> [] ->
  m_local_sockets (remove_socket id h) = [id0].
Proof. intros E. cbn. rewrite E. cbn. by destruct (id =? id0). Qed.

Lemma overwrite_buffer data buffer :
  Z.of_nat (length data) <= max_length ->
  length buffer = Z.to_nat (max_length + 1) -> buffer !! Z.to_nat max_length = Some zero ->
  length (overwrite data buffer) = Z.to_nat (max_length + 1) /\
  overwrite data buffer !! Z.to_nat max_length = Some zero.
Proof.
  unfold overwrite. intros Hd Hl Hz. split.
  - rewrite length_app, length_drop, Hl. unfold max_length in *. lia.
  - rewrite lookup_app_r by (unfold max_length in *; lia). rewrite lookup_drop. rewrite <- Hz.
    f_equal. unfold max_length in *. lia.
Qed.

Lemma string_of_Ok buffer i : buffer !! i = Some zero -> string_of buffer = Ok (c_str buffer).
Proof.
  intros Hz. unfold string_of. rewrite bool_decide_true; [done|]. by apply (list_elem_of_lookup_2 _ i).
Qed.

Lemma logged_buffer (logging : bool) data buffer :
  Z.of_nat (length data) <= max_length ->
  length buffer = Z.to_nat (max_length + 1) -> buffer !! Z.to_nat max_length = Some zero ->
  let b := overwrite data buffer in
  let b := if logging then <[length data := zero]> b else b in
  length b = Z.to_nat (max_length + 1) /\ b !! Z.to_nat max_length = Some zero /\
  take (length data) b = data.
Proof.
  intros Hd Hl Hz. destruct (overwrite_buffer data buffer Hd Hl Hz) as [H1 H2].
  pose proof (take_overwrite data buffer) as H3. cbv zeta. destruct logging; [|done].
  split; [by rewrite length_insert|]. split.
  - destruct (decide (length data = Z.to_nat max_length)) as [->|Hne].
    + apply list_lookup_insert_eq. rewrite H1. unfold max_length. lia.
    + by rewrite list_lookup_insert_ne.
  - rewrite take_insert_ge by lia. done.
Qed.

Lemma relay_local_read now id keeps r h h' :
  relay_ok h -> LocalRead id keeps ∈ l_pending h -> may_end h (LocalRead id keeps) r ->
  complete now (LocalRead id keeps) r h = (h', Ok tt) -> relay_ok h'.
Proof.
  intros [(id0 & H1) H2 [H3 H3'] H4 (flight & H5 & H6 & H7 & H8)] Ho Hr.
  assert (keeps = true) as -> by by apply (H2 id keeps). unfold complete.
  set (h1 := with_pending _ h). cbn [handle]. unfold handle_local_read. rewrite st_bind_gets.
  cbn [negb andb].
  pose proof (tally_erase is_local_read _ _ Ho) as T1.
  pose proof (tally_erase is_remote_write _ _ Ho) as T2.
  cbn [one is_local_read is_remote_write] in T1, T2.
  set (rest := erase_first _ (l_pending h)) in *.
  assert (tally is_local_read rest = 0 /\ tally is_remote_write rest = 0)%nat as [R1 R2] by lia.
  rewrite H7, app_nil_r in H5 by lia.
  assert (forall x, x ∈ rest -> aside x) as Hrest
    by (intros x Hx; split; [by apply (tally_0 _ _ R1)|by apply (tally_0 _ _ R2)]).
  destruct r as [data|].
  - destruct Hr as (_ & _ & Hd).
    destruct (logged_buffer (l_logging h) data _ Hd H3 H3') as (B1 & B2 & B3).
    destruct (overwrite_buffer data _ Hd H3 H3') as [_ B4].
    change (l_local_data h1) with (l_local_data h).
    rewrite (string_of_Ok _ _ B4), st_bind_lift, st_bind_modify. intros [= <-].
    split; cbn; fold rest; rewrite ?tally_app, ?tally_one, ?R1, ?R2;
      cbn [one is_local_read is_remote_write]; try lia.
    + by exists id0.
    + intros id' k Hin. apply elem_of_app in Hin as [Hin%Hrest|Hin%list_elem_of_singleton]; [|done].
      by destruct Hin.
    + by split.
    + exists [data]. rewrite H5. split; [done|]. split; [done|]. split; [lia|].
      intros round id' n Hin. apply elem_of_app in Hin as [Hin%Hrest|Hin%list_elem_of_singleton].
      * by destruct Hin.
      * injection Hin as -> -> ->. by exists data.
  - rewrite st_bind_modify, st_bind_gets.
    destruct (m_local_sockets (remove_socket id h1)) as [|x l] eqn:E; [done|]. intros [= <-].
    assert (m_local_sockets (remove_socket id h1) = [id0]) as Es
      by (apply remove_other; [done|by rewrite E]).
    split.
    + exists id0. exact Es.
    + intros id' k Hin%Hrest. by destruct Hin.
    + done.
    + change (tally is_local_read rest + tally is_remote_write rest <= 1)%nat. lia.
    + exists []. change (l_read h = l_sent h ++ [] /\ (0 <= 1)%nat /\
        (tally is_local_read rest = 1%nat -> ([] : list (list ascii)) = []) /\
        forall round id n, RemoteWrite round id n ∈ rest -> exists d, [] = [d] /\
          n = length d /\ take n (l_local_data h) = d).
      rewrite app_nil_r. split; [done|]. split; [lia|]. split; [done|].
      intros round id' n Hin%Hrest. by destruct Hin.
Qed.

Lemma relay_remote_write now round id n r h h' :
  relay_ok h -> RemoteWrite round id n ∈ l_pending h ->
  complete now (RemoteWrite round id n) r h = (h', Ok tt) -> relay_ok h'.
Proof.
  intros [(id0 & H1) H2 H3 H4 (flight & H5 & H6 & H7 & H8)] Ho. unfold complete.
  set (h1 := with_pending _ h). cbn [handle]. unfold handle_remote_write.
  destruct r as [data|]; [|done]. rewrite st_bind_gets, st_bind_modify.
  destruct (H8 round id n Ho) as (d & -> & Hn & Ht).
  pose proof (tally_erase is_local_read _ _ Ho) as T1.
  pose proof (tally_erase is_remote_write _ _ Ho) as T2.
  cbn [one is_local_read is_remote_write] in T1, T2.
  set (rest := erase_first _ (l_pending h)) in *.
  assert (tally is_local_read rest = 0 /\ tally is_remote_write rest = 0)%nat as [R1 R2] by lia.
  assert (forall x, x ∈ rest -> aside x) as Hrest
    by (intros x Hx; split; [by apply (tally_0 _ _ R1)|by apply (tally_0 _ _ R2)]).
  assert (forall ops, (ops = [] \/ ops = [LocalRead id true]) ->
            relay_ok (with_pending (rest ++ ops)
              (with_written (l_sent h ++ [take n (l_local_data h)]) (l_delivered h) h))) as Hok.
  { intros ops Hops. split; cbn; rewrite ?tally_app, ?R1, ?R2.
    - by exists id0.
    - intros id' k Hin. apply elem_of_app in Hin as [Hin%Hrest|Hin]; [by destruct Hin|].
      destruct Hops as [->| ->]; [by inversion Hin|]. apply list_elem_of_singleton in Hin. congruence.
    - done.
    - destruct Hops as [->| ->]; unfold tally; cbn; lia.
    - exists []. rewrite app_nil_r, Ht. split; [done|]. split; [cbn; lia|]. split; [done|].
      intros round' id' n' Hin. apply elem_of_app in Hin as [Hin%Hrest|Hin]; [by destruct Hin|].
      destruct Hops as [->| ->]; [by inversion Hin|]. by apply list_elem_of_singleton in Hin. }
  case_bool_decide; intros [= <-]; [by apply (Hok [LocalRead id true]); right|].
  specialize (Hok []). rewrite app_nil_r in Hok. by apply Hok; left.
Qed.

(** With the one connection there is, operations aside only start such ones. *)
Lemma aside_step now o r h h' id0 :
  aside o -> m_local_sockets h = [id0] -> l_max_connections h <= 1 ->
  handle now o r h = (h', Ok tt) ->
  exists ops, Forall aside ops /\ l_pending h' = l_pending h ++ ops /\
    m_local_sockets h' = m_local_sockets h /\ l_local_data h' = l_local_data h /\
    l_read h' = l_read h /\ l_sent h' = l_sent h.
Proof.
  intros [A1 A2] Es Hmax E. destruct o as [|id n|round| |round|round|]; try done; cbn [handle] in E.
  - apply handle_local_write_spec in E as (h1 & E1 & Hpos & ->).
    assert (m_local_sockets h1 = m_local_sockets h /\ l_pending h1 = l_pending h /\
            l_local_data h1 = l_local_data h /\ l_read h1 = l_read h /\ l_sent h1 = l_sent h)
      as (P0 & P1 & P2 & P3 & P4).
    { subst h1. destruct r; [done|]. rewrite Es. split; [|done]. apply remove_other; [done|].
      intros En. rewrite En in Hpos. by cbv in Hpos. }
    destruct (m_write_count h1 =? 0).
    + exists [RemoteRead (l_round h)]. cbn. rewrite P0, P1. by repeat constructor.
    + exists []. rewrite app_nil_r. by repeat constructor.
  - unfold handle_remote_read in E. destruct r as [data|]; [|done].
    rewrite !st_bind_modify in E. injection E as <-. rewrite write_all_spec.
    eexists. split; [|by split_and!]. apply Forall_map. by apply List.Forall_forall.
  - unfold handle_handshake in E. destruct r as [data|]; [|done].
    rewrite !st_bind_modify in E. injection E as <-. exists [RemoteRead (l_round h)].
    by repeat constructor.
  - unfold check_deadline in E. rewrite st_bind_gets in E. destruct r as [data|].
    + exists []. rewrite app_nil_r.
      destruct (match l_deadline _ with Some _ => _ | None => _ end); [|by injection E as <-].
      rewrite st_bind_modify in E. destruct (l_auto_reconnect _); [|done]. by injection E as <-.
    + injection E as <-. exists [Wait (l_round h)]. by repeat constructor.
  - destruct (handle_accept_spec r h) as (ids & ops & gen & E' & Hor).
    rewrite E' in E. injection E as <-. destruct Hor as [[-> Hops]|(id & _ & Hlt & _)].
    + exists ops. cbn. rewrite app_nil_r. split; [|done]. destruct Hops as [->| ->]; by repeat constructor.
    + rewrite Es in Hlt. unfold zlen in Hlt. cbn in Hlt. lia.
Qed.

Lemma relay_step h h' :
  l_max_connections h <= 1 -> relay_ok h -> step h h' -> relay_ok h'.
Proof.
  intros Hmax Hr [now o r h1 Ho Hm E].
  destruct (is_local_read o) eqn:E1; [|destruct (is_remote_write o) eqn:E2].
  - destruct o; try done. by eapply relay_local_read.
  - destruct o; try done. by eapply relay_remote_write.
  - destruct (re_sockets _ Hr) as [id0 Es].
    unfold complete in E. set (h2 := with_pending _ h) in E.
    apply (aside_step now o r h2 h1 id0 (conj E1 E2) Es Hmax) in E
      as (ops & Hops & P0 & P1 & P2 & P3 & P4).
    by apply (relay_post o ops h).
Qed.

Lemma reachable_relay h0 now h :
  fresh h0 -> l_max_connections h0 <= 1 ->
  length (l_local_data h0) = Z.to_nat (max_length + 1) ->
  l_local_data h0 !! Z.to_nat max_length = Some zero ->
  reachable h0 now h -> relay_ok h.
Proof.
  intros Hf Hmax Hl Hz. induction 1 as [|h h' Hr IH Hs]; cycle 1.
  { apply relay_step with h; [|done|done]. by destruct (reachable_limits _ _ _ Hr) as [-> _]. }
  destruct (round_start_spec now h0 Hf) as [Ep Es]. cbv zeta in *.
  destruct Hf as (_ & _ & Er & Et & _).
  split; rewrite ?Ep.
  - by eexists.
  - intros id keeps. rewrite !elem_of_cons. set_solver.
  - done.
  - unfold tally. cbn. lia.
  - exists []. change (l_read (round_start now (accepted h0))) with (l_read h0).
    change (l_sent (round_start now (accepted h0))) with (l_sent h0).
    rewrite Er, Et. split; [done|]. split; [cbn; lia|]. split; [done|].
    intros round id n. rewrite !elem_of_cons. set_solver.
Qed.

(** A handler is only undefined for a read that ended on a destroyed socket, or
    without a NUL in the buffer. *)
Lemma handle_UB now o r h :
  snd (handle now o r h) = UB -> exists id keeps, o = LocalRead id keeps /\
    (keeps = false /\ id ∉ m_local_sockets h \/
     exists data, r = Done data /\ zero ∉ overwrite data (l_local_data h)).
Proof.
  destruct o; cbn [handle].
  - unfold handle_local_read. rewrite st_bind_gets.
    destruct (negb keeps && _) eqn:E.
    + apply andb_true_iff in E as [E1 E2]. intros _. exists id, keeps. split; [done|]. left.
      apply negb_true_iff in E1. apply negb_true_iff, bool_decide_eq_false in E2. by split.
    + destruct r as [data|].
      * unfold string_of. destruct (bool_decide (zero ∈ overwrite data (l_local_data h))) eqn:Ez;
          [done|]. intros _. exists id, keeps. split; [done|]. right. exists data. split; [done|].
        by apply bool_decide_eq_false in Ez.
      * rewrite st_bind_modify, st_bind_gets.
        by destruct (m_local_sockets (remove_socket id h)).
  - unfold handle_local_write. rewrite st_bind_modify. unfold mbind at 1, st_bind at 1.
    destruct r; unfold modify at 1; rewrite st_bind_gets;
      match goal with |- snd (_ ?h1) = UB -> _ =>
        generalize h1; intros h2; destruct ((m_write_count h2 =? 0) && (zlen (m_local_sockets h2) >? 0));
        cbn; by destruct (m_local_sockets h2)
      end.
  - unfold handle_remote_read. by destruct r.
  - unfold handle_remote_write. destruct r; [|done]. rewrite st_bind_gets, st_bind_modify.
    by case_bool_decide.
  - unfold handle_handshake. by destruct r.
  - unfold check_deadline. rewrite st_bind_gets. destruct r; [|done].
    destruct (match l_deadline h with Some _ => _ | None => _ end); [|done].
    rewrite st_bind_modify. by destruct (l_auto_reconnect h).
  - destruct (handle_accept_spec r h) as (ids & ops & gen & -> & _). done.
Qed.

(** ** Properties *)


Definition memory : list ascii := replicate (Z.to_nat (max_length + 1)) zero.

Definition sample (max_connections : Z) : LocalHost :=
  new_LocalHost_state 8750 max_connections 300 false false 0 7 memory.

Definition started (max_connections : Z) : LocalHost :=
  round_start 0 (accepted (sample max_connections)).

(** The handshake, and a message for the local socket. *)
Definition one_message : list (Z * op * result) :=
  [(1, Handshake 1, Done []); (2, RemoteRead 1, Done (lit "hello"))].

Lemma fresh_sample n : in_sint 32 n -> fresh (sample n).
Proof. intros Hn. by split_and!. Qed.


(** With at most one local connection, whatever the network does, no handler
    of a connection to the proxy is undefined, and what was sent to the proxy is
    what was read from the local socket, in order and unchanged, but for at most
    one message that is being sent. *)
Theorem single_connection_relay h0 now h :
  fresh h0 -> l_max_connections h0 <= 1 ->
  length (l_local_data h0) = Z.to_nat (max_length + 1) ->
  l_local_data h0 !! Z.to_nat max_length = Some zero ->
  reachable h0 now h ->
  (exists flight, l_read h = l_sent h ++ flight /\ (length flight <= 1)%nat) /\
  forall t o r, o ∈ l_pending h -> may_end h o r -> snd (complete t o r h) <> UB.
Proof.
  intros Hf Hmax Hl Hz Hr. pose proof (reachable_relay h0 now h Hf Hmax Hl Hz Hr) as Hok.
  destruct Hok as [_ H2 [H3 H3'] _ (flight & H5 & H6 & _)]. split; [by exists flight|].
  intros t o r Ho Hm HUB. apply handle_UB in HUB as (id & keeps & -> & [[Hk _]|(data & -> & Hn)]).
  - by rewrite (H2 id keeps Ho) in Hk.
  - destruct Hm as (_ & _ & Hd). apply Hn. cbn [with_pending l_local_data].
    destruct (overwrite_buffer data _ Hd H3 H3') as [_ E]. by apply (list_elem_of_lookup_2 _ _ _ E).
Qed.

(** Two messages of the local connection. *)
Definition two_reads : list (Z * op * result) :=
  [(1, Handshake 1, Done []); (2, LocalRead 1 true, Done (lit "aaa"));
   (3, RemoteWrite 1 1 3, Done []); (4, LocalRead 1 true, Done (lit "bb"))].

Lemma single_connection_relay_witness :
  exists h, play two_reads (started 1) = Some h /\
    l_read h = [lit "aaa"; lit "bb"] /\ l_sent h = [lit "aaa"] /\
    exists flight, l_read h = l_sent h ++ flight /\ (length flight <= 1)%nat.
Proof.
  destruct (play two_reads (started 1)) as [h|] eqn:E; [|vm_compute in E; discriminate].
  exists h. split; [reflexivity|].
  destruct (single_connection_relay (sample 1) 0 h) as [Hd _].
  - apply fresh_sample. split; vm_compute; [discriminate|reflexivity].
  - vm_compute. discriminate.
  - vm_compute. reflexivity.
  - vm_compute. reflexivity.
  - apply (play_reachable _ _ two_reads (started 1)); [constructor|exact E].
  - split; [|split]; [vm_compute in E; injection E as <-; reflexivity..|exact Hd].
Defined.

(** With two local connections the relay is not safe.  A message of one can
    be overwritten by the other's before it is sent: the proxy gets the second
    in its place.  And when a write to the second connection fails, its
    [LocalHostSocket] is destroyed while the read that was started when it was
    accepted is pending; the handler of that read then runs on a destroyed
    object. *)
Theorem two_connections_unsafe :
  (exists h, reachable (sample 2) 0 h /\ l_read h = [lit "aaa"; lit "bbb"] /\
     l_sent h = [lit "bbb"]) /\
  (exists h o, reachable (sample 2) 0 h /\ o ∈ l_pending h /\ may_end h o Failed /\
     snd (complete 0 o Failed h) = UB).
Proof.
  split.
  - destruct (play [(1, Accept, Done []); (2, LocalRead 1 true, Done (lit "aaa"));
                    (3, LocalRead 2 false, Done (lit "bbb")); (4, RemoteWrite 1 1 3, Done [])]
                (started 2)) as [h|] eqn:E; [|by vm_compute in E].
    exists h. split; [by eapply play_reachable; [constructor|exact E]|].
    vm_compute in E. by injection E as <-.
  - destruct (play [(1, Accept, Done []); (2, Handshake 1, Done []);
                    (3, RemoteRead 1, Done (lit "x")); (4, LocalWrite 2 1, Failed)]
                (started 2)) as [h|] eqn:E; [|by vm_compute in E].
    exists h, (LocalRead 2 false). split; [by eapply play_reachable; [constructor|exact E]|].
    vm_compute in E. injection E as <-. split; [by vm_compute; set_solver|]. by split.
Qed.
