(* ===== verification/LocalThread.v ===== *)
(** * The thread of a local host

    [LocalHost::threadproc], [go_out], [cleanup] and [interrupt]
    ([localclient.cpp]): waiting for a local connection, connecting to one of
    the proxies, running the handlers of [LocalHost] until one of them throws,
    connecting again while [m_auto_reconnect] allows it, and cleaning up.

    What the thread meets is a script: the outcomes of binding, accepting and
    connecting, the random proxy, the operations that end while the
    [io_service] runs, and the readings of the stop flag.  [false] says that the
    script ends while the thread is running handlers.

    What is pending on the stream of a connection that is gone ends with an
    error in a later run; that Boost asks not to destroy a stream with operations
    pending is left out of the model. *)

From S2P Require Import Prelude CppString Plugin Endpoints Activation Certs Thread BaseClient LocalHost.

Record local_thread := {
  t_state : client_state;
  t_host : LocalHost;
  (** [mp_acceptor] is not null; [m_local_connected]. *)
  t_acceptor : bool;
  t_connected : bool }.

Definition set_t_state (s : client_state) (t : local_thread) : local_thread :=
  {| t_state := s; t_host := t_host t; t_acceptor := t_acceptor t; t_connected := t_connected t |}.
Definition set_t_host (h : LocalHost) (t : local_thread) : local_thread :=
  {| t_state := t_state t; t_host := h; t_acceptor := t_acceptor t; t_connected := t_connected t |}.
Definition set_t_flags (acceptor connected : bool) (t : local_thread) : local_thread :=
  {| t_state := t_state t; t_host := t_host t; t_acceptor := acceptor; t_connected := connected |}.

Definition on_t_state {A} (m : st client_state A) : st local_thread A := fun t =>
  let '(s, r) := m (t_state t) in (set_t_state s t, r).
Definition on_t_host {A} (m : st LocalHost A) : st local_thread A := fun t =>
  let '(h, r) := m (t_host t) in (set_t_host h t, r).

Definition t_client (t : local_thread) : BaseClient := fst (t_state t).

(** One connection to a proxy. *)
Record attempt := {
  a_index : Z;
  a_context : out unit;
  a_connect : list ascii -> Z -> out unit;
  a_now : Z;
  a_moves : list (Z * op * result);
  a_sleep : nat -> bool;
  a_stop : bool }.

(** One local connection. *)
Record pass := {
  q_stop : bool;
  q_bind : out unit;
  q_accept : out unit;
  q_attempts : list attempt;
  q_sleep : nat -> bool }.

(** The sent and read pieces are observed for one local connection. *)
Definition forget (h : LocalHost) : LocalHost :=
  {| l_port := l_port h; l_max_connections := l_max_connections h;
     l_read_timeout := l_read_timeout h; l_auto_reconnect := l_auto_reconnect h;
     l_logging := l_logging h; id_gen := id_gen h; m_local_sockets := m_local_sockets h;
     l_local_data := l_local_data h; l_remote_data := l_remote_data h;
     m_write_count := m_write_count h; l_deadline := l_deadline h; l_round := l_round h;
     l_remote_open := l_remote_open h; l_pending := l_pending h;
     l_last_outgoing := l_last_outgoing h; l_last_incoming := l_last_incoming h;
     l_read := []; l_sent := []; l_received := []; l_delivered := [] |}.

(** The remote socket goes out of scope: what is pending on it can only fail. *)
Definition close_remote (h : LocalHost) : LocalHost := with_remote (l_round h) false None h.

Section thread.
Context (library_what : exn -> list ascii).

Definition log_line (line : list ascii) : st local_thread unit := on_t_state (dolog line).

(** [info()] of the client. *)
Definition info_line : st local_thread (list ascii) :=
  c ← gets t_client; lift (info c).

(** [io_service.run()]: operations that may end do, until a handler throws. *)
Fixpoint run_moves (moves : list (Z * op * result)) : st LocalHost bool :=
  match moves with
  | [] => mret false
  | (now, o, r) :: moves' =>
      possible ← gets (fun h => bool_decide (o ∈ l_pending h) && bool_decide (may_end h o r));
      if possible : bool then _ ← complete now o r; run_moves moves' else mret false
  end.

Definition go_out (a : attempt) : st local_thread bool :=
  st_catch
    (_ ← lift (a_context a);
     line ← info_line;
     c ← gets t_client;
     host ← lift (remote_hostname c);
     port ← lift (remote_port c);
     _ ← log_line (line ++ lit "Connecting to remote host: " ++ host ++ chr 58 :: to_string port);
     _ ← lift (a_connect a host port);
     _ ← log_line (line ++ lit "Connected to remote host: " ++ host ++ chr 58 :: to_string port
                   ++ lit " Attempting SSL handshake");
     _ ← on_t_host (modify (round_start (a_now a)));
     on_t_host (run_moves (a_moves a)))
    (fun e =>
       _ ← on_t_host (modify close_remote);
       line ← info_line;
       h ← gets t_host;
       _ ← log_line (line ++ lit "exception: " ++ what library_what e ++ lit " local count: "
                     ++ to_string (zlen (m_local_sockets h)));
       if bool_decide (m_local_sockets h = []) then lift (Throw e) else mret true).

(** The random proxy of the next connection. *)
Definition pick (a : attempt) : st local_thread unit :=
  on_t_state (on_client (modify (fun c =>
    set_proxy_index (if bool_decide (m_proxy_endpoints c = []) then 0 else a_index a) c))).

(** The condition of the loop; the stop flag is only read when it matters. *)
Definition again (stop : bool) : st local_thread bool :=
  t ← gets (fun t => t);
  if l_auto_reconnect (t_host t) then
    running ← lift (Thread.check_run stop true);
    mret (running && negb (bool_decide (m_local_sockets (t_host t) = [])) && t_connected t)
  else mret false.

Fixpoint attempts_loop (attempts : list attempt) : st local_thread bool :=
  match attempts with
  | [] => mret false
  | a :: attempts' =>
      _ ← pick a;
      ended ← go_out a;
      if ended : bool then
        _ ← lift (snd (Thread.sleep (a_sleep a) 5000));
        more ← again (a_stop a);
        if more : bool then attempts_loop attempts' else mret true
      else mret false
  end.

(** [interrupt]: it uses the acceptor without a test, and shuts the sockets. *)
Definition interrupt : st local_thread unit :=
  t ← gets (fun t => t);
  if t_acceptor t then mret tt else lift UB.

Definition cleanup (t : local_thread) : local_thread :=
  set_t_flags false (t_connected t) (set_t_host (with_sockets [] (id_gen (t_host t)) (t_host t)) t).

(** With the [io_service] its pending operations are gone. *)
Definition drop_service (t : local_thread) : local_thread :=
  set_t_host (with_pending [] (t_host t)) t.

(** The scope guard of [threadproc], however the scope is left. *)
Definition scope_guard (m : st local_thread bool) : st local_thread bool := fun t =>
  match m t with
  | (t, UB) => (t, UB)
  | (t, Ok false) => (t, Ok false)
  | (t, r) =>
      match interrupt t with
      | (t, UB) => (t, UB)
      | (t, _) => (drop_service (cleanup t), r)
      end
  end.

Definition pass_body (p : pass) : st local_thread bool :=
  line ← info_line;
  _ ← log_line (line ++ lit "Waiting for local connection");
  _ ← lift (q_accept p);
  _ ← on_t_host (modify (fun h => accepted (forget h)));
  _ ← modify (fun t => set_t_flags (t_acceptor t) true t);
  attempts_loop (q_attempts p).

(** One pass of the loop in [threadproc]. *)
Definition local_pass (p : pass) : st local_thread bool :=
  _ ← lift (Thread.check_run (q_stop p) true);
  ended ← st_catch
    (_ ← lift (q_bind p);
     _ ← modify (fun t => set_t_flags true (t_connected t) t);
     scope_guard (pass_body p))
    (fun e => line ← info_line; _ ← log_line (line ++ what library_what e); mret true);
  if ended : bool then
    _ ← modify (fun t => set_t_flags (t_acceptor t) false t);
    _ ← lift (snd (Thread.sleep (q_sleep p) 1500));
    mret true
  else mret false.

Fixpoint threadproc (passes : list pass) : st local_thread bool :=
  match passes with
  | [] => mret false
  | p :: passes' =>
      ended ← local_pass p;
      if ended : bool then threadproc passes' else mret false
  end.

End thread.

(** ** Rounds of one local connection *)

(** What was read is what was sent, but for one message. *)
Definition relayed (h : LocalHost) : Prop :=
  exists flight, l_read h = l_sent h ++ flight /\ (length flight <= 1)%nat.

Definition buffer_ok (h : LocalHost) : Prop :=
  length (l_local_data h) = Z.to_nat (max_length + 1) /\
  l_local_data h !! Z.to_nat max_length = Some zero.

(** Between handlers, and where an exception left the host. *)
Definition relaying (h : LocalHost) : Prop := relay_ok h /\ l_max_connections h <= 1.

Definition left_over (h : LocalHost) : Prop :=
  (relay_ok h \/ m_local_sockets h = []) /\ buffer_ok h /\ relayed h /\ l_max_connections h <= 1.

Lemma relaying_left_over h : relaying h -> left_over h.
Proof.
  intros [Hr Hm]. split; [by left|]. split; [apply Hr|]. split; [|done].
  destruct (re_data h Hr) as (flight & E & Hl & _). by exists flight.
Qed.

Definition thrown (e : exn) : Prop := is_std_exception e = true \/ e = InterruptException.

(** A handler of a local read throws only when its socket was the last. *)
Lemma local_read_throws id r h h' e :
  handle_local_read id true r h = (h', Throw e) ->
  h' = remove_socket id h /\ m_local_sockets h' = [] /\ is_std_exception e = true.
Proof.
  unfold handle_local_read. rewrite st_bind_gets. cbn [negb andb]. destruct r as [data|].
  - unfold string_of. by case_bool_decide.
  - rewrite st_bind_modify, st_bind_gets.
    destruct (m_local_sockets (remove_socket id h)) eqn:E; [|done]. by intros [= <- <-].
Qed.

Lemma local_write_throws now id n r h h' e :
  handle_local_write now id n r h = (h', Throw e) ->
  m_local_sockets h' = [] /\ is_std_exception e = true /\
  l_local_data h' = l_local_data h /\ l_read h' = l_read h /\ l_sent h' = l_sent h.
Proof.
  unfold handle_local_write. rewrite st_bind_modify. unfold mbind at 1, st_bind at 1.
  set (h1 := with_write_count _ h).
  assert (exists h2, (match r with
            | Done _ => modify (fun h => with_written (l_sent h)
                          (l_delivered h ++ [(id, take n (l_remote_data h))]) h)
            | Failed => modify (remove_socket id) end : st LocalHost unit) h1 = (h2, Ok tt) /\
          l_local_data h2 = l_local_data h /\ l_read h2 = l_read h /\ l_sent h2 = l_sent h)
    as (h2 & -> & E2) by (destruct r; eexists; by split).
  rewrite st_bind_gets.
  destruct (m_local_sockets h2) as [|x l] eqn:Es.
  - rewrite andb_false_r. intros [= <- <-]. by destruct E2 as (? & ? & ?).
  - by destruct (_ && _).
Qed.

(** The other handlers throw without changing anything the relay is about. *)
Lemma other_throws now o r h h' e :
  is_local_read o = false -> is_local_write o = false ->
  handle now o r h = (h', Throw e) ->
  is_std_exception e = true /\ exists open deadline, h' = with_remote (l_round h) open deadline h.
Proof.
  assert (h = with_remote (l_round h) (l_remote_open h) (l_deadline h) h) as Eh by by destruct h.
  destruct o; intros Hr Hw; try done; cbn [handle].
  - unfold handle_remote_read. destruct r; [done|]. intros [= <- <-]. eauto.
  - unfold handle_remote_write. destruct r; [|intros [= <- <-]; eauto].
    rewrite st_bind_gets, st_bind_modify. by case_bool_decide.
  - unfold handle_handshake. destruct r; [done|]. intros [= <- <-]. eauto.
  - unfold check_deadline. rewrite st_bind_gets. destruct r; [|done].
    destruct (match l_deadline h with Some _ => _ | None => _ end); [|done].
    rewrite st_bind_modify. destruct (l_auto_reconnect _); [done|]. intros [= <- <-]. eauto.
  - by destruct (handle_accept_spec r h) as (ids & ops & gen & -> & _).
Qed.

Lemma tally_sublist f ops1 ops2 : ops1 `sublist_of` ops2 -> (tally f ops1 <= tally f ops2)%nat.
Proof.
  induction 1 as [|o ops1 ops2 _ IH|o ops1 ops2 _ IH]; rewrite ?tally_cons; lia.
Qed.

(** The relay holds with fewer pending operations. *)
Lemma relay_sublist ops h :
  relay_ok h -> ops `sublist_of` l_pending h -> relay_ok (with_pending ops h).
Proof.
  intros [H1 H2 H3 H4 (flight & H5 & H6 & H7 & H8)] Hs.
  pose proof (tally_sublist is_local_read _ _ Hs) as T1.
  pose proof (tally_sublist is_remote_write _ _ Hs) as T2.
  assert (forall o, o ∈ ops -> o ∈ l_pending h) as Hin
    by (intros o Ho; by apply (elem_of_sublist ops)).
  split; cbn; try done; [by intros id keeps Ho%Hin; apply (H2 id)|lia|].
  exists flight. split; [done|]. split; [done|]. split; [intros T; apply H7; lia|].
  intros round id n Ho%Hin. by apply (H8 round id).
Qed.

Lemma relay_remote round open deadline h :
  relay_ok h -> relay_ok (with_remote round open deadline h).
Proof. intros Hr. apply (relay_aside h); try done. by left. Qed.

Lemma relay_other h h' :
  relayed h -> l_read h' = l_read h -> l_sent h' = l_sent h -> relayed h'.
Proof. unfold relayed. by intros ? -> ->. Qed.

(** Wherever a handler throws, the relay is left as [left_over] says. *)
Lemma relay_throw now o r h h' e :
  relaying h -> o ∈ l_pending h -> complete now o r h = (h', Throw e) ->
  left_over h' /\ is_std_exception e = true.
Proof.
  intros [Hr Hm] Ho E. unfold complete in E. set (h1 := with_pending _ h) in E.
  assert (relay_ok h1) as Hr1 by apply (relay_sublist _ h Hr), erase_first_sublist.
  assert (relaying h1) as Hok by done.
  destruct (relaying_left_over _ Hok) as (_ & Hb & Hd & _).
  pose proof (handle_limits now o r _ _ _ E) as [Em _]. change (l_max_connections h1) with
    (l_max_connections h) in Em.
  destruct (is_local_read o) eqn:E1; [|destruct (is_local_write o) eqn:E2].
  - destruct o as [id keeps| | | | | |]; try done.
    rewrite (re_keeps h Hr id keeps Ho) in E. apply local_read_throws in E as (-> & Es & He).
    split; [|done]. split_and!; [by right|exact Hb|exact Hd|done].
  - destruct o as [|id n| | | | |]; try done.
    apply local_write_throws in E as (Es & He & E3 & E4 & E5). split; [|done].
    split_and!; [by right|unfold buffer_ok; by rewrite E3|by apply (relay_other h1)|lia].
  - apply other_throws in E as (He & open & deadline & ->); [|done..]. split; [|done].
    apply relaying_left_over. split; [by apply relay_remote|done].
Qed.

Lemma run_moves_relay moves :
  triple relaying (run_moves moves) (fun _ => relaying)
    (fun e h => thrown e /\ left_over h).
Proof.
  induction moves as [|[[now o] r] moves IH]; cbn [run_moves]; [by intros h Hh|].
  intros h [Hr Hm]. rewrite st_bind_gets.
  destruct (bool_decide (o ∈ l_pending h) && bool_decide (may_end h o r)) eqn:E; [|done].
  apply andb_true_iff in E as [Ho%bool_decide_eq_true He%bool_decide_eq_true].
  unfold mbind, st_bind. destruct (complete now o r h) as [h' [[]|e|]] eqn:Ec.
  - apply IH. split.
    + apply relay_step with h; [done|done|by apply (step_handler h now o r)].
    + unfold complete in Ec. apply handle_limits in Ec as [-> _]. done.
  - destruct (relay_throw now o r h h' e) as [Hl Hstd]; [done..|]. split; [by left|done].
  - assert (snd (complete now o r h) = UB) as HUB by by rewrite Ec.
    apply handle_UB in HUB as (id & keeps & -> & [[Hk _]|(data & -> & Hn)]).
    + by rewrite (re_keeps h Hr id keeps Ho) in Hk.
    + destruct He as (_ & _ & Hd). destruct (re_buffer h Hr) as [B1 B2]. apply Hn.
      destruct (overwrite_buffer data _ Hd B1 B2) as [_ B3].
      by apply (list_elem_of_lookup_2 _ _ _ B3).
Qed.

(** ** The thread *)

(** What the network does is an error at worst. *)
Definition harmless (m : out unit) : Prop :=
  m <> UB /\ forall e, m = Throw e -> is_std_exception e = true.

Definition attempt_ok (proxies : list RemoteEndpoint) (a : attempt) : Prop :=
  0 <= a_index a < zlen proxies /\ harmless (a_context a) /\
  forall host port, harmless (a_connect a host port).

Definition pass_ok (proxies : list RemoteEndpoint) (p : pass) : Prop :=
  harmless (q_bind p) /\ harmless (q_accept p) /\ Forall (attempt_ok proxies) (q_attempts p).

(** No connection, and nothing of an earlier one. *)
Definition idle (h : LocalHost) : Prop :=
  m_local_sockets h = [] /\ l_pending h = [] /\ buffer_ok h /\ relayed h /\
  l_max_connections h <= 1.

Section safety.
Context (library_what : exn -> list ascii) (proxies : list RemoteEndpoint).

(** The client has its proxies, one of them is the current one, the host is in
    [H]. *)
Definition client_ok (c : BaseClient) : Prop :=
  m_proxy_endpoints c = proxies /\ 0 <= m_proxy_index c < zlen proxies.

Definition holds (H : LocalHost -> Prop) (acceptor : bool) (t : local_thread) : Prop :=
  client_ok (t_client t) /\ H (t_host t) /\ t_acceptor t = acceptor.

Lemma info_line_ok H b E : triple (holds H b) info_line (fun _ => holds H b) E.
Proof.
  intros t ([Ep Hi] & Hh). unfold info_line. rewrite st_bind_gets. unfold lift, info,
    remote_hostname, remote_port. rewrite Ep.
  by destruct (rd_in proxies _ Hi) as [ep ->].
Qed.

Lemma log_line_ok line H b E : triple (holds H b) (log_line line) (fun _ => holds H b) E.
Proof. intros [[c w] h a k] Ht. exact Ht. Qed.

Lemma lift_ok H b (m : out unit) :
  harmless m -> triple (holds H b) (lift m) (fun _ => holds H b) (fun e t => thrown e /\ holds H b t).
Proof. intros [H1 H2]. apply triple_lift; [done..|]. intros e t He Ht. split; [left; by apply H2|done]. Qed.

Lemma on_host_ok {A} H b (Q : A -> LocalHost -> Prop) (E : exn -> LocalHost -> Prop) m :
  triple H m Q E ->
  triple (holds H b) (on_t_host m) (fun x => holds (Q x) b) (fun e => holds (E e) b).
Proof.
  intros Hm [s h a k] (H1 & H3 & H4). unfold on_t_host. cbn [t_host] in *.
  specialize (Hm h H3). destruct (m h) as [h' [x|e|]]; [by split_and!..|done].
Qed.

Lemma host_modify_ok (H H' : LocalHost -> Prop) b f E :
  (forall h, H h -> H' (f h)) ->
  triple (holds H b) (on_t_host (modify f)) (fun _ => holds H' b) E.
Proof. intros Hf [s h a k] (H1 & H3 & H4). split_and!; [done..|by apply Hf|done]. Qed.

Lemma pick_ok a H b E :
  attempt_ok proxies a -> triple (holds H b) (pick a) (fun _ => holds H b) E.
Proof.
  intros (Hi & _) [[c w] h ac k] ([H1 H2] & H3 & H4). split; [|done]. split; [done|].
  cbn in *. case_bool_decide; lia.
Qed.

Lemma sleep_ok stop millisec H b :
  0 <= millisec -> triple (holds H b) (lift (snd (Thread.sleep stop millisec)))
    (fun _ => holds H b) (fun e t => e = InterruptException /\ holds H b t).
Proof.
  intros Hm. pose proof (sleep_loop_spec (S (Z.to_nat (millisec / SLEEP))) stop 0 millisec Hm) as Hs.
  fold (Thread.sleep stop millisec) in Hs.
  destruct (Thread.sleep stop millisec) as [l r].
  destruct Hs as [_ Hs]; [unfold SLEEP; divlia|].
  apply triple_lift; cbn [snd]; [by intros ->|done|].
  intros e t -> Ht. by destruct Hs as [-> _].
Qed.

Lemma check_run_ok stop H b :
  triple (holds H b) (lift (Thread.check_run stop true)) (fun _ => holds H b)
    (fun e t => e = InterruptException /\ holds H b t).
Proof.
  apply triple_lift; [by destruct stop|done|]. intros e t He Ht.
  destruct stop; [|done]. by injection He as <-.
Qed.

(** What an exception leaves behind. *)
Definition leaves (H : LocalHost -> Prop) (b : bool) (e : exn) (t : local_thread) : Prop :=
  thrown e /\ holds H b t.

Lemma holds_weaken (H H' : LocalHost -> Prop) b t :
  (forall h, H h -> H' h) -> holds H b t -> holds H' b t.
Proof. intros HH (H1 & H3 & H4). split_and!; [done..|by apply HH|done]. Qed.

Lemma interrupt_leaves (H H' : LocalHost -> Prop) b e t :
  (forall h, H h -> H' h) -> e = InterruptException /\ holds H b t -> leaves H' b e t.
Proof. intros HH [-> Ht]. split; [by right|by apply (holds_weaken H)]. Qed.

(** An outcome of the network, with the exceptions of the whole. *)
Lemma lift_leaves (H H' : LocalHost -> Prop) b (m : out unit) :
  (forall h, H h -> H' h) -> harmless m ->
  triple (holds H b) (lift m) (fun _ => holds H b) (leaves H' b).
Proof.
  intros HH Hm. eapply triple_weaken; [by apply (lift_ok H b m)|done|done|].
  intros e t [He Ht]. split; [done|by apply (holds_weaken H)].
Qed.

(** A round starts in [R], and ends in [L] where a handler throws. *)
Section rounds.
Context (R L : LocalHost -> Prop).
Hypothesis run_left : forall h, R h -> L h.
Hypothesis run_start : forall now h, R h -> R (round_start now h).
Hypothesis left_close : forall h, L h -> L (close_remote h).
Hypothesis left_run : forall h, L h -> m_local_sockets h <> [] -> R h.
Hypothesis run_ok : forall moves,
  triple R (run_moves moves) (fun _ => R) (fun e h => thrown e /\ L h).

Lemma sleep_leaves stop millisec b :
  0 <= millisec -> triple (holds R b) (lift (snd (Thread.sleep stop millisec)))
    (fun _ => holds R b) (leaves L b).
Proof.
  intros Hm. eapply triple_weaken; [by apply (sleep_ok stop millisec R b)|done|done|].
  intros e t. apply interrupt_leaves, run_left.
Qed.

Lemma go_out_ok a b :
  attempt_ok proxies a ->
  triple (holds R b) (go_out library_what a) (fun _ => holds R b) (leaves L b).
Proof.
  intros (_ & Hctx & Hconn). unfold go_out.
  apply triple_catch with (leaves L b); [| |done].
  - eapply triple_bind; [apply lift_leaves; [exact run_left|exact Hctx]|intros []].
    eapply triple_bind; [apply info_line_ok|intros line].
    intros t Ht. rewrite st_bind_gets. destruct (rd_in proxies (m_proxy_index (t_client t)))
      as [ep Eep]; [apply Ht|].
    assert (remote_hostname (t_client t) = Ok (r_hostname ep) /\
            remote_port (t_client t) = Ok (r_port ep)) as [E1 E2].
    { destruct Ht as [[Ep _] _]. unfold remote_hostname, remote_port. by rewrite Ep, Eep. }
    rewrite E1, E2, !st_bind_lift. revert t Ht Eep E1 E2.
    assert (triple (holds R b)
      (_ ← log_line (line ++ lit "Connecting to remote host: " ++ r_hostname ep
                     ++ chr 58 :: to_string (r_port ep));
       _ ← lift (a_connect a (r_hostname ep) (r_port ep));
       _ ← log_line (line ++ lit "Connected to remote host: " ++ r_hostname ep
                     ++ chr 58 :: to_string (r_port ep) ++ lit " Attempting SSL handshake");
       _ ← on_t_host (modify (round_start (a_now a)));
       on_t_host (run_moves (a_moves a))) (fun _ => holds R b) (leaves L b)) as Hrest.
    { eapply triple_bind; [apply log_line_ok|intros []].
      eapply triple_bind; [apply lift_leaves; [exact run_left|apply Hconn]|intros []].
      eapply triple_bind; [apply log_line_ok|intros []].
      eapply triple_bind; [apply host_modify_ok, run_start|intros []].
      eapply triple_weaken; [apply on_host_ok, run_ok|done|done|].
      intros e t (H1 & [H3 H4] & H5). by split. }
    intros t Ht _ _ _. exact (Hrest t Ht).
  - intros e He. intros t [Hth Ht]. revert t Ht.
    eapply triple_bind; [apply host_modify_ok, left_close|intros []].
    eapply triple_bind; [apply info_line_ok|intros line].
    intros t Ht. rewrite st_bind_gets. set (h := t_host t).
    assert (holds (fun h' => h' = h /\ L h) b t) as Ht' by (destruct Ht as (?&?&?); by split_and!).
    clearbody h. clear Ht. revert t Ht'.
    eapply triple_bind; [apply log_line_ok|intros []].
    intros t (H1 & [Eh Hl] & H4). case_bool_decide as Es.
    + split; [done|]. split_and!; [done..|by rewrite Eh|done].
    + split_and!; [done..|rewrite Eh; by apply left_run|done].
Qed.

Lemma again_ok stop b :
  triple (holds R b) (again stop) (fun _ => holds R b) (leaves L b).
Proof.
  intros t Ht. unfold again. rewrite st_bind_gets.
  destruct (l_auto_reconnect (t_host t)); [|exact Ht]. destruct stop; [|exact Ht].
  split; [by right|]. by apply (holds_weaken R); [exact run_left|].
Qed.

Lemma attempts_loop_ok attempts b :
  Forall (attempt_ok proxies) attempts ->
  triple (holds R b) (attempts_loop library_what attempts) (fun _ => holds R b)
    (leaves L b).
Proof.
  induction 1 as [|a attempts Ha _ IH]; cbn [attempts_loop]; [by intros t|].
  eapply triple_bind; [by apply pick_ok|intros []].
  eapply triple_bind; [by apply go_out_ok|intros [|]; [|by intros t]].
  eapply triple_bind; [by apply sleep_leaves|intros []].
  eapply triple_bind; [by apply again_ok|intros [|]; [exact IH|by intros t]].
Qed.

End rounds.

Lemma round_start_relaying now h : relaying h -> relaying (round_start now h).
Proof.
  intros [Hr Hm]. split; [|done]. apply (relay_aside h); try done; cbn.
  1-2: rewrite !tally_app, !tally_one; cbn; lia.
  intros o Ho. rewrite !elem_of_app, !list_elem_of_singleton in Ho.
  destruct Ho as [[?| ->]| ->]; [by left|by right..].
Qed.

Lemma close_remote_left_over h : left_over h -> left_over (close_remote h).
Proof.
  intros ([Hr|Hs] & H2 & H3 & H4); (split; [|by split_and!]); [left|by right].
  by apply relay_remote.
Qed.

Lemma left_over_relaying h : left_over h -> m_local_sockets h <> [] -> relaying h.
Proof. by intros ([Hr|Hs] & _ & _ & Hm) Hn. Qed.

Lemma cleaned h : left_over h -> idle (with_pending [] (with_sockets [] (id_gen h) h)).
Proof. intros (_ & H2 & H3 & H4). by split_and!. Qed.

Lemma scope_guard_ok P m :
  triple P m (fun _ => holds relaying true) (leaves left_over true) ->
  triple P (scope_guard m) (fun ended => if ended then holds idle false else holds relaying true)
    (leaves idle false).
Proof.
  intros Hm t Ht. specialize (Hm t Ht). unfold scope_guard.
  assert (forall t1, holds left_over true t1 ->
            interrupt t1 = (t1, Ok tt) /\ holds idle false (drop_service (cleanup t1))) as Hclean.
  { intros t1 (H1 & H3 & H4). split; [unfold interrupt; rewrite st_bind_gets; by rewrite H4|].
    split_and!; [done..|by apply cleaned|done]. }
  destruct (m t) as [t1 [[|]|e|]]; [|exact Hm| |done].
  - destruct (Hclean t1) as [-> Hc]; [|exact Hc].
    apply (holds_weaken relaying); [exact relaying_left_over|exact Hm].
  - destruct Hm as [He Hm]. destruct (Hclean t1 Hm) as [-> Hc]. by split.
Qed.

Lemma accepted_relaying h : idle h -> relaying (accepted (forget h)).
Proof.
  intros (H1 & H2 & H3 & _ & H5). split; [|done]. unfold accepted. split; cbn; rewrite ?H1, ?H2; cbn.
  - by eexists.
  - intros id keeps. rewrite !elem_of_cons. set_solver.
  - done.
  - unfold tally. cbn. lia.
  - exists []. split; [done|]. split; [cbn; lia|]. split; [done|].
    intros round id n. rewrite !elem_of_cons. set_solver.
Qed.

Lemma idle_left_over h : idle h -> left_over h.
Proof. intros (H1 & _ & H3 & H4 & H5). split_and!; [by right|done..]. Qed.

Lemma pass_body_ok p :
  pass_ok proxies p ->
  triple (holds idle true) (pass_body library_what p) (fun _ => holds relaying true)
    (leaves left_over true).
Proof.
  intros (_ & Hacc & Hatt). unfold pass_body.
  eapply triple_bind; [apply info_line_ok|intros line].
  eapply triple_bind; [apply log_line_ok|intros []].
  eapply triple_bind; [apply lift_leaves; [exact idle_left_over|exact Hacc]|intros []].
  eapply triple_bind; [apply host_modify_ok, accepted_relaying|intros []].
  apply triple_bind with (fun _ => holds relaying true); [by apply triple_modify; intros []|intros []].
  apply attempts_loop_ok; auto using relaying_left_over, round_start_relaying,
    close_remote_left_over, left_over_relaying, run_moves_relay.
Qed.

Lemma local_pass_ok p :
  pass_ok proxies p ->
  triple (holds idle false) (local_pass library_what p)
    (fun ended => if ended then holds idle false else holds relaying true)
    (fun e t => e = InterruptException /\ holds idle false t).
Proof.
  intros Hp. unfold local_pass.
  eapply triple_bind; [apply check_run_ok|intros ran].
  eapply triple_bind with
    (R := fun ended : bool => if ended then holds idle false else holds relaying true).
  - apply triple_catch with (leaves idle false).
    + eapply triple_bind; [by apply lift_leaves; [|apply Hp]|intros []].
      apply triple_bind with (fun _ => holds idle true);
        [|intros []; by apply scope_guard_ok, pass_body_ok].
      apply triple_modify. intros t (H1 & H3 & _). by split_and!.
    + intros e _ t [_ Ht]. revert t Ht.
      eapply triple_bind; [apply info_line_ok|intros line].
      eapply triple_bind; [apply log_line_ok|intros []]. by intros t.
    + intros e t He [[Hs|Hi] Ht]; [congruence|done].
  - intros [|]; [|by intros t].
    apply triple_bind with (fun _ => holds idle false); [by apply triple_modify; intros []|intros []].
    eapply triple_bind; [by apply sleep_ok|intros []]. by intros t.
Qed.

Lemma threadproc_ok passes :
  Forall (pass_ok proxies) passes ->
  triple (holds idle false) (threadproc library_what passes)
    (fun _ t => holds idle false t \/ holds relaying true t)
    (fun e t => e = InterruptException /\ holds idle false t).
Proof.
  induction 1 as [|p passes Hp _ IH]; cbn [threadproc]; [by intros t Ht; left|].
  eapply triple_bind; [by apply local_pass_ok|]. intros [|]; [exact IH|by intros t Ht; right].
Qed.

End safety.

(** ** A connection that is not read from any more *)

(** Nothing is read from the local connection, nor written to the proxy; all
    that was read is [read]. *)
Definition stalled (read : list (list ascii)) (h : LocalHost) : Prop :=
  relaying h /\ Forall aside (l_pending h) /\ l_read h = read.

Definition stalled_or_gone (read : list (list ascii)) (h : LocalHost) : Prop :=
  (m_local_sockets h <> [] -> stalled read h) /\ l_read h = read.

Lemma erase_aside o ops :
  Forall aside ops -> Forall aside (erase_first (fun o' => bool_decide (o = o')) ops).
Proof.
  intros H. apply List.Forall_forall. intros x Hx%list_elem_of_In%erase_first_elem_of.
  by apply (aside_elem x ops).
Qed.

Lemma tally_aside_inv ops :
  (tally is_local_read ops + tally is_remote_write ops = 0)%nat -> Forall aside ops.
Proof.
  intros T. apply List.Forall_forall. intros o Ho%list_elem_of_In.
  split; eapply tally_0; try exact Ho; lia.
Qed.

Lemma stalled_step now o r h h' read :
  stalled read h -> o ∈ l_pending h -> may_end h o r -> complete now o r h = (h', Ok tt) ->
  stalled read h'.
Proof.
  intros ([Hr Hm] & Ha & Hread) Ho He E. pose proof (aside_elem o _ Ha Ho) as Hao.
  pose proof E as E'. unfold complete in E'. set (h1 := with_pending _ h) in E'.
  destruct (re_sockets _ Hr) as [id0 Es].
  destruct (handle_limits now o r _ _ _ E') as [Em _].
  destruct (aside_step now o r h1 h' id0 Hao Es Hm E') as (ops & Hops & P0 & _ & _ & P3 & _).
  split_and!.
  - split; [by apply relay_step with h; [..|by apply (step_handler h now o r)]|by rewrite Em].
  - rewrite P0. apply List.Forall_app. split; [by apply erase_aside|done].
  - by rewrite P3.
Qed.

Lemma stalled_throw now o r h h' e read :
  stalled read h -> o ∈ l_pending h -> complete now o r h = (h', Throw e) ->
  thrown e /\ stalled_or_gone read h'.
Proof.
  intros ([Hr Hm] & Ha & Hread) Ho E. destruct (aside_elem o _ Ha Ho) as [A1 A2].
  unfold complete in E. set (h1 := with_pending _ h) in E.
  assert (stalled read h1) as Hs.
  { split_and!; [|by apply erase_aside|done]. split; [|done].
    apply (relay_sublist _ h Hr), erase_first_sublist. }
  destruct (is_local_write o) eqn:E2.
  - destruct o as [|id n| | | | |]; try done.
    apply local_write_throws in E as (Es & He & _ & Er & _). split; [by left|].
    split; [by rewrite Es|]. by rewrite Er.
  - apply other_throws in E as (He & open & deadline & ->); [|done..]. split; [by left|].
    split; [intros _|done]. destruct Hs as ([Hr1 _] & Ha1 & _). split_and!; [|done..].
    split; [by apply relay_remote|done].
Qed.

Lemma run_moves_stalled read moves :
  triple (stalled read) (run_moves moves) (fun _ => stalled read)
    (fun e h => thrown e /\ stalled_or_gone read h).
Proof.
  induction moves as [|[[now o] r] moves IH]; cbn [run_moves]; [by intros h Hh|].
  intros h Hh. rewrite st_bind_gets.
  destruct (bool_decide (o ∈ l_pending h) && bool_decide (may_end h o r)) eqn:E; [|done].
  apply andb_true_iff in E as [Ho%bool_decide_eq_true He%bool_decide_eq_true].
  unfold mbind, st_bind. destruct (complete now o r h) as [h' [[]|e|]] eqn:Ec.
  - apply IH. by apply (stalled_step now o r h).
  - by apply (stalled_throw now o r h).
  - assert (snd (complete now o r h) = UB) as HUB by by rewrite Ec.
    apply handle_UB in HUB as (id & keeps & -> & _).
    destruct Hh as (_ & Ha & _). by destruct (aside_elem _ _ Ha Ho).
Qed.

Lemma attempts_loop_stalled library_what proxies attempts b read :
  Forall (attempt_ok proxies) attempts ->
  triple (holds proxies (stalled read) b) (attempts_loop library_what attempts)
    (fun _ => holds proxies (stalled read) b) (leaves proxies (stalled_or_gone read) b).
Proof.
  apply attempts_loop_ok.
  - intros h Hh. split; [done|apply Hh].
  - intros now h (Hr & Ha & Hd). split_and!; [by apply round_start_relaying| |done].
    cbn. rewrite <- app_assoc. apply List.Forall_app. split; [done|by repeat constructor].
  - intros h [Hs Hd]. split; [|done]. intros Hn. destruct (Hs Hn) as ([Hr Hm] & Ha & _).
    split_and!; [|done..]. split; [by apply relay_remote|done].
  - intros h [Hs _]. exact Hs.
  - intros moves. apply run_moves_stalled.
Qed.

(** ** Properties *)

(** The thread before it runs. *)
Definition ready (t : local_thread) : Prop :=
  0 <= m_proxy_index (t_client t) < zlen (m_proxy_endpoints (t_client t)) /\
  idle (t_host t) /\ t_acceptor t = false.


(** A client with one proxy, and its thread. *)
Definition sample_host : LocalHost := new_LocalHost_state 8750 1 300 true false 0 7 memory.

Definition sample_client : BaseClient :=
  match new_LocalHost true 8750 0 [remote_ep1] 1 300 true 0 0 with
  | Ok (c, _) => c
  | _ => Build_BaseClient (Local 0 false) 0 [] 0 false 0 0 0 0 [] (new_thread true)
           (new_thread true) (new_thread true)
  end.

Definition sample_thread : local_thread :=
  {| t_state := (sample_client, world1);
     t_host := sample_host;
     t_acceptor := false; t_connected := false |}.

Definition sample_attempt (moves : list (Z * op * result)) : attempt :=
  {| a_index := 0; a_context := Ok tt; a_connect := fun _ _ => Ok tt; a_now := 0;
     a_moves := moves; a_sleep := fun _ => false; a_stop := false |}.

Definition sample_pass (stop : bool) (attempts : list attempt) : pass :=
  {| q_stop := stop; q_bind := Ok tt; q_accept := Ok tt; q_attempts := attempts;
     q_sleep := fun _ => false |}.

(** A proxy that fails between two messages; then the local program goes, and
    the thread is stopped. *)
Definition reconnection : list pass :=
  [sample_pass false
     [sample_attempt
        [(1, Handshake 1, Done []); (2, LocalRead 1 true, Done (lit "aaa"));
         (3, RemoteWrite 1 1 3, Done []); (4, RemoteRead 1, Failed)];
      sample_attempt
        [(5, LocalRead 1 true, Done (lit "bb")); (6, RemoteWrite 2 1 2, Done []);
         (7, LocalRead 1 true, Failed)]];
   sample_pass true []].

Lemma harmless_Ok : harmless (Ok tt).
Proof. by split. Qed.

Lemma sample_ready : ready sample_thread.
Proof.
  split; [split; vm_compute; [discriminate|reflexivity]|]. split; [|done].
  split; [done|]. split; [done|]. split; [split; by vm_compute|]. split; [|by vm_compute].
  exists []. split; [done|]. cbn. lia.
Qed.

Lemma reconnection_ok : Forall (pass_ok (m_proxy_endpoints (t_client sample_thread))) reconnection.
Proof.
  repeat constructor; try apply harmless_Ok; try done.
Qed.


(** When a write to the proxy fails, the local connection stays and is kept
    for the next connections to a proxy, but is never read from again: however
    many follow, and whatever happens on them. *)
Theorem failed_write_stops_reading library_what t now round id n h e attempts :
  relaying (t_host t) ->
  0 <= m_proxy_index (t_client t) < zlen (m_proxy_endpoints (t_client t)) ->
  RemoteWrite round id n ∈ l_pending (t_host t) ->
  complete now (RemoteWrite round id n) Failed (t_host t) = (h, Throw e) ->
  Forall (attempt_ok (m_proxy_endpoints (t_client t))) attempts ->
  m_local_sockets h = m_local_sockets (t_host t) /\ m_local_sockets h <> [] /\
  let '(t', r) := attempts_loop library_what attempts (set_t_host (close_remote h) t) in
  r <> UB /\ l_read (t_host t') = l_read (t_host t).
Proof.
  intros [Hr Hm] Hi Ho E Hatt. unfold complete in E. injection E as <- _.
  split; [done|]. split; [cbn; by destruct (re_sockets _ Hr) as [id0 ->]|].
  assert (Forall aside (erase_first (fun o' => bool_decide (RemoteWrite round id n = o'))
            (l_pending (t_host t)))) as Hops.
  { apply tally_aside_inv. pose proof (re_turn _ Hr).
    pose proof (tally_erase is_remote_write _ _ Ho). pose proof (tally_erase is_local_read _ _ Ho).
    cbn [one is_remote_write is_local_read] in *. lia. }
  set (ops := erase_first _ _) in *.
  assert (stalled (l_read (t_host t)) (close_remote (with_pending ops (t_host t)))) as Hs.
  { split_and!; [|done..]. split; [|done].
    apply relay_remote, relay_sublist; [done|]. apply erase_first_sublist. }
  pose proof (attempts_loop_stalled library_what _ attempts (t_acceptor t) _ Hatt
    (set_t_host (close_remote (with_pending ops (t_host t))) t)
    (conj (conj eq_refl Hi) (conj Hs eq_refl))) as H.
  destruct (attempts_loop _ _ _) as [t' [ended|e'|]]; [| |done].
  - split; [done|]. apply H.
  - split; [done|]. apply H.
Qed.

(** A message that was read and could not be sent to the proxy; the next
    connection is made, and brings a message. *)
Definition unsent : list (Z * op * result) :=
  [(1, Handshake 1, Done []); (2, LocalRead 1 true, Done (lit "aaa"))].

Definition next_attempts : list attempt :=
  [sample_attempt [(5, Handshake 2, Done []); (6, RemoteRead 2, Done (lit "hello"))]].

Definition unsent_host : LocalHost :=
  default sample_host (play unsent (round_start 0 (accepted sample_host))).

Definition failed_write : LocalHost * out unit :=
  complete 3 (RemoteWrite 1 1 3) Failed unsent_host.

Definition later : local_thread * out bool :=
  attempts_loop (fun _ => []) next_attempts
    (set_t_host (close_remote (fst failed_write)) (set_t_host unsent_host sample_thread)).

Lemma unsent_relaying : relaying unsent_host.
Proof.
  assert (play unsent (round_start 0 (accepted sample_host)) = Some unsent_host) as E
    by (vm_compute; reflexivity).
  assert (reachable sample_host 0 unsent_host) as Hr
    by (apply (play_reachable _ _ unsent _ _ (reachable_start _ _) E)).
  assert (fresh sample_host) as Hf by (do 4 (split; [done|]); split; vm_compute; [discriminate|done]).
  assert (l_max_connections sample_host <= 1) as Hm by by vm_compute.
  split.
  - apply (reachable_relay sample_host 0); [done|done|by vm_compute|by vm_compute|done].
  - destruct (reachable_limits _ _ _ Hr) as [-> _]. done.
Qed.

Lemma failed_write_stops_reading_witness :
  snd failed_write = Throw (BoostError eof) /\ snd later = Ok false /\
  l_received (t_host (fst later)) = [lit "hello"] /\ m_local_sockets (fst failed_write) <> [] /\
  l_read (t_host (fst later)) = [lit "aaa"].
Proof.
  pose proof (failed_write_stops_reading (fun _ => []) (set_t_host unsent_host sample_thread) 3 1 1 3
    (fst failed_write) (BoostError eof) next_attempts) as H.
  split; [vm_compute; reflexivity|]. split; [vm_compute; reflexivity|].
  split; [vm_compute; reflexivity|].
  destruct H as (_ & Hs & Hd).
  - exact unsent_relaying.
  - split; vm_compute; [discriminate|reflexivity].
  - apply (bool_decide_unpack _). vm_compute. exact I.
  - vm_compute. reflexivity.
  - repeat constructor; try apply harmless_Ok; vm_compute; first [discriminate|reflexivity].
  - split; [exact Hs|]. unfold later.
    destruct (attempts_loop (fun _ => []) next_attempts _) as [t' r'].
    destruct Hd as [_ Hd]. cbn [fst]. rewrite Hd. vm_compute. reflexivity.
Defined.
