(* ===== verification/LocalStop.v ===== *)
(** * Stopping a client

    The thread of a [LocalHost] ([localclient.cpp]: [threadproc], [go_out],
    [cleanup], [interrupt]) and a caller of [stop], side by side as in [Session],
    for one local connection.  What the thread does with data is in [LocalHost]
    and [LocalThread]. *)

From S2P Require Import Prelude Thread Explore Session.
From stdpp Require Import relations.

(** ** State *)

(** Where [threadproc] is: not started; at the loop's condition; before the
    acceptor is made, before its pointer is set; in [accept]; before the new
    connection is put into the list; before [go_out], in its connection, in
    [io_service.run]; in the pause after it, at the condition of the inner loop;
    before the [interrupt] and the [cleanup] at the end of the block; in the last
    pause; ended. *)
Inductive client_pc :=
  | HNone | HTest | HOpen | HGuard | HAccept | HAdd | HGoOut | HConnect | HRun | HPause | HCond
  | HLeave (killed : bool) | HClean (killed : bool) | HEnd | HKilled.

(** Where [stop] is: before it; in [interrupt], before [mp_acceptor->cancel()],
    before shutting the acceptor, the local sockets, the remote socket; in the
    join; after it. *)
Inductive stop_pc := SNone | SCancel | SAcceptor | SLocals | SRemoteSocket | SJoin | SDone.

#[export] Instance client_pc_eq_dec : EqDecision client_pc.
Proof. solve_decision. Defined.
#[export] Instance stop_pc_eq_dec : EqDecision stop_pc.
Proof. solve_decision. Defined.

(** [v_listed]: the local connection is in [m_local_sockets].  [v_ub]: something
    undefined was done. *)
Record client_thread := {
  m_auto_reconnect : bool;
  v_pc : client_pc;
  v_stop : stop_pc;
  m_thread : thread;
  mp_acceptor : bool;
  v_acceptor_shut : bool;
  v_local : local_socket;
  v_listed : bool;
  v_remote : local_socket;
  v_ub : bool }.

Definition set_pc (pc : client_pc) (s : client_thread) : client_thread :=
  {| m_auto_reconnect := m_auto_reconnect s; v_pc := pc; v_stop := v_stop s; m_thread := m_thread s;
     mp_acceptor := mp_acceptor s; v_acceptor_shut := v_acceptor_shut s; v_local := v_local s;
     v_listed := v_listed s; v_remote := v_remote s; v_ub := v_ub s |}.
Definition set_stop (pc : stop_pc) (t : thread) (s : client_thread) : client_thread :=
  {| m_auto_reconnect := m_auto_reconnect s; v_pc := v_pc s; v_stop := pc; m_thread := t;
     mp_acceptor := mp_acceptor s; v_acceptor_shut := v_acceptor_shut s; v_local := v_local s;
     v_listed := v_listed s; v_remote := v_remote s; v_ub := v_ub s |}.
Definition set_acceptor (p shut : bool) (s : client_thread) : client_thread :=
  {| m_auto_reconnect := m_auto_reconnect s; v_pc := v_pc s; v_stop := v_stop s; m_thread := m_thread s;
     mp_acceptor := p; v_acceptor_shut := shut; v_local := v_local s;
     v_listed := v_listed s; v_remote := v_remote s; v_ub := v_ub s |}.
Definition set_local (k : local_socket) (listed : bool) (s : client_thread) : client_thread :=
  {| m_auto_reconnect := m_auto_reconnect s; v_pc := v_pc s; v_stop := v_stop s; m_thread := m_thread s;
     mp_acceptor := mp_acceptor s; v_acceptor_shut := v_acceptor_shut s; v_local := k;
     v_listed := listed; v_remote := v_remote s; v_ub := v_ub s |}.
Definition set_remote (k : local_socket) (s : client_thread) : client_thread :=
  {| m_auto_reconnect := m_auto_reconnect s; v_pc := v_pc s; v_stop := v_stop s; m_thread := m_thread s;
     mp_acceptor := mp_acceptor s; v_acceptor_shut := v_acceptor_shut s; v_local := v_local s;
     v_listed := v_listed s; v_remote := k; v_ub := v_ub s |}.
Definition set_ub (s : client_thread) : client_thread :=
  {| m_auto_reconnect := m_auto_reconnect s; v_pc := v_pc s; v_stop := v_stop s; m_thread := m_thread s;
     mp_acceptor := mp_acceptor s; v_acceptor_shut := v_acceptor_shut s; v_local := v_local s;
     v_listed := v_listed s; v_remote := v_remote s; v_ub := true |}.

Definition new_client (auto_reconnect : bool) : client_thread :=
  {| m_auto_reconnect := auto_reconnect; v_pc := HNone; v_stop := SNone; m_thread := new_thread true;
     mp_acceptor := false; v_acceptor_shut := false; v_local := Unconnected; v_listed := false;
     v_remote := Unconnected; v_ub := false |}.

(** ** Operations *)

Definition shut (k : local_socket) : local_socket :=
  match k with Connected => ShutDown | _ => k end.

(** The parts of [interrupt]: the acceptor's pointer is used first and tested
    afterwards; only the sockets in the list are found.  The remote socket is
    [Unconnected] while its pointer is null. *)
Definition cancel_acceptor (s : client_thread) : client_thread :=
  if mp_acceptor s then s else set_ub s.
Definition shut_acceptor (s : client_thread) : client_thread :=
  if mp_acceptor s then set_acceptor true true s else s.
Definition shut_locals (s : client_thread) : client_thread :=
  if v_listed s then set_local (shut (v_local s)) true s else s.
Definition shut_remote (s : client_thread) : client_thread := set_remote (shut (v_remote s)) s.

Definition interrupt (s : client_thread) : client_thread :=
  shut_remote (shut_locals (shut_acceptor (cancel_acceptor s))).

(** [ok] says whether the call succeeds; [Relays] is a handler in
    [io_service.run] that carries data or waits for more, [LocalFails],
    [RemoteFails] and [TimesOut] are those that end it. *)
Inductive move :=
  | StartClient | Tests | Opens (ok : bool) | Guards | Accepts (ok : bool) | Adds | GoesOut
  | Connects (ok : bool) | Relays | LocalFails | RemoteFails | TimesOut | Pauses | Conds
  | Leaves | Cleans | Ends
  | Stops | Cancels | ShutsAcceptor | ShutsLocals | ShutsRemote | Joins.

#[export] Instance move_eq_dec : EqDecision move.
Proof. solve_decision. Defined.

Definition runs (s : client_thread) : bool :=
  match check_run (m_stop (m_thread s)) true with Ok _ => true | _ => false end.

Definition kill (s : client_thread) : client_thread :=
  set_pc HKilled (set_stop (v_stop s) (returned (m_thread s)) s).

(** [start] and the parts of [threadproc] and [go_out].  The only exception of
    [go_out] that leaves it is that of a handler which removed the last local
    socket. *)
Definition thread_move (m : move) (s : client_thread) : option client_thread :=
  match m, v_pc s with
  | StartClient, HNone =>
      if bool_decide (v_stop s = SNone) then
        Some (match start (m_thread s) with
              | (t, Ok _) => set_pc HTest (set_stop (v_stop s) t s)
              | (t, _) => s
              end)
      else None
  | Tests, HTest => Some (if runs s then set_pc HOpen s else kill s)
  | Opens ok, HOpen => Some (set_pc (if ok then HGuard else HEnd) s)
  | Guards, HGuard => Some (set_pc HAccept (set_acceptor true false s))
  | Accepts ok, HAccept =>
      Some (if ok then set_pc HAdd (set_local Connected false s) else set_pc (HLeave false) s)
  | Adds, HAdd => Some (set_pc HGoOut (set_local (v_local s) true s))
  | GoesOut, HGoOut => Some (set_pc HConnect (set_remote Unconnected s))
  | Connects ok, HConnect =>
      Some (if ok then set_pc HRun (set_remote Connected s)
            else set_pc HPause (set_remote Unconnected s))
  | Relays, HRun => Some s
  | LocalFails, HRun =>
      Some (set_pc (HLeave false) (set_local Unconnected false (set_remote Unconnected s)))
  | RemoteFails, HRun => Some (set_pc HPause (set_remote Unconnected s))
  | TimesOut, HRun =>
      if bool_decide (v_remote s = Connected) then
        Some (if m_auto_reconnect s then set_remote ShutDown s
              else set_pc HPause (set_remote Unconnected (interrupt s)))
      else None
  | Pauses, HPause => Some (set_pc (if runs s then HCond else HLeave true) s)
  | Conds, HCond =>
      Some (set_pc (if m_auto_reconnect s then
                      if runs s then if v_listed s then HGoOut else HLeave false
                      else HLeave true
                    else HLeave false) s)
  | Leaves, HLeave killed => Some (set_pc (HClean killed) (interrupt s))
  | Cleans, HClean killed =>
      let s := set_acceptor false false (set_local Unconnected false s) in
      Some (if killed then kill s else set_pc HEnd s)
  | Ends, HEnd => Some (if runs s then set_pc HTest s else kill s)
  | _, _ => None
  end.

(** The parts of [stop]; the activation thread it stops before has no part in it. *)
Definition stop_move (m : move) (s : client_thread) : option client_thread :=
  match m, v_stop s with
  | Stops, SNone =>
      Some (set_stop (if joinable (m_thread s) then SCancel else SDone) (stop false (m_thread s)) s)
  | Cancels, SCancel => Some (cancel_acceptor (set_stop SAcceptor (m_thread s) s))
  | ShutsAcceptor, SAcceptor => Some (shut_acceptor (set_stop SLocals (m_thread s) s))
  | ShutsLocals, SLocals => Some (shut_locals (set_stop SRemoteSocket (m_thread s) s))
  | ShutsRemote, SRemoteSocket => Some (shut_remote (set_stop SJoin (m_thread s) s))
  | Joins, SJoin =>
      if joined (m_thread s) then Some (set_stop SDone (destroy (m_thread s)) s) else None
  | _, _ => None
  end.

(** Nothing is said of what happens after something undefined. *)
Definition make_move (m : move) (s : client_thread) : option client_thread :=
  if v_ub s then None
  else match m with
       | Stops | Cancels | ShutsAcceptor | ShutsLocals | ShutsRemote | Joins => stop_move m s
       | _ => thread_move m s
       end.

Definition step : client_thread -> client_thread -> Prop := moves_to make_move.

Definition reachable (s : client_thread) : Prop :=
  exists auto_reconnect, rtc step (new_client auto_reconnect) s.

(** ** The states *)

#[export] Instance client_thread_eq_dec : EqDecision client_thread.
Proof. solve_decision. Defined.

Definition all_moves : list move :=
  [StartClient; Tests; Opens true; Opens false; Guards; Accepts true; Accepts false; Adds; GoesOut;
   Connects true; Connects false; Relays; LocalFails; RemoteFails; TimesOut; Pauses; Conds; Leaves;
   Cleans; Ends; Stops; Cancels; ShutsAcceptor; ShutsLocals; ShutsRemote; Joins].

Lemma client_moves_all m : m ∈ all_moves.
Proof.
  destruct m as [| |[]| |[]| | |[]| | | | | | | | | | | | | | |];
    apply (bool_decide_unpack _); by vm_compute.
Qed.

Definition pc_code (pc : client_pc) : N :=
  match pc with
  | HNone => 0 | HTest => 1 | HOpen => 2 | HGuard => 3 | HAccept => 4 | HAdd => 5 | HGoOut => 6
  | HConnect => 7 | HRun => 8 | HPause => 9 | HCond => 10 | HLeave false => 11 | HLeave true => 12
  | HClean false => 13 | HClean true => 14 | HEnd => 15 | HKilled => 16
  end.

Definition client_stop_code (pc : stop_pc) : N :=
  match pc with
  | SNone => 0 | SCancel => 1 | SAcceptor => 2 | SLocals => 3 | SRemoteSocket => 4 | SJoin => 5
  | SDone => 6
  end.

Definition client_key (s : client_thread) : positive :=
  N.succ_pos (pc_code (v_pc s) + 32 * client_stop_code (v_stop s)).

Definition all_states : list client_thread :=
  Eval vm_compute in
    explore make_move all_moves client_key (Z.to_nat 200000) [new_client true; new_client false] [] ∅.

(** ** Ends *)

(** How many moves the thread has left at most when it was told to stop. *)
Definition client_rank (s : client_thread) : nat :=
  match v_pc s with
  | HOpen => 11 | HGuard => 10 | HAccept => 9 | HAdd => 8 | HGoOut => 7 | HConnect => 6
  | HRun => if bool_decide (v_remote s = Connected) then 5 else 4
  | HPause => 3 | HCond => 4 | HLeave false => 3 | HClean false => 2 | HEnd => 1 | HTest => 1
  | HLeave true => 2 | HClean true => 1 | HNone => 1 | HKilled => 0
  end.

(** The moves of the thread, but for the handlers that carry data. *)
Definition by_client (m : move) : bool :=
  match m with
  | Relays | Stops | Cancels | ShutsAcceptor | ShutsLocals | ShutsRemote | Joins => false
  | _ => true
  end.

Definition told (s : client_thread) : bool := m_stop (m_thread s).

(** ** Lemmas *)

Lemma client_always (P : client_thread -> Prop) `{!forall s, Decision (P s)} s :
  forallb (fun s => bool_decide (P s)) all_states = true -> reachable s -> P s.
Proof.
  intros HP [b Hr]. apply (bool_decide_eq_true_1 (P s)).
  apply (always make_move all_moves client_moves_all client_key all_states (new_client b) s
           (fun s => bool_decide (P s)));
    [vm_compute; reflexivity|destruct b; apply (bool_decide_unpack _); by vm_compute|done..].
Qed.

Definition client_nearer (m : move) (s s' : client_thread) : bool :=
  told s' && ((if by_client m then 1 else 0) + client_rank s' <=? client_rank s)%nat.

Lemma told_client_nearer s m s' :
  reachable s -> told s = true -> make_move m s = Some s' -> client_nearer m s s' = true.
Proof.
  intros Hr Ht E.
  pose proof (client_always
    (fun s => implies told (each_edge make_move all_moves client_nearer) s = true) s) as H.
  assert (forallb (fun s => bool_decide
    (implies told (each_edge make_move all_moves client_nearer) s = true)) all_states = true) as Hc
    by (vm_compute; reflexivity).
  specialize (H Hc Hr). unfold implies in H. rewrite Ht in H.
  pose proof (forallb_elem _ _ m H (client_moves_all m)) as H2. cbn in H2. by rewrite E in H2.
Qed.

Definition after (auto_reconnect : bool) (l : list move) : client_thread :=
  default (new_client auto_reconnect) (play make_move l (new_client auto_reconnect)).

Lemma client_after b l :
  play make_move l (new_client b) = Some (after b l) -> reachable (after b l).
Proof. intros Hl. exists b. eapply played; [constructor|exact Hl]. Qed.

(** ** Properties *)


(** A client that relays, and one whose pass is over. *)
Definition relaying : list move :=
  [StartClient; Tests; Opens true; Guards; Accepts true; Adds; GoesOut; Connects true; Relays].

Definition between_passes : list move :=
  relaying ++ [LocalFails; Leaves; Cleans].

Definition client_winds_down : list move :=
  [Cancels; ShutsAcceptor; Relays; ShutsLocals; ShutsRemote; LocalFails; Leaves; Cleans; Ends; Joins].


(** C33. Two runs in which [stop] fails.  A client that pauses after a pass has no
    acceptor; [stop] uses its null pointer, which is undefined.  And a connection
    that was accepted and is not yet in the list is missed by [interrupt]: the
    client connects to the proxy and carries data, for as long as there is some,
    while [stop] waits in the join. *)
Theorem local_stop_fails :
  (exists s, reachable s /\ v_pc s = HEnd /\ v_ub s = true) /\
  (exists s, reachable s /\ v_stop s = SJoin /\ v_local s = Connected /\ v_remote s = Connected /\
     play make_move [Relays] s = Some s).
Proof.
  split.
  - exists (after true (between_passes ++ [Stops; Cancels])).
    split; [apply client_after; vm_compute; reflexivity|]. split; vm_compute; reflexivity.
  - exists (after true ([StartClient; Tests; Opens true; Guards; Accepts true; Stops; Cancels; ShutsAcceptor;
      ShutsLocals; ShutsRemote; Adds; GoesOut; Connects true])).
    split; [apply client_after; vm_compute; reflexivity|]. split_and!; vm_compute; reflexivity.
Qed.
