(* ===== verification/EndToEnd.v ===== *)
(** * From end to end

    A local program, its [LocalHost] at one site, the session of the host at the
    other site and the local system behind it: what arrives at either end of
    the chain.

    [LocalHost] reads from the local program and writes to the proxy; the
    session's [remote_threadproc] reads that and writes to the local system;
    [local_threadproc] and [LocalHost] carry data the other way.  Between the
    two sites is a TLS connection, a stream: what was read from it is the
    beginning of what was written into it, however it was cut. *)

From S2P Require Import Prelude Plugin BaseClient RemoteHost LocalHost.

(** ** What the local program gets *)

(** The messages from the proxy are written to the one local socket in order;
    at most one is being written, and is still in the buffer. *)
Record deliver_ok (h : LocalHost) : Prop := {
  de_socket : exists id, m_local_sockets h = [id] /\ Forall (fun p => p.1 = id) (l_delivered h) /\
    forall id' n, LocalWrite id' n ∈ l_pending h -> id' = id;
  de_data : exists flight, l_received h = (l_delivered h).*2 ++ flight /\
    (tally is_local_write (l_pending h) = 0%nat -> flight = []) /\
    forall id n, LocalWrite id n ∈ l_pending h ->
      exists d, flight = [d] /\ n = length d /\ take n (l_remote_data h) = d;
  de_writes : (tally is_local_write (l_pending h) <= 1)%nat }.

(** Operations that do not write to the local socket. *)
Definition unwritten (o : op) : Prop := is_local_write o = false.

Lemma tally_unwritten ops : Forall unwritten ops -> tally is_local_write ops = 0%nat.
Proof. induction 1 as [|o ops H _ IH]; [done|]. by rewrite tally_cons, H, IH. Qed.

(** A handler that posts only such operations and leaves the data alone. *)
Lemma deliver_frame o ops h h' :
  deliver_ok h -> o ∈ l_pending h -> unwritten o -> Forall unwritten ops ->
  l_pending h' = erase_first (fun o' => bool_decide (o = o')) (l_pending h) ++ ops ->
  m_local_sockets h' = m_local_sockets h -> l_delivered h' = l_delivered h ->
  l_received h' = l_received h -> l_remote_data h' = l_remote_data h -> deliver_ok h'.
Proof.
  intros [(id & H1 & H2 & H3) (flight & H4 & H5 & H6) H7] Ho Hu Hops Ep E1 E2 E3 E4.
  assert (tally is_local_write (l_pending h') = tally is_local_write (l_pending h)) as Et.
  { rewrite Ep, tally_app, (tally_unwritten ops) by done.
    rewrite (tally_erase is_local_write o (l_pending h) Ho). unfold unwritten in Hu. rewrite Hu.
    cbn. lia. }
  assert (forall id n, LocalWrite id n ∈ l_pending h' -> LocalWrite id n ∈ l_pending h) as Hin.
  { intros id' n Hin. rewrite Ep in Hin. apply elem_of_app in Hin as [Hin|Hin].
    - by apply erase_first_elem_of in Hin.
    - pose proof (proj1 (List.Forall_forall _ _) Hops _ (proj1 (list_elem_of_In _ _) Hin)). done. }
  split; [|exists flight|by rewrite Et].
  - exists id. rewrite E1, E2. split; [done|]. split; [done|]. intros id' n H. by apply (H3 id' n), Hin.
  - rewrite E2, E3, E4, Et. split; [done|]. split; [done|]. intros id' n H. by apply (H6 id' n), Hin.
Qed.

Lemma deliver_local_write now id n r h h' :
  deliver_ok h -> LocalWrite id n ∈ l_pending h ->
  complete now (LocalWrite id n) r h = (h', Ok tt) -> deliver_ok h'.
Proof.
  intros [(id0 & H1 & H2 & H3) (flight & H4 & H5 & H6) H7] Ho. unfold complete.
  set (h1 := with_pending _ h). cbn [handle]. intros (h2 & E2 & Hpos & ->)%handle_local_write_spec.
  assert (id = id0) as -> by by apply (H3 id n).
  destruct (H6 id0 n Ho) as (d & -> & Hn & Hd).
  pose proof (tally_erase is_local_write _ _ Ho) as T. cbn [one is_local_write] in T.
  set (rest := erase_first _ (l_pending h)) in *.
  assert (tally is_local_write rest = 0%nat) as T0 by lia.
  destruct r as [data|]; cycle 1.
  { exfalso. subst h2. cbn in Hpos. rewrite H1 in Hpos. cbn in Hpos.
    rewrite Z.eqb_refl in Hpos. by cbv in Hpos. }
  assert (forall h3, m_local_sockets h3 = [id0] -> l_delivered h3 = l_delivered h ++ [(id0, d)] ->
            l_received h3 = l_received h -> l_pending h3 = rest \/ l_pending h3 = rest ++ [RemoteRead (l_round h)] ->
            deliver_ok h3) as Hok.
  { intros h3 E1 E3 E4 Ep.
    assert (tally is_local_write (l_pending h3) = 0%nat) as T3
      by (destruct Ep as [->| ->]; rewrite ?tally_app, ?T0; done).
    assert (forall id n, LocalWrite id n ∉ l_pending h3) as Hno.
    { intros id' n' Hin. by pose proof (tally_0 _ _ T3 _ Hin). }
    split; [exists id0|exists []|by rewrite T3; lia].
    - rewrite E1, E3. split; [done|]. split; [apply Forall_app; split; [done|by repeat constructor]|].
      intros id' n' Hin. by destruct (Hno id' n').
    - rewrite E3, E4, H4, fmap_app, app_nil_r. split; [done|]. split; [done|].
      intros id' n' Hin. by destruct (Hno id' n'). }
  destruct (m_write_count h2 =? 0); apply Hok; subst h2; cbn; rewrite ?Hd; auto.
Qed.

Lemma deliver_remote_read now round r h h' :
  deliver_ok h -> exchange_ok h -> RemoteRead round ∈ l_pending h ->
  complete now (RemoteRead round) r h = (h', Ok tt) -> deliver_ok h'.
Proof.
  intros [(id0 & H1 & H2 & H3) (flight & H4 & H5 & H6) H7] Hex Ho. unfold complete.
  cbn [handle]. unfold handle_remote_read. destruct r as [data|]; [|done].
  rewrite !st_bind_modify. intros [= <-]. rewrite write_all_spec. cbn.
  pose proof (tally_pos from_remote _ _ Ho eq_refl) as Tp.
  assert (tally is_local_write (l_pending h) = 0%nat) as T0 by (destruct (ex_turn h Hex); lia).
  rewrite H5, app_nil_r in H4 by done. rewrite H1. cbn [map].
  pose proof (tally_erase is_local_write _ _ Ho) as T. rewrite T0 in T. cbn in T.
  set (rest := erase_first _ (l_pending h)) in *.
  assert (forall id n, LocalWrite id n ∈ rest ++ [LocalWrite id0 (length data)] ->
            id = id0 /\ n = length data) as Hin.
  { intros id n [Hin|Hin]%elem_of_app.
    - assert (tally is_local_write rest = 0%nat) as Tr by lia. by pose proof (tally_0 _ _ Tr _ Hin).
    - apply list_elem_of_singleton in Hin. by injection Hin. }
  split; cbn.
  - exists id0. split; [done|]. split; [done|]. intros id n H. by apply (Hin id n).
  - exists [data]. rewrite H4. split; [done|]. rewrite tally_app, tally_one. split; [cbn; lia|].
    intros id n H. destruct (Hin id n H) as [-> ->]. exists data. split; [done|]. split; [done|].
    apply overwrite_snoc.
  - rewrite tally_app, tally_one. cbn. lia.
Qed.

(** The other handlers. *)
Lemma unwritten_step now o r h h' id0 :
  is_local_write o = false -> (forall round, o <> RemoteRead round) ->
  m_local_sockets h = [id0] -> l_max_connections h <= 1 ->
  handle now o r h = (h', Ok tt) ->
  exists ops, Forall unwritten ops /\ l_pending h' = l_pending h ++ ops /\
    m_local_sockets h' = m_local_sockets h /\ l_delivered h' = l_delivered h /\
    l_received h' = l_received h /\ l_remote_data h' = l_remote_data h.
Proof.
  intros Hw Hr Es Hmax E. destruct o as [id keeps|id n|round|round id n|round|round|]; try done;
    cbn [handle] in E.
  - unfold handle_local_read in E. rewrite st_bind_gets in E.
    destruct (negb keeps && _); [done|]. destruct r as [data|].
    + apply st_bind_inv in E as (h1 & last & E1 & E). injection E1 as <- _. injection E as <-.
      eexists. split; [|by split_and!]. by repeat constructor.
    + rewrite st_bind_modify, st_bind_gets in E.
      destruct (m_local_sockets (remove_socket id h)) as [|x l] eqn:En; [done|]. injection E as <-.
      exists []. rewrite app_nil_r. split; [constructor|]. split; [done|]. split; [|done].
      rewrite Es. apply remove_other; [done|]. by rewrite En.
  - by destruct (Hr round).
  - unfold handle_remote_write in E. destruct r as [data|]; [|done].
    rewrite st_bind_gets, st_bind_modify in E. case_bool_decide; injection E as <-.
    + eexists. split; [|by split_and!]. by repeat constructor.
    + exists []. rewrite app_nil_r. by split.
  - unfold handle_handshake in E. destruct r as [data|]; [|done].
    rewrite !st_bind_modify in E. injection E as <-. eexists. split; [|by split_and!].
    by repeat constructor.
  - unfold check_deadline in E. rewrite st_bind_gets in E. destruct r as [data|].
    + exists []. rewrite app_nil_r. split; [constructor|].
      destruct (match l_deadline _ with Some _ => _ | None => _ end); [|by injection E as <-].
      rewrite st_bind_modify in E. destruct (l_auto_reconnect _); [|done]. by injection E as <-.
    + injection E as <-. eexists. split; [|by split_and!]. by repeat constructor.
  - destruct (handle_accept_spec r h) as (ids & ops & gen & E' & Hor). rewrite E' in E.
    injection E as <-. destruct Hor as [[-> Hops]|(id & _ & Hlt & _)].
    + exists ops. cbn. rewrite app_nil_r. split; [|done]. destruct Hops as [->| ->]; by repeat constructor.
    + rewrite Es in Hlt. unfold zlen in Hlt. cbn in Hlt. lia.
Qed.

Lemma deliver_step h h' :
  l_max_connections h <= 1 -> exchange_ok h -> deliver_ok h -> step h h' -> deliver_ok h'.
Proof.
  intros Hmax Hex Hd [now o r h1 Ho Hm E].
  destruct (is_local_write o) eqn:Ew.
  { destruct o; try done. by eapply deliver_local_write. }
  assert ((exists round, o = RemoteRead round) \/ forall round, o <> RemoteRead round) as [[round ->]|Hr]
    by (destruct o; eauto).
  { by eapply deliver_remote_read. }
  destruct (de_socket _ Hd) as (id0 & Es & _). unfold complete in E. set (h2 := with_pending _ h) in E.
  apply (unwritten_step now o r h2 h1 id0 Ew Hr Es Hmax) in E as (ops & Hops & P0 & P1 & P2 & P3 & P4).
  by apply (deliver_frame o ops h).
Qed.

Lemma reachable_deliver h0 now h :
  fresh h0 -> l_delivered h0 = [] -> l_received h0 = [] -> l_max_connections h0 <= 1 ->
  reachable h0 now h -> deliver_ok h.
Proof.
  intros Hf Hd Hr Hmax. induction 1 as [|h h' Hh IH Hs].
  - destruct (round_start_spec now h0 Hf) as [Ep Es]. cbv zeta in *.
    split; rewrite ?Ep.
    + eexists. rewrite Es. split; [done|]. cbn. rewrite Hd. split; [constructor|].
      intros id' n. rewrite !elem_of_cons. set_solver.
    + exists []. cbn. rewrite Hd, Hr. split; [done|]. split; [done|].
      intros id' n. rewrite !elem_of_cons. set_solver.
    + unfold tally. cbn. lia.
  - apply deliver_step with h; [|by apply (reachable_exchange h0 now)|done|done].
    destruct (reachable_limits _ _ _ Hh) as [-> _]. done.
Qed.

(** ** The chain *)

(** What was handed to the connection: the writes that are done, and the one
    that is under way. *)
Definition handed (h : LocalHost) : list (list ascii) :=
  l_sent h ++ flat_map (fun o => match o with
                                 | RemoteWrite _ _ n => [take n (l_local_data h)]
                                 | _ => []
                                 end) (l_pending h).

Lemma flat_map_none {A B} (f : A -> list B) l : (forall x, x ∈ l -> f x = []) -> flat_map f l = [].
Proof.
  induction l as [|x l IH]; intros Hf; [done|]. cbn. rewrite (Hf x), IH; [done| |by left].
  intros y Hy. apply Hf. by right.
Qed.

(** What was handed over is the beginning of what was read, and all of it unless
    a write has failed. *)
Lemma handed_relay h : relay_ok h -> exists rest, l_read h = handed h ++ rest.
Proof.
  intros [_ _ _ H4 (flight & H5 & H6 & _ & H8)]. unfold handed. rewrite H5.
  set (f := fun o => match o with RemoteWrite _ _ n => [take n (l_local_data h)] | _ => [] end).
  assert (flat_map f (l_pending h) = [] \/ flat_map f (l_pending h) = flight) as [E|E].
  { assert (forall ops, (forall o, o ∈ ops -> o ∈ l_pending h) -> (tally is_remote_write ops <= 1)%nat ->
              flat_map f ops = [] \/ flat_map f ops = flight) as H.
    { induction ops as [|o ops IH]; intros Hin Ht; [by left|]. rewrite tally_cons in Ht.
      destruct (is_remote_write o) eqn:Ew.
      - destruct o as [| | |round id n| | |]; try done. cbn in Ht.
        destruct (H8 round id n) as (d & -> & -> & Hd); [apply Hin; by left|].
        right. cbn. rewrite Hd, flat_map_none; [done|]. intros o Ho.
        assert (tally is_remote_write ops = 0%nat) as T0 by lia.
        pose proof (tally_0 _ _ T0 o Ho). by destruct o.
      - cbn [one] in Ht. destruct IH as [E|E]; [intros; apply Hin; by right|done|left|right];
          cbn [flat_map]; rewrite E; by destruct o. }
    apply H; [done|]. lia. }
  - rewrite E, app_nil_r. by exists flight.
  - rewrite E. exists []. by rewrite app_nil_r.
Qed.

(** What a data loop writes: it reads [chunks], until the connection ends. *)
Definition carried (overflow : bool) (max : nat) (filter : list ascii -> bool)
    (chunks : list (list ascii)) (accepts : list Z) : list (list ascii) :=
  sk_sent (p_sink (fst (run_pump overflow (fun _ => false) max filter
    {| p_source := {| sk_incoming := map Ok chunks ++ [Throw (BoostError eof)];
                      sk_accepts := []; sk_sent := [] |};
       p_sink := {| sk_incoming := []; sk_accepts := accepts; sk_sent := [] |};
       p_count := 0; p_last := []; p_overflow := 0 |}))).

Lemma carried_all overflow max filter chunks accepts :
  (forall b, filter b = true) -> Forall (fun c => c <> [] /\ (length c <= max)%nat) chunks ->
  all_taken accepts chunks -> concat (carried overflow max filter chunks accepts) = concat chunks.
Proof.
  intros Hf Hc Ha. unfold carried.
  destruct (run_pump_taken overflow (fun _ => false) max filter chunks accepts (BoostError eof) [])
    as (p & -> & E); [done..|]. cbn [fst]. rewrite E. apply taken_all; [|done].
  eapply List.Forall_impl; [|exact Hc]. by intros ? [? _].
Qed.

(** C2. From end to end, with one local connection: at any time of the
    connection, what the local system behind the host got is the beginning of
    what the local program wrote, all of it when nothing is under way, and what
    the local program got is the beginning of what the local system wrote; byte
    for byte, however the network cuts the stream, as long as the host's writes
    take all they are given. *)
Theorem end_to_end h0 now h max filter up down accepts_up accepts_down :
  fresh h0 -> l_delivered h0 = [] -> l_received h0 = [] -> l_max_connections h0 <= 1 ->
  length (l_local_data h0) = Z.to_nat (max_length + 1) ->
  l_local_data h0 !! Z.to_nat max_length = Some zero ->
  reachable h0 now h ->
  (forall b, filter b = true) ->
  Forall (fun c => c <> [] /\ (length c <= max)%nat) (up ++ down) ->
  all_taken accepts_up up -> all_taken accepts_down down ->
  concat up `prefix_of` concat (handed h) ->
  concat (l_received h) `prefix_of` concat (carried false max filter down accepts_down) ->
  concat (carried true max filter up accepts_up) `prefix_of` concat (l_read h) /\
  (handed h = l_read h -> concat up = concat (handed h) ->
   concat (carried true max filter up accepts_up) = concat (l_read h)) /\
  concat (l_delivered h).*2 `prefix_of` concat down.
Proof.
  intros Hf Hd Hr Hmax Hl Hz Hreach Hfilter [Hup Hdown]%List.Forall_app Hau Had Hn1 Hn2.
  rewrite (carried_all true), (carried_all false) in * by done.
  destruct (handed_relay h) as [rest E]; [by apply (reachable_relay h0 now)|].
  destruct (reachable_deliver h0 now h Hf Hd Hr Hmax Hreach) as [_ (flight & E2 & _) _].
  split; [|split].
  - etransitivity; [exact Hn1|]. rewrite E, concat_app. by apply prefix_app_r.
  - by intros <- ->.
  - etransitivity; [|exact Hn2]. rewrite E2, concat_app. by apply prefix_app_r.
Qed.

(** A request that the local system answers. *)
Definition request : list (Z * op * result) :=
  [(1, Handshake 1, Done []); (2, LocalRead 1 true, Done (lit "request"));
   (3, RemoteWrite 1 1 7, Done []); (4, RemoteRead 1, Done (lit "answer"));
   (5, LocalWrite 1 6, Done [])].

Lemma end_to_end_witness :
  exists h, play request (started 1) = Some h /\
    concat (carried true 1000 (fun _ => true) [lit "req"; lit "uest"] []) = concat (l_read h) /\
    concat (l_delivered h).*2 `prefix_of` lit "answer".
Proof.
  destruct (play request (started 1)) as [h|] eqn:E; [|vm_compute in E; discriminate].
  exists h. split; [reflexivity|].
  destruct (end_to_end (sample 1) 0 h 1000 (fun _ => true) [lit "req"; lit "uest"] [lit "answer"] [] [])
    as (_ & H1 & H2).
  - apply fresh_sample. split; vm_compute; [discriminate|reflexivity].
  - reflexivity.
  - reflexivity.
  - vm_compute. discriminate.
  - vm_compute. reflexivity.
  - vm_compute. reflexivity.
  - apply (play_reachable _ _ request (started 1)); [constructor|exact E].
  - done.
  - repeat constructor; try discriminate; apply Nat.leb_le; vm_compute; reflexivity.
  - exact I.
  - exact I.
  - vm_compute in E. injection E as <-. exists []. vm_compute. reflexivity.
  - vm_compute in E. injection E as <-. exists []. vm_compute. reflexivity.
  - split; [|exact H2]. vm_compute in E. injection E as <-. apply H1; vm_compute; reflexivity.
Defined.
