(* ===== verification/HttpClient.v ===== *)
(** * The HTTP client

    [httpclient::sync] ([httpclient.cpp]): one request, and the reading of the
    response from a stream buffer that is filled piece by piece.

    The socket is a script: what each read brings, until the end of the file.
    Resolving and connecting is the parameter [connect], sending the parameter
    [write]. *)

From S2P Require Import Prelude CppString Nmea Plugin.

Definition crlf : list ascii := [CR; LF].

(** ** Reading *)

Fixpoint contains (p s : list ascii) : bool :=
  starts_with p s || match s with [] => false | _ :: s' => contains p s' end.

(** [read_until]: the buffer afterwards, and what is still to come. *)
Fixpoint read_until (delim buffer : list ascii) (incoming : list (out (list ascii)))
    : out (list ascii * list (out (list ascii))) :=
  if contains delim buffer then Ok (buffer, incoming)
  else
    match incoming with
    | [] => Throw (BoostError eof)
    | Ok piece :: incoming' => read_until delim (buffer ++ piece) incoming'
    | Throw e :: _ => Throw e
    | UB :: _ => UB
    end.

(** The loop at the end: everything until the end of the file; another error is
    thrown. *)
Fixpoint read_all (incoming : list (out (list ascii))) : out (list ascii) :=
  match incoming with
  | [] => Ok []
  | Ok piece :: incoming' => rest ← read_all incoming'; mret (piece ++ rest)
  | Throw e :: _ => match e with
                    | BoostError code => if code =? eof then Ok [] else Throw e
                    | _ => Throw e
                    end
  | UB :: _ => UB
  end.

(** [>> std::string]: the word and the rest, unless there is none. *)
Fixpoint take_word (s : list ascii) : list ascii * list ascii :=
  match s with
  | c :: s' => if isspace c then ([], s) else let '(w, r) := take_word s' in (c :: w, r)
  | [] => ([], [])
  end.

Definition read_word (s : list ascii) : option (list ascii * list ascii) :=
  match take_word (skip_space s) with
  | ([], _) => None
  | wr => Some wr
  end.

(** [>> unsigned int]: the digits are read into 32 bits; a value out of range
    fails; a minus sign negates modulo [2^32]. *)
Fixpoint take_digits (s : list ascii) : list ascii * list ascii :=
  match s with
  | c :: s' => if isdigit c then let '(d, r) := take_digits s' in (c :: d, r) else ([], s)
  | [] => ([], [])
  end.

Definition read_unsigned (s : list ascii) : option (Z * list ascii) :=
  let s := skip_space s in
  let '(negative, s) := match s with
                        | c :: s' => if u8 c =? 45 then (true, s')
                                     else if u8 c =? 43 then (false, s') else (false, s)
                        | [] => (false, [])
                        end in
  match take_digits s with
  | ([], _) => None
  | (d, r) =>
      let n := read_digits d 0 in
      if n <? 2 ^ 32 then Some (wrap 32 (if negative : bool then - n else n), r) else None
  end.

(** [std::getline]: the line and the rest.  At the end of the buffer the last
    line is what is there, and there must be something. *)
Fixpoint take_line (s : list ascii) : list ascii * list ascii :=
  match s with
  | c :: s' => if Ascii.eqb c LF then ([], s') else let '(l, r) := take_line s' in (c :: l, r)
  | [] => ([], [])
  end.

Definition getline (s : list ascii) : option (list ascii * list ascii) :=
  match s with
  | [] => None
  | _ => Some (take_line s)
  end.

(** The loop over the headers: what follows the first empty line, or nothing
    when the buffer ends before it. *)
Fixpoint skip_headers (fuel : nat) (s : list ascii) : list ascii :=
  match fuel with
  | O => s
  | S fuel' =>
      match getline s with
      | Some (header, rest) => if bool_decide (header = [CR]) then rest else skip_headers fuel' rest
      | None => []
      end
  end.

(** ** The request *)

Definition request (hostname url : list ascii) : list ascii :=
  lit "GET " ++ url ++ lit " HTTP/1.0" ++ crlf ++
  lit "Host: " ++ hostname ++ crlf ++
  lit "Accept: */*" ++ crlf ++
  lit "Connection: close" ++ crlf ++ crlf.

Definition invalid_parameter (hostnameport : list ascii) : exn :=
  RuntimeError (lit "invalid parameter: " ++ hostnameport).

(** The response, after the first [read_until]: [None] for what is not accepted.
    A number that ends the buffer leaves the stream at its end, where no line
    can be read. *)
Definition status_line (response : list ascii) : option (list ascii) :=
  match read_word response with
  | Some (http_version, rest) =>
      match read_unsigned rest with
      | Some (status_code, rest) =>
          match getline rest with
          | Some (_, rest) =>
              if negb (bool_decide (take 5 http_version = lit "HTTP/")) then None
              else if negb (status_code =? 200) then None
              else Some rest
          | None => None
          end
      | None => None
      end
  | None => None
  end.

(** The body of the [try]; [result] is the text of the caller before. *)
Definition sync_body (connect : list ascii -> list ascii -> out unit)
    (write : list ascii -> out unit) (incoming : list (out (list ascii)))
    (hostnameport url result : list ascii) : out (bool * list ascii) :=
  let vec := split hostnameport (chr 58) in
  '(hostname, port) ← match vec with
                      | [hostname] => Ok (hostname, lit "http")
                      | [hostname; port] => Ok (hostname, port)
                      | _ => Throw (invalid_parameter hostnameport)
                      end;
  _ ← connect hostname port;
  _ ← write (request hostname url);
  '(response, incoming) ← read_until crlf [] incoming;
  match status_line response with
  | None => mret (false, result)
  | Some response =>
      '(response, incoming) ← read_until (crlf ++ crlf) response incoming;
      let response := skip_headers (S (length response)) response in
      rest ← read_all incoming;
      mret (true, response ++ rest)
  end.

Definition sync (connect : list ascii -> list ascii -> out unit)
    (write : list ascii -> out unit) (incoming : list (out (list ascii)))
    (hostnameport url result : list ascii) : out (bool * list ascii) :=
  try_catch (sync_body connect write incoming hostnameport url result)
    (fun _ => Ok (false, result)).

(** ** Lemmas: searching *)

Lemma starts_with_app p s t : starts_with p s = true -> starts_with p (s ++ t) = true.
Proof. rewrite !starts_with_spec. intros [r ->]. exists (r ++ t). by rewrite app_assoc. Qed.

Lemma contains_spec p s : contains p s = true <-> exists a b, s = a ++ p ++ b.
Proof.
  split.
  - induction s as [|c s IH]; cbn [contains]; rewrite orb_true_iff.
    + intros [[r E]%starts_with_spec|?]; [|done]. by exists [], r.
    + intros [[r E]%starts_with_spec|(a & b & ->)%IH]; [by exists [], r|by exists (c :: a), b].
  - intros (a & b & ->). induction a as [|c a IH].
    + assert (starts_with p (p ++ b) = true) as Hs by (apply starts_with_spec; by exists b).
      cbn [app]. destruct (p ++ b) as [|x s]; cbn [contains]; by rewrite Hs.
    + cbn [app contains]. by rewrite IH, orb_true_r.
Qed.

Lemma contains_elem p s c : contains p s = true -> c ∈ p -> c ∈ s.
Proof. intros (a & b & ->)%contains_spec Hc. set_solver. Qed.

(** A line that has ended is in the buffer as a whole. *)
Lemma line_in_prefix line rest buffer x :
  buffer ++ x = line ++ crlf ++ rest -> LF ∉ line -> LF ∈ buffer ->
  exists y, buffer = line ++ crlf ++ y /\ y ++ x = rest.
Proof.
  intros E Hl Hb.
  destruct (decide (length line + 2 <= length buffer)%nat) as [Hle|Hlt].
  - rewrite app_assoc in E. exists (drop (length (line ++ crlf)) buffer).
    assert (length (line ++ crlf) <= length buffer)%nat as Hle'
      by (rewrite length_app; cbn; lia).
    assert (take (length (line ++ crlf)) buffer = line ++ crlf) as Ht.
    { apply (f_equal (take (length (line ++ crlf)))) in E.
      by rewrite take_app_le, take_app_length in E by done. }
    split.
    + rewrite app_assoc, <- Ht at 1. by rewrite take_drop.
    + apply (f_equal (drop (length (line ++ crlf)))) in E.
      by rewrite drop_app_le, drop_app_length in E by done.
  - exfalso. assert (buffer = take (length buffer) (line ++ [CR])) as Eb.
    { apply (f_equal (take (length buffer))) in E. rewrite take_app_length in E.
      rewrite E at 1. unfold crlf. change ([CR; LF] ++ rest) with ([CR] ++ [LF] ++ rest).
      rewrite (app_assoc line). rewrite take_app_le; [done|]. rewrite length_app. cbn. lia. }
    rewrite Eb in Hb. apply elem_of_take in Hb as (i & Hi & _). apply list_elem_of_lookup_2 in Hi.
    apply elem_of_app in Hi as [?|Hi%list_elem_of_singleton]; done.
Qed.

(** ** Lemmas: filling the buffer *)

Notation pieces := (map (@Ok (list ascii))).

Lemma read_until_Ok delim buffer chunks :
  contains delim (buffer ++ concat chunks) = true ->
  exists buffer' chunks', read_until delim buffer (pieces chunks) = Ok (buffer', pieces chunks') /\
    buffer' ++ concat chunks' = buffer ++ concat chunks /\ contains delim buffer' = true.
Proof.
  revert buffer. induction chunks as [|c chunks IH]; intros buffer Hc; cbn [read_until map];
    destruct (contains delim buffer) eqn:E.
  - by exists buffer, [].
  - cbn in Hc. rewrite app_nil_r in Hc. congruence.
  - by exists buffer, (c :: chunks).
  - cbn [concat] in Hc. rewrite app_assoc in Hc. destruct (IH _ Hc) as (b & cs & -> & E' & H').
    exists b, cs. split; [done|]. split; [|done]. cbn [concat]. by rewrite E', app_assoc.
Qed.

Lemma read_all_pieces chunks : read_all (pieces chunks) = Ok (concat chunks).
Proof. induction chunks as [|c chunks IH]; [done|]. cbn in *. by rewrite IH. Qed.

(** ** Lemmas: the status line *)

Definition word (w : list ascii) : Prop := w <> [] /\ Forall (fun c => isspace c = false) w.
Definition blank (s : list ascii) : Prop := s <> [] /\ Forall (fun c => isspace c = true) s.
Definition number (d : list ascii) : Prop := d <> [] /\ Forall (fun c => isdigit c = true) d.

Lemma take_word_app w s r :
  Forall (fun c => isspace c = false) w -> blank s -> take_word (w ++ s ++ r) = (w, s ++ r).
Proof.
  intros Hw [Hne Hs]. induction Hw as [|c w Hc _ IH]; cbn [app take_word].
  - destruct Hs as [|c s Hc _]; [done|]. cbn. by rewrite Hc.
  - by rewrite Hc, IH.
Qed.

Lemma skip_space_app s r : Forall (fun c => isspace c = true) s -> skip_space (s ++ r) = skip_space r.
Proof. induction 1 as [|c s Hc _ IH]; [done|]. cbn [app skip_space]. by rewrite Hc. Qed.

Lemma take_digits_app d r :
  Forall (fun c => isdigit c = true) d ->
  match r with c :: _ => isdigit c = false | [] => True end ->
  take_digits (d ++ r) = (d, r).
Proof.
  intros Hd Hr. induction Hd as [|c d Hc _ IH]; cbn [app take_digits].
  - destruct r as [|c r]; [done|]. cbn. by rewrite Hr.
  - by rewrite Hc, IH.
Qed.

Lemma digit_not_space c : isdigit c = true -> isspace c = false.
Proof.
  unfold isdigit, isspace. rewrite andb_true_iff, !Z.leb_le. intros [H1 H2].
  destruct (u8 c =? 32) eqn:E; [apply Z.eqb_eq in E; lia|].
  apply not_true_iff_false. rewrite ?orb_true_iff, ?andb_true_iff, ?Z.leb_le, ?Z.eqb_eq. lia.
Qed.

Lemma read_word_app w s r :
  word w -> blank s -> read_word (w ++ s ++ r) = Some (w, s ++ r).
Proof.
  intros [Hne Hw] Hs. unfold read_word.
  assert (skip_space (w ++ s ++ r) = w ++ s ++ r) as ->.
  { destruct Hw as [|c w Hc _]; [done|]. by apply skip_space_solid. }
  rewrite take_word_app by done. by destruct w.
Qed.

Lemma read_unsigned_app s d r :
  blank s -> number d -> match r with c :: _ => isdigit c = false | [] => True end ->
  0 <= read_digits d 0 < 2 ^ 32 ->
  read_unsigned (s ++ d ++ r) = Some (read_digits d 0, r).
Proof.
  intros [_ Hs] [Hne Hd] Hr Hn. unfold read_unsigned.
  rewrite skip_space_app by done.
  assert (exists c d', d = c :: d' /\ isdigit c = true) as (c & d' & E & Hc).
  { destruct Hd as [|c d' Hc _]; [done|]. eauto. }
  assert (skip_space (d ++ r) = d ++ r) as ->.
  { rewrite E. cbn [app]. apply skip_space_solid. by apply digit_not_space. }
  assert (match d ++ r with
          | c :: s' => if u8 c =? 45 then (true, s') else if u8 c =? 43 then (false, s')
                       else (false, d ++ r)
          | [] => (false, []) end = (false, d ++ r)) as ->.
  { rewrite E. cbn [app]. unfold isdigit in Hc. rewrite andb_true_iff, !Z.leb_le in Hc.
    destruct (Z.eqb_spec (u8 c) 45); [lia|]. destruct (Z.eqb_spec (u8 c) 43); [lia|]. done. }
  rewrite take_digits_app by done. destruct d as [|x d0] eqn:Ed; [done|]. rewrite <- Ed in *.
  destruct (Z.ltb_spec (read_digits d 0) (2 ^ 32)); [|lia].
  by rewrite wrap_small by (unfold in_uint; lia).
Qed.

Lemma take_line_app l r : LF ∉ l -> take_line (l ++ LF :: r) = (l, r).
Proof.
  induction l as [|c l IH]; intros Hl; cbn [app take_line]; [done|].
  destruct (Ascii.eqb_spec c LF) as [->|]; [set_solver|]. rewrite IH; [done|set_solver].
Qed.

Lemma getline_app l r : LF ∉ l -> getline (l ++ LF :: r) = Some (l, r).
Proof. intros Hl. unfold getline. rewrite take_line_app by done. by destruct l. Qed.

(** ** Lemmas: the headers *)

Definition header (h : list ascii) : Prop := h <> [] /\ LF ∉ h.

Definition header_block (headers : list (list ascii)) : list ascii :=
  concat (map (fun h => h ++ crlf) headers) ++ crlf.

Notation blank_line := (crlf ++ crlf).

Lemma contains_blank_LF y : contains blank_line (crlf ++ y) = true -> LF ∈ y.
Proof.
  intros (a & b & E)%contains_spec. destruct a as [|x [|z a]]; cbn in E.
  - injection E as ->. set_solver.
  - injection E as _ E. discriminate E.
  - injection E as _ _ ->. set_solver.
Qed.

(** A header line is no part of a blank line. *)
Lemma contains_blank_header h y :
  header h -> contains blank_line (crlf ++ h ++ crlf ++ y) = true ->
  contains blank_line (crlf ++ y) = true.
Proof.
  intros [Hne Hl] Hc.
  assert (contains blank_line (h ++ crlf ++ y) = true) as Hc'.
  { apply contains_spec in Hc as (a & b & E). destruct a as [|x [|z a]]; cbn in E.
    - injection E as E. destruct h as [|c [|c2 h]]; [done|discriminate E|].
      injection E as _ -> _. set_solver.
    - injection E as _ E. discriminate E.
    - injection E as _ _ E. apply contains_spec. by exists a, b. }
  clear Hc Hne. induction h as [|c h IH]; [done|]. apply IH; [set_solver|].
  cbn [app contains] in Hc'. apply orb_true_iff in Hc' as [Hs|Hc']; [|done]. exfalso.
  apply starts_with_spec in Hs as [r E]. cbn in E. injection E as -> E.
  destruct h as [|c2 h]; cbn in E; [discriminate E|]. injection E as -> _. set_solver.
Qed.

Lemma header_block_cons h headers : header_block (h :: headers) = h ++ crlf ++ header_block headers.
Proof. unfold header_block. cbn [map concat]. by rewrite <- !app_assoc. Qed.

Lemma header_line h : header h -> LF ∉ h ++ [CR] /\ h ++ [CR] <> [CR].
Proof.
  intros [Hne Hl]. split; [set_solver|]. destruct h as [|c [|? ?]]; [done|done|].
  cbn. intros E. by apply (f_equal length) in E.
Qed.

(** The loop over the headers stops at the blank line, wherever the buffer
    ends behind it. *)
Lemma skip_headers_block headers body buffer x fuel :
  Forall header headers -> buffer ++ x = header_block headers ++ body ->
  contains blank_line (crlf ++ buffer) = true -> (length buffer < fuel)%nat ->
  skip_headers fuel buffer ++ x = body.
Proof.
  intros Hh. revert buffer fuel. induction Hh as [|h headers Hh _ IH]; intros buffer fuel E Hc Hf;
    (destruct fuel as [|fuel]; [lia|]); pose proof (contains_blank_LF _ Hc) as Hlf.
  - destruct (line_in_prefix [] body buffer x) as (y & -> & <-); [done|set_solver|done|].
    cbn [skip_headers]. change (getline ([] ++ crlf ++ y)) with (getline ([CR] ++ LF :: y)).
    rewrite getline_app by set_solver. by rewrite bool_decide_true.
  - rewrite header_block_cons, <- !app_assoc in E.
    destruct (line_in_prefix h (header_block headers ++ body) buffer x) as (y & -> & E');
      [done|apply Hh|done|].
    cbn [skip_headers]. destruct (header_line h Hh) as [H1 H2].
    replace (h ++ crlf ++ y) with ((h ++ [CR]) ++ LF :: y) by (by rewrite <- app_assoc).
    rewrite getline_app, bool_decide_false by done. apply IH; [done| |rewrite !length_app in Hf; cbn in Hf; lia].
    by apply contains_blank_header with h.
Qed.

Lemma header_block_blank headers body :
  headers <> [] -> contains blank_line (header_block headers ++ body) = true.
Proof.
  intros Hne. apply contains_spec. unfold header_block.
  destruct (exists_last Hne) as (hs & h & ->).
  exists (concat (map (fun h => h ++ crlf) hs) ++ h), body.
  rewrite map_app, concat_app. cbn. by rewrite app_nil_r, <- !app_assoc.
Qed.

(** ** Responses *)

(** A response as a server writes it. *)
Record response := {
  version : list ascii;
  space : list ascii;
  code : list ascii;
  reason : list ascii;
  headers : list (list ascii);
  body : list ascii }.

Definition response_text (r : response) : list ascii :=
  version r ++ space r ++ code r ++ reason r ++ crlf ++ header_block (headers r) ++ body r.

Definition response_ok (r : response) : Prop :=
  word (version r) /\ blank (space r) /\ LF ∉ space r /\ number (code r) /\
  read_digits (code r) 0 < 2 ^ 32 /\
  match reason r with c :: _ => isdigit c = false | [] => True end /\ LF ∉ reason r /\
  headers r <> [] /\ Forall header (headers r).

Lemma read_digits_nonneg d acc : 0 <= acc -> 0 <= read_digits d acc.
Proof.
  revert acc. induction d as [|c d IH]; intros acc Ha; cbn; [done|].
  destruct (isdigit c) eqn:E; [|done]. apply IH.
  unfold isdigit in E. rewrite andb_true_iff, !Z.leb_le in E. lia.
Qed.

(** The status line, whatever of the rest is in the buffer. *)
Lemma status_line_response r y :
  response_ok r ->
  status_line (version r ++ space r ++ code r ++ reason r ++ crlf ++ y) =
  if bool_decide (take 5 (version r) = lit "HTTP/") && (read_digits (code r) 0 =? 200)
  then Some y else None.
Proof.
  intros (Hw & Hs & _ & Hd & Hn & Hr & Hl & _). unfold status_line.
  rewrite read_word_app by done. rewrite read_unsigned_app; [|done|done| |].
  - replace (reason r ++ crlf ++ y) with ((reason r ++ [CR]) ++ LF :: y) by (by rewrite <- app_assoc).
    rewrite getline_app by set_solver.
    destruct (bool_decide _); cbn [negb andb]; [|done]. by destruct (_ =? 200).
  - by destruct (reason r).
  - split; [by apply read_digits_nonneg|done].
Qed.

Lemma space_no_LF c : isspace c = false -> c <> LF.
Proof. intros Hc ->. done. Qed.

Lemma first_line_no_LF r :
  response_ok r -> LF ∉ version r ++ space r ++ code r ++ reason r.
Proof.
  intros ([_ Hw] & _ & Hs & [_ Hd] & _ & _ & Hl & _). rewrite !not_elem_of_app. split_and!; try done.
  - intros Hin%list_elem_of_In. rewrite List.Forall_forall in Hw. by apply Hw in Hin.
  - intros Hin%list_elem_of_In. rewrite List.Forall_forall in Hd. by apply Hd in Hin.
Qed.

Lemma sync_response connect write chunks hostnameport hostname port url result r :
  (split hostnameport (chr 58) = [hostname; port] \/
   split hostnameport (chr 58) = [hostname] /\ port = lit "http") ->
  connect hostname port = Ok tt -> write (request hostname url) = Ok tt ->
  response_ok r -> concat chunks = response_text r ->
  sync connect write (map Ok chunks) hostnameport url result =
  Ok (if bool_decide (take 5 (version r) = lit "HTTP/") && (read_digits (code r) 0 =? 200)
      then (true, body r) else (false, result)).
Proof.
  intros Hsp Hc Hw Hr E. unfold sync, sync_body.
  assert (match split hostnameport (chr 58) with
          | [hostname] => Ok (hostname, lit "http")
          | [hostname; port] => Ok (hostname, port)
          | _ => Throw (invalid_parameter hostnameport)
          end = Ok (hostname, port)) as -> by (by destruct Hsp as [->|[-> ->]]).
  rewrite bind_Ok, Hc, bind_Ok, Hw, bind_Ok.
  set (line := version r ++ space r ++ code r ++ reason r).
  assert (concat chunks = line ++ crlf ++ header_block (headers r) ++ body r) as E1.
  { rewrite E. unfold response_text, line. by rewrite <- !app_assoc. }
  destruct (read_until_Ok crlf [] chunks) as (b1 & cs1 & -> & Eb1 & Hb1).
  { cbn [app]. rewrite E1. apply contains_spec. by eexists _, _. }
  rewrite bind_Ok. cbn [app] in Eb1. rewrite E1 in Eb1.
  destruct (line_in_prefix _ _ _ _ Eb1 (first_line_no_LF r Hr)) as (y & -> & Ey).
  { apply contains_elem with crlf; [done|set_solver]. }
  unfold line. rewrite <- !app_assoc. rewrite status_line_response by done.
  destruct (bool_decide _ && _); [|done].
  destruct (read_until_Ok blank_line y cs1) as (b2 & cs2 & -> & Eb2 & Hb2).
  { rewrite Ey. apply header_block_blank, Hr. }
  rewrite bind_Ok, read_all_pieces, bind_Ok. cbn [try_catch mret out_ret].
  rewrite (skip_headers_block (headers r) (body r) b2); [done|apply Hr|by rewrite Eb2| |lia].
  apply contains_spec in Hb2 as (a & b & ->). apply contains_spec. by exists (crlf ++ a), b.
Qed.

(** ** Properties *)

(** C26. However the network cuts the response into pieces, [sync] answers with
    its body when the version begins with HTTP/ and the code is 200, and leaves
    the caller's text alone otherwise. *)
Theorem sync_pieces connect write chunks hostnameport hostname port url result r :
  (split hostnameport (chr 58) = [hostname; port] \/
   split hostnameport (chr 58) = [hostname] /\ port = lit "http") ->
  connect hostname port = Ok tt -> write (request hostname url) = Ok tt ->
  response_ok r -> concat chunks = response_text r ->
  sync connect write (map Ok chunks) hostnameport url result =
  Ok (if bool_decide (take 5 (version r) = lit "HTTP/") && (read_digits (code r) 0 =? 200)
      then (true, body r) else (false, result)).
Proof. apply sync_response. Qed.

Definition sample_response : response :=
  {| version := lit "HTTP/1.1"; space := lit " "; code := lit "200"; reason := lit " OK";
     headers := [lit "Content-Type: text/plain"]; body := lit "certificates" |}.

Definition sample_pieces : list (list ascii) :=
  [take 3 (response_text sample_response); take 30 (drop 3 (response_text sample_response));
   drop 33 (response_text sample_response)].

Lemma sync_pieces_witness :
  sync (fun _ _ => Ok tt) (fun _ => Ok tt) (map Ok sample_pieces) (lit "host:8085") (lit "/x") []
  = Ok (true, lit "certificates").
Proof.
  rewrite (sync_pieces (fun _ _ => Ok tt) (fun _ => Ok tt) sample_pieces (lit "host:8085")
             (lit "host") (lit "8085") (lit "/x") [] sample_response).
  - vm_compute. reflexivity.
  - left. vm_compute. reflexivity.
  - reflexivity.
  - reflexivity.
  - split; [split; [discriminate|repeat constructor]|].
    split; [split; [discriminate|repeat constructor]|].
    split; [cbn; set_solver|].
    split; [split; [discriminate|repeat constructor]|].
    split; [vm_compute; reflexivity|]. split; [reflexivity|].
    split; [cbn; set_solver|]. split; [discriminate|].
    constructor; [|constructor]. split; [discriminate|cbn; set_solver].
  - vm_compute. reflexivity.
Defined.
