(* ===== verification/Status.v ===== *)
(** * Status and configuration output

    [save_json_status] and [save_json_config] of hosts ([remoteclient.cpp]), of
    clients ([baseclient.cpp]) and of the whole program ([proxy_global.cpp]).

    What a socket says of its peer, the counters' values and the clock are
    arguments; [save], the printing of a JSON value, is a parameter.  Every
    object starts as the undefined value, which the first assignment turns into
    an object. *)

From S2P Require Import Prelude CppString Json Endpoints Activation Certs Thread BaseClient RemoteHost Config.

Section output.
Context `{Json J}.

(** A sequence of assignments [obj[name] = value]. *)
Fixpoint assign (obj : J) (members : list (list ascii * J)) : out J :=
  match members with
  | [] => mret obj
  | (name, value) :: members' => obj ← set obj name value; assign obj members'
  end.

(** [obj[name][index] = value] *)
Definition set_element (obj : J) (name : list ascii) (index : nat) (value : J) : out J :=
  '(a, obj) ← member obj name;
  a ← set_at a index value;
  set obj name a.

(** [obj[name1][name2] = value] *)
Definition set_nested (obj : J) (name1 name2 : list ascii) (value : J) : out J :=
  '(o, obj) ← member obj name1;
  o ← set o name2 value;
  set obj name1 o.

(** The loops that fill an array: what [value] makes of an element is stored at
    the next index. *)
Fixpoint save_each {T E} (value : nat -> E -> st T J) (name : list ascii) (index : nat)
    (l : list E) (obj : J) : st T J :=
  match l with
  | [] => mret obj
  | e :: l' =>
      v ← value index e;
      obj ← lift (set_element obj name index v);
      save_each value name (S index) l' obj
  end.

(** ** Hosts *)

Definition host_members (h : RemoteProxyHost) : list (list ascii * J) :=
  [(lit "id", of_int (h_id h)); (lit "port", of_int (h_local_port h));
   (lit "type", of_string (h_type h)); (lit "active", of_bool (h_active h))].

Definition local_config {T} (index : nat) (ep : LocalEndpoint) : st T J :=
  lift (assign undefined
    [(lit "hostname", of_string (l_hostname ep)); (lit "port", of_int (l_port ep))]).

Definition remote_config {T} (index : nat) (ep : RemoteEndpoint) : st T J :=
  lift (assign undefined
    [(lit "name", of_string (r_name ep)); (lit "hostname", of_string (r_hostname ep));
     (lit "username", of_string (r_username ep)); (lit "password", of_string (r_password ep))]).

(** [RemoteProxyHost::save_json_config] *)
Definition host_save_json_config {T} (h : RemoteProxyHost) : st T J :=
  obj_host ← lift (assign undefined (host_members h));
  obj_host ← save_each local_config (lit "locals") 0 (h_local_ep h) obj_host;
  save_each remote_config (lit "remotes") 0 (h_remote_ep h) obj_host.

(** What a session says: the ends of its connections, while they are up, and the
    bytes of the last minute. *)
Record session_status := {
  s_local : option (list ascii * Z);
  s_remote : option (list ascii * Z * Z) }.

Definition session_members (s : session_status) : list (list ascii * J) :=
  (lit "connected_local", of_bool (if s_local s then true else false)) ::
  match s_local s with
  | Some (address, port) =>
      [(lit "local_hostname", of_string address); (lit "local_port", of_int port)]
  | None => []
  end ++
  (lit "connected_remote", of_bool (if s_remote s then true else false)) ::
  match s_remote s with
  | Some (address, count_in, count_out) =>
      [(lit "remote_hostname", of_string address); (lit "count_in", of_int count_in);
       (lit "count_out", of_int count_out)]
  | None => []
  end.

(** The members of the entry of a remote; its first session counts. *)
Definition remote_members (ep : RemoteEndpoint) (cert : bool) (activate : option Z)
    (session : option session_status) : list (list ascii * J) :=
  (lit "name", of_string (r_name ep)) ::
  (if cert then [(lit "cert", of_bool true)] else []) ++
  (lit "hostname", of_string (r_hostname ep)) ::
  match activate with Some seconds => [(lit "activate", of_int seconds)] | None => [] end ++
  match session with Some s => session_members s | None => [] end.

(** The session an entry shows. *)
Definition shown_session (status_of : RemoteProxyClient -> session_status)
    (clients : list RemoteProxyClient) (ep : RemoteEndpoint) : option session_status :=
  status_of <$> List.find (fun client => RemoteEndpoint_eqb (c_endpoint client) ep) clients.

(** The entry; [now1] and [now2] are the readings of the clock in [is_in_list]
    and after it. *)
Definition remote_status (status_of : RemoteProxyClient -> session_status)
    (clock : nat -> Z * Z) (clients : list RemoteProxyClient) (index2 : nat)
    (ep : RemoteEndpoint) : st world J :=
  let '(now1, now2) := clock index2 in
  cert ← gets (certificate_available (r_name ep));
  w ← gets (fun w => w);
  let '(found, timeout, m_activate) := is_in_list now1 (r_name ep) 0 (m_activate w) in
  _ ← modify (set_activate m_activate);
  lift (assign undefined
    (remote_members ep cert (if found : bool then Some (timeout - now2) else None)
       (shown_session status_of clients ep))).

(** [RemoteProxyHost::save_json_status] *)
Definition host_save_json_status (status_of : RemoteProxyClient -> session_status)
    (clock : nat -> Z * Z) (h : RemoteProxyHost) : st world J :=
  obj_host ← lift (assign undefined (host_members h));
  save_each (remote_status status_of clock (h_clients h)) (lit "remotes") 0 (h_remote_ep h)
    obj_host.

(** ** Clients *)

(** The sockets of a client: the local ones, whether each is open and its
    address, whether the local side is connected, whether the remote socket is,
    and the bytes of the last minute. *)
Record client_io := {
  io_sockets : list (bool * list ascii);
  io_local : bool;
  io_remote : bool;
  io_count_in : Z;
  io_count_out : Z }.

Definition local_user_count (c : BaseClient) (io : client_io) : Z :=
  match m_kind c with
  | Local _ _ => foldr (fun sock result => if fst sock && io_local io then result + 1 else result)
                   0 (io_sockets io)
  | Provider _ _ _ => if io_local io then 1 else 0
  end.

Definition is_local_connected (c : BaseClient) (io : client_io) : bool :=
  match m_kind c with
  | Local _ _ => local_user_count c io >? 0
  | Provider _ _ _ => io_local io
  end.

Definition local_hostnames (c : BaseClient) (io : client_io) : list (list ascii) :=
  match m_kind c with
  | Local _ _ => map snd (io_sockets io)
  | Provider local_endpoints _ _ => map l_hostname local_endpoints
  end.

Definition is_remote_connected (c : BaseClient) (io : client_io) (index : Z) : bool :=
  io_remote io && ((m_proxy_index c =? index) || (index =? -1)).

(** The loop over the host names: an empty one leaves its place out. *)
Fixpoint hostnames_loop (index3 : nat) (hostnames : list (list ascii)) (obj : J) : out J :=
  match hostnames with
  | [] => mret obj
  | sz :: hostnames' =>
      obj ← (if bool_decide (sz = []) then mret obj
             else set_element obj (lit "local_hostname") index3 (of_string sz));
      hostnames_loop (S index3) hostnames' obj
  end.

(** Is one of the proxies connected? *)
Definition any_remote (c : BaseClient) (io : client_io) : bool :=
  existsb (fun index2 => is_remote_connected c io (Z.of_nat index2))
    (seq 0 (length (m_proxy_endpoints c))).

(** Does the entry of a proxy show its connection? *)
Definition shows (c : BaseClient) (io : client_io) (index2 : nat) : bool :=
  (is_local_connected c io && is_remote_connected c io (Z.of_nat index2))
  || negb (any_remote c io).

Definition proxy_members (c : BaseClient) (io : client_io) (clock : nat -> Z * Z) (w : world)
    (index2 : nat) (r : RemoteEndpoint) : list (list ascii * J) :=
  let '(now1, now2) := clock index2 in
  let connected := is_remote_connected c io (Z.of_nat index2) in
  (lit "name", of_string (r_name r)) ::
  (lit "hostname", of_string (r_hostname r)) ::
  (lit "port", of_int (r_port r)) ::
  (if shows c io index2 then
     (lit "connected_remote", of_bool connected) ::
     (if connected then [(lit "count_in", of_int (io_count_in io));
                         (lit "count_out", of_int (io_count_out io))] else [])
   else []) ++
  (if certificate_available (r_name r) w then [(lit "cert", of_bool true)] else []) ++
  (if (m_proxy_index c =? Z.of_nat index2) && (BaseClient.m_activate_stamp c >? now1)
   then [(lit "activate", of_int (BaseClient.m_activate_stamp c - now2))] else []).

(** The loop over the proxies. *)
Fixpoint proxies_loop (c : BaseClient) (io : client_io) (clock : nat -> Z * Z) (w : world)
    (index2 : nat) (eps : list RemoteEndpoint) (obj : J) : out J :=
  match eps with
  | [] => mret obj
  | r :: eps' =>
      obj2 ← assign undefined (proxy_members c io clock w index2 r);
      obj ← (if shows c io index2
             then set obj (lit "users") (of_int (local_user_count c io)) else mret obj);
      obj ← set_element obj (lit "remotes") index2 obj2;
      proxies_loop c io clock w (S index2) eps' obj
  end.

(** [BaseClient::save_json_status] *)
Definition client_save_json_status (io : client_io) (clock : nat -> Z * Z) (w : world)
    (c : BaseClient) : out J :=
  obj ← assign undefined
    [(lit "id", of_int (m_id c)); (lit "active", of_bool (m_active c));
     (lit "port", of_string (local_portname c))];
  obj ← set_nested obj (lit "activate") (lit "port") (of_int (BaseClient.m_activate_port c));
  obj ← assign obj
    [(lit "connected_local", of_bool (is_local_connected c io));
     (lit "log", of_string (BaseClient.m_log c))];
  obj ← hostnames_loop 0 (local_hostnames c io) obj;
  proxies_loop c io clock w 0 (m_proxy_endpoints c) obj.

(** [BaseClient::save_json_config] *)
Definition client_save_json_config (c : BaseClient) : out J :=
  host ← remote_hostname c;
  port ← remote_port c;
  assign undefined
    [(lit "id", of_int (m_id c)); (lit "active", of_bool (m_active c));
     (lit "local_port", of_string (local_portname c)); (lit "remote_hostname", of_string host);
     (lit "remote_port", of_int port);
     (lit "max_connections", of_int (m_max_connections c))].

(** ** The program *)

(** [proxy_global::save_json_status], before it is printed.  The [int]s of the
    answers come from the arguments of each host and client. *)
Definition status_value (status_of : RemoteProxyClient -> session_status)
    (clock : nat -> nat -> Z * Z) (io_of : BaseClient -> client_io) (version : list ascii)
    (g : proxy_global) : st world J :=
  glob ← save_each (fun index1 c w => (w, client_save_json_status (io_of c) (clock index1) w c))
           (lit "clients") 0 (localclients g) undefined;
  glob ← save_each (fun index h => host_save_json_status status_of (clock index) h)
           (lit "hosts") 0 (remotehosts g) glob;
  config_obj ← lift (assign undefined [(lit "name", of_string (m_name g))]);
  lift (assign glob [(lit "global", config_obj); (lit "version", of_string version)]).

(** [proxy_global::save_json_config], before it is printed.  [m_ip4_mask] keeps
    its initial value. *)
Definition config_value {T} (ip4_mask : list ascii) (g : proxy_global) : st T J :=
  glob ← save_each (fun _ c => lift (client_save_json_config c)) (lit "clients") 0
           (localclients g) undefined;
  glob ← save_each (fun _ h => host_save_json_config h) (lit "hosts") 0 (remotehosts g) glob;
  web_obj ← lift (assign undefined
    [(lit "port", of_int (m_web_port g)); (lit "ip4", of_string ip4_mask)]);
  glob ← lift (set glob (lit "web") web_obj);
  config_obj ← lift (assign undefined
    [(lit "debug", of_bool (m_debug g)); (lit "name", of_string (m_name g))]);
  lift (set glob (lit "global") config_obj).

Definition save_json_status (save : J -> out (list ascii))
    (status_of : RemoteProxyClient -> session_status) (clock : nat -> nat -> Z * Z)
    (io_of : BaseClient -> client_io) (version : list ascii) (g : proxy_global)
    : st world (list ascii) :=
  glob ← status_value status_of clock io_of version g;
  lift (save glob).

Definition save_json_config {T} (save : J -> out (list ascii)) (ip4_mask : list ascii)
    (g : proxy_global) : st T (list ascii) :=
  glob ← config_value ip4_mask g;
  lift (save glob).

End output.

(** ** Lemmas: writing *)

(** What a sequence of assignments leaves in a member. *)
Fixpoint assigned {J} (members : list (list ascii * J)) (k : list ascii) : option J :=
  match members with
  | [] => None
  | (name, value) :: members' =>
      match assigned members' k with
      | Some v => Some v
      | None => if string_eqb k name then Some value else None
      end
  end.

(** The names of a sequence of assignments are literals without a dot. *)
Ltac simples :=
  repeat first [apply List.Forall_nil | apply List.Forall_cons; [apply is_simple; reflexivity|]].

Section lemmas.
Context `{JsonLaws J}.
Implicit Types (o v : J) (l vs : list J).

Lemma set_find o k v :
  can_set o -> simple k -> exists o', set o k v = Ok o' /\ type o' = is_object /\
    forall k', simple k' -> find o' k' = if string_eqb k' k then v else find o k'.
Proof.
  intros Ho Hk. destruct (set_Ok o k v Ho Hk) as (o' & E & Ht & Hf & Hr).
  exists o'. split; [done|]. split; [done|]. intros k' Hk'.
  destruct (string_eqb k' k) eqn:Ek; [apply string_eqb_eq in Ek as ->; done|].
  apply Hr; [done|]. intros ->. by rewrite string_eqb_refl in Ek.
Qed.

Lemma assign_Ok o members :
  can_set o -> Forall (fun m => simple (fst m)) members ->
  exists o', assign o members = Ok o' /\ can_set o' /\
    (type o = is_object \/ members <> [] -> type o' = is_object) /\
    forall k, simple k ->
      find o' k = match assigned members k with Some v => v | None => find o k end.
Proof.
  intros Ho Hm. revert o Ho. induction Hm as [|[name v] members Hn _ IH]; intros o Ho.
  - exists o. split; [done|]. split; [done|]. split; [naive_solver|done].
  - destruct (set_find o name v Ho Hn) as (o1 & E1 & T1 & F1).
    destruct (IH o1) as (o2 & E2 & C2 & T2 & F2); [by left|].
    exists o2. cbn [assign]. rewrite E1, bind_Ok. split; [done|]. split; [done|].
    split; [auto|]. intros k Hk. cbn [assigned]. rewrite F2, F1 by done.
    destruct (assigned members k); [done|]. by destruct (string_eqb k name).
Qed.

(** The array in a member, which is not there while it is empty. *)
Definition elements o k l : Prop :=
  find o k = of_array l \/ l = [] /\ type (find o k) = is_undefined.

Lemma set_element_Ok o k l n v :
  can_set o -> simple k -> elements o k l ->
  exists o', set_element o k n v = Ok o' /\ type o' = is_object /\
    find o' k = of_array (assign_at undefined l n v) /\
    forall k', simple k' -> k' <> k -> find o' k' = find o k'.
Proof.
  intros Ho Hk Hl. unfold set_element.
  destruct (member_Ok o k Ho Hk) as (o1 & -> & T1 & F1). rewrite bind_Ok.
  assert (set_at (find o k) n v = Ok (of_array (assign_at undefined l n v))) as ->.
  { destruct Hl as [->|[-> Hu]]; [apply set_at_array|by apply set_at_undefined]. }
  rewrite bind_Ok. destruct (set_Ok o1 k (of_array (assign_at undefined l n v)))
    as (o2 & -> & T2 & F2 & R2); [by left|done|].
  exists o2. split; [done|]. split; [done|]. split; [done|].
  intros k' Hk' Hne. rewrite R2 by done. by apply F1.
Qed.

Lemma assign_at_end {A} (e : A) (l : list A) (v : A) : assign_at e l (length l) v = l ++ [v].
Proof. unfold assign_at. by rewrite Nat.ltb_irrefl, Nat.sub_diag. Qed.

(** A loop whose elements can all be saved appends them in order.  [I] holds of
    the state at each index, [P] of each value. *)
Lemma save_each_Ok {T E} (I : nat -> T -> Prop) (P : nat -> E -> J -> Prop)
    (value : nat -> E -> st T J) name (es : list E) :
  simple name ->
  forall index o old s,
  (forall i e s, e ∈ es -> I i s ->
     exists s' v, value i e s = (s', Ok v) /\ I (S i) s' /\ P i e v) ->
  I index s -> can_set o -> elements o name old -> length old = index ->
  exists s' o' vs, save_each value name index es o s = (s', Ok o') /\
    I (index + length es)%nat s' /\ length vs = length es /\
    (forall k e v, es !! k = Some e -> vs !! k = Some v -> P (index + k)%nat e v) /\
    can_set o' /\ (type o = is_object \/ es <> [] -> type o' = is_object) /\
    elements o' name (old ++ vs) /\
    forall k', simple k' -> k' <> name -> find o' k' = find o k'.
Proof.
  intros Hn. induction es as [|e es IH]; intros index o old s Hv HI Ho Hel Hlen.
  - exists s, o, []. rewrite app_nil_r, Nat.add_0_r. split_and!; try done. naive_solver.
  - destruct (Hv index e s) as (s1 & v & E1 & HI1 & HP1); [set_solver|done|].
    destruct (set_element_Ok o name old index v Ho Hn Hel) as (o1 & E2 & T2 & F2 & R2).
    subst index. rewrite assign_at_end in F2.
    destruct (IH (S (length old)) o1 (old ++ [v]) s1)
      as (s2 & o2 & vs & E3 & HI3 & L3 & P3 & C3 & T3 & F3 & R3).
    { intros. apply Hv; [set_solver|done]. }
    { done. } { by left. } { by left. } { rewrite length_app. cbn. lia. }
    exists s2, o2, (v :: vs). split.
    { cbn [save_each]. rewrite (st_bind_Ok _ _ s s1 v) by done. by rewrite E2, st_bind_lift. }
    split; [by rewrite Nat.add_succ_comm in HI3|].
    split; [cbn; by rewrite L3|]. split.
    { intros [|k] e' v'; cbn [lookup list_lookup].
      - intros [= <-] [= <-]. by rewrite Nat.add_0_r.
      - intros He Hv'. rewrite <- Nat.add_succ_comm. by apply P3. }
    split; [done|]. split; [auto|]. split; [by rewrite <- app_assoc in F3|].
    intros k' Hk' Hne. rewrite R3 by done. by apply R2.
Qed.

End lemmas.

(** ** Lemmas: a host's configuration *)

(** A host [populate_json] makes: its port and those of its local endpoints are
    there, and its remotes have names. *)
Record host_ok (h : RemoteProxyHost) : Prop := {
  ok_port : 0 < h_local_port h < 2 ^ 16;
  ok_locals : Forall (fun ep => 0 < l_port ep < 2 ^ 16) (h_local_ep h) /\ h_local_ep h <> [];
  ok_remotes : Forall (fun ep => r_name ep <> []) (h_remote_ep h) /\ h_remote_ep h <> [] }.

(** The port of a remote is not saved; it does not count for equality. *)
Definition without_port (ep : RemoteEndpoint) : RemoteEndpoint :=
  {| r_port := 0; r_name := r_name ep; r_hostname := r_hostname ep;
     r_username := r_username ep; r_password := r_password ep |}.

Section host_config.
Context `{JsonLaws J}.
Implicit Types (o v : J) (l vs : list J) (h : RemoteProxyHost).

Lemma local_config_Ok {T} i ep (s : T) :
  0 < l_port ep < 2 ^ 16 ->
  exists v, local_config i ep s = (s, Ok v) /\
    LocalEndpoint_load v new_LocalEndpoint = Ok (true, ep).
Proof.
  intros Hp. unfold local_config.
  destruct (assign_Ok (undefined : J) [(lit "hostname", of_string (l_hostname ep));
      (lit "port", of_int (l_port ep))]) as (v & -> & _ & Ht & Hf);
    [auto with uniproxy|simples|].
  exists v. split; [done|]. unfold LocalEndpoint_load.
  rewrite bool_decide_true by (apply Ht; by right).
  rewrite (check_port_found v (lit "port") (l_port ep)); [|auto with uniproxy| |].
  - rewrite bind_Ok. rewrite (check_string_found v (lit "hostname") (l_hostname ep));
      [|auto with uniproxy|by rewrite Hf by auto with uniproxy].
    rewrite bind_Ok, wrap_small by (unfold in_uint; lia).
    rewrite Z.gtb_ltb. zcase; [|lia]. by destruct ep.
  - by rewrite Hf by auto with uniproxy.
  - unfold in_sint. lia.
Qed.

Lemma remote_config_Ok {T} i ep (s : T) :
  r_name ep <> [] ->
  exists v, remote_config i ep s = (s, Ok v) /\
    RemoteEndpoint_load v new_RemoteEndpoint = Ok (true, without_port ep).
Proof.
  intros Hn. unfold remote_config.
  destruct (assign_Ok (undefined : J) [(lit "name", of_string (r_name ep));
      (lit "hostname", of_string (r_hostname ep)); (lit "username", of_string (r_username ep));
      (lit "password", of_string (r_password ep))]) as (v & -> & _ & Ht & Hf);
    [auto with uniproxy|simples|].
  exists v. split; [done|]. unfold RemoteEndpoint_load.
  rewrite bool_decide_true by (apply Ht; by right).
  rewrite check_port_absent; [|auto with uniproxy|].
  - rewrite bind_Ok. cbn [new_RemoteEndpoint r_hostname r_name r_username r_password r_port].
    rewrite (check_string_found v (lit "hostname") (r_hostname ep)), bind_Ok,
      (check_string_found v (lit "name") (r_name ep)), bind_Ok,
      (check_string_found v (lit "username") (r_username ep)), bind_Ok,
      (check_string_found v (lit "password") (r_password ep)), bind_Ok
      by (auto with uniproxy || by rewrite Hf by auto with uniproxy).
    by rewrite bool_decide_true.
  - rewrite Hf by auto with uniproxy. apply find_undefined.
Qed.

(** What a saved host holds. *)
Record host_saved h o : Prop := {
  saved_port : find o (lit "port") = of_int (h_local_port h);
  saved_type : find o (lit "type") = of_string (h_type h);
  saved_object : type o = is_object;
  saved_locals : exists vs, elements o (lit "locals") vs /\
    Forall2 (fun ep v => LocalEndpoint_load v new_LocalEndpoint = Ok (true, ep)) (h_local_ep h) vs;
  saved_remotes : exists vs, elements o (lit "remotes") vs /\
    Forall2 (fun ep v => RemoteEndpoint_load v new_RemoteEndpoint = Ok (true, without_port ep))
      (h_remote_ep h) vs }.

Lemma host_config_saved {T} h (s : T) :
  host_ok h -> exists o, host_save_json_config h s = (s, Ok o) /\ host_saved h o.
Proof.
  intros [Hp [Hl _] [Hr _]]. unfold host_save_json_config.
  destruct (assign_Ok (undefined : J) (host_members h)) as (o1 & -> & C1 & T1 & F1);
    [auto with uniproxy|simples|].
  rewrite st_bind_lift.
  destruct (save_each_Ok (fun _ s' => s' = s)
              (fun _ ep v => LocalEndpoint_load v new_LocalEndpoint = Ok (true, ep))
              local_config (lit "locals") (h_local_ep h) ltac:(auto with uniproxy) 0%nat o1 [] s)
    as (s' & o2 & vs & E2 & -> & L2 & P2 & C2 & T2 & M2 & R2); try done.
  { intros i ep s' Hep ->. rewrite List.Forall_forall in Hl.
    destruct (local_config_Ok i ep s) as (v & Ev & Lv); [by apply Hl, list_elem_of_In|].
    by exists s, v. }
  { right. split; [done|]. rewrite F1 by auto with uniproxy. apply find_undefined. }
  rewrite (st_bind_Ok _ _ s s o2) by done.
  destruct (save_each_Ok (fun _ s' => s' = s)
              (fun _ ep v => RemoteEndpoint_load v new_RemoteEndpoint = Ok (true, without_port ep))
              remote_config (lit "remotes") (h_remote_ep h) ltac:(auto with uniproxy) 0%nat o2 [] s)
    as (s' & o3 & ws & E3 & -> & L3 & P3 & C3 & T3 & M3 & R3); try done.
  { intros i ep s' Hep ->. rewrite List.Forall_forall in Hr.
    destruct (remote_config_Ok i ep s) as (v & Ev & Lv); [by apply Hr, list_elem_of_In|].
    by exists s, v. }
  { right. split; [done|]. rewrite R2, F1 by auto with uniproxy. apply find_undefined. }
  exists o3. split; [done|]. split.
  - by rewrite R3, R2, F1 by auto with uniproxy.
  - by rewrite R3, R2, F1 by auto with uniproxy.
  - apply T3. left. apply T2. left. apply T1. by right.
  - exists vs. split.
    + unfold elements in *. by rewrite R3 by auto with uniproxy.
    + apply Forall2_same_length_lookup_2; [done|]. intros k ep v. apply (P2 k).
  - exists ws. split; [done|]. apply Forall2_same_length_lookup_2; [done|].
    intros k ep v. apply (P3 k).
Qed.

End host_config.

Section reading_back.
Context `{JsonLaws J}.
Implicit Types (o v : J) (l vs : list J) (h : RemoteProxyHost).

Lemma check_int_default_found o k n d r :
  simple k -> find o k = of_int n -> in_sint 32 n -> check_int_default o k d r = Ok n.
Proof.
  intros Hk Hf Hn. unfold check_int_default.
  by rewrite simple_length, Hf, type_of_int, get_int_of_int by done.
Qed.

Lemma check_string_default_found o k s d r :
  simple k -> find o k = of_string s -> check_string_default o k d r = Ok s.
Proof.
  intros Hk Hf. unfold check_string_default.
  by rewrite simple_length, Hf, type_of_string, get_string_of_string by done.
Qed.

Lemma elements_array o k vs : elements o k vs -> vs <> [] -> find o k = of_array vs.
Proof. intros [?|[? _]]; [done|congruence]. Qed.

Lemma added_loop_spec (l : list RemoteEndpoint) vs eps acc :
  loads vs eps ->
  added_loop l vs acc = Ok (acc ++ List.filter (fun ep => negb (among l ep)) eps).
Proof.
  intros Hl. revert acc. induction Hl as [|v ep vs eps El _ IH]; intros acc;
    cbn [added_loop List.filter].
  - by rewrite app_nil_r.
  - rewrite El, bind_Ok. cbn [ASSERTD]. rewrite bind_Ok, IH. fold (among l ep).
    destruct (among l ep); [done|]. cbn [negb]. by rewrite <- app_assoc.
Qed.

Lemma locals_loop_same vs eps changed :
  Forall2 (fun ep v => LocalEndpoint_load v new_LocalEndpoint = Ok (true, ep)) eps vs ->
  locals_loop vs eps changed = Ok changed.
Proof.
  induction 1 as [|ep v eps vs El _ IH]; [done|]. cbn [locals_loop].
  rewrite El, bind_Ok, (proj2 (LocalEndpoint_eqb_spec ep ep)) by done. exact IH.
Qed.

Lemma filter_none {A} (p : A -> bool) (l : list A) :
  Forall (fun x => p x = true) l -> List.filter (fun x => negb (p x)) l = [].
Proof. induction 1 as [|x l Hx _ IH]; [done|]. cbn. by rewrite Hx. Qed.

Lemma without_port_equiv ep : RemoteEndpoint_equiv (without_port ep) ep.
Proof. by apply RemoteEndpoint_eqb_spec. Qed.

Lemma loads_saved eps vs :
  Forall2 (fun ep v => RemoteEndpoint_load v new_RemoteEndpoint = Ok (true, without_port ep))
    eps vs -> loads vs (map without_port eps).
Proof. unfold loads. induction 1; cbn; by constructor. Qed.

Lemma among_map_without_port (l : list RemoteEndpoint) ep :
  among (map without_port l) ep = among l ep.
Proof.
  unfold among. induction l as [|e l IH]; [done|]. cbn [map existsb]. rewrite IH. f_equal.
Qed.

Lemma all_among (l : list RemoteEndpoint) : Forall (fun ep => among l ep = true) l.
Proof.
  apply List.Forall_forall. intros ep Hin. apply among_spec. exists ep.
  split; [by apply list_elem_of_In|apply eqb_refl].
Qed.

Lemma all_among_map (l : list RemoteEndpoint) :
  Forall (fun ep => among l ep = true) (map without_port l).
Proof.
  apply Forall_map. eapply Forall_impl; [|apply (all_among l)].
  intros ep E. by rewrite (among_equiv l _ _ (without_port_equiv ep)).
Qed.

Definition no_difference : difference :=
  {| param_changed := false; locals_changed := false; rem_added := []; rem_removed := [] |}.

(** A host is the same as what was saved of it. *)
Lemma is_same_saved h o : host_ok h -> host_saved h o -> is_same h o = Ok (Some no_difference).
Proof.
  intros [Hp [_ Hl] [_ Hr]] [Ep Et _ (ls & Ml & Fl) (rs & Mr & Fr)]. unfold is_same.
  rewrite (check_port_found o (lit "port") (h_local_port h));
    [|auto with uniproxy|done|unfold in_sint; lia].
  rewrite bind_Ok, wrap_small, Z.eqb_refl by (unfold in_uint; lia). cbn [negb].
  rewrite Z.gtb_ltb. zcase; [|lia].
  assert (rs <> []) as Hrs by (intros ->; by inversion Fr; congruence).
  assert (ls <> []) as Hls by (intros ->; by inversion Fl; congruence).
  rewrite (elements_array _ _ _ Mr Hrs), type_of_array, (bool_decide_true (is_array = is_array)) by done.
  cbn [ASSERTD]. rewrite bind_Ok, array_of_array, bind_Ok.
  pose proof (loads_saved _ _ Fr) as Hloads.
  rewrite (added_loop_spec _ _ _ _ Hloads), bind_Ok, (removed_loop_spec _ _ _ _ Hloads), bind_Ok.
  rewrite (filter_none (among (h_remote_ep h)) (map _ _)) by apply all_among_map.
  rewrite (filter_none (among (map without_port (h_remote_ep h)))).
  2:{ eapply Forall_impl; [|apply (all_among (h_remote_ep h))]. intros ep E.
      by rewrite among_map_without_port. }
  rewrite (elements_array _ _ _ Ml Hls), type_of_array, (bool_decide_true (is_array = is_array)) by done.
  rewrite array_of_array, bind_Ok. unfold zlen. rewrite <- (Forall2_length Fl), Z.eqb_refl.
  rewrite locals_loop_same, bind_Ok by done.
  rewrite (check_string_default_found o (lit "type") (h_type h)), bind_Ok
    by (done || auto with uniproxy).
  by rewrite string_eqb_refl.
Qed.

Lemma load_each_all {E} (load : J -> E -> out (bool * E)) new vs es :
  Forall2 (fun e v => load v new = Ok (true, e)) es vs -> load_each load new vs = Ok es.
Proof.
  induction 1 as [|e v es vs El _ IH]; [done|]. cbn [load_each]. by rewrite El, bind_Ok, IH.
Qed.

Lemma load_member_all {E} (load : J -> E -> out (bool * E)) new o name vs es :
  type o = is_object -> simple name -> elements o name vs -> es <> [] ->
  Forall2 (fun e v => load v new = Ok (true, e)) es vs ->
  exists o', load_member load new o name = Ok (es, o') /\ type o' = is_object /\
    forall k, simple k -> find o' k = find o k.
Proof.
  intros Ho Hn Hm Hne Hall. unfold load_member.
  destruct (member_Ok o name) as (o' & -> & T & F); [by left|done|]. rewrite bind_Ok.
  assert (vs <> []) as Hvs by (intros ->; by inversion Hall; congruence).
  rewrite (elements_array _ _ _ Hm Hvs), type_of_array, (bool_decide_true (is_array = is_array)) by done.
  rewrite array_of_array, bind_Ok, (load_each_all _ _ _ es), bind_Ok by done.
  by exists o'.
Qed.

(** The host a saved host is read back as: another host of the same
    configuration. *)
Lemma make_host_saved plugins h o counter :
  host_ok h -> host_saved h o -> find_plugin plugins (h_type h) = h_type h ->
  make_host plugins o counter =
  Ok (let '(host, counter) := new_RemoteProxyHost (h_local_port h)
                                (map without_port (h_remote_ep h)) (h_local_ep h) (h_type h) counter in
      (Some host, counter)).
Proof.
  intros [Hp [_ Hl] [_ Hr]] [Ep Et To (ls & Ml & Fl) (rs & Mr & Fr)] Hpl. unfold make_host.
  rewrite (check_int_default_found o (lit "port") (h_local_port h)), bind_Ok, wrap_small
    by (done || auto with uniproxy || (unfold in_sint, in_uint; lia)).
  destruct (load_member_all LocalEndpoint_load new_LocalEndpoint o (lit "locals") ls (h_local_ep h))
    as (o1 & -> & T1 & F1); [done|auto with uniproxy|done..|]. rewrite bind_Ok.
  destruct (load_member_all RemoteEndpoint_load new_RemoteEndpoint o1 (lit "remotes") rs
              (map without_port (h_remote_ep h))) as (o2 & -> & T2 & F2);
    [done|auto with uniproxy|by unfold elements in *; rewrite F1 by auto with uniproxy
    |by destruct (h_remote_ep h)|clear -Fr; induction Fr; cbn; by constructor|].
  rewrite bind_Ok, (check_string_default_found o2 (lit "type") (h_type h)), bind_Ok;
    [|auto with uniproxy|by rewrite F2, F1 by auto with uniproxy].
  rewrite Hpl. by destruct (h_remote_ep h), (h_local_ep h).
Qed.

End reading_back.

(** ** Lemmas: the hosts of a reload *)

Section reload_saved.
Context `{JsonLaws J}.
Implicit Types (o v glob : J) (l vs items : list J) (h : RemoteProxyHost).

(** [items] are the hosts' saved configurations. *)
Definition hosts_saved (hosts : list RemoteProxyHost) items : Prop :=
  Forall2 (fun h item => host_ok h /\ host_saved h item) hosts items.

Definition ports_differ (hosts : list RemoteProxyHost) : Prop := NoDup (map h_local_port hosts).

Lemma is_same_saved_other h h' item :
  host_ok h' -> host_saved h' item -> h_local_port h <> h_local_port h' ->
  is_same h item = Ok None.
Proof.
  intros [Hp _ _] [Ep _ _ _ _] Hne.
  apply (is_same_other_port h item true (h_local_port h')); [|congruence].
  rewrite (check_port_found item (lit "port") (h_local_port h'));
    [|auto with uniproxy|done|unfold in_sint; lia].
  by rewrite wrap_small by (unfold in_uint; lia).
Qed.

Lemma update_hosts_found item hosts :
  Forall (fun h => is_same h item = Ok (Some no_difference) \/ is_same h item = Ok None) hosts ->
  exists found, update_hosts item hosts = (hosts, Ok found) /\
    (Exists (fun h => is_same h item = Ok (Some no_difference)) hosts -> found = true).
Proof.
  induction 1 as [|h hosts Hh _ (found & IH & Hf)]; cbn [update_hosts].
  - exists false. split; [done|]. intros E. by inversion E.
  - destruct Hh as [Hh|Hh]; rewrite Hh, IH.
    + exists true. split; [|done]. by destruct h.
    + exists found. split; [done|]. intros E. apply Hf. inversion E; subst; [congruence|done].
Qed.

(** How the hosts see the item of one of them. *)
Lemma hosts_saved_item hosts items :
  ports_differ hosts -> hosts_saved hosts items ->
  forall k h item, hosts !! k = Some h -> items !! k = Some item ->
  is_same h item = Ok (Some no_difference) /\
  forall k' h', hosts !! k' = Some h' -> k' <> k -> is_same h' item = Ok None.
Proof.
  intros Hd Hs k h item Hk Hi.
  destruct (Forall2_lookup_lr _ _ _ _ _ _ Hs Hk Hi) as [Hok Hsv].
  split; [by apply is_same_saved|]. intros k' h' Hk' Hne.
  apply (is_same_saved_other h' h); [done..|]. intros Ep. apply Hne.
  apply (list.NoDup_lookup (h_local_port <$> hosts) k' k (h_local_port h) Hd);
    rewrite list_lookup_fmap; [by rewrite Hk'; cbn; rewrite Ep|by rewrite Hk].
Qed.

Lemma update_hosts_saved hosts items item :
  ports_differ hosts -> hosts_saved hosts items -> item ∈ items ->
  update_hosts item hosts = (hosts, Ok true).
Proof.
  intros Hd Hs [k Hk]%list_elem_of_lookup.
  destruct (Forall2_lookup_r _ _ _ _ _ Hs Hk) as (h & Hh & _).
  destruct (hosts_saved_item _ _ Hd Hs k h item Hh Hk) as [E1 E2].
  destruct (update_hosts_found item hosts) as (found & -> & Hf).
  - apply Forall_lookup. intros k' h' Hk'. destruct (decide (k' = k)) as [->|Hne].
    + left. congruence.
    + right. by apply (E2 k').
  - rewrite Hf; [done|]. apply List.Exists_exists. exists h.
    split; [by apply list_elem_of_In, list_elem_of_lookup_2 with k|done].
Qed.

Lemma populate_hosts_saved plugins hosts items rest g :
  remotehosts g = hosts -> ports_differ hosts -> hosts_saved hosts items -> rest ⊆ items ->
  populate_hosts plugins rest g = (g, Ok tt).
Proof.
  intros Hg Hd Hs. induction rest as [|item rest IH]; intros Hin; [done|].
  cbn [populate_hosts].
  assert (on_hosts (update_hosts item) g = (g, Ok true)) as E.
  { unfold on_hosts. rewrite Hg, (update_hosts_saved hosts items) by (done || set_solver).
    rewrite <- Hg. by destruct g. }
  rewrite (st_bind_Ok _ _ g g true) by done. apply IH. set_solver.
Qed.

Lemma keep_loop_app h pre post keep removed :
  keep_loop h (pre ++ post) keep removed =
  ('(keep, removed) ← keep_loop h pre keep removed; keep_loop h post keep removed).
Proof.
  revert keep removed. induction pre as [|item pre IH]; intros keep removed; [done|].
  cbn [app keep_loop]. destruct (is_same h item) as [[d|]|e|]; try done; rewrite !bind_Ok; apply IH.
Qed.

Lemma keep_loop_saved hosts items h :
  ports_differ hosts -> hosts_saved hosts items -> h ∈ hosts ->
  keep_loop h items false [] = Ok (true, []).
Proof.
  intros Hd Hs [k Hk]%list_elem_of_lookup.
  destruct (Forall2_lookup_l _ _ _ _ _ Hs Hk) as (item & Hi & _).
  destruct (hosts_saved_item _ _ Hd Hs k h item Hk Hi) as [E1 _].
  assert (forall k' item', items !! k' = Some item' -> k' <> k -> is_same h item' = Ok None) as E2.
  { intros k' item' Hi' Hne.
    destruct (Forall2_lookup_r _ _ _ _ _ Hs Hi') as (h' & Hh' & _).
    apply (proj2 (hosts_saved_item _ _ Hd Hs k' h' item' Hh' Hi') k h Hk). congruence. }
  rewrite <- (take_drop_middle items k item Hi), keep_loop_app.
  rewrite (keep_loop_other h (take k items)), bind_Ok.
  - cbn [keep_loop]. rewrite E1, bind_Ok. cbn [no_difference param_changed locals_changed rem_removed].
    rewrite keep_loop_other; [done|]. apply Forall_lookup. intros j x Hx. rewrite lookup_drop in Hx.
    apply (E2 _ _ Hx). lia.
  - apply Forall_lookup. intros j x Hx. apply lookup_take_Some in Hx as [Hx Hj].
    apply (E2 _ _ Hx). lia.
Qed.

(** Two objects with the same members. *)
Definition same_members o o' : Prop :=
  type o' = is_object /\ forall k, simple k -> find o' k = find o k.

Lemma same_members_trans o1 o2 o3 : same_members o1 o2 -> same_members o2 o3 -> same_members o1 o3.
Proof. intros [? E1] [? E2]. split; [done|]. intros k Hk. by rewrite E2, E1. Qed.

Lemma member_same o o0 k :
  same_members o0 o -> simple k -> exists o', member o k = Ok (find o0 k, o') /\ same_members o0 o'.
Proof.
  intros [T E] Hk. destruct (member_Ok o k) as (o' & -> & T' & E'); [by left|done|].
  exists o'. rewrite E by done. split; [done|]. split; [done|]. intros k' Hk'. by rewrite E', E.
Qed.

Lemma keep_clients_none cs : keep_clients [] cs = cs.
Proof. induction cs as [|c cs IH]; [done|]. cbn. by rewrite IH. Qed.

Lemma remove_any_none h : snd (remove_any [] h) = h.
Proof. cbn. rewrite keep_clients_none. by destruct h. Qed.

Lemma unpopulate_hosts_saved glob0 glob hosts items all :
  same_members glob0 glob -> elements glob0 (lit "hosts") items ->
  ports_differ all -> hosts_saved all items -> hosts ⊆ all ->
  unpopulate_hosts glob hosts = (hosts, Ok tt).
Proof.
  intros Hg Hel Hd Hs. revert glob Hg. induction hosts as [|h hosts IH]; intros glob Hg Hin; [done|].
  cbn [unpopulate_hosts]. unfold keep_host.
  destruct (member_same glob glob0 (lit "hosts") Hg) as (o' & -> & Hg'); [auto with uniproxy|].
  rewrite bind_Ok.
  assert (items <> []) as Hne.
  { intros ->. inversion Hs; subst. set_solver. }
  rewrite (elements_array _ _ _ Hel Hne), type_of_array, (bool_decide_true (is_array = is_array)) by done.
  rewrite array_of_array, bind_Ok, (keep_loop_saved all) by (done || set_solver).
  rewrite bind_Ok. cbn [mret out_ret]. rewrite IH by (done || set_solver).
  by rewrite remove_any_none.
Qed.

Lemma unpopulate_clients_all glob0 glob clients :
  same_members glob0 glob ->
  (type (find glob0 (lit "clients")) = is_array ->
   exists items, array (find glob0 (lit "clients")) = Ok items) ->

  exists glob', unpopulate_clients glob clients = ([], Ok glob') /\ same_members glob0 glob'.
Proof.
  intros Hg Ha. revert glob Hg. induction clients as [|c clients IH]; intros glob Hg.
  - by exists glob.
  - cbn [unpopulate_clients]. unfold keep_client.
    destruct (member_same glob glob0 (lit "clients") Hg) as (o' & -> & Hg'); [auto with uniproxy|].
    rewrite bind_Ok. destruct (IH o' Hg') as (glob' & E & Hg2). exists glob'. split; [|done].
    case_bool_decide as Ht.
    + destruct (Ha Ht) as (items & ->). rewrite bind_Ok. cbn [mret out_ret]. rewrite E.
      assert (foldl (fun (keep : bool) (item : J) =>
                let '(same, param, connections) := is_same_client c item in
                if same : bool then negb (param || connections) else keep) false items = false) as ->;
        [|done].
      clear. induction items as [|i items IH]; [done|]. apply IH.
    + cbn [mret out_ret]. by rewrite E.
Qed.

End reload_saved.

(** ** Lemmas: a client's configuration *)

(** A client whose current proxy is among its proxies. *)
Definition client_ok (c : BaseClient) : Prop :=
  0 <= m_proxy_index c < zlen (m_proxy_endpoints c) /\ in_sint 32 (m_max_connections c).

Section client_config.
Context `{JsonLaws J}.
Context (parse_duration : list ascii -> Z -> Z).
Implicit Types (o v item : J).

(** What a reader of clients finds in a saved client. *)
Record client_saved item : Prop := {
  item_object : type item = is_object;
  item_active : exists b, find item (lit "active") = of_bool b;
  item_max : exists n, in_sint 32 n /\ find item (lit "max_connections") = of_int n;
  item_absent : Forall (fun k => simple k /\ type (find item k) = is_undefined)
    [lit "provider"; lit "port"; lit "activate"; lit "read_timeout"; lit "auto_reconnect";
     lit "remotes"] }.

Lemma client_config_saved {T} c (s : T) :
  client_ok c ->
  exists item, (lift (client_save_json_config c) : st T J) s = (s, Ok item) /\ client_saved item.
Proof.
  intros [Hi Hm]. unfold client_save_json_config, remote_hostname, remote_port.
  destruct (rd_in _ _ Hi) as (ep & ->). rewrite !bind_Ok.
  match goal with |- context [assign undefined ?ms] =>
    destruct (assign_Ok (undefined : J) ms) as (item & -> & _ & Ht & Hf);
      [auto with uniproxy|simples|] end.
  exists item. split; [done|]. split.
  - apply Ht. by right.
  - exists (m_active c). by rewrite Hf by auto with uniproxy.
  - exists (m_max_connections c). by rewrite Hf by auto with uniproxy.
  - repeat (apply List.Forall_cons; [split; [auto with uniproxy|
      rewrite Hf by auto with uniproxy; apply find_undefined]|]). apply List.Forall_nil.
Qed.

(** The readers on a member that is not there. *)
Lemma check_int_default_absent o k d r :
  simple k -> type (find o k) = is_undefined -> check_int_default o k d r = Ok d.
Proof. intros Hk Hf. unfold check_int_default. by rewrite simple_length, Hf by done. Qed.

Lemma check_bool_default_absent o k d :
  simple k -> type (find o k) = is_undefined -> check_bool_default o k d false = Ok d.
Proof. intros Hk Hf. unfold check_bool_default. by rewrite simple_length, Hf by done. Qed.

Lemma check_bool_absent o k r :
  simple k -> type (find o k) = is_undefined -> check_bool o k r = Ok (false, r).
Proof. intros Hk Hf. unfold check_bool. by rewrite simple_length, Hf by done. Qed.

Lemma check_bool_default_found o k b d :
  simple k -> find o k = of_bool b -> check_bool_default o k d false = Ok b.
Proof.
  intros Hk Hf. unfold check_bool_default.
  by rewrite simple_length, Hf, type_of_bool, get_bool_of_bool by done.
Qed.

Lemma load_member_absent {E} (load : J -> E -> out (bool * E)) new o name :
  can_set o -> simple name -> type (find o name) = is_undefined ->
  exists o', load_member load new o name = Ok ([], o').
Proof.
  intros Ho Hn Hu. unfold load_member.
  destruct (member_Ok o name Ho Hn) as (o' & -> & _). rewrite bind_Ok, Hu. by exists o'.
Qed.

(** A saved client is not read back: the reader finds neither port nor
    proxies. *)
Lemma make_client_saved item now counter :
  client_saved item -> make_client parse_duration item now counter [] = Ok (None, counter).
Proof.
  intros [Ht (b & Hb) (n & Hn & Hm) Ha].
  rewrite !Forall_cons_iff in Ha.
  destruct Ha as ((S1 & A1) & (S2 & A2) & (S3 & A3) & (S4 & A4) & (S5 & A5) & (S6 & A6) & _).
  unfold make_client. rewrite (check_bool_default_found item (lit "active") b), bind_Ok
    by (done || auto with uniproxy).
  rewrite (check_bool_default_absent item (lit "provider")), bind_Ok by done.
  rewrite (check_int_default_absent item (lit "port")), bind_Ok by done.
  replace (check_int_default item (lit "activate.port") 25500 false) with (Ok 25500).
  2:{ unfold check_int_default. change (lit "activate.port") with (lit "activate" ++ chr 46 :: lit "port").
      rewrite find_path_Ok by (auto with uniproxy || by left).
      by rewrite (find_absent (find item (lit "activate"))). }
  rewrite bind_Ok. cbn [existsb]. cbv iota.
  rewrite check_string_absent, bind_Ok by done. cbn [andb].
  rewrite check_bool_absent, bind_Ok by done.
  rewrite (check_int_default_found item (lit "max_connections") n), bind_Ok
    by (done || auto with uniproxy).
  destruct (load_member_absent RemoteEndpoint_load new_RemoteEndpoint item (lit "remotes"))
    as (o' & ->); [by left|done|done|]. rewrite bind_Ok.
  by rewrite andb_false_r.
Qed.

Lemma populate_clients_saved items now g :
  localclients g = [] -> Forall client_saved items ->
  populate_clients parse_duration items now g = (g, Ok tt).
Proof.
  intros Hg. induction 1 as [|item items Hi _ IH]; [done|]. cbn [populate_clients].
  rewrite st_bind_gets, Hg, make_client_saved, st_bind_lift by done. rewrite st_bind_modify.
  rewrite <- IH. f_equal. destruct g; cbn in *. by subst.
Qed.

End client_config.

(** ** Lemmas: the whole configuration *)

Section whole.
Context `{JsonLaws J}.
Context (parse_duration : list ascii -> Z -> Z).

Record global_saved (g : proxy_global) (glob : J) : Prop := {
  g_object : type glob = is_object;
  g_clients : exists items, elements glob (lit "clients") items /\ Forall client_saved items;
  g_hosts : exists items, elements glob (lit "hosts") items /\ hosts_saved (remotehosts g) items;
  g_web : exists web, find glob (lit "web") = web /\ type web = is_object /\
    find web (lit "port") = of_int (m_web_port g);
  g_config : type (find glob (lit "config")) = is_undefined }.

Lemma config_value_saved {T} ip4_mask g (s : T) :
  Forall host_ok (remotehosts g) -> Forall client_ok (localclients g) ->
  exists glob : J, config_value ip4_mask g s = (s, Ok glob) /\ global_saved g glob.
Proof.
  intros Hh Hc. unfold config_value.
  destruct (save_each_Ok (fun _ s' => s' = s) (fun _ _ v => client_saved v)
              (fun _ c => lift (client_save_json_config c)) (lit "clients") (localclients g)
              ltac:(auto with uniproxy) 0%nat (undefined : J) [] s)
    as (s' & o1 & cs & E1 & -> & L1 & P1 & C1 & T1 & M1 & R1); try done.
  { intros i c s' Hin ->. rewrite List.Forall_forall in Hc.
    destruct (client_config_saved c s) as (v & Ev & Lv); [by apply Hc, list_elem_of_In|].
    by exists s, v. }
  { apply undefined_can_set. } { right. split; [done|apply find_undefined]. }
  rewrite (st_bind_Ok _ _ s s o1) by done.
  destruct (save_each_Ok (fun _ s' => s' = s) (fun _ h v => host_ok h /\ host_saved h v)
              (fun _ h => host_save_json_config h) (lit "hosts") (remotehosts g)
              ltac:(auto with uniproxy) 0%nat o1 [] s)
    as (s' & o2 & hs & E2 & -> & L2 & P2 & C2 & T2 & M2 & R2); try done.
  { intros i h s' Hin ->. rewrite List.Forall_forall in Hh.
    assert (host_ok h) as Hok by by apply Hh, list_elem_of_In.
    destruct (host_config_saved h s Hok) as (v & Ev & Lv). by exists s, v. }
  { right. split; [done|]. rewrite R1 by auto with uniproxy. apply find_undefined. }
  rewrite (st_bind_Ok _ _ s s o2) by done.
  destruct (assign_Ok (undefined : J) [(lit "port", of_int (m_web_port g));
      (lit "ip4", of_string ip4_mask)]) as (web & -> & _ & Tw & Fw);
    [auto with uniproxy|simples|]. rewrite st_bind_lift.
  destruct (set_find o2 (lit "web") web) as (o3 & -> & T3 & F3); [done|auto with uniproxy|].
  rewrite st_bind_lift.
  destruct (assign_Ok (undefined : J) [(lit "debug", of_bool (m_debug g));
      (lit "name", of_string (m_name g))]) as (cfg & -> & _ & Tc & _);
    [auto with uniproxy|simples|]. rewrite st_bind_lift.
  destruct (set_find o3 (lit "global") cfg) as (o4 & -> & T4 & F4); [by left|auto with uniproxy|].
  exists o4. split; [done|]. split.
  - done.
  - exists cs. split.
    + unfold elements in *. rewrite F4, F3 by auto with uniproxy. cbn [string_eqb].
      by rewrite R2 by auto with uniproxy.
    + apply Forall_lookup. intros k v Hk.
      destruct (lookup_lt_is_Some_2 (localclients g) k) as [c Hck].
      { rewrite <- L1. by apply lookup_lt_Some in Hk. }
      by apply (P1 k c v).
  - exists hs. split.
    + unfold elements in *. by rewrite F4, F3 by auto with uniproxy.
    + apply Forall2_same_length_lookup_2; [done|]. intros k h v. apply (P2 k).
  - exists web. split; [by rewrite F4, F3 by auto with uniproxy|].
    split; [apply Tw; by right|by rewrite Fw by auto with uniproxy].
  - rewrite F4, F3 by auto with uniproxy. change (type (find o2 (lit "config")) = is_undefined).
    rewrite R2, R1 by auto with uniproxy. apply find_undefined.
Qed.

End whole.

Section whole_reload.
Context `{JsonLaws J}.
Context (parse_duration : list ascii -> Z -> Z).
Implicit Types glob : J.

Lemma unpopulate_saved g glob :
  global_saved g glob -> ports_differ (remotehosts g) ->
  unpopulate_json glob g = (set_lists (remotehosts g) [] g, Ok tt).
Proof.
  intros [To (cs & Mc & _) (hs & Mh & Sh) _ _] Hd. unfold unpopulate_json.
  assert (same_members glob glob) as Hsame by (by split).
  destruct (unpopulate_clients_all glob glob (localclients g) Hsame) as (glob' & E & Hg').
  { intros Ht. destruct Mc as [->|[_ Hu]]; [exists cs; apply array_of_array|congruence]. }
  rewrite (st_bind_Ok _ _ g (set_lists (remotehosts g) [] g) glob')
    by (unfold on_clients; by rewrite E).
  unfold on_hosts. cbn [set_lists remotehosts].
  by rewrite (unpopulate_hosts_saved glob glob' (remotehosts g) hs (remotehosts g)).
Qed.

(** One of the two lists of the configuration. *)
Lemma elements_cases glob k vs :
  elements glob k vs ->
  type (find glob k) = is_array /\ array (find glob k) = Ok vs \/
  vs = [] /\ type (find glob k) = is_undefined.
Proof.
  intros [E|?]; [left; rewrite E|by right]. split; [apply type_of_array|apply array_of_array].
Qed.

Lemma populate_saved plugins g glob now :
  global_saved g glob -> ports_differ (remotehosts g) -> localclients g = [] ->
  in_uint 16 (m_web_port g) ->
  populate_json parse_duration plugins glob acl_all now g = (reset g, Ok tt).
Proof.
  intros [To (cs & Mc & Sc) (hs & Mh & Sh) (web & Ew & Tw & Pw) Hcfg] Hd Hl Hp.
  unfold populate_json. rewrite st_bind_modify.
  assert (same_members glob glob) as Hsame by (by split).
  cbn [acl_all acl_clients acl_hosts acl_web acl_config].
  destruct (member_same glob glob (lit "clients") Hsame) as (g1 & E1 & S1); [auto with uniproxy|].
  rewrite (st_bind_Ok _ _ (reset g) (reset g) g1).
  2:{ rewrite E1, st_bind_lift. destruct (elements_cases _ _ _ Mc) as [[-> ->]|[_ ->]].
      - rewrite (bool_decide_true (is_array = is_array)) by done.
        by rewrite (st_bind_Ok _ _ (reset g) (reset g) tt) by (by apply populate_clients_saved).
      - done. }
  destruct (member_same g1 glob (lit "hosts") S1) as (g2 & E2 & S2); [auto with uniproxy|].
  rewrite (st_bind_Ok _ _ (reset g) (reset g) g2).
  2:{ rewrite E2, st_bind_lift. destruct (elements_cases _ _ _ Mh) as [[-> ->]|[_ ->]].
      - rewrite (bool_decide_true (is_array = is_array)) by done.
        by rewrite (st_bind_Ok _ _ (reset g) (reset g) tt)
          by (by apply (populate_hosts_saved plugins (remotehosts g) hs)).
      - done. }
  destruct (member_same g2 glob (lit "web") S2) as (g3 & E3 & S3); [auto with uniproxy|].
  rewrite (st_bind_Ok _ _ (reset g) (reset g) g3).
  2:{ rewrite E3, st_bind_lift, Ew, Tw, bool_decide_true by done.
      rewrite (st_bind_Ok _ _ (reset g) (reset g) tt); [done|]. rewrite st_bind_gets.
      rewrite (check_port_found web (lit "port") (m_web_port g));
        [|auto with uniproxy|done|unfold in_uint, in_sint in *; lia].
      rewrite st_bind_lift, wrap_small by done. by destruct g. }
  destruct (member_same g3 glob (lit "config") S3) as (g4 & E4 & S4); [auto with uniproxy|].
  by rewrite E4, st_bind_lift, Hcfg.
Qed.

End whole_reload.

(** ** Lemmas: status *)

Section host_status.
Context `{JsonLaws J}.
Context (status_of : RemoteProxyClient -> session_status) (clock : nat -> Z * Z).
Implicit Types (o v : J).

Lemma expire_expire (now1 now2 : Z) (m : gmap (list ascii) Z) :
  now1 <= now2 -> expire now2 (expire now1 m) = expire now2 m.
Proof.
  intros Hle. unfold expire. rewrite map_filter_filter. apply map_filter_ext.
  intros name stamp _. split; [by intros [? _]|]. intros ?. split; [done|lia].
Qed.

(** What the loop over the remotes may have done to the state before an index:
    entries that expire are gone. *)
Definition expired_only (w : world) (i : nat) (w' : world) : Prop :=
  files w' = files w /\ m_cert_names w' = m_cert_names w /\ logged w' = logged w /\
  list_ok (m_activate w') /\
  forall j, (i <= j)%nat ->
    expire (fst (clock j)) (abs (m_activate w')) = expire (fst (clock j)) (abs (m_activate w)).

(** The entry of a remote. *)
Record entry_ok (w : world) (clients : list RemoteProxyClient) (k : nat) (ep : RemoteEndpoint) v
    : Prop := {
  entry_name : find v (lit "name") = of_string (r_name ep);
  entry_hostname : find v (lit "hostname") = of_string (r_hostname ep);
  entry_cert : if certificate_available (r_name ep) w
               then find v (lit "cert") = of_bool true
               else type (find v (lit "cert")) = is_undefined;
  entry_activate : match expire (fst (clock k)) (abs (m_activate w)) !! r_name ep with
                   | Some stamp => find v (lit "activate") = of_int (stamp - snd (clock k))
                   | None => type (find v (lit "activate")) = is_undefined
                   end;
  entry_connected : match shown_session status_of clients ep with
                    | Some s => find v (lit "connected_local") = of_bool (if s_local s then true else false) /\
                                find v (lit "connected_remote") = of_bool (if s_remote s then true else false)
                    | None => type (find v (lit "connected_local")) = is_undefined
                    end }.

Lemma remote_members_simple ep cert activate session :
  Forall (fun m : list ascii * J => simple (fst m)) (remote_members ep cert activate session).
Proof.
  unfold remote_members, session_members.
  destruct cert, activate, session as [[[[? ?]|] [[[? ?] ?]|]]|]; simples.
Qed.

(** The members of an entry, as they are found. *)
Lemma remote_members_found ep cert activate session v :
  (forall k, simple k ->
     find v k = match assigned (remote_members ep cert activate session) k with
                | Some x => x | None => find undefined k end) ->
  find v (lit "name") = of_string (r_name ep) /\
  find v (lit "hostname") = of_string (r_hostname ep) /\
  (if cert then find v (lit "cert") = of_bool true
   else type (find v (lit "cert")) = is_undefined) /\
  match activate with
  | Some t => find v (lit "activate") = of_int t
  | None => type (find v (lit "activate")) = is_undefined
  end /\
  match session with
  | Some s => find v (lit "connected_local") = of_bool (if s_local s then true else false) /\
              find v (lit "connected_remote") = of_bool (if s_remote s then true else false)
  | None => type (find v (lit "connected_local")) = is_undefined
  end.
Proof.
  intros Hf. rewrite !Hf by auto with uniproxy.
  destruct cert, activate, session as [[[[? ?]|] [[[? ?] ?]|]]|];
    split_and!; first [reflexivity | apply find_undefined].
Qed.

Lemma remote_status_Ok w clients i ep w' :
  (forall j, (i <= j)%nat -> fst (clock i) <= fst (clock j)) ->
  expired_only w i w' ->
  exists w'' v, remote_status status_of clock clients i ep w' = (w'', Ok v) /\
    expired_only w (S i) w'' /\ entry_ok w clients i ep v.
Proof.
  intros Hmono (Hf & Hc & Hlog & Hok & Hexp). unfold remote_status.
  destruct (clock i) as [now1 now2] eqn:Ec. rewrite !st_bind_gets.
  pose proof (step_refines (IsInList now1 (r_name ep)) (m_activate w') Hok) as (A1 & A2 & A3).
  pose proof (Hexp i (le_n i)) as Ei. rewrite Ec in Ei. cbn [fst] in Ei.
  cbn [step spec_step] in A1, A2, A3.
  destruct (is_in_list now1 (r_name ep) 0 (m_activate w')) as [[found timeout] l].
  cbn [fst snd] in A1, A2, A3. rewrite Ei in A1, A2. rewrite st_bind_modify.
  match goal with |- context [assign undefined ?ms] =>
    destruct (assign_Ok (undefined : J) ms) as (v & -> & _ & _ & Fv);
      [auto with uniproxy|apply remote_members_simple|] end.
  eexists _, v. split; [done|]. split.
  - split_and!; try done. intros j Hj. cbn [set_activate m_activate]. rewrite A2.
    apply expire_expire. apply (Hmono j). lia.
  - apply remote_members_found in Fv as (F1 & F2 & F3 & F4 & F5). split; try done.
    + unfold certificate_available in *. by rewrite <- Hc.
    + rewrite Ec. cbn [fst snd]. injection A1 as A1. rewrite <- A1. by destruct found.
Qed.

End host_status.


Section client_status.
Context `{JsonLaws J}.
Context (io : client_io) (clock : nat -> Z * Z) (w : world) (c : BaseClient).
Implicit Types (o v : J).

Lemma hostnames_loop_Ok index hostnames o l :
  type o = is_object -> elements o (lit "local_hostname") l ->
  exists o', hostnames_loop index hostnames o = Ok o' /\ type o' = is_object /\
    forall k, simple k -> k <> lit "local_hostname" -> find o' k = find o k.
Proof.
  revert index o l. induction hostnames as [|sz hostnames IH]; intros index o l Ho Hl;
    cbn [hostnames_loop]; [by exists o|].
  case_bool_decide.
  - cbn [mret out_ret]. rewrite bind_Ok. by apply (IH _ _ l).
  - destruct (set_element_Ok o (lit "local_hostname") l index (of_string sz))
      as (o1 & -> & T1 & F1 & R1); [by left|auto with uniproxy|done|]. rewrite bind_Ok.
    destruct (IH (S index) o1 _ T1 (or_introl F1)) as (o2 & -> & T2 & R2).
    exists o2. split; [done|]. split; [done|]. intros k Hk Hne. by rewrite R2, R1.
Qed.

Definition proxy_entry k (r : RemoteEndpoint) v : Prop :=
  (forall n, simple n -> find v n = match assigned (proxy_members c io clock w k r) n with
                                    | Some x => x | None => find undefined n end).

Lemma proxy_members_simple k r :
  Forall (fun m : list ascii * J => simple (fst m)) (proxy_members c io clock w k r).
Proof.
  unfold proxy_members. destruct (clock k), (shows c io k), (is_remote_connected c io (Z.of_nat k)),
    (certificate_available (r_name r) w), (_ && _); simples.
Qed.

Lemma proxies_loop_Ok eps index o old :
  type o = is_object -> elements o (lit "remotes") old -> length old = index ->
  exists o' vs, proxies_loop c io clock w index eps o = Ok o' /\ type o' = is_object /\
    elements o' (lit "remotes") (old ++ vs) /\ length vs = length eps /\
    (forall k r v, eps !! k = Some r -> vs !! k = Some v -> proxy_entry (index + k) r v) /\
    forall n, simple n -> n <> lit "remotes" -> n <> lit "users" -> find o' n = find o n.
Proof.
  revert index o old. induction eps as [|r eps IH]; intros index o old Ho Hel Hlen;
    cbn [proxies_loop].
  - exists o, []. rewrite app_nil_r. by split_and!.
  - destruct (assign_Ok (undefined : J) (proxy_members c io clock w index r))
      as (v & -> & _ & _ & Fv); [auto with uniproxy|apply proxy_members_simple|]. rewrite bind_Ok.
    assert (exists o1, (if shows c io index
                        then set o (lit "users") (of_int (local_user_count c io))
                        else mret o) = Ok o1 /\ type o1 = is_object /\
              forall n, simple n -> n <> lit "users" -> find o1 n = find o n)
      as (o1 & -> & T1 & F1).
    { destruct (shows c io index); [|by exists o].
      destruct (set_Ok o (lit "users") (of_int (local_user_count c io)))
        as (o1 & -> & T1 & _ & R1); [by left|auto with uniproxy|]. by exists o1. }
    rewrite bind_Ok.
    destruct (set_element_Ok o1 (lit "remotes") old index v) as (o2 & -> & T2 & F2 & R2);
      [by left|auto with uniproxy|unfold elements in *; by rewrite F1 by auto with uniproxy|].
    rewrite bind_Ok. subst index. rewrite assign_at_end in F2.
    destruct (IH (S (length old)) o2 (old ++ [v])) as (o3 & vs & E3 & T3 & M3 & L3 & P3 & R3);
      [done|by left|rewrite length_app; cbn; lia|].
    exists o3, (v :: vs). split; [done|]. split; [done|]. split; [by rewrite <- app_assoc in M3|].
    split; [cbn; by rewrite L3|]. split.
    + intros [|k] r' v'; cbn [lookup list_lookup].
      * intros [= <-] [= <-]. by rewrite Nat.add_0_r.
      * intros Hr' Hv'. rewrite <- Nat.add_succ_comm. by apply P3.
    + intros n Hn H1 H2. by rewrite R3, R2, F1.
Qed.

Lemma of_bool_inj b1 b2 : of_bool b1 = of_bool b2 :> J -> b1 = b2.
Proof. intros E. apply (f_equal get_bool) in E. rewrite !get_bool_of_bool in E. by injection E. Qed.

(** Which proxy an entry shows as connected. *)
Lemma proxy_entry_connected k r v :
  (k < length (m_proxy_endpoints c))%nat -> proxy_entry k r v ->
  find v (lit "connected_remote") = of_bool true <->
  is_local_connected c io = true /\ io_remote io = true /\ m_proxy_index c = Z.of_nat k.
Proof.
  intros Hk Hv. rewrite Hv by auto with uniproxy.
  assert (is_remote_connected c io (Z.of_nat k) = true <->
          io_remote io = true /\ m_proxy_index c = Z.of_nat k) as Hrc.
  { unfold is_remote_connected. rewrite andb_true_iff, orb_true_iff, !Z.eqb_eq. intuition lia. }
  assert (is_remote_connected c io (Z.of_nat k) = true -> any_remote c io = true) as Hany.
  { intros E. apply existsb_exists. exists k. split; [|done]. apply in_seq. lia. }
  assert (assigned (proxy_members c io clock w k r) (lit "connected_remote") =
          (if shows c io k then Some (of_bool (is_remote_connected c io (Z.of_nat k)) : J) else None)) as ->.
  { unfold proxy_members. destruct (clock k), (shows c io k), (is_remote_connected c io (Z.of_nat k)),
      (certificate_available (r_name r) w), (_ && _); reflexivity. }
  rewrite <- Hrc. unfold shows.
  destruct (is_local_connected c io), (is_remote_connected c io (Z.of_nat k)), (any_remote c io);
    try (specialize (Hany eq_refl); discriminate Hany); cbn [andb orb negb];
    (split; [try done; intros E|by intros [? ?]]).
  all: try (apply of_bool_inj in E; discriminate E).
  all: apply (f_equal type) in E; by rewrite type_of_bool, find_undefined in E.
Qed.

End client_status.

(** ** Properties *)

(** C40. The saved configuration of a host is its configuration: it is the same
    host without a difference, and a host made of it has the same port, local
    endpoints, type and remotes, whose ports are not saved. *)
Theorem host_config_roundtrip {J} `{JsonLaws J} {T} plugins h (s : T) :
  host_ok h -> find_plugin plugins (h_type h) = h_type h ->
  exists o : J, host_save_json_config h s = (s, Ok o) /\
    is_same h o = Ok (Some no_difference) /\
    forall counter, exists h' counter',
      make_host plugins o counter = Ok (Some h', counter') /\
      h_local_port h' = h_local_port h /\ h_local_ep h' = h_local_ep h /\
      h_type h' = h_type h /\ h_remote_ep h' = map without_port (h_remote_ep h).
Proof.
  intros Hh Hpl. destruct (host_config_saved h s Hh) as (o & E & So).
  exists o. split; [done|]. split; [by apply is_same_saved|].
  intros counter. rewrite (make_host_saved plugins h o counter Hh So Hpl). cbn. by eexists _, _.
Qed.

(** The configuration the program saves is no configuration to start from:
    applied to the running program it keeps every host as it is and drops every
    client, resets the settings, and it always asks for a restart. *)
Theorem saved_config_drops_clients {J} `{JsonLaws J} {T} parse_duration plugins ip4_mask g now (s : T) :
  Forall host_ok (remotehosts g) -> ports_differ (remotehosts g) ->
  Forall client_ok (localclients g) -> in_uint 16 (m_web_port g) ->
  exists glob : J, config_value ip4_mask g s = (s, Ok glob) /\
    is_new_configuration glob g = Ok true /\
    exists g1, unpopulate_json glob g = (g1, Ok tt) /\
      populate_json parse_duration plugins glob acl_all now g1 =
      (reset (set_lists (remotehosts g) [] g), Ok tt).
Proof.
  intros Hh Hd Hc Hp. destruct (config_value_saved ip4_mask g s Hh Hc) as (glob & E & Sg).
  exists glob. split; [done|]. split.
  - unfold is_new_configuration. case_bool_decide; [done|]. destruct Sg as [To _ _ _ Hcfg].
    destruct (member_Ok glob (lit "config")) as (o' & -> & _); [by left|auto with uniproxy|].
    by rewrite bind_Ok, Hcfg.
  - exists (set_lists (remotehosts g) [] g). split; [by apply unpopulate_saved|].
    apply populate_saved; [|done..]. destruct Sg. by split.
Qed.

(** A host's status lists its remotes in order; an entry has [cert] exactly
    when a certificate of its name is known, the rest of the window exactly
    while one is open, and the connections of its first session.  Writing it
    only takes expired windows off the activation list. *)
Theorem host_status_entries {J} `{JsonLaws J} status_of clock h w :
  list_ok (m_activate w) ->
  (forall i j, (i <= j)%nat -> fst (clock i) <= fst (clock j)) ->
  exists w' (o : J) entries,
    host_save_json_status status_of clock h w = (w', Ok o) /\
    elements o (lit "remotes") entries /\ length entries = length (h_remote_ep h) /\
    (forall k ep v, h_remote_ep h !! k = Some ep -> entries !! k = Some v ->
       entry_ok status_of clock w (h_clients h) k ep v) /\
    expired_only clock w (length (h_remote_ep h)) w'.
Proof.
  intros Hok Hmono. unfold host_save_json_status.
  destruct (assign_Ok (undefined : J) (host_members h)) as (o1 & -> & C1 & T1 & F1);
    [auto with uniproxy|simples|].
  rewrite st_bind_lift.
  destruct (save_each_Ok (expired_only clock w)
              (fun k ep v => entry_ok status_of clock w (h_clients h) k ep v)
              (remote_status status_of clock (h_clients h)) (lit "remotes") (h_remote_ep h)
              ltac:(auto with uniproxy) 0%nat o1 [] w)
    as (w' & o2 & vs & E2 & I2 & L2 & P2 & C2 & T2 & M2 & R2); try done.
  { intros i ep w' _ HI. apply remote_status_Ok; [|done]. intros j Hj. by apply Hmono. }
  { right. split; [done|]. rewrite F1 by auto with uniproxy. apply find_undefined. }
  by exists w', o2, vs.
Qed.

(** A client's status shows a proxy as connected exactly when the local side
    and the remote socket are connected and it is the client's current proxy. *)
Theorem client_status_connected {J} `{JsonLaws J} io clock w c :
  exists (o : J) entries,
    client_save_json_status io clock w c = Ok o /\
    elements o (lit "remotes") entries /\ length entries = length (m_proxy_endpoints c) /\
    forall k v, entries !! k = Some v ->
      find v (lit "connected_remote") = of_bool true <->
      is_local_connected c io = true /\ io_remote io = true /\ m_proxy_index c = Z.of_nat k.
Proof.
  unfold client_save_json_status.
  destruct (assign_Ok (undefined : J) [(lit "id", of_int (m_id c)); (lit "active", of_bool (m_active c));
      (lit "port", of_string (local_portname c))]) as (o1 & -> & C1 & T1 & F1);
    [auto with uniproxy|simples|]. rewrite bind_Ok. unfold set_nested.
  destruct (member_Ok o1 (lit "activate")) as (o2 & -> & T2 & F2); [done|auto with uniproxy|].
  rewrite bind_Ok.
  destruct (set_Ok (find o1 (lit "activate")) (lit "port")
              (of_int (BaseClient.m_activate_port c))) as (a & -> & _);
    [right; rewrite F1 by auto with uniproxy; apply find_undefined|auto with uniproxy|].
  rewrite bind_Ok.
  destruct (set_Ok o2 (lit "activate") a) as (o3 & -> & T3 & _ & R3);
    [by left|auto with uniproxy|]. rewrite bind_Ok.
  destruct (assign_Ok o3 [(lit "connected_local", of_bool (is_local_connected c io));
      (lit "log", of_string (BaseClient.m_log c))]) as (o4 & -> & C4 & T4 & F4);
    [by left|simples|]. rewrite bind_Ok.
  destruct (hostnames_loop_Ok 0 (local_hostnames c io) o4 []) as (o5 & -> & T5 & R5).
  { apply T4. by left. }
  { right. split; [done|]. rewrite F4 by auto with uniproxy.
    change (type (find o3 (lit "local_hostname")) = is_undefined).
    rewrite R3, F2, F1 by auto with uniproxy. apply find_undefined. }
  rewrite bind_Ok.
  destruct (proxies_loop_Ok io clock w c (m_proxy_endpoints c) 0 o5 [])
    as (o6 & vs & -> & T6 & M6 & L6 & P6 & _); [done| |done|].
  { right. split; [done|]. rewrite R5, F4 by auto with uniproxy.
    change (type (find o3 (lit "remotes")) = is_undefined).
    rewrite R3, F2, F1 by auto with uniproxy. apply find_undefined. }
  exists o6, vs. split; [done|]. split; [done|]. split; [done|]. intros k v Hk.
  assert (k < length (m_proxy_endpoints c))%nat as Hlt
    by (rewrite <- L6; by apply lookup_lt_Some in Hk).
  destruct (lookup_lt_is_Some_2 (m_proxy_endpoints c) k Hlt) as [r Hr].
  by apply (proxy_entry_connected io clock w c k r v), (P6 k).
Qed.

(** ** Witnesses *)

Definition saved_host : RemoteProxyHost :=
  {| h_id := 3; h_type := []; h_active := true; h_remote_ep := [remote_ep1];
     h_local_ep := [local_ep1]; h_local_port := 8750; h_thread := new_thread true;
     h_clients := [] |}.

Lemma saved_host_ok : host_ok saved_host.
Proof.
  split; [cbn; lia| |]; split; try done; repeat constructor; cbn; try lia; done.
Qed.

Lemma host_config_roundtrip_witness :
  exists o : tree, host_save_json_config saved_host tt = (tt, Ok o) /\
    is_same saved_host o = Ok (Some no_difference).
Proof.
  destruct (host_config_roundtrip (J := tree) [] saved_host tt saved_host_ok eq_refl)
    as (o & E & Hs & _).
  exists o. by split.
Defined.

Definition running : proxy_global := set_lists [saved_host] [] new_proxy_global.

Lemma saved_config_drops_clients_witness :
  exists glob : tree, config_value (lit "0.0.0.0") running tt = (tt, Ok glob) /\
    is_new_configuration glob running = Ok true.
Proof.
  destruct (saved_config_drops_clients (J := tree) (fun _ d => d) [] (lit "0.0.0.0") running 0 tt)
    as (glob & E & Hn & _).
  - constructor; [apply saved_host_ok|constructor].
  - apply list.NoDup_singleton.
  - constructor.
  - unfold in_uint. cbn. lia.
  - exists glob. by split.
Defined.

Definition activating : world :=
  {| files := ∅; m_cert_names := []; logged := [];
     m_activate := [Build_activate_t 100 (r_name remote_ep1)] |}.

Lemma host_status_entries_witness :
  exists w' (o : tree) entries,
    host_save_json_status (fun _ => {| s_local := None; s_remote := None |}) (fun _ => (40, 41))
      saved_host activating = (w', Ok o) /\
    elements o (lit "remotes") entries /\
    Forall (fun v => find v (lit "activate") = of_int 59) entries.
Proof.
  destruct (host_status_entries (J := tree) (fun _ => {| s_local := None; s_remote := None |})
              (fun _ => (40, 41)) saved_host activating) as (w' & o & entries & E & M & L & F & _).
  - apply list.NoDup_singleton.
  - done.
  - exists w', o, entries. split; [done|]. split; [done|].
    destruct entries as [|v [|? ?]]; try discriminate L.
    destruct (F 0%nat remote_ep1 v eq_refl eq_refl) as [_ _ _ Ha _].
    constructor; [exact Ha|constructor].
Defined.
