(* ===== verification/Errors.v ===== *)
(** * What the configuration code throws

    The parts that read and apply a configuration only throw errors derived
    from [std::exception], as long as the JSON library does: none of them asks
    for a reload or ends a thread. *)

From S2P Require Import Prelude CppString Json Endpoints Activation Certs Thread BaseClient RemoteHost Config.

(** ** Calls that throw nothing else *)

Definition throws_std {A} (m : out A) : Prop := forall e, m = Throw e -> is_std_exception e = true.

Definition st_throws_std {S A} (m : st S A) : Prop := forall s, throws_std (snd (m s)).

Lemma throws_std_Ok {A} (a : A) : throws_std (Ok a).
Proof. done. Qed.

Lemma throws_std_UB {A} : throws_std (@UB A).
Proof. done. Qed.

Lemma throws_std_Throw {A} e : is_std_exception e = true -> throws_std (@Throw A e).
Proof. by intros ? ? [= <-]. Qed.

Lemma throws_std_bind {A B} (m : out A) (f : A -> out B) :
  throws_std m -> (forall a, throws_std (f a)) -> throws_std (m ≫= f).
Proof.
  intros Hm Hf. destruct m as [a|e|]; [apply Hf| |done]. intros ? [= <-]. by apply Hm.
Qed.

Lemma st_throws_std_lift {S A} (m : out A) : throws_std m -> st_throws_std (lift m : st S A).
Proof. by intros Hm s. Qed.

Lemma st_throws_std_gets {S A} (f : S -> A) : st_throws_std (gets f).
Proof. by intros s. Qed.

Lemma st_throws_std_modify {S} (f : S -> S) : st_throws_std (modify f).
Proof. by intros s. Qed.

Lemma st_throws_std_ret {S A} (a : A) : st_throws_std (mret a : st S A).
Proof. by intros s. Qed.

Lemma st_throws_std_bind {S A B} (m : st S A) (f : A -> st S B) :
  st_throws_std m -> (forall a, st_throws_std (f a)) -> st_throws_std (m ≫= f).
Proof.
  intros Hm Hf s. specialize (Hm s). unfold mbind, st_bind.
  destruct (m s) as [s1 [a|e|]]; [apply Hf| |done]. intros ? [= <-]. by apply Hm.
Qed.

Lemma throws_std_ASSERTE c code text : throws_std (ASSERTE c code text).
Proof. by destruct c; intros ? [= <-]. Qed.

Lemma throws_std_ASSERTD c text : throws_std (ASSERTD c text).
Proof. by destruct c; intros ? [= <-]. Qed.

Lemma throws_std_use_int v : throws_std (use_int v).
Proof. by destruct v. Qed.

Lemma throws_std_rd {A} (l : list A) i : throws_std (rd l i).
Proof. unfold rd. destruct (_ <? _); [done|]. by destruct (_ !! _). Qed.

Create HintDb throws.

#[export] Hint Resolve throws_std_Ok throws_std_UB throws_std_ASSERTE throws_std_ASSERTD
  throws_std_use_int throws_std_rd st_throws_std_gets st_throws_std_modify st_throws_std_ret : throws.

(** Take a program apart; what is left are its own calls. *)
Ltac throws :=
  repeat first
    [ solve [auto with throws]
    | lazymatch goal with
      | |- forall _, _ => intros ?
      | |- throws_std (Throw _) => apply throws_std_Throw; reflexivity
      | |- throws_std (mret _) => apply throws_std_Ok
      | |- throws_std (mbind _ _) => apply throws_std_bind
      | |- throws_std (match ?x with _ => _ end) => destruct x
      | |- st_throws_std (lift _) => apply st_throws_std_lift
      | |- st_throws_std (mbind _ _) => apply st_throws_std_bind
      | |- st_throws_std (match ?x with _ => _ end) => destruct x
      end ].

(** ** The library *)

Class JsonErrors (J : Type) `{Json J} := {
  get_int_throws (v : J) : throws_std (get_int v);
  get_string_throws (v : J) : throws_std (get_string v);
  get_bool_throws (v : J) : throws_std (get_bool v);
  array_throws (v : J) : throws_std (array v);
  member_throws (v : J) k : throws_std (member v k) }.

#[export] Hint Resolve get_int_throws get_string_throws get_bool_throws array_throws member_throws
  : throws.

#[export] Instance tree_errors : JsonErrors tree.
Proof. constructor; intros v; [..|intros k]; destruct v; cbn; throws. Qed.

(** ** The program *)

Section program.
Context `{JsonErrors J}.
Context (parse_duration : list ascii -> Z -> Z).

Lemma check_int_throws (o : J) k r : throws_std (check_int o k r).
Proof. unfold check_int. throws. Qed.

Lemma check_string_throws (o : J) k r : throws_std (check_string o k r).
Proof. unfold check_string. throws. Qed.

Lemma check_bool_throws (o : J) k r : throws_std (check_bool o k r).
Proof. unfold check_bool. throws. Qed.

Lemma check_int_default_throws (o : J) k d r : throws_std (check_int_default o k d r).
Proof. unfold check_int_default. throws. Qed.

Lemma check_string_default_throws (o : J) k d r : throws_std (check_string_default o k d r).
Proof. unfold check_string_default. throws. Qed.

Lemma check_bool_default_throws (o : J) k d r : throws_std (check_bool_default o k d r).
Proof. unfold check_bool_default. throws. Qed.

#[local] Hint Resolve check_int_throws check_string_throws check_bool_throws
  check_int_default_throws check_string_default_throws check_bool_default_throws : throws.

Lemma check_port_throws (o : J) k r : throws_std (check_port o k r).
Proof. unfold check_port. throws. Qed.

#[local] Hint Resolve check_port_throws : throws.

Lemma LocalEndpoint_load_throws (o : J) ep : throws_std (LocalEndpoint_load o ep).
Proof. unfold LocalEndpoint_load. throws. Qed.

Lemma RemoteEndpoint_load_throws (o : J) ep : throws_std (RemoteEndpoint_load o ep).
Proof. unfold RemoteEndpoint_load. throws. Qed.

#[local] Hint Resolve LocalEndpoint_load_throws RemoteEndpoint_load_throws : throws.

Lemma added_loop_throws l (items : list J) acc : throws_std (added_loop l items acc).
Proof. revert acc. induction items as [|item items IH]; intros acc; cbn [added_loop]; throws. Qed.

Lemma hit_loop_throws h (items : list J) hit : throws_std (hit_loop h items hit).
Proof. revert hit. induction items as [|item items IH]; intros hit; cbn [hit_loop]; throws. Qed.

#[local] Hint Resolve hit_loop_throws : throws.

Lemma removed_loop_throws l (items : list J) acc : throws_std (removed_loop l items acc).
Proof. revert acc. induction l as [|h l IH]; intros acc; cbn [removed_loop]; throws. Qed.

Lemma locals_loop_throws (items : list J) l changed : throws_std (locals_loop items l changed).
Proof.
  revert l changed. induction items as [|item items IH]; intros l changed; cbn [locals_loop]; throws.
Qed.

#[local] Hint Resolve added_loop_throws removed_loop_throws locals_loop_throws : throws.

Lemma is_same_throws h (o : J) : throws_std (is_same h o).
Proof. unfold is_same. throws. Qed.

#[local] Hint Resolve is_same_throws : throws.

Lemma load_each_throws {E} (load : J -> E -> out (bool * E)) new items :
  (forall o e, throws_std (load o e)) -> throws_std (load_each load new items).
Proof. intros Hl. induction items as [|item items IH]; cbn [load_each]; throws. Qed.

Lemma load_member_throws {E} (load : J -> E -> out (bool * E)) new o name :
  (forall o e, throws_std (load o e)) -> throws_std (load_member load new o name).
Proof. intros Hl. pose proof (load_each_throws load new). unfold load_member. throws. Qed.

#[local] Hint Resolve load_member_throws : throws.

Lemma info_throws c : throws_std (info c).
Proof. unfold info, remote_hostname, remote_port. throws. Qed.

#[local] Hint Resolve info_throws : throws.

Lemma new_BaseClient_throws k a lp ap eps m now i :
  throws_std (new_BaseClient k a lp ap eps m now i).
Proof. unfold new_BaseClient. throws. Qed.

#[local] Hint Resolve new_BaseClient_throws : throws.

Lemma make_client_throws (item : J) now counter clients :
  throws_std (make_client parse_duration item now counter clients).
Proof. unfold make_client, new_LocalHost, new_ProviderClient, megabytes. throws. Qed.

#[local] Hint Resolve make_client_throws : throws.

Lemma populate_clients_throws (items : list J) now :
  st_throws_std (populate_clients parse_duration items now).
Proof. induction items as [|item items IH]; cbn [populate_clients]; throws. Qed.

Lemma update_hosts_throws (item : J) hosts : throws_std (snd (update_hosts item hosts)).
Proof.
  induction hosts as [|h hosts IH]; cbn [update_hosts]; [done|].
  pose proof (is_same_throws h item) as Hs.
  destruct (is_same h item) as [[d|]|e|]; cbn.
  - pose proof (throws_std_ASSERTD (negb (param_changed d || locals_changed d)) (should_be_deleted h)) as Ha.
    destruct (ASSERTD _ _) as [[]|e|]; cbn.
    + destruct (update_hosts item hosts) as [rest r]. cbn in *. throws.
    + intros ? [= <-]. by apply Ha.
    + done.
  - by destruct (update_hosts item hosts).
  - intros ? [= <-]. by apply Hs.
  - done.
Qed.

Lemma on_hosts_throws {A} (m : st (list RemoteProxyHost) A) :
  st_throws_std m -> st_throws_std (on_hosts m).
Proof. intros Hm g. specialize (Hm (remotehosts g)). unfold on_hosts. by destruct (m _). Qed.

Lemma on_clients_throws {A} (m : st (list BaseClient) A) :
  st_throws_std m -> st_throws_std (on_clients m).
Proof. intros Hm g. specialize (Hm (localclients g)). unfold on_clients. by destruct (m _). Qed.

Lemma make_host_throws plugins (item : J) counter : throws_std (make_host plugins item counter).
Proof. unfold make_host. throws. Qed.

#[local] Hint Resolve make_host_throws : throws.

Lemma populate_hosts_throws plugins (items : list J) : st_throws_std (populate_hosts plugins items).
Proof.
  induction items as [|item items IH]; cbn [populate_hosts]; [throws|].
  apply st_throws_std_bind; [apply on_hosts_throws; intros l; apply update_hosts_throws|].
  throws. apply on_hosts_throws. throws.
Qed.

Lemma uniproxies_loop_throws (items : list J) : st_throws_std (uniproxies_loop items).
Proof. induction items as [|item items IH]; cbn [uniproxies_loop]; throws. Qed.

Lemma on_uniproxies_throws {A} (m : st (list LocalEndpoint) A) :
  st_throws_std m -> st_throws_std (on_uniproxies m).
Proof. intros Hm g. specialize (Hm (uniproxies g)). unfold on_uniproxies. by destruct (m _). Qed.

Lemma read_activate_timeout_throws (o : J) old :
  throws_std (read_activate_timeout parse_duration o old).
Proof. unfold read_activate_timeout. throws. Qed.

#[local] Hint Resolve uniproxies_loop_throws on_uniproxies_throws read_activate_timeout_throws
  populate_clients_throws populate_hosts_throws : throws.

Lemma populate_config_throws (o : J) : st_throws_std (populate_config parse_duration o).
Proof. unfold populate_config. throws. Qed.

#[local] Hint Resolve populate_config_throws : throws.

Lemma populate_json_throws plugins (o : J) acl now :
  st_throws_std (populate_json parse_duration plugins o acl now).
Proof. unfold populate_json. throws. Qed.

Lemma keep_loop_throws h (items : list J) keep removed : throws_std (keep_loop h items keep removed).
Proof.
  revert keep removed. induction items as [|item items IH]; intros; cbn [keep_loop]; throws.
Qed.

#[local] Hint Resolve keep_loop_throws : throws.

Lemma unpopulate_hosts_throws (o : J) : st_throws_std (unpopulate_hosts o).
Proof.
  intros hosts. revert o. induction hosts as [|h hosts IH]; intros o; cbn [unpopulate_hosts]; [done|].
  assert (throws_std (keep_host o h)) as Hk by (unfold keep_host; throws).
  destruct (keep_host o h) as [[[keep removed] o']|e|].
  - specialize (IH o'). by destruct (unpopulate_hosts o' hosts).
  - intros ? [= <-]. by apply Hk.
  - done.
Qed.

Lemma unpopulate_clients_throws (o : J) : st_throws_std (unpopulate_clients o).
Proof.
  intros clients. revert o. induction clients as [|c clients IH]; intros o; cbn [unpopulate_clients]; [done|].
  assert (throws_std (keep_client o c)) as Hk by (unfold keep_client; throws).
  destruct (keep_client o c) as [[keep o']|e|].
  - specialize (IH o'). by destruct (unpopulate_clients o' clients).
  - intros ? [= <-]. by apply Hk.
  - done.
Qed.

Lemma unpopulate_json_throws (o : J) : st_throws_std (unpopulate_json o).
Proof.
  unfold unpopulate_json. apply st_throws_std_bind.
  - apply on_clients_throws, unpopulate_clients_throws.
  - intros o'. apply on_hosts_throws, unpopulate_hosts_throws.
Qed.

Lemma new_uniproxies_throws (items : list J) l : throws_std (new_uniproxies items l).
Proof. induction items as [|item items IH]; cbn [new_uniproxies]; throws. Qed.

#[local] Hint Resolve new_uniproxies_throws : throws.

Lemma is_new_configuration_throws (o : J) g : throws_std (is_new_configuration o g).
Proof. unfold is_new_configuration. throws. Qed.

End program.

#[export] Hint Resolve populate_json_throws unpopulate_json_throws is_new_configuration_throws : throws.
