(* ===== verification/WebApp.v ===== *)
(** * The web application

    [proxy_app] ([main.cpp], [main.h]): the table of addresses, the handlers and
    the way a reload is asked for; the sessions of the browsers
    ([get_session_data], [proxy_global.cpp]).

    The web framework is outside: [regex_match] is its matching of an address,
    the parts of a request that are looked at are the arguments of the
    handlers, what is written to the response is part of the state.  The files
    are those of [world]; the log is the sequence of its lines, which [log_of]
    turns into the log of [ProxyLog]. *)

From S2P Require Import Prelude CppString Json Endpoints Activation Certs Thread BaseClient RemoteHost Config Status.
From S2P Require ProxyLog.

(** ** Browser sessions *)

Record session_data := {
  sd_id : Z;
  m_logger_read_index : Z;
  m_timestamp : Z }.

(** The constructor. *)
Definition new_session_data (id now : Z) : session_data :=
  {| sd_id := id; m_logger_read_index := 0; m_timestamp := now |}.

Definition update_timestamp (now : Z) (s : session_data) : session_data :=
  {| sd_id := sd_id s; m_logger_read_index := m_logger_read_index s; m_timestamp := now |}.

Definition set_read_index (i : Z) (s : session_data) : session_data :=
  {| sd_id := sd_id s; m_logger_read_index := i; m_timestamp := m_timestamp s |}.

(** The loop over the sessions: the index of the first one with this id, with
    its time stamp renewed. *)
Fixpoint touch (id now : Z) (sessions : list session_data) : option (list session_data * nat) :=
  match sessions with
  | [] => None
  | s :: sessions' =>
      if sd_id s =? id then Some (update_timestamp now s :: sessions', 0%nat)
      else match touch id now sessions' with
           | Some (rest, i) => Some (s :: rest, S i)
           | None => None
           end
  end.

(** [get_session_data]: [cookie] is the id the browser sent, [rand] the next
    random number.  The place of the data is returned. *)
Definition get_session_data (cookie : option (list ascii)) (rand now : Z)
    : st (list session_data) nat :=
  id ← lift (match cookie with
             | Some text => use_int (from_string text None)
             | None => Ok rand
             end);
  sessions ← gets (fun sessions => sessions);
  match touch id now sessions with
  | Some (sessions, i) => _ ← modify (fun _ => sessions); mret i
  | None =>
      _ ← modify (fun sessions => sessions ++ [new_session_data id now]);
      mret (length sessions)
  end.

(** ** The state *)

Record response := { r_body : list ascii; r_status : Z; r_redirect : option (list ascii) }.

Definition new_response : response := {| r_body := []; r_status := 200; r_redirect := None |}.

Record app := {
  a_global : proxy_global;
  a_world : world;
  a_sessions : list session_data;
  a_response : response;
  (** [m_log_all_data] and the two open streams. *)
  a_log_all : bool;
  a_in_log : option (list ascii);
  a_out_log : option (list ascii);
  (** [timer_] is armed; the service runs; [signal::m_reload]. *)
  a_timer : bool;
  a_running : bool;
  a_reload : bool }.

Definition set_global (g : proxy_global) (a : app) : app :=
  {| a_global := g; a_world := a_world a; a_sessions := a_sessions a; a_response := a_response a;
     a_log_all := a_log_all a; a_in_log := a_in_log a; a_out_log := a_out_log a;
     a_timer := a_timer a; a_running := a_running a; a_reload := a_reload a |}.

Definition set_world (w : world) (a : app) : app :=
  {| a_global := a_global a; a_world := w; a_sessions := a_sessions a; a_response := a_response a;
     a_log_all := a_log_all a; a_in_log := a_in_log a; a_out_log := a_out_log a;
     a_timer := a_timer a; a_running := a_running a; a_reload := a_reload a |}.

Definition set_sessions (s : list session_data) (a : app) : app :=
  {| a_global := a_global a; a_world := a_world a; a_sessions := s; a_response := a_response a;
     a_log_all := a_log_all a; a_in_log := a_in_log a; a_out_log := a_out_log a;
     a_timer := a_timer a; a_running := a_running a; a_reload := a_reload a |}.

Definition set_response (r : response) (a : app) : app :=
  {| a_global := a_global a; a_world := a_world a; a_sessions := a_sessions a; a_response := r;
     a_log_all := a_log_all a; a_in_log := a_in_log a; a_out_log := a_out_log a;
     a_timer := a_timer a; a_running := a_running a; a_reload := a_reload a |}.

Definition set_logs (all : bool) (in_log out_log : option (list ascii)) (a : app) : app :=
  {| a_global := a_global a; a_world := a_world a; a_sessions := a_sessions a;
     a_response := a_response a; a_log_all := all; a_in_log := in_log; a_out_log := out_log;
     a_timer := a_timer a; a_running := a_running a; a_reload := a_reload a |}.

Definition set_service (timer running reload : bool) (a : app) : app :=
  {| a_global := a_global a; a_world := a_world a; a_sessions := a_sessions a;
     a_response := a_response a; a_log_all := a_log_all a; a_in_log := a_in_log a;
     a_out_log := a_out_log a; a_timer := timer; a_running := running; a_reload := reload |}.

Definition on_global {A} (m : st proxy_global A) : st app A := fun a =>
  let '(g, r) := m (a_global a) in (set_global g a, r).

Definition on_world {A} (m : st world A) : st app A := fun a =>
  let '(w, r) := m (a_world a) in (set_world w a, r).

Definition on_sessions {A} (m : st (list session_data) A) : st app A := fun a =>
  let '(s, r) := m (a_sessions a) in (set_sessions s a, r).

(** [response().out() << text] *)
Definition respond (text : list ascii) : st app unit :=
  modify (fun a => set_response {| r_body := r_body (a_response a) ++ text;
                                   r_status := r_status (a_response a);
                                   r_redirect := r_redirect (a_response a) |} a).

Definition set_status (code : Z) : st app unit :=
  modify (fun a => set_response {| r_body := r_body (a_response a); r_status := code;
                                   r_redirect := r_redirect (a_response a) |} a).

Definition redirect (url : list ascii) : st app unit :=
  modify (fun a => set_response {| r_body := r_body (a_response a);
                                   r_status := r_status (a_response a);
                                   r_redirect := Some url |} a).

Definition log_line (line : list ascii) : st app unit := on_world (modify (log_add line)).

(** ** The surroundings

    What the application calls outside of the program: [value::load] of a
    file's text and the line it names when it fails, the time spans, the
    plugins, the texts of other errors, which files can be written, whether
    boost's copy of a file fails, what the threads, the ports and the connection
    test say, what the status needs, the log files, the matching of an address,
    whose group 0 is the whole, the use of the own keys, and OpenSSL's
    command. *)
Class Environment (J : Type) := {
  parse_json : list ascii -> option J;
  parse_line : list ascii -> Z;
  parse_duration : list ascii -> Z -> Z;
  plugins : list (list ascii);
  library_what : exn -> list ascii;
  writable : list ascii -> bool;
  copy_fails : list ascii -> list ascii -> bool;
  ret_host : Z -> Z;
  ret_client : Z -> Z;
  bind : Z -> out unit;
  test : RemoteProxyHost -> out Z;
  save : J -> out (list ascii);
  status_of : RemoteProxyClient -> session_status;
  clock : nat -> nat -> Z * Z;
  io_of : BaseClient -> client_io;
  version : list ascii;
  ip4_mask : list ascii;
  session_dir : list ascii;
  log_of : list (list ascii) -> ProxyLog.proxy_log;
  regex_match : list ascii -> list ascii -> option (list (list ascii));
  own_keys : world -> out bool;
  execute_openssl : list ascii -> st world bool }.

(** ** The handlers *)

(** What the browser sends with an upload: a file, whether it is valid and what
    saving it wrote or threw; or the values of a form. *)
Inductive posted :=
  | PostedFile (valid : bool) (saved : out (list ascii))
  | PostedForm (values : list (list ascii)).

Inductive command :=
  | ClientActivate (name id : list ascii)
  | ClientActive (name id checked : list ascii)
  | HostActivate (name : list ascii)
  | HostActive (name id checked : list ascii)
  | HostTest (name : list ascii)
  | CertificateDelete (name : list ascii)
  | Shutdown
  | ConfigUpload
  | ConfigReload
  | LogFile (active : list ascii)
  | Script
  | StatusGet
  | LoggerGet
  | GetCertificates
  | GetPublicCertificate
  | Index.

(** The constructor's table, in its order; a group that is used is an argument. *)
Definition group (groups : list (list ascii)) (n : nat) : list ascii := default [] (groups !! n).

Definition routes : list (list ascii * (list (list ascii) -> command)) :=
  [(lit "^/command/client/activate/name=(.*)&id=(.*)&dummy=(.*)$",
    fun m => ClientActivate (group m 1) (group m 2));
   (lit "^/command/client/active/name=(.*)&id=(.*)&check=(.*)&dummy=(.*)$",
    fun m => ClientActive (group m 1) (group m 2) (group m 3));
   (lit "^/command/host/activate/name=(.*)&dummy=(.*)$", fun m => HostActivate (group m 1));
   (lit "^/command/host/active/name=(.*)&id=(.*)&check=(.*)&dummy=(.*)$",
    fun m => HostActive (group m 1) (group m 2) (group m 3));
   (lit "^/command/host/test/name=(.*)&dummy=(.*)$", fun m => HostTest (group m 1));
   (lit "^/command/client/delete/name=(.*)&dummy=(.*)$", fun m => CertificateDelete (group m 1));
   (lit "^/command/host/delete/name=(.*)&dummy=(.*)$", fun m => CertificateDelete (group m 1));
   (lit "^/command/stop/(.*)$", fun _ => Shutdown);
   (lit "^/command/config/upload/(.*)$", fun _ => ConfigUpload);
   (lit "^/command/config/reload/(.*)$", fun _ => ConfigReload);
   (lit "^/command/logfile/active=(.*)$", fun m => LogFile (group m 1));
   (lit "^/script/(.*)$", fun _ => Script);
   (lit "^/status/(.*)$", fun _ => StatusGet);
   (lit "^/logger/(.*)$", fun _ => LoggerGet);
   (lit "^/command/certificate/get/(.*)$", fun _ => GetCertificates);
   (lit "^/command/certificate/public/(.*)$", fun _ => GetPublicCertificate);
   (lit "^/$", fun _ => Index)].

Definition upload_filename : list ascii := lit "upload.json".
Definition backup_filename : list ascii := config_filename ++ lit ".backup".

(** [script]: the file in pieces of a thousand bytes, each printed up to its
    first NUL. *)
Fixpoint script_loop (fuel : nat) (rest : list ascii) : list ascii :=
  match fuel with
  | O => []
  | S fuel' =>
      c_str (take 1000 rest) ++
      (if (length rest <? 1000)%nat then [] else script_loop fuel' (drop 1000 rest))
  end.

Definition script_text (file : option (list ascii)) : list ascii :=
  match file with
  | Some text => script_loop (S (length text)) text
  | None => []
  end.

Section handlers.
Context `{Json J} `{X509 cert} `{Environment J}.

(** ** Uploading a configuration *)

(** [std::ofstream], or the framework's [save_to]: a file that cannot be
    written stays as it is. *)
Definition write_file (filename text : list ascii) : st world unit :=
  modify (fun w => if writable filename then set_files (<[filename := text]> (files w)) w else w).

(** [boost::filesystem::copy_file] with [overwrite_if_exists]: no error? *)
Definition copy_file (from to : list ascii) : st world bool :=
  text ← gets (fun w => files w !! from);
  match text with
  | Some text =>
      if copy_fails from to then mret false
      else _ ← modify (fun w => set_files (<[to := text]> (files w)) w); mret true
  | None => mret false
  end.

Definition receive (post : posted) : st world unit :=
  match post with
  | PostedFile valid saved =>
      _ ← lift (ASSERTE valid parse_file_failed upload_filename);
      text ← lift saved;
      write_file upload_filename text
  | PostedForm values =>
      _ ← lift (ASSERTE (negb (bool_decide (values = []))) parse_file_failed upload_filename);
      write_file upload_filename (match values with v :: _ => v | [] => [] end)
  end.

Definition load_json (filename : list ascii) (w : world) : option J :=
  text ← files w !! filename; parse_json text.

(** The uploaded file becomes the configuration, and the old one the backup. *)
Definition replace_config : st world unit :=
  exists_ ← gets (fun w => bool_decide (is_Some (files w !! config_filename)));
  _ ← (if exists_ : bool then
         ok ← copy_file config_filename backup_filename;
         lift (ASSERTE ok file_failed_copy (config_filename ++ lit " to " ++ backup_filename))
       else mret tt);
  ok ← copy_file upload_filename config_filename;
  lift (ASSERTE ok file_failed_copy (upload_filename ++ lit " to " ++ config_filename)).

(** What follows a configuration that needs no restart. *)
Definition update_in_place (newobj : J) (now : Z) : st app unit :=
  st_catch
    (_ ← on_global (unpopulate_json newobj);
     _ ← on_global (populate_json parse_duration plugins newobj acl_all now);
     _ ← log_line (lit "Updated configuration without restart, now starting all connections");
     on_global (lock ret_host ret_client bind))
    (fun _ =>
       _ ← log_line (lit "Configuration update failed to warrant a restart. All connections will be closed");
       lift (Throw ReloadException)).

(** Inside the [try] of [config_upload]. *)
Definition upload (post : posted) (now : Z) : st app unit :=
  _ ← on_world (receive post);
  newobj ← on_world (gets (load_json upload_filename));
  newobj ← lift (match newobj with
                 | Some obj => Ok obj
                 | None => Throw (SystemError parse_file_failed upload_filename)
                 end);
  _ ← on_world replace_config;
  isnew ← on_global (fun g => (g, is_new_configuration newobj g));
  if isnew : bool then
    _ ← log_line (lit "Configuration changed sufficiently to warrant a restart. All connections will be closed");
    _ ← redirect (lit "/");
    lift (Throw ReloadException)
  else update_in_place newobj now.

(** The two handlers: the text of a [std::system_error] has its category's
    message in front. *)
Definition upload_error (e : exn) : list ascii :=
  match e with
  | SystemError code _ =>
      lit "Error: " ++ message code ++ lit " " ++ what library_what e
  | _ => what library_what e
  end.

(** [config_upload]; without a POST nothing is done. *)
Definition config_upload (post : option posted) (now : Z) : st app unit :=
  _ ← st_catch (match post with Some post => upload post now | None => mret tt end)
        (fun e => log_line (upload_error e));
  redirect (lit "/").

(** ** The other handlers *)

(** Opening a stream that is open fails and leaves it as it is. *)
Definition open_log (file : list ascii) (stream : option (list ascii)) : option (list ascii) :=
  match stream with
  | Some f => Some f
  | None => if writable file then Some file else None
  end.

Definition log_file (param : list ascii) : st app unit :=
  modify (fun a =>
    let all := string_eqb param (lit "true") in
    let path := m_log_path (a_global a) in
    if all then set_logs all (open_log (path ++ lit "in_data.log") (a_in_log a))
                  (open_log (path ++ lit "out_data.log") (a_out_log a)) a
    else set_logs all None None a).

(** [logger_get]: the lines of the session's browser. *)
Definition logger_get (cookie : option (list ascii)) (rand now : Z) : st app unit :=
  i ← on_sessions (get_session_data cookie rand now);
  lines ← (fun a =>
    match a_sessions a !! i with
    | Some s =>
        let '(lines, read_index) :=
          ProxyLog.logger_get (log_of (logged (a_world a))) (m_logger_read_index s) in
        (set_sessions (<[i := set_read_index read_index s]> (a_sessions a)) a, Ok lines)
    | None => (a, UB)
    end);
  respond (concat (map (fun line => line ++ [chr 10]) lines)).

(** [index]: the page itself is the framework's. *)
Definition index (cookie : option (list ascii)) (rand now : Z) : st app unit :=
  i ← on_sessions (get_session_data cookie rand now);
  modify (fun a => set_sessions (alter (set_read_index 0) i (a_sessions a)) a).

(** [service().shutdown()] *)
Definition shutdown : st app unit :=
  modify (fun a => set_service (a_timer a) false (a_reload a) a).

(** [config_reload] *)
Definition config_reload : st app unit := lift (Throw ReloadException).

Definition script : st app unit :=
  text ← gets (fun a => script_text (files (a_world a) !! lit "script/jquery.js"));
  respond text.

Definition status_get : st app unit :=
  g ← gets a_global;
  text ← on_world (save_json_status save status_of clock io_of version g);
  respond text.

Definition get_certificates : st app unit :=
  text ← gets (fun a => readfile my_certs_name (a_world a)); respond text.

Definition get_public_certificate : st app unit :=
  text ← gets (fun a => readfile my_public_cert_name (a_world a)); respond text.

(** The handlers of these names only call the functions of [proxy_global]. *)
Definition web_host_activate (name : list ascii) (now : Z) : st app unit :=
  g ← gets a_global; _ ← on_world (host_activate name now g); mret tt.

Definition web_host_test (name : list ascii) : st app unit :=
  g ← gets a_global;
  code ← lift (snd (host_test test name g false));
  set_status code.

Definition web_client_activate (name id : list ascii) (now : Z) : st app unit :=
  _ ← on_global (client_activate name id now); mret tt.

Definition handle (post : option posted) (cookie : option (list ascii)) (rand now : Z)
    (c : command) : st app unit :=
  match c with
  | ClientActivate name id => web_client_activate name id now
  | ClientActive name id checked => on_global (client_active ret_client name id checked)
  | HostActivate name => web_host_activate name now
  | HostActive name id checked => on_global (host_active ret_host bind name id checked now)
  | HostTest name => web_host_test name
  | CertificateDelete name =>
      g ← gets a_global; on_world (certificate_delete writable name g)
  | Shutdown => shutdown
  | ConfigUpload => config_upload post now
  | ConfigReload => config_reload
  | LogFile active => log_file active
  | Script => script
  | StatusGet => status_get
  | LoggerGet => logger_get cookie rand now
  | GetCertificates => get_certificates
  | GetPublicCertificate => get_public_certificate
  | Index => index cookie rand now
  end.

(** ** Dispatching *)

(** The framework calls the first entry that matches; no entry is a 404. *)
Fixpoint find_route (table : list (list ascii * (list (list ascii) -> command)))
    (url : list ascii) : option command :=
  match table with
  | [] => None
  | (pattern, make) :: table' =>
      match regex_match pattern url with
      | Some groups => Some (make groups)
      | None => find_route table' url
      end
  end.

Definition application_main (post : option posted) (cookie : option (list ascii)) (rand now : Z)
    (url : list ascii) : st app unit :=
  match find_route routes url with
  | Some c => handle post cookie rand now c
  | None => set_status 404
  end.

(** [proxy_app::main]: a reload arms the timer, other errors are logged. *)
Definition main (post : option posted) (cookie : option (list ascii)) (rand now : Z)
    (url : list ascii) : st app unit := fun a =>
  let body : st app unit :=
    '(found, param) ← lift (check_remove_substr url (lit "/json") []);
    application_main post cookie rand now (if found : bool then param else url) in
  match body a with
  | (a, Throw ReloadException) => (set_service true (a_running a) (a_reload a) a, Ok tt)
  | (a, Throw e) =>
      if is_std_exception e then log_line (what library_what e) a else (a, Throw e)
  | r => r
  end.

(** [timeout_handle], when the timer fires. *)
Definition timeout_handle : st app unit :=
  modify (fun a => set_service false false true a).

(** [signal::handler]; only SIGHUP asks for a reload. *)
Definition signal_handler (hangup : bool) : st app unit :=
  modify (fun a => set_service (a_timer a) false hangup a).

End handlers.

(** ** Lemmas: sessions *)

Lemma touch_Some id now sessions sessions' i :
  touch id now sessions = Some (sessions', i) ->
  exists s, sessions !! i = Some s /\ sd_id s = id /\ sessions' = <[i := update_timestamp now s]> sessions.
Proof.
  revert sessions' i. induction sessions as [|s sessions IH]; intros sessions' i; cbn [touch]; [done|].
  destruct (Z.eqb_spec (sd_id s) id) as [E|].
  - intros [= <- <-]. by exists s.
  - destruct (touch id now sessions) as [[rest j]|]; [|done]. intros [= <- <-].
    destruct (IH rest j eq_refl) as (s' & H1 & H2 & ->). by exists s'.
Qed.

Lemma touch_None id now sessions :
  touch id now sessions = None -> id ∉ map sd_id sessions.
Proof.
  induction sessions as [|s sessions IH]; cbn [touch map]; [set_solver|].
  destruct (Z.eqb_spec (sd_id s) id) as [E|]; [done|].
  destruct (touch id now sessions) as [[rest j]|]; [done|]. set_solver.
Qed.

Lemma touch_ids id now sessions sessions' i :
  touch id now sessions = Some (sessions', i) -> map sd_id sessions' = map sd_id sessions.
Proof.
  intros (s & Hi & E & ->)%touch_Some. change (map sd_id ?l) with (sd_id <$> l).
  rewrite list_fmap_insert. apply list_insert_id. by rewrite list_lookup_fmap, Hi.
Qed.

(** ** Lemmas: the files of an upload *)

Section upload.
Context `{Environment J}.
Implicit Types w : world.

(** What the framework does with a file throws nothing but its own errors. *)
Definition posted_ok (post : posted) : Prop :=
  match post with
  | PostedFile _ (Throw e) => is_std_exception e = true
  | PostedFile _ UB => False
  | _ => True
  end.

(** The outcome of a call that only throws what [catch] takes. *)
Definition caught (r : out unit) : Prop :=
  r = Ok tt \/ exists e, r = Throw e /\ is_std_exception e = true.

Lemma write_file_other filename text w f :
  f <> filename -> files (fst (write_file filename text w)) !! f = files w !! f.
Proof.
  intros Hne. cbn. destruct (writable filename); [|done]. cbn. by rewrite lookup_insert_ne.
Qed.

Lemma receive_spec post w w' r :
  posted_ok post -> receive post w = (w', r) ->
  caught r /\ forall f, f <> upload_filename -> files w' !! f = files w !! f.
Proof.
  intros Hp. destruct post as [valid saved|values]; cbn [receive].
  - destruct valid; cbn [ASSERTE]; [|intros [= <- <-]; split; [right; by eexists|done]].
    rewrite st_bind_lift. destruct saved as [text|e|]; [|intros [= <- <-]; split; [right; by eexists|done]|done].
    rewrite st_bind_lift. intros E. split.
    + left. by injection E as _ <-.
    + intros f Hf. rewrite <- (write_file_other upload_filename text w f Hf). by rewrite E.
  - destruct values as [|text values]; cbn [bool_decide negb ASSERTE];
      [intros [= <- <-]; split; [right; by eexists|done]|].
    intros E. split.
    + left. by injection E as _ <-.
    + intros f Hf. rewrite <- (write_file_other upload_filename text w f Hf).
      change (write_file upload_filename text w = (w', r)) in E. by rewrite E.
Qed.

Lemma copy_file_spec from to w w' r :
  copy_file from to w = (w', r) ->
  exists ok, r = Ok ok /\
    if ok : bool then exists text, files w !! from = Some text /\ files w' = <[to := text]> (files w)
    else w' = w.
Proof.
  unfold copy_file. rewrite st_bind_gets. destruct (files w !! from) as [text|].
  - destruct (copy_fails from to); intros [= <- <-]; [by exists false|]. exists true.
    split; [done|]. by exists text.
  - intros [= <- <-]. by exists false.
Qed.

Lemma replace_config_spec w w' r :
  replace_config w = (w', r) ->
  (r = Ok tt /\ exists text, files w !! upload_filename = Some text /\
     files w' !! upload_filename = Some text /\ files w' !! config_filename = Some text /\
     forall old, files w !! config_filename = Some old -> files w' !! backup_filename = Some old) \/
  (exists e, r = Throw e /\ is_std_exception e = true) /\
  files w' !! config_filename = files w !! config_filename.
Proof.
  intros E. unfold replace_config in E. rewrite st_bind_gets in E.
  assert (forall w1, files w1 !! config_filename = files w !! config_filename ->
            files w1 !! upload_filename = files w !! upload_filename ->
            (forall old, files w !! config_filename = Some old -> files w1 !! backup_filename = Some old) ->
            (ok ← copy_file upload_filename config_filename;
             lift (ASSERTE ok file_failed_copy (upload_filename ++ lit " to " ++ config_filename))) w1
            = (w', r) -> 
            (r = Ok tt /\ exists text, files w !! upload_filename = Some text /\
               files w' !! upload_filename = Some text /\ files w' !! config_filename = Some text /\
               forall old, files w !! config_filename = Some old -> files w' !! backup_filename = Some old) \/
            (exists e, r = Throw e /\ is_std_exception e = true) /\
            files w' !! config_filename = files w !! config_filename) as Hlast.
  { intros w1 H1 H2 H3 E1. destruct (copy_file upload_filename config_filename w1) as [w2 r2] eqn:Ec.
    destruct (copy_file_spec _ _ _ _ _ Ec) as ([] & -> & Hok);
      rewrite (st_bind_Ok _ _ _ _ _ Ec) in E1; injection E1 as <- <-.
    - left. split; [done|]. destruct Hok as (text & Ht & ->). exists text. rewrite <- H2.
      split; [done|]. rewrite lookup_insert_ne by done. split; [done|].
      rewrite lookup_insert_eq. split; [done|]. intros old Hold.
      rewrite lookup_insert_ne by done. by apply H3.
    - right. subst w2. split; [by eexists|done]. }
  case_bool_decide as Hex.
  - destruct (copy_file config_filename backup_filename w) as [w1 r1] eqn:Ec.
    destruct (copy_file_spec _ _ _ _ _ Ec) as ([] & -> & Hok).
    + destruct Hok as (text & Ht & Hw1).
      apply (Hlast w1); try by rewrite Hw1, lookup_insert_ne.
      * intros old Hold. rewrite Hw1, lookup_insert_eq. congruence.
      * erewrite st_bind_Ok in E; [exact E|]. by rewrite (st_bind_Ok _ _ _ _ _ Ec).
    + right. subst w1. erewrite st_bind_Throw in E; [|by rewrite (st_bind_Ok _ _ _ _ _ Ec)].
      injection E as <- <-. split; [by eexists|done].
  - apply (Hlast w); [done|done| |exact E]. intros old Hold. destruct Hex. by exists old.
Qed.

End upload.

(** ** Lemmas: what a handler leaves alone *)

(** The files are as before. *)
Definition keeps_files (a a' : app) : Prop := files (a_world a') = files (a_world a).

(** The connections and everything that is stored are as before; only the
    sessions, the response and expired windows may change. *)
Definition read_only (a a' : app) : Prop :=
  a_global a' = a_global a /\ files (a_world a') = files (a_world a) /\
  m_cert_names (a_world a') = m_cert_names (a_world a) /\
  logged (a_world a') = logged (a_world a) /\
  a_log_all a' = a_log_all a /\ a_in_log a' = a_in_log a /\ a_out_log a' = a_out_log a /\
  a_timer a' = a_timer a /\ a_running a' = a_running a /\ a_reload a' = a_reload a.

#[export] Instance keeps_files_preorder : PreOrder keeps_files.
Proof. unfold keeps_files. split; [done|]. intros ? ? ?. congruence. Qed.

#[export] Instance read_only_preorder : PreOrder read_only.
Proof.
  unfold read_only. split; [done|].
  intros a1 a2 a3 (?&?&?&?&?&?&?&?&?&?) (?&?&?&?&?&?&?&?&?&?). split_and!; congruence.
Qed.

Lemma keeps_files_on_global {A} (m : st proxy_global A) : preserves keeps_files (on_global m).
Proof. intros a a' r. unfold on_global. destruct (m (a_global a)). by intros [= <- _]. Qed.

Lemma keeps_files_log_line line : preserves keeps_files (log_line line).
Proof. by intros a a' r [= <- _]. Qed.

Lemma keeps_files_redirect url : preserves keeps_files (redirect url).
Proof. by intros a a' r [= <- _]. Qed.

#[export] Hint Resolve keeps_files_on_global keeps_files_log_line keeps_files_redirect : frames.

Section app_lemmas.
Context `{Json J} `{Environment J}.

(** What an update in place that succeeds does. *)
Definition updated (newobj : J) (now : Z) (g g' : proxy_global) : Prop :=
  exists g1 g2, unpopulate_json newobj g = (g1, Ok tt) /\
    populate_json parse_duration plugins newobj acl_all now g1 = (g2, Ok tt) /\
    lock ret_host ret_client bind g2 = (g', Ok tt).

Lemma on_global_inv {A} (m : st proxy_global A) a a' r :
  on_global m a = (a', r) -> exists g', m (a_global a) = (g', r) /\ a' = set_global g' a.
Proof. unfold on_global. destruct (m (a_global a)) as [g' r']. intros [= <- <-]. by exists g'. Qed.

Lemma update_in_place_spec newobj now a a' r :
  update_in_place newobj now a = (a', r) ->
  keeps_files a a' /\ (forall e, r = Throw e -> is_std_exception e = false) /\
  (r = Ok tt -> updated newobj now (a_global a) (a_global a')).
Proof.
  intros E. split; [|split].
  - revert E. apply (preserves_catch keeps_files); frames.
  - intros e ->. apply st_catch_inv in E as [(a1 & e1 & _ & _ & E)|[_ He]]; [|by apply He].
    cbn in E. by injection E as _ <-.
  - intros ->. apply st_catch_inv in E as [(a1 & e1 & _ & _ & E)|[Eb _]]; [done|].
    apply st_bind_inv in Eb as (a1 & [] & E1 & Eb). apply st_bind_inv in Eb as (a2 & [] & E2 & Eb).
    apply st_bind_inv in Eb as (a3 & [] & E3 & Eb).
    apply on_global_inv in E1 as (g1 & E1 & ->). apply on_global_inv in E2 as (g2 & E2 & ->).
    injection E3 as <-. apply on_global_inv in Eb as (g3 & Eb & ->). by exists g1, g2.
Qed.

Lemma on_world_inv {A} (m : st world A) a a' r :
  on_world m a = (a', r) -> exists w', m (a_world a) = (w', r) /\ a' = set_world w' a.
Proof. unfold on_world. destruct (m (a_world a)) as [w' r']. intros [= <- <-]. by exists w'. Qed.

(** What the program is left with after an upload. *)
Definition accepted (newobj : J) (now : Z) (a a' : app) (r : out unit) : Prop :=
  match is_new_configuration newobj (a_global a) with
  | Ok true => r = Throw ReloadException /\ a_global a' = a_global a
  | Ok false => (forall e, r = Throw e -> is_std_exception e = false) /\
                (r = Ok tt -> updated newobj now (a_global a) (a_global a'))
  | Throw e => r = (if is_std_exception e then Ok tt else Throw e) /\ a_global a' = a_global a
  | UB => r = UB /\ a_global a' = a_global a
  end.

(** The new configuration is in place, and the old one in the backup. *)
Definition replaced (text : list ascii) (a a' : app) : Prop :=
  files (a_world a') !! config_filename = Some text /\
  forall old, files (a_world a) !! config_filename = Some old ->
    files (a_world a') !! backup_filename = Some old.

Lemma replaced_keeps text a a1 a2 : replaced text a a1 -> keeps_files a1 a2 -> replaced text a a2.
Proof. unfold replaced, keeps_files. by intros [? ?] ->. Qed.

Lemma on_world_gets {A B} (f : world -> A) (k : A -> st app B) a :
  (on_world (gets f) ≫= k) a = k (f (a_world a)) a.
Proof. by destruct a. Qed.

Lemma on_global_out {A B} (f : proxy_global -> out A) (k : A -> st app B) a :
  (on_global (fun g => (g, f g)) ≫= k) a = (lift (f (a_global a)) ≫= k) a.
Proof. by destruct a. Qed.

(** The state after the new configuration is in place. *)
Lemma install_spec newobj now a a' r :
  (isnew ← on_global (fun g => (g, is_new_configuration newobj g));
   if isnew : bool then
     _ ← log_line (lit "Configuration changed sufficiently to warrant a restart. All connections will be closed");
     _ ← redirect (lit "/");
     lift (Throw ReloadException)
   else update_in_place newobj now) a = (a', r) ->
  keeps_files a a' /\
  match is_new_configuration newobj (a_global a) with
  | Ok true => r = Throw ReloadException /\ a_global a' = a_global a
  | Ok false => (forall e, r = Throw e -> is_std_exception e = false) /\
                (r = Ok tt -> updated newobj now (a_global a) (a_global a'))
  | Throw e => r = Throw e /\ a_global a' = a_global a
  | UB => r = UB /\ a_global a' = a_global a
  end.
Proof.
  rewrite on_global_out. destruct (is_new_configuration newobj (a_global a)) as [[]|e|].
  - intros [= <- <-]. by split.
  - rewrite st_bind_lift. apply update_in_place_spec.
  - intros [= <- <-]. by split.
  - intros [= <- <-]. by split.
Qed.

Lemma upload_spec post now a a' r :
  posted_ok post ->
  upload post now a
  = (a', r) ->
  (exists e, r = Throw e /\ is_std_exception e = true) /\ a_global a' = a_global a /\
    files (a_world a') !! config_filename = files (a_world a) !! config_filename \/
  exists text newobj, parse_json text = Some newobj /\ replaced text a a' /\
    match is_new_configuration newobj (a_global a) with
    | Ok true => r = Throw ReloadException /\ a_global a' = a_global a
    | Ok false => (forall e, r = Throw e -> is_std_exception e = false) /\
                  (r = Ok tt -> updated newobj now (a_global a) (a_global a'))
    | Throw e => r = Throw e /\ a_global a' = a_global a
    | UB => r = UB /\ a_global a' = a_global a
    end.
Proof.
  intros Hp E. unfold upload in E.
  apply st_bind_cases in E as [(a1 & [] & E1 & E)|E].
  2:{ left. assert (exists r1 : out unit, on_world (receive post) a = (a', r1) /\ r1 = r /\ r <> Ok tt)
        as (r1 & E1 & -> & Hr) by (destruct E as [(e & ? & ->)|[? ->]]; by eexists).
      apply on_world_inv in E1 as (w1 & E1 & ->).
      destruct (receive_spec _ _ _ _ Hp E1) as [[->|He] Hf]; [done|].
      split; [done|]. split; [done|]. by apply Hf. }
  apply on_world_inv in E1 as (w1 & E1 & ->).
  destruct (receive_spec _ _ _ _ Hp E1) as [_ Hf].
  rewrite on_world_gets in E.
  destruct (load_json upload_filename (a_world (set_world w1 a))) as [newobj|] eqn:Ej.
  2:{ injection E as <- <-. left. split; [by eexists|]. split; [done|]. by apply Hf. }
  rewrite st_bind_lift in E.
  apply st_bind_cases in E as [(a2 & [] & E2 & E)|E].
  2:{ left. assert (exists r2 : out unit, on_world (replace_config) (set_world w1 a) = (a', r2) /\
                      r2 = r /\ r <> Ok tt)
        as (r2 & E2 & -> & Hr) by (destruct E as [(e & ? & ->)|[? ->]]; by eexists).
      apply on_world_inv in E2 as (w2 & E2 & ->).
      destruct (replace_config_spec _ _ _ E2) as [[-> _]|[He Hc]]; [done|].
      split; [done|]. split; [done|]. cbn [set_world a_world] in *. rewrite Hc. by apply Hf. }
  apply on_world_inv in E2 as (w2 & E2 & ->). cbn [set_world a_world] in *.
  destruct (replace_config_spec _ _ _ E2) as [(_ & text & Ht & Hu & Hc & Hb)|[(e & ? & _) _]]; [|done].
  destruct (install_spec _ _ _ _ _ E) as [Hk Hi].
  right. exists text, newobj. split; [|split; [|exact Hi]].
  - unfold load_json in Ej. by rewrite Ht in Ej.
  - apply (replaced_keeps _ _ _ _) with (2 := Hk). split; [done|]. intros old Hold.
    apply Hb. by rewrite Hf.
Qed.

End app_lemmas.

(** ** Lemmas: reading *)

(** A call on the files and the activation list that only expires windows. *)
Definition world_read_only (w w' : world) : Prop :=
  files w' = files w /\ m_cert_names w' = m_cert_names w /\ logged w' = logged w.

#[export] Instance world_read_only_preorder : PreOrder world_read_only.
Proof.
  unfold world_read_only. split; [done|]. intros ? ? ? (?&?&?) (?&?&?). split_and!; congruence.
Qed.

Lemma read_only_on_world {A} (m : st world A) :
  preserves world_read_only m -> preserves read_only (on_world m).
Proof.
  intros Hm a a' r. unfold on_world. destruct (m (a_world a)) as [w' r'] eqn:E.
  intros [= <- _]. destruct (Hm _ _ _ E) as (? & ? & ?). by split_and!.
Qed.

Lemma read_only_on_sessions {A} (m : st (list session_data) A) : preserves read_only (on_sessions m).
Proof. intros a a' r. unfold on_sessions. destruct (m (a_sessions a)). by intros [= <- _]. Qed.

Lemma read_only_respond text : preserves read_only (respond text).
Proof. by intros a a' r [= <- _]. Qed.

Lemma read_only_set_status code : preserves read_only (set_status code).
Proof. by intros a a' r [= <- _]. Qed.

#[export] Hint Resolve read_only_on_sessions read_only_respond read_only_set_status : frames.

Section reading.
Context `{Json J}.

Lemma preserves_save_each {T E} (R : T -> T -> Prop) `{!PreOrder R} (value : nat -> E -> st T J)
    name index l obj :
  (forall i e, preserves R (value i e)) -> preserves R (save_each value name index l obj).
Proof.
  intros Hv. revert index obj. induction l as [|e l IH]; intros index obj; cbn [save_each]; frames; auto.
Qed.

Lemma remote_status_read_only status_of clock clients i ep :
  preserves world_read_only (remote_status status_of clock clients i ep : st world J).
Proof.
  unfold remote_status. destruct (clock i) as [now1 now2]. frames.
  by apply preserves_modify.
Qed.

Lemma status_read_only save status_of clock io_of version g :
  preserves world_read_only (save_json_status (J := J) save status_of clock io_of version g).
Proof.
  unfold save_json_status, status_value, host_save_json_status. frames.
  - apply preserves_save_each; [exact _|]. by intros i c w w' r [= <- _].
  - apply preserves_save_each; [exact _|]. intros i h. frames.
    apply preserves_save_each; [exact _|]. intros. apply remote_status_read_only.
Qed.

End reading.

(** The commands that only read. *)
Definition reads (c : command) : bool :=
  match c with
  | StatusGet | LoggerGet | GetCertificates | GetPublicCertificate | Script | Index | HostTest _ => true
  | _ => false
  end.

(** ** Properties *)


(** The commands that read, the page, the status, the log, the certificates,
    the script and the connection test, change no connection, configuration,
    file, certificate, log line or state of the service. *)
Theorem queries_read_only `{Json J} `{X509 cert} `{Environment J} post cookie rand now c a a' r :
  reads c = true ->
  handle post cookie rand now c a = (a', r) ->
  read_only a a'.
Proof.
  intros Hc. revert a a' r.
  change (preserves read_only (handle post cookie rand now c)).
  destruct c; try discriminate Hc; cbn [handle];
    unfold logger_get, index, script, status_get, get_certificates, get_public_certificate,
      web_host_test; frames.
  - apply read_only_on_world, status_read_only.
  - intros b b' r. destruct (a_sessions b !! _) as [s|]; [|by intros [= <- _]].
    destruct (ProxyLog.logger_get _ _). by intros [= <- _].
  - by apply preserves_modify.
Qed.

(** A browser gets the one session with its number, a new one when there is
    none; the sessions of other browsers are untouched. *)
Theorem session_of_browser cookie rand now sessions sessions' i id :
  match cookie with Some text => from_string text None = Some id | None => rand = id end ->
  NoDup (map sd_id sessions) ->
  get_session_data cookie rand now sessions = (sessions', Ok i) ->
  NoDup (map sd_id sessions') /\
  (exists s, sessions' !! i = Some s /\ sd_id s = id /\ m_timestamp s = now /\
     m_logger_read_index s = match sessions !! i with Some s0 => m_logger_read_index s0 | None => 0 end) /\
  forall k s, sessions !! k = Some s -> sd_id s <> id -> sessions' !! k = Some s.
Proof.
  intros Hid Hnd E. unfold get_session_data in E.
  assert ((match cookie with Some text => use_int (from_string text None) | None => Ok rand end) = Ok id)
    as Hok by (destruct cookie; [by rewrite Hid|by subst]).
  rewrite Hok, st_bind_lift, st_bind_gets in E.
  destruct (touch id now sessions) as [[rest j]|] eqn:Et.
  - injection E as <- <-. split; [by rewrite (touch_ids _ _ _ _ _ Et)|].
    destruct (touch_Some _ _ _ _ _ Et) as (s & Hs & Es & ->).
    assert (j < length sessions)%nat as Hj by by apply lookup_lt_Some in Hs.
    split.
    + exists (update_timestamp now s). by rewrite list_lookup_insert_eq, Hs.
    + intros k s' Hk Hne. rewrite list_lookup_insert_ne; [done|]. intros ->. congruence.
  - injection E as <- <-. apply touch_None in Et. rewrite map_app. split; [|split].
    + apply list.NoDup_app. split; [done|]. split; [set_solver|apply list.NoDup_singleton].
    + exists (new_session_data id now). rewrite list_lookup_middle by done.
      split_and!; try done. by rewrite (proj2 (lookup_ge_None sessions (length sessions))).
    + intros k s Hk _. by apply lookup_app_l_Some.
Qed.

(** A script without NUL bytes is sent as it is, whatever its length. *)
Theorem script_text_is_file text :
  zero ∉ text -> script_text (Some text) = text.
Proof.
  assert (forall fuel rest, zero ∉ rest -> (length rest < fuel)%nat -> script_loop fuel rest = rest) as G.
  { induction fuel as [|fuel IH]; intros rest Hz Hl; [lia|]. cbn [script_loop].
    rewrite c_str_no_nul by (intros Hin; apply Hz; rewrite <- (take_drop 1000 rest); set_solver).
    destruct (Nat.ltb_spec (length rest) 1000) as [Hlt|Hge].
    - by rewrite take_ge, app_nil_r by lia.
    - rewrite IH; [apply take_drop| |rewrite length_drop; lia].
      intros Hin. apply Hz. rewrite <- (take_drop 1000 rest). set_solver. }
  intros Hz. cbn [script_text]. apply G; [done|lia].
Qed.

(** ** Witnesses *)

Definition no_world : world :=
  {| files := ∅; m_cert_names := []; m_activate := []; logged := [] |}.

Definition app0 : app :=
  {| a_global := new_proxy_global; a_world := set_files {[config_filename := lit "{}"]} no_world;
     a_sessions := []; a_response := new_response; a_log_all := false; a_in_log := None;
     a_out_log := None; a_timer := false; a_running := true; a_reload := false |}.

(** A file with an empty object in it. *)
Definition parse0 (text : list ascii) : option tree :=
  if string_eqb text (lit "{}") then Some (Object []) else None.

(** The matching of the addresses the examples use. *)
Definition match0 (pattern url : list ascii) : option (list (list ascii)) :=
  if string_eqb pattern (lit "^" ++ url ++ lit "(.*)$") then Some [url; []] else None.

#[export] Instance surroundings0 : Environment tree := {
  parse_json := parse0;
  parse_line _ := 1;
  parse_duration _ d := d;
  plugins := [];
  library_what _ := [];
  writable _ := true;
  copy_fails _ _ := false;
  ret_host _ := 0;
  ret_client _ := 0;
  bind _ := Ok tt;
  test _ := Ok 200;
  save _ := Ok (lit "{}");
  status_of _ := {| s_local := None; s_remote := None |};
  clock _ _ := (0, 0);
  io_of _ := {| io_sockets := []; io_local := false; io_remote := false; io_count_in := 0;
                io_count_out := 0 |};
  version := lit "1";
  ip4_mask := lit "0.0.0.0";
  session_dir := lit "/tmp";
  log_of _ := ProxyLog.new_proxy_log [];
  regex_match := match0;
  own_keys _ := Ok true;
  execute_openssl _ := mret true }.


Example upload_runs :
  let '(a', r) := config_upload (Some (PostedForm [lit "{}"])) 5 app0 in
  r = Throw ReloadException /\
  files (a_world a') !! backup_filename = Some (lit "{}") /\
  files (a_world a') !! upload_filename = Some (lit "{}").
Proof. by vm_compute. Qed.

Lemma queries_read_only_witness :
  let '(a', _) := handle None None 7 5 LoggerGet app0 in read_only app0 a'.
Proof.
  destruct (handle None None 7 5 LoggerGet app0) as [a' r] eqn:E.
  exact (queries_read_only None None 7 5 LoggerGet app0 a' r eq_refl E).
Defined.

Lemma session_of_browser_witness :
  NoDup (map sd_id (fst (get_session_data (Some (lit "12")) 7 5 [new_session_data 3 1]))).
Proof.
  destruct (get_session_data (Some (lit "12")) 7 5 [new_session_data 3 1]) as [s r] eqn:E.
  assert (r = Ok 1%nat) as -> by (vm_compute in E; by injection E as _ <-).
  apply (session_of_browser (Some (lit "12")) 7 5 [new_session_data 3 1] s 1%nat 12).
  - by vm_compute.
  - apply list.NoDup_singleton.
  - exact E.
Defined.

Lemma script_text_is_file_witness : script_text (Some (lit "jquery")) = lit "jquery".
Proof. apply script_text_is_file. cbn. set_solver. Defined.
