(* ===== verification/Exchange.v ===== *)
(** * The background threads of the certificates

    [client_certificate_exchange] ([proxy_global.cpp]), which fetches the
    certificates of the other proxies from time to time, and the thread of
    [activate_host], which waits for the peers that were activated.

    What a thread meets is a script: for each pass of its loop the readings of
    its stop flag, the clock, the temporary names and the network.  While it
    sleeps other threads change the activation list; the list afterwards is part
    of the script. *)

From S2P Require Import Prelude CppString Json Endpoints Activation Certs Thread HttpClient.
From S2P Require WebApp.

(** The visit of one proxy: the two requests' connections, what the network
    takes and brings. *)
Record visit := {
  v_now : Z;
  v_tmp1 : list ascii;
  v_tmp2 : list ascii;
  v_connect : list ascii -> list ascii -> out unit;
  v_write : list ascii -> out unit;
  v_incoming : list ascii -> list (out (list ascii)) }.

(** One pass of the loop: the stop flag in the loop's test and in its sleep,
    the activation list after the sleep, and the visits. *)
Record pass := {
  p_stop : bool;
  p_sleep : nat -> bool;
  p_activated : activate_list;
  p_visits : list visit }.

Section exchange.
Context `{X509 cert}.
Context (writable : list ascii -> bool) (library_what : exn -> list ascii).

(** [httpclient::sync] with a result that is empty before. *)
Definition visit_sync (v : visit) (host url : list ascii) : out (bool * list ascii) :=
  sync (v_connect v) (v_write v) (v_incoming v url) host url [].

(** The loop over the proxies. *)
Fixpoint visit_all (eps : list LocalEndpoint) (visits : list visit) : st world unit :=
  match eps, visits with
  | ep :: eps', v :: visits' =>
      _ ← exchange_with writable library_what (visit_sync v) ep (v_now v) (v_tmp1 v) (v_tmp2 v);
      visit_all eps' visits'
  | _, _ => mret tt
  end.

(** A sleep; the time it takes is not part of the state. *)
Definition sleeps (stop : nat -> bool) (millisec : Z) (after : activate_list) : st world unit :=
  _ ← lift (snd (Thread.sleep stop millisec));
  modify (set_activate after).

Definition exchange_pass (eps : list LocalEndpoint) (p : pass) : st world unit :=
  _ ← lift (Thread.check_run (p_stop p) true);
  n ← gets (fun w => Activation.size (m_activate w));
  _ ← sleeps (p_sleep p) (if negb (n =? 0) then 20000 else 60000) (p_activated p);
  visit_all eps (p_visits p).

Fixpoint exchange_loop (eps : list LocalEndpoint) (passes : list pass) : st world unit :=
  match passes with
  | [] => mret tt
  | p :: passes' => _ ← exchange_pass eps p; exchange_loop eps passes'
  end.

(** [thread_proc]; the loop only ends by an exception, or with the script. *)
Definition exchange_thread (eps : list LocalEndpoint) (first : nat -> bool)
    (activated : activate_list) (passes : list pass) : st world unit :=
  _ ← sleeps first 5000 activated;
  exchange_loop eps passes.

(** [start] and [unlock] of [client_certificate_exchange]. *)
Definition exchange_start : st thread unit := Thread.start.
Definition exchange_unlock (t : thread) : thread := Thread.stop true t.

(** ** The activation thread *)

(** [activate_host::start]; [ret] is what [pthread_kill] says of the thread. *)
Definition activation_start (ret : Z) : st thread unit := fun t =>
  if Thread.is_running ret t then (t, Ok tt) else Thread.start t.

(** One pass: the sleeps while the list is empty, and the connection. *)
Record connection := {
  k_stop : bool;
  k_waits : list ((nat -> bool) * activate_list);
  k_accepted : out unit;
  k_activated : activate_list;
  k_now : Z;
  k_received : out (list ascii);
  k_tmp : list ascii;
  k_write : list ascii -> out Z }.

(** [while (size() == 0) sleep(10000)]; [false] when the script ends first. *)
Fixpoint wait_loop (waits : list ((nat -> bool) * activate_list)) : st world bool :=
  n ← gets (fun w => Activation.size (m_activate w));
  if n =? 0 then
    match waits with
    | (stop, after) :: waits' => _ ← sleeps stop 10000 after; wait_loop waits'
    | [] => mret false
    end
  else mret true.

(** Accepting takes its time too, in which the list changes. *)
Definition activation_pass (k : connection) : st world unit :=
  _ ← lift (Thread.check_run (k_stop k) true);
  ready ← wait_loop (k_waits k);
  if ready : bool then
    _ ← modify (set_activate (k_activated k));
    activate_round writable library_what (k_accepted k) (k_now k) (k_received k) (k_tmp k) (k_write k)
  else mret tt.

Fixpoint activation_thread (connections : list connection) : st world unit :=
  match connections with
  | [] => mret tt
  | k :: connections' => _ ← activation_pass k; activation_thread connections'
  end.

End exchange.

(** ** Lemmas: the certificates of a store *)

Section store.
Context `{X509Laws cert}.
Context (writable : list ascii -> bool) (library_what : exn -> list ascii).
Implicit Types (w : world) (certs : list cert).

(** The certificates in [certs.pem]. *)
Definition certs_of w : list cert := snd (load_certificates_file my_certs_name [] w).

Lemma certs_of_same w w' :
  files w' !! my_certs_name = files w !! my_certs_name -> certs_of w' = certs_of w.
Proof. unfold certs_of, load_certificates_file. by intros ->. Qed.

Lemma certs_of_saved certs w : files w !! my_certs_name = Some (PEM_file certs) -> certs_of w = certs.
Proof. intros Hf. unfold certs_of. by rewrite (load_PEM_file _ certs). Qed.

(** The two relations below hold of what leaves [certs.pem] alone. *)
Definition same_certs w w' : Prop := files w' !! my_certs_name = files w !! my_certs_name.

#[local] Instance same_certs_preorder : PreOrder same_certs.
Proof. unfold same_certs. split; [done|]. intros ? ? ?. congruence. Qed.

(** The store only gets longer, and no name is added twice. *)
Definition adds w w' : Prop :=
  certs_of w `prefix_of` certs_of w' /\
  (NoDup (cert_names (certs_of w)) -> NoDup (cert_names (certs_of w'))).

#[local] Instance adds_preorder : PreOrder adds.
Proof.
  split; [by intros w; split|]. intros w1 w2 w3 [P1 N1] [P2 N2].
  split; [by etransitivity|auto].
Qed.

Lemma adds_same w w' : same_certs w w' -> adds w w'.
Proof. intros Hs. unfold adds. by rewrite (certs_of_same w w' Hs). Qed.

(** Only certificates with a name in [A] come or go. *)
Definition limited (A : list (list ascii)) w w' : Prop :=
  (forall c, c ∈ certs_of w' -> c ∈ certs_of w \/ get_common_name c ∈ A) /\
  (forall c, c ∈ certs_of w -> get_common_name c ∉ A -> c ∈ certs_of w').

#[local] Instance limited_preorder A : PreOrder (limited A).
Proof.
  split; [split; auto|]. intros w1 w2 w3 [B1 K1] [B2 K2]. split.
  - intros c [Hc|Hc]%B2; [by apply B1|by right].
  - intros c Hc Ha. by apply K2; [apply K1|].
Qed.

Lemma limited_same A w w' : same_certs w w' -> limited A w w'.
Proof. intros Hs. unfold limited. rewrite (certs_of_same w w' Hs). auto. Qed.

Lemma preserves_same R {A} (m : st world A) :
  (forall w w', same_certs w w' -> R w w') -> preserves same_certs m -> preserves R m.
Proof. intros HR Hm w w' r E. by apply HR, (Hm _ _ _ E). Qed.

(** *** What leaves the store alone *)

Lemma same_certs_modify (f : world -> world) :
  (forall w, files (f w) = files w) -> preserves same_certs (modify f).
Proof. intros Hf w w' r [= <- _]. unfold same_certs. by rewrite Hf. Qed.

Lemma same_certs_string {A} tmp text (k : bool -> list cert -> A) :
  tmp <> my_certs_name ->
  preserves same_certs (call (fun w =>
    let '(ok, certs, w) := load_certificates_string writable tmp text [] w in (k ok certs, w))).
Proof.
  intros Htmp w w' r. pose proof (load_certificates_string_run writable tmp text w Htmp) as HL.
  unfold call. destruct (load_certificates_string _ _ _ _ _) as [[ok certs] w1].
  intros [= <- _]. apply HL.
Qed.

Lemma same_certs_log_and {A} (a : A) e : preserves same_certs (log_and library_what a e).
Proof. by intros w w' r [= <- _]. Qed.

#[local] Hint Resolve same_certs_log_and : frames.
#[local] Hint Extern 1 (preserves same_certs (modify _)) =>
  (apply same_certs_modify; reflexivity) : frames.

Lemma compare_public_same host tmp output :
  tmp <> my_certs_name -> preserves same_certs (compare_public writable host tmp output).
Proof.
  intros Htmp. unfold compare_public. apply preserves_bind; [exact _| |frames].
  by apply (same_certs_string tmp output pair).
Qed.

Lemma SetupCertificatesClient_same conn write :
  preserves same_certs (SetupCertificatesClient library_what conn write).
Proof. unfold SetupCertificatesClient. frames. Qed.

(** *** The exchange with other proxies *)

Lemma merge_loop_adds now remotes own l :
  exists added l', merge_loop now remotes own l = (own ++ added, l') /\
    (NoDup (cert_names own) -> NoDup (cert_names (own ++ added))).
Proof.
  revert own l. induction remotes as [|r remotes IH]; intros own l; cbn [merge_loop].
  - exists [], l. by rewrite app_nil_r.
  - rewrite (existsb_name writable). case_bool_decide as Hr; [apply IH|].
    destruct (IH (own ++ [r]) (snd (remove now (get_common_name r) l))) as (added & l' & -> & Hn).
    exists (r :: added), l'. rewrite <- app_assoc in *. split; [done|]. intros Hnd. apply Hn.
    unfold cert_names. rewrite map_app. apply list.NoDup_app. split; [done|]. cbn [map].
    split; [set_solver|apply list.NoDup_singleton].
Qed.

Lemma save_and_load {A} certs (a : A) w w' r :
  (_ ← call (save_certificates_file writable my_certs_name certs);
   _ ← call (load_certificate_names my_certs_name); mret a) w = (w', r) ->
  same_certs w w' \/ certs_of w' = certs.
Proof.
  unfold call, mbind, st_bind, save_certificates_file, load_certificate_names.
  destruct (writable my_certs_name); destruct (load_certificates_file _ _ _) as [[] l];
    intros [= <- _]; try (by left); right; apply certs_of_saved; cbn; by rewrite lookup_insert_eq.
Qed.

Lemma exchange_certificates_step now tmp output :
  tmp <> my_certs_name -> preserves adds (exchange_certificates writable now tmp output).
Proof.
  intros Htmp. unfold exchange_certificates. apply preserves_bind; [exact _| |].
  { apply preserves_same; [exact adds_same|]. by apply (same_certs_string tmp output pair). }
  intros [ok remotes]. apply preserves_bind; [exact _|apply preserves_lift; exact _|intros _].
  destruct (bool_decide _); [apply preserves_ret; exact _|].
  intros w w' r. rewrite st_bind_gets. unfold adds. unfold certs_of at 1 3.
  destruct (load_certificates_file my_certs_name [] w) as [b own] eqn:Eo. cbn [snd].
  rewrite st_bind_gets.
  destruct (merge_loop_adds now remotes own (m_activate w)) as (added & l' & -> & Hn).
  rewrite st_bind_modify. destruct (zlen own =? zlen (own ++ added)).
  - intros [= <- _]. rewrite (certs_of_same w) by done. unfold certs_of. by rewrite Eo.
  - intros [Hs| ->]%save_and_load; [|split; [by apply prefix_app_r|done]].
    rewrite (certs_of_same w) by exact Hs. unfold certs_of. by rewrite Eo.
Qed.

(** Visiting a proxy, whatever it answers. *)
Lemma exchange_with_step sync ep now tmp1 tmp2 :
  tmp1 <> my_certs_name -> tmp2 <> my_certs_name ->
  preserves adds (exchange_with writable library_what sync ep now tmp1 tmp2).
Proof.
  intros H1 H2. pose proof (exchange_certificates_step now tmp1) as He.
  assert (forall host output, preserves adds (compare_public writable host tmp2 output)) as Hc.
  { intros. apply preserves_same; [exact adds_same|by apply compare_public_same]. }
  unfold exchange_with. frames; auto.
  apply preserves_same; [exact adds_same|by apply same_certs_modify].
Qed.

(** The temporary names are not that of the store. *)
Definition visit_ok (v : visit) : Prop := v_tmp1 v <> my_certs_name /\ v_tmp2 v <> my_certs_name.

Lemma sleeps_same stop ms after : preserves same_certs (sleeps stop ms after).
Proof. unfold sleeps. frames. Qed.

Lemma exchange_loop_step eps passes :
  Forall (fun p => Forall visit_ok (p_visits p)) passes ->
  preserves adds (exchange_loop writable library_what eps passes).
Proof.
  assert (forall visits, Forall visit_ok visits -> forall eps,
            preserves adds (visit_all writable library_what eps visits)) as Hv.
  { induction 1 as [|v visits [H1 H2] _ IH]; intros [|ep eps']; cbn [visit_all];
      try (apply preserves_ret; exact _).
    apply preserves_bind; [exact _|by apply exchange_with_step|intros _; apply IH]. }
  induction 1 as [|p passes Hp _ IH]; cbn [exchange_loop]; [apply preserves_ret; exact _|].
  apply preserves_bind; [exact _| |done]. unfold exchange_pass. frames.
  apply preserves_same; [exact adds_same|apply sleeps_same].
Qed.

(** *** The activation thread *)

(** The server's side stores a certificate of one of the names. *)
Lemma SetupCertificatesServer_step A names received tmp :
  tmp <> my_certs_name -> names ⊆ A ->
  preserves (limited A) (SetupCertificatesServer writable library_what names received tmp).
Proof.
  intros Htmp HA. unfold SetupCertificatesServer.
  apply preserves_catch; [exact _| |intros e; apply preserves_same, same_certs_log_and; apply limited_same].
  unfold receive_certificate.
  assert (forall rem, preserves (limited A)
    (if bool_decide (get_common_name rem ∈ names)
     then store_certificate writable (get_common_name rem) rem else mret [])) as Hs.
  { intros rem. case_bool_decide as Hin; [|apply preserves_ret; exact _].
    intros w w' r. unfold store_certificate. rewrite st_bind_gets.
    destruct (load_certificates_file my_certs_name [] w) as [ok certs] eqn:El.
    assert (certs_of w = certs) as Ec by (unfold certs_of; by rewrite El).
    rewrite st_bind_assert. destruct ok; [|intros [= <- _]; reflexivity].
    rewrite erase_named_keep. intros [Hw|Hc]%save_and_load; [by apply limited_same|].
    unfold limited. rewrite Hc, Ec. unfold keep. split; intros c.
    - rewrite elem_of_app, list_elem_of_filter, list_elem_of_singleton. intros [[_ Hk]| ->]; auto.
    - intros Hk Ha. apply elem_of_app. left. apply list_elem_of_filter. split; [|done].
      intros E. apply Ha. rewrite E. by apply HA. }
  frames. apply preserves_same; [apply limited_same|]. by apply (same_certs_string tmp _ pair).
Qed.

(** The names a connection's peer may have. *)
Definition offered (k : connection) : list (list ascii) := activate_names (k_now k) (k_activated k).

Lemma activate_round_step A accepted now received tmp write w w' r :
  tmp <> my_certs_name -> activate_names now (m_activate w) ⊆ A ->
  activate_round writable library_what accepted now received tmp write w = (w', r) ->
  limited A w w'.
Proof.
  intros Htmp HA. unfold activate_round. revert r. 
  intros r [(w1 & e & E & _ & [= <- _])|[E _]]%st_catch_inv;
    (destruct accepted as [[]| |]; [|by injection E as <- _..]; rewrite st_bind_lift, st_bind_gets in E;
     match type of E with ?m w = _ => assert (preserves (limited A) m) as Hm end;
     [apply preserves_bind; [exact _|by apply SetupCertificatesServer_step|intros name]; frames;
      apply preserves_same; [apply limited_same|apply SetupCertificatesClient_same
                            |apply limited_same|by apply same_certs_modify]
     |by apply (Hm _ _ _ E)]).
Qed.

Lemma wait_loop_same waits : preserves same_certs (wait_loop waits).
Proof.
  pose proof sleeps_same. induction waits as [|[stop after] waits IH]; cbn [wait_loop]; frames.
Qed.

Lemma activation_pass_step A k :
  k_tmp k <> my_certs_name -> offered k ⊆ A ->
  preserves (limited A) (activation_pass writable library_what k).
Proof.
  intros Htmp HA. unfold activation_pass.
  apply preserves_bind; [exact _|frames|intros _]. apply preserves_bind; [exact _| |intros []].
  - apply preserves_same; [apply limited_same|apply wait_loop_same].
  - intros w w' r. rewrite st_bind_modify. intros E.
    transitivity (set_activate (k_activated k) w); [by apply limited_same|].
    by apply (activate_round_step A) in E.
  - frames.
Qed.

Lemma activation_thread_step A connections :
  Forall (fun k => k_tmp k <> my_certs_name /\ offered k ⊆ A) connections ->
  preserves (limited A) (activation_thread writable library_what connections).
Proof.
  induction 1 as [|k connections [Hk HA] _ IH]; cbn [activation_thread]; [apply preserves_ret; exact _|].
  apply preserves_bind; [exact _|by apply activation_pass_step|done].
Qed.

(** The visit of a proxy whose answer to the first request is [text]. *)
Lemma exchange_with_text sync ep now tmp1 tmp2 text w w' r :
  let host := l_hostname ep ++ chr 58 :: to_string (l_port ep) in
  sync host (lit "/json/command/certificate/get/") = Ok (true, text) ->
  tmp1 <> my_certs_name -> tmp2 <> my_certs_name ->
  writable my_certs_name = true -> writable tmp1 = true ->
  list_ok (m_activate w) -> PEM_read text <> [] ->
  exchange_with writable library_what sync ep now tmp1 tmp2 w = (w', r) ->
  certs_of w `prefix_of` certs_of w' /\
  forall name, name ∈ cert_names (PEM_read text) -> name ∈ cert_names (certs_of w').
Proof.
  intros host Hs H1 H2 Hw Hw1 Hl Hne. unfold exchange_with. fold host. rewrite Hs.
  destruct (exchange_certificates_adds writable now tmp1 text w H1 Hw Hw1 Hl Hne)
    as (added & w1 & Ee & Ec & _ & Hn & _).
  fold (certs_of w) (certs_of w1) in Ec.
  assert (same_certs w1 w' -> certs_of w `prefix_of` certs_of w' /\
            forall name, name ∈ cert_names (PEM_read text) -> name ∈ cert_names (certs_of w')) as Hend.
  { intros ->%certs_of_same. rewrite Ec. split; [by apply prefix_app_r|done]. }
  assert (forall output, preserves same_certs (compare_public writable host tmp2 output)) as Hc
    by (intros; by apply compare_public_same).
  match goal with |- st_catch ?m ?h w = _ -> _ =>
    assert (forall w2 r2, m w = (w2, r2) -> same_certs w1 w2) as Hm end.
  { intros w2 r2. rewrite st_bind_lift, (st_bind_Ok _ _ _ _ _ Ee).
    match goal with |- ?m w1 = _ -> _ => assert (preserves same_certs m) as Hm by frames end.
    apply Hm. }
  intros [(w2 & e & E & _ & [= <- _])|[E _]]%st_catch_inv; apply Hend; [|by apply (Hm _ _ E)].
  exact (Hm _ _ E).
Qed.

(** ** Properties *)

(** Whatever the other proxies answer to the exchange thread, and whenever it
    is stopped, the certificates it found in [certs.pem] stay there, in front
    and in their order, and it never adds a name that is there already. *)
Theorem exchange_thread_only_adds eps first activated passes w w' r :
  Forall (fun p => Forall visit_ok (p_visits p)) passes ->
  exchange_thread writable library_what eps first activated passes w = (w', r) ->
  certs_of w `prefix_of` certs_of w' /\
  (NoDup (cert_names (certs_of w)) -> NoDup (cert_names (certs_of w'))).
Proof.
  intros Hp. revert w w' r. change (preserves adds (exchange_thread writable library_what eps first activated passes)).
  unfold exchange_thread. apply preserves_bind; [exact _| |intros _; by apply exchange_loop_step].
  apply preserves_same; [exact adds_same|apply sleeps_same].
Qed.

(** C16. The activation thread, whoever connects to it, only changes certificates
    of names whose window was open when their peer had connected: every other
    certificate stays in [certs.pem], and none of another name comes in. *)
Theorem activation_thread_limited connections w w' r :
  Forall (fun k => k_tmp k <> my_certs_name) connections ->
  activation_thread writable library_what connections w = (w', r) ->
  let open name := exists k, k ∈ connections /\ name ∈ offered k in
  (forall c, c ∈ certs_of w' -> c ∈ certs_of w \/ open (get_common_name c)) /\
  (forall c, c ∈ certs_of w -> ~ open (get_common_name c) -> c ∈ certs_of w').
Proof.
  intros Hk E. cbv zeta. set (A := concat (map offered connections)).
  assert (forall name, name ∈ A <-> exists k, k ∈ connections /\ name ∈ offered k) as HA.
  { intros name. unfold A. rewrite list_elem_of_In, List.in_concat. split.
    - intros (l & (k & <- & Hin)%List.in_map_iff & Hn). exists k. by rewrite !list_elem_of_In.
    - intros (k & Hin & Hn). exists (offered k). apply list_elem_of_In in Hin, Hn.
      split; [|done]. apply List.in_map_iff. by exists k. }
  assert (limited A w w') as [HB HK].
  { apply (activation_thread_step A connections) with (s := w) (r := r); [|done].
    rewrite List.Forall_forall in Hk |- *. intros k Hin. split; [by apply Hk|].
    intros name Hn. apply HA. exists k. by rewrite list_elem_of_In. }
  split.
  - intros c [Hc|Hc]%HB; [by left|right; by apply HA].
  - intros c Hc Ho. apply HK; [done|]. by rewrite HA.
Qed.

End store.

(** C14. Two proxies together: one visits the other, whose web application
    answers the request; however the network cuts the answer into pieces, the
    visitor has afterwards a certificate of every name the other one has, and
    keeps its own. *)
Theorem certificates_spread `{Json J} `{X509Laws cert} `{!WebApp.Environment J}
    (b b' : WebApp.app) cookie rand t res (answer : response) chunks writable library_what v ep w w' r :
  let url := lit "/json/command/certificate/get/" in
  let host := l_hostname ep ++ chr 58 :: to_string (l_port ep) in
  let certs := PEM_read (readfile my_certs_name (WebApp.a_world b)) in
  WebApp.find_route WebApp.routes (lit "/command/certificate/get/") = Some WebApp.GetCertificates ->
  WebApp.r_body (WebApp.a_response b) = [] ->
  WebApp.main None cookie rand t url b = (b', res) ->
  response_ok answer -> take 5 (version answer) = lit "HTTP/" ->
  read_digits (code answer) 0 = 200 -> body answer = WebApp.r_body (WebApp.a_response b') ->
  concat chunks = response_text answer -> v_incoming v url = map Ok chunks ->
  split host (chr 58) = [l_hostname ep; to_string (l_port ep)] ->
  v_connect v (l_hostname ep) (to_string (l_port ep)) = Ok tt ->
  v_write v (request (l_hostname ep) url) = Ok tt ->
  visit_ok v -> writable my_certs_name = true -> writable (v_tmp1 v) = true ->
  list_ok (m_activate w) -> certs <> [] ->
  exchange_with writable library_what (visit_sync v) ep (v_now v) (v_tmp1 v) (v_tmp2 v) w = (w', r) ->
  certs_of w `prefix_of` certs_of w' /\
  forall name, name ∈ cert_names certs -> name ∈ cert_names (certs_of w').
Proof.
  intros url host certs Hroute Hb Hmain Hok Hver Hcode Hbody Hchunks Hin Hsplit Hconn Hwrite [Ht1 Ht2]
    Hw Hw1 Hl Hne E.
  apply (exchange_with_text writable library_what (visit_sync v) ep (v_now v) (v_tmp1 v) (v_tmp2 v)
           (readfile my_certs_name (WebApp.a_world b)) w w' r); try done.
  unfold visit_sync. fold url. fold host. rewrite Hin.
  rewrite (sync_response _ _ chunks host (l_hostname ep) (to_string (l_port ep)) url [] answer)
    by (done || by left).
  rewrite Hver, Hcode, bool_decide_true by done. rewrite Hbody.
  assert (b' = fst (WebApp.respond (readfile my_certs_name (WebApp.a_world b)) b)) as ->; [|cbn; by rewrite Hb].
  unfold WebApp.main, url in Hmain.
  replace (check_remove_substr (lit "/json/command/certificate/get/") (lit "/json") []) with
    (Ok (true, lit "/command/certificate/get/")) in Hmain by (by vm_compute).
  rewrite st_bind_lift in Hmain. unfold WebApp.application_main in Hmain. rewrite Hroute in Hmain.
  by injection Hmain as <- _.
Qed.

(** ** Witnesses *)

#[local] Existing Instance WebApp.surroundings0.

Definition sample_ep : LocalEndpoint := {| l_hostname := lit "host"; l_port := 8085 |}.

(** A response with this text, in two pieces. *)
Definition response_of (text : list ascii) : response :=
  {| version := lit "HTTP/1.1"; space := lit " "; code := lit "200"; reason := lit " OK";
     headers := [lit "Content-Type: text/plain"]; body := text |}.

Definition visit_of (text : list ascii) : visit :=
  {| v_now := 0; v_tmp1 := lit "tmp1"; v_tmp2 := lit "tmp2"; v_connect _ _ := Ok tt;
     v_write _ := Ok tt;
     v_incoming _ := map Ok [take 20 (response_text (response_of text));
                             drop 20 (response_text (response_of text))] |}.

Lemma visit_of_ok text : visit_ok (visit_of text).
Proof. by split. Qed.

Definition pass_of (text : list ascii) : pass :=
  {| p_stop := false; p_sleep _ := false; p_activated := []; p_visits := [visit_of text] |}.

Lemma exchange_thread_only_adds_witness :
  let '(w', r) := exchange_thread (fun _ => true) (fun _ => []) [sample_ep] (fun _ => false) []
                    [pass_of (lit "A"); pass_of (lit "AB")] world2 in
  [false] `prefix_of` certs_of w' /\ NoDup (cert_names (certs_of w')) /\ certs_of w' = [false; true].
Proof.
  destruct (exchange_thread (fun _ => true) (fun _ => []) [sample_ep] (fun _ => false) []
              [pass_of (lit "A"); pass_of (lit "AB")] world2) as [w' r] eqn:E.
  destruct (exchange_thread_only_adds (fun _ => true) (fun _ => []) [sample_ep] (fun _ => false) []
              [pass_of (lit "A"); pass_of (lit "AB")] world2 w' r) as [Hp Hn].
  - repeat constructor; discriminate.
  - exact E.
  - split; [exact Hp|]. split; [apply Hn, list.NoDup_singleton|].
    assert (certs_of (fst (exchange_thread (fun _ => true) (fun _ => []) [sample_ep]
              (fun _ => false) [] [pass_of (lit "A"); pass_of (lit "AB")] world2)) = [false; true])
      as Hc by (vm_compute; reflexivity).
    rewrite E in Hc. exact Hc.
Defined.

(** A peer with the certificate of this text, while a window for A is open. *)
Definition connection_of (text : list ascii) : connection :=
  {| k_stop := false; k_waits := [(fun _ => false, [Build_activate_t 100 (lit "A")])];
     k_accepted := Ok tt; k_activated := [Build_activate_t 100 (lit "A")]; k_now := 5;
     k_received := Ok text; k_tmp := lit "tmp"; k_write l := Ok (zlen l) |}.

Lemma activation_thread_limited_witness :
  let '(w', _) := activation_thread (fun _ => true) (fun _ => []) [connection_of (lit "A")] world2 in
  false ∈ certs_of w' /\ true ∈ certs_of w'.
Proof.
  destruct (activation_thread (fun _ => true) (fun _ => []) [connection_of (lit "A")] world2)
    as [w' r] eqn:E.
  destruct (activation_thread_limited (fun _ => true) (fun _ => []) [connection_of (lit "A")]
              world2 w' r) as [_ Hk].
  - by repeat constructor.
  - exact E.
  - split.
    + apply Hk; [by left|]. intros (k & ->%list_elem_of_singleton & Hn). vm_compute in Hn.
      apply list_elem_of_singleton in Hn. discriminate Hn.
    + assert (certs_of (fst (activation_thread (fun _ => true) (fun _ => [])
                [connection_of (lit "A")] world2)) = [false; true]) as Hc by (vm_compute; reflexivity).
      rewrite E in Hc. cbn [fst] in Hc. rewrite Hc. set_solver.
Defined.

Definition serving : WebApp.app :=
  WebApp.set_world (set_files {[my_certs_name := lit "AB"]} WebApp.no_world) WebApp.app0.

Lemma certificates_spread_witness :
  let '(w', _) := exchange_with (fun _ => true) (fun _ => []) (visit_sync (visit_of (lit "AB")))
                    sample_ep 0 (lit "tmp1") (lit "tmp2") world2 in
  lit "A" ∈ cert_names (certs_of w').
Proof.
  destruct (exchange_with (fun _ => true) (fun _ => []) (visit_sync (visit_of (lit "AB")))
              sample_ep 0 (lit "tmp1") (lit "tmp2") world2) as [w' r] eqn:E.
  destruct (WebApp.main (J := tree) None None 0 0 (lit "/json/command/certificate/get/") serving)
    as [b' res] eqn:Eb.
  assert (WebApp.r_body (WebApp.a_response b') = lit "AB") as Hb.
  { change b' with (fst (b', res)). rewrite <- Eb. vm_compute. reflexivity. }
  apply (certificates_spread (J := tree) serving b' None 0 0 res (response_of (lit "AB"))
           [take 20 (response_text (response_of (lit "AB")));
            drop 20 (response_text (response_of (lit "AB")))]
           (fun _ => true) (fun _ => []) (visit_of (lit "AB")) sample_ep world2 w' r);
    try reflexivity.
  - exact Eb.
  - split; [split; [discriminate|repeat constructor]|].
    split; [split; [discriminate|repeat constructor]|].
    split; [cbn; set_solver|].
    split; [split; [discriminate|repeat constructor]|].
    split; [vm_compute; reflexivity|]. split; [reflexivity|].
    split; [cbn; set_solver|]. split; [discriminate|].
    constructor; [split; [discriminate|cbn; set_solver]|constructor].
  - by rewrite Hb.
  - by split.
  - constructor.
  - discriminate.
  - exact E.
  - vm_compute. by left.
Defined.
