(* ===== verification/ActivationStop.v ===== *)
(** * Stopping the activation thread

    [proxy_global::stopall] stops the thread of [activate_host]
    ([proxy_global.cpp]) twice: first without waiting, and with waiting after the
    hosts and the clients were stopped.  Here the thread and the caller run side by
    side, as in [Session]; what the thread does with a connection is in
    [Exchange] and [Certs]. *)

From S2P Require Import Prelude Thread Explore Session.
From stdpp Require Import relations.

(** ** State *)

(** Where [threadproc] is: not started; at the loop's condition; waiting for an
    entry of the list; before the acceptor is made; before the socket's and the
    acceptor's pointer is set; in [accept]; exchanging certificates; at the end of
    the block; ended. *)
Inductive activation_pc :=
  | ANone | ATest | AWait | AOpen | AGuardSocket | AGuardAcceptor | AAccept | AServe | ADrop | AKilled.

(** Where [stopall] is: before it; in the first [stop], before shutting the
    acceptor and the socket; with the hosts and clients; in the second [stop], and
    in its join; after it. *)
Inductive stopall_pc :=
  | CNone | CAcceptor | CSocket | COthers | CAcceptorAgain | CSocketAgain | CJoin | CDone.

(** The acceptor, or a socket. *)
Inductive descriptor := Closed | Opened | Shut.

#[export] Instance activation_pc_eq_dec : EqDecision activation_pc.
Proof. solve_decision. Defined.
#[export] Instance stopall_pc_eq_dec : EqDecision stopall_pc.
Proof. solve_decision. Defined.
#[export] Instance descriptor_eq_dec : EqDecision descriptor.
Proof. solve_decision. Defined.

Record activation := {
  z_pc : activation_pc;
  z_caller : stopall_pc;
  z_thread : thread;
  mp_acceptor : bool;
  z_acceptor : descriptor;
  mp_socket : bool;
  z_socket : descriptor }.

Definition set_pc (pc : activation_pc) (s : activation) : activation :=
  {| z_pc := pc; z_caller := z_caller s; z_thread := z_thread s;
     mp_acceptor := mp_acceptor s; z_acceptor := z_acceptor s;
     mp_socket := mp_socket s; z_socket := z_socket s |}.
Definition set_stopall (pc : stopall_pc) (t : thread) (s : activation) : activation :=
  {| z_pc := z_pc s; z_caller := pc; z_thread := t;
     mp_acceptor := mp_acceptor s; z_acceptor := z_acceptor s;
     mp_socket := mp_socket s; z_socket := z_socket s |}.
Definition set_acceptor (p : bool) (d : descriptor) (s : activation) : activation :=
  {| z_pc := z_pc s; z_caller := z_caller s; z_thread := z_thread s;
     mp_acceptor := p; z_acceptor := d; mp_socket := mp_socket s; z_socket := z_socket s |}.
Definition set_socket (p : bool) (d : descriptor) (s : activation) : activation :=
  {| z_pc := z_pc s; z_caller := z_caller s; z_thread := z_thread s;
     mp_acceptor := mp_acceptor s; z_acceptor := z_acceptor s; mp_socket := p; z_socket := d |}.

Definition new_activation : activation :=
  {| z_pc := ANone; z_caller := CNone; z_thread := new_thread true;
     mp_acceptor := false; z_acceptor := Closed; mp_socket := false; z_socket := Closed |}.

(** ** Operations *)

(** The two parts of [interrupt]. *)
Definition shut (pointer : bool) (d : descriptor) : descriptor :=
  match d with Opened => if pointer then Shut else d | _ => d end.

Definition interrupt_acceptor (s : activation) : activation :=
  set_acceptor (mp_acceptor s) (shut (mp_acceptor s) (z_acceptor s)) s.
Definition interrupt_socket (s : activation) : activation :=
  set_socket (mp_socket s) (shut (mp_socket s) (z_socket s)) s.

(** [empty] says whether the list is; [ok] whether the call succeeds. *)
Inductive move :=
  | StartActivation | Tests | Waits (empty : bool) | OpensAcceptor (ok : bool) | GuardsSocket
  | GuardsAcceptor | Accepts (ok : bool) | Serves | Drops
  | FirstStop | ShutsAcceptor | ShutsSocket | SecondStop | Joins.

#[export] Instance move_eq_dec : EqDecision move.
Proof. solve_decision. Defined.

Definition runs (s : activation) : bool :=
  match check_run (m_stop (z_thread s)) true with Ok _ => true | _ => false end.

Definition kill (s : activation) : activation :=
  set_pc AKilled (set_stopall (z_caller s) (returned (z_thread s)) s).

(** [start] and the parts of [threadproc]; the flag is only tested at the head of
    the loop and in a sleep, and an acceptor that cannot be made is tried again at
    once. *)
Definition thread_move (m : move) (s : activation) : option activation :=
  match m, z_pc s with
  | StartActivation, ANone =>
      if bool_decide (z_caller s = CNone) then
        Some (match start (z_thread s) with
              | (t, Ok _) => set_pc ATest (set_stopall (z_caller s) t s)
              | (t, _) => s
              end)
      else None
  | Tests, ATest => Some (if runs s then set_pc AWait s else kill s)
  | Waits empty, AWait =>
      Some (if empty then if runs s then s else kill s else set_pc AOpen s)
  | OpensAcceptor ok, AOpen =>
      Some (if ok then set_pc AGuardSocket (set_acceptor false Opened s) else set_pc ATest s)
  | GuardsSocket, AGuardSocket => Some (set_pc AGuardAcceptor (set_socket true Closed s))
  | GuardsAcceptor, AGuardAcceptor => Some (set_pc AAccept (set_acceptor true (z_acceptor s) s))
  | Accepts ok, AAccept =>
      Some (if ok then set_pc AServe (set_socket (mp_socket s) Opened s) else set_pc ADrop s)
  | Serves, AServe => Some (set_pc ADrop s)
  | Drops, ADrop => Some (set_pc ATest (set_acceptor false Closed (set_socket false Closed s)))
  | _, _ => None
  end.

(** The parts of [stopall] that concern the thread. *)
Definition caller_move (m : move) (s : activation) : option activation :=
  match m, z_caller s with
  | FirstStop, CNone =>
      Some (set_stopall (if joinable (z_thread s) then CAcceptor else COthers)
              (stop false (z_thread s)) s)
  | ShutsAcceptor, CAcceptor => Some (interrupt_acceptor (set_stopall CSocket (z_thread s) s))
  | ShutsSocket, CSocket => Some (interrupt_socket (set_stopall COthers (z_thread s) s))
  | SecondStop, COthers =>
      Some (set_stopall (if joinable (z_thread s) then CAcceptorAgain else CDone)
              (stop false (z_thread s)) s)
  | ShutsAcceptor, CAcceptorAgain => Some (interrupt_acceptor (set_stopall CSocketAgain (z_thread s) s))
  | ShutsSocket, CSocketAgain => Some (interrupt_socket (set_stopall CJoin (z_thread s) s))
  | Joins, CJoin =>
      if joined (z_thread s) then Some (set_stopall CDone (destroy (z_thread s)) s) else None
  | _, _ => None
  end.

Definition make_move (m : move) (s : activation) : option activation :=
  match m with
  | FirstStop | ShutsAcceptor | ShutsSocket | SecondStop | Joins => caller_move m s
  | _ => thread_move m s
  end.

Definition step : activation -> activation -> Prop := moves_to make_move.

Definition reachable (s : activation) : Prop := rtc step new_activation s.

(** The moves that need no other process: an acceptor that was not shut may wait
    for a connection for ever.  The exchange reads with a time limit. *)
Definition certain (m : move) (s : activation) : bool :=
  match m with
  | FirstStop => false
  | Accepts _ => negb (bool_decide (z_acceptor s = Opened))
  | _ => true
  end.

(** ** The states *)

#[export] Instance activation_eq_dec : EqDecision activation.
Proof. solve_decision. Defined.

Definition all_moves : list move :=
  [StartActivation; Tests; Waits true; Waits false; OpensAcceptor true; OpensAcceptor false;
   GuardsSocket; GuardsAcceptor; Accepts true; Accepts false; Serves; Drops; FirstStop;
   ShutsAcceptor; ShutsSocket; SecondStop; Joins].

Lemma activation_moves_all m : m ∈ all_moves.
Proof. destruct m as [| |[]|[]| | |[]| | | | | | |]; apply (bool_decide_unpack _); by vm_compute. Qed.

Definition pc_code (pc : activation_pc) : N :=
  match pc with
  | ANone => 0 | ATest => 1 | AWait => 2 | AOpen => 3 | AGuardSocket => 4 | AGuardAcceptor => 5
  | AAccept => 6 | AServe => 7 | ADrop => 8 | AKilled => 9
  end.

Definition stopall_code (pc : stopall_pc) : N :=
  match pc with
  | CNone => 0 | CAcceptor => 1 | CSocket => 2 | COthers => 3 | CAcceptorAgain => 4
  | CSocketAgain => 5 | CJoin => 6 | CDone => 7
  end.

Definition activation_key (s : activation) : positive :=
  N.succ_pos (pc_code (z_pc s) + 16 * stopall_code (z_caller s)).

Definition all_states : list activation :=
  Eval vm_compute in
    explore make_move all_moves activation_key (Z.to_nat 20000) [new_activation] [] ∅.

(** ** Lemmas *)

Lemma activation_always (P : activation -> Prop) `{!forall s, Decision (P s)} s :
  forallb (fun s => bool_decide (P s)) all_states = true -> reachable s -> P s.
Proof.
  intros HP Hr. apply (bool_decide_eq_true_1 (P s)).
  apply (always make_move all_moves activation_moves_all activation_key all_states new_activation s
           (fun s => bool_decide (P s))); [vm_compute; reflexivity|apply (bool_decide_unpack _); by vm_compute|done..].
Qed.

(** No move but one that another process must help. *)
Definition blocked (s : activation) : Prop :=
  Forall (fun m => certain m s = false \/ make_move m s = None) all_moves.

Lemma activation_blocked s :
  (forall m s', certain m s = true -> make_move m s <> Some s') -> blocked s.
Proof.
  intros Hs. apply List.Forall_forall. intros m _. destruct (certain m s) eqn:Hm; [right|by left].
  destruct (make_move m s) as [s'|] eqn:E; [|done]. by destruct (Hs m s').
Qed.

(** ** Properties *)

(** C34. [stopall] and the activation thread never wait for each other, and of all
    the calls the thread makes only one can hold [stopall] up: when neither of them
    can go on without another process, the thread has ended and [stopall] is done
    with it, or the thread is in [accept] on an acceptor that neither of the two
    interrupts shut.  The latter does happen: the thread looks at its stop flag
    before it makes the acceptor and not after, and both interrupts may come in
    between; then nothing but a new connection can move either of them. *)
Theorem activation_stop_waits :
  (forall s, reachable s -> z_caller s <> CNone ->
     (forall m s', certain m s = true -> make_move m s <> Some s') ->
     z_caller s = CDone /\ running (z_thread s) = false \/
     z_caller s = CJoin /\ z_pc s = AAccept /\ z_acceptor s = Opened) /\
  (exists s, reachable s /\ z_caller s = CJoin /\ z_acceptor s = Opened /\
     forall m s', make_move m s = Some s' -> exists ok, m = Accepts ok).
Proof.
  split.
  - intros s Hr Hc Hb%activation_blocked. revert Hc Hb. pattern s.
    eapply activation_always; [vm_compute; reflexivity|done].
  - set (l := [StartActivation; Tests; Waits false; FirstStop; ShutsAcceptor; ShutsSocket; SecondStop;
           ShutsAcceptor; ShutsSocket; OpensAcceptor true; GuardsSocket; GuardsAcceptor]).
    exists (default new_activation (play make_move l new_activation)).
    split; [apply (played make_move _ l new_activation); [constructor|vm_compute; reflexivity]|].
    split; [vm_compute; reflexivity|]. split; [vm_compute; reflexivity|].
    intros m s' E. destruct m as [| |[]|[]| | |ok| | | | | | |]; first [by exists ok|vm_compute in E; discriminate E].
Qed.
