(* ===== verification/Main.v ===== *)
(** * The program

    [load_configuration] ([proxy_global.cpp]) and [main] ([main.cpp]): loading
    the configuration, making the own certificate, running the web application
    until it is shut down, and starting again on a reload.

    OpenSSL's command and the use of the own keys are parameters.  What happens
    while the service runs is a script: the requests, the timer and the
    signals, in their order; the threads of hosts and clients are those of their
    own files. *)

From S2P Require Import Prelude CppString Json Endpoints Activation Certs Thread BaseClient RemoteHost Config Status Errors WebApp.

Record program := {
  p_app : app;
  (** The static counter of [load_configuration]. *)
  openssl_count : Z;
  exit_code : Z }.

Definition set_app (a : app) (p : program) : program :=
  {| p_app := a; openssl_count := openssl_count p; exit_code := exit_code p |}.

Definition set_openssl_count (n : Z) (p : program) : program :=
  {| p_app := p_app p; openssl_count := n; exit_code := exit_code p |}.

Definition set_exit_code (n : Z) (p : program) : program :=
  {| p_app := p_app p; openssl_count := openssl_count p; exit_code := n |}.

Definition on_app {A} (m : st app A) : st program A := fun p =>
  let '(a, r) := m (p_app p) in (set_app a p, r).

Definition acl_config_web : json_acl :=
  {| acl_hosts := false; acl_clients := false; acl_web := true; acl_config := true |}.

(** What happens to the service. *)
Inductive event :=
  | Request (post : option posted) (cookie : option (list ascii)) (rand now : Z) (url : list ascii)
  | TimerFires
  | Signal (hangup : bool).

(** One round of the loop in [main]: the outcomes of making the log directory
    and of setting the service up, the time of the load, and the events. *)
Record round := {
  log_directory : out unit;
  new_service : out unit;
  load_time : Z;
  events : list event }.

Section program.
Context `{Json J} `{X509 cert} `{Environment J}.

(** ** Loading the configuration *)

Definition parse_failed (text : list ascii) : exn :=
  SystemError parse_file_failed (config_filename ++ lit " on line: " ++ to_string (parse_line text)).

Definition name_unknown : list ascii :=
  config_filename ++ lit " should contain " ++ [chr 34] ++ lit "config" ++ [chr 34] ++ lit " : { "
  ++ [chr 34] ++ lit "name" ++ [chr 34] ++ lit " : " ++ [chr 34] ++ lit "own_certificate_name"
  ++ [chr 34] ++ lit " }".

(** Do the own files hold a private key and a certificate?  Only when the key's
    file is there. *)
Definition check_private : st app bool :=
  w ← gets a_world;
  match files w !! my_private_key_name with
  | Some _ =>
      load_private ← lift (own_keys w);
      _ ← (if load_private : bool then mret tt
           else log_line (lit "Found private file which does NOT contain a valid private key. Delete file: "
                          ++ my_private_key_name ++ lit " and try again"));
      mret load_private
  | None => mret false
  end.

(** Is there an own certificate, and for which name? *)
Definition check_public : st app (bool * list ascii) :=
  w ← gets a_world;
  name ← gets (fun a => m_name (a_global a));
  let '(ok, certs) := load_certificates_file my_public_cert_name [] w in
  match ok, certs with
  | true, c :: _ =>
      let common_name := get_common_name c in
      _ ← (if string_eqb name common_name then mret tt
           else log_line (lit "Own name " ++ [chr 34] ++ name ++ [chr 34]
                          ++ lit " does not match own certificate " ++ [chr 34] ++ common_name ++ [chr 34]));
      mret (true, common_name)
  | _, _ => mret (false, [])
  end.

(** Make the own certificate, and ask for a reload the first two times. *)
Definition generate : st program unit :=
  name ← gets (fun p => m_name (a_global (p_app p)));
  _ ← lift (if bool_decide (name = []) then
              Throw (RuntimeError (lit "certificate files not found and cannot be generated because the name is not specified in the configuration json file"))
            else Ok tt);
  ok ← on_app (on_world (execute_openssl name));
  if ok : bool then
    _ ← modify (fun p => set_openssl_count (openssl_count p + 1) p);
    count ← gets openssl_count;
    if count <? 3 then
      _ ← on_app (log_line (lit "Succesfully executed the initial OpenSSL command"));
      lift (Throw ReloadException)
    else on_app (log_line (lit "Unkown fatal error, possibly endless loop!"))
  else on_app (log_line (lit "Failed to execute initial OpenSSL command. Is OpenSSL properly installed and available in the path")).

(** The file with the others' certificates is made when it is not there. *)
Definition create_certs : st world unit :=
  modify (fun w => match files w !! my_certs_name with
                   | Some _ => w
                   | None => if writable my_certs_name
                             then set_files (<[my_certs_name := []]> (files w)) w else w
                   end).

(** The hosts and clients are only loaded with the own certificate.  The value is
    null before, which a text that does not parse leaves it. *)
Definition load_connections (common_name : list ascii) (now : Z) : st app unit :=
  name ← gets (fun a => m_name (a_global a));
  if bool_decide (name <> []) && string_eqb name common_name then
    w ← gets a_world;
    _ ← (match load_json config_filename w with
         | Some _ => mret tt
         | None => log_line (lit "Failed to load and parse configuration file: " ++ config_filename
                             ++ lit " on line: "
                             ++ to_string (parse_line (readfile config_filename w)))
         end);
    on_global (populate_json parse_duration plugins
                 (default null (load_json config_filename w)) acl_all now)
  else mret tt.

(** The settings, which must have a name. *)
Definition load_settings (now : Z) : st program unit :=
  w ← gets (fun p => a_world (p_app p));
  my_object ← lift (match load_json config_filename w with
                    | Some obj => Ok obj
                    | None => Throw (parse_failed (readfile config_filename w))
                    end);
  _ ← on_app (on_global (populate_json parse_duration plugins my_object acl_config_web now));
  name ← gets (fun p => m_name (a_global (p_app p)));
  lift (ASSERTE (negb (bool_decide (name = []))) certificate_name_unknown name_unknown).

(** The own certificate, made when it is not there, and the name in it. *)
Definition own_certificate : st program (list ascii) :=
  load_private ← on_app check_private;
  '(load_public, common_name) ← on_app check_public;
  _ ← (if load_private && load_public then mret tt else generate);
  _ ← on_app (on_world create_certs);
  mret common_name.

(** The connections and the others' certificates. *)
Definition load_own (now : Z) : st program unit :=
  common_name ← own_certificate;
  _ ← on_app (load_connections common_name now);
  _ ← on_app (on_world (call (load_certificate_names my_certs_name)));
  mret tt.

Definition load_configuration (now : Z) : st program bool :=
  st_catch (_ ← load_settings now; _ ← load_own now; mret true) (fun _ => mret false).

(** ** Running *)

(** [setup_config]: what the web service is told. *)
Definition setup_config (g : proxy_global) : out J :=
  o ← set_nested undefined (lit "file_server") (lit "enable") (of_bool false);
  o ← (if m_debug g then
         o ← set_nested o (lit "file_server") (lit "enable") (of_bool true);
         set_nested o (lit "http") (lit "script") (of_string (lit "/json"))
       else mret o);
  let cookie := lit "uniproxy" ++ to_string (m_web_port g) in
  o ← set_nested o (lit "service") (lit "api") (of_string (lit "http"));
  o ← set_nested o (lit "service") (lit "port") (of_int (m_web_port g));
  o ← set_nested o (lit "service") (lit "ip") (of_string ip4_mask);
  o ← set_nested o (lit "session") (lit "location") (of_string (lit "client"));
  '(session, o) ← member o (lit "session");
  session ← set_nested session (lit "cookies") (lit "prefix") (of_string cookie);
  session ← set_nested session (lit "server") (lit "storage") (of_string (lit "files"));
  session ← set_nested session (lit "server") (lit "dir") (of_string session_dir);
  session ← set_nested session (lit "client") (lit "encryptor") (of_string (lit "hmac"));
  session ← set_nested session (lit "client") (lit "key")
              (of_string (lit "29b6e071ad5870228c6a2115d88d3b2e"));
  o ← set o (lit "session") session;
  set_nested o (lit "service") (lit "worker_threads") (of_int 5).

(** One event; the timer only fires when it is armed. *)
Definition on_event (e : event) : st app unit :=
  match e with
  | Request post cookie rand now url =>
      WebApp.main post cookie rand now url
  | TimerFires =>
      armed ← gets a_timer;
      if armed : bool then timeout_handle else mret tt
  | Signal hangup => signal_handler hangup
  end.

(** [srv.run()]: returns once the service was shut down.  [false] when the
    script ends before. *)
Fixpoint run (es : list event) : st app bool :=
  running ← gets a_running;
  if running : bool then
    match es with
    | [] => mret false
    | e :: es' => _ ← on_event e; run es'
    end
  else mret true.

(** [std::lock_guard<proxy_global>]: [lock] first, and [unlock], which stops
    everything, however the block is left. *)
Definition global_guard {A} (m : st app A) : st app A :=
  _ ← on_global (lock ret_host ret_client bind);
  ((fun a =>
      match m a with
      | (a, UB) => (a, UB)
      | (a, r) => (set_global (stopall (a_global a)) a, r)
      end) : st app A).

(** The constructor of [signal], and the service that starts to run. *)
Definition start_service : st app unit := modify (fun a => set_service false true false a).

Definition serve (r : round) : st app bool :=
  g ← gets a_global;
  _ ← lift (snd (save_json_config save ip4_mask g tt));
  _ ← lift (setup_config g);
  _ ← lift (new_service r);
  _ ← start_service;
  run (events r).

(** The [try] block; [log().clear()] removes nothing. *)
Definition round_body (r : round) : st program bool :=
  _ ← modify (set_exit_code 0);
  _ ← on_app (modify (fun a => set_service (a_timer a) (a_running a) false a));
  _ ← on_app (log_line (lit "UniProxy starting"));
  loaded ← load_configuration (load_time r);
  _ ← (if loaded : bool then mret tt else on_app (log_line (lit "Failed to load configuration")));
  _ ← lift (log_directory r);
  on_app (global_guard (serve r)).

(** With its handlers. *)
Definition main_round (r : round) : st program bool := fun p =>
  match round_body r p with
  | (p, Throw ReloadException) =>
      (on_app (modify (fun a => set_service (a_timer a) (a_running a) true a)) ≫= fun _ => mret true) p
  | (p, Throw e) =>
      if is_std_exception e then
        (_ ← on_app (log_line (what library_what e));
         _ ← modify (set_exit_code 1);
         mret true) p
      else (p, Throw e)
  | r => r
  end.

(** The loop; [None] when the program is still running at the end of the
    script. *)
Fixpoint main (rounds : list round) : st program (option Z) :=
  match rounds with
  | [] => mret None
  | r :: rounds' =>
      ended ← main_round r;
      if ended : bool then
        reload ← gets (fun p => a_reload (p_app p));
        if reload : bool then main rounds'
        else
          _ ← on_app (on_global (modify stopall));
          code ← gets exit_code;
          mret (Some code)
      else mret None
  end.

End program.

(** ** Lemmas: what the parts throw *)

Lemma on_app_throws {A} (m : st app A) : st_throws_std m -> st_throws_std (on_app m).
Proof. intros Hm p. specialize (Hm (p_app p)). unfold on_app. by destruct (m _). Qed.

Lemma on_world_throws {A} (m : st world A) : st_throws_std m -> st_throws_std (on_world m).
Proof. intros Hm a. specialize (Hm (a_world a)). unfold on_world. by destruct (m _). Qed.

Lemma on_global_throws {A} (m : st proxy_global A) : st_throws_std m -> st_throws_std (on_global m).
Proof. intros Hm a. specialize (Hm (a_global a)). unfold on_global. by destruct (m _). Qed.

Lemma log_line_throws line : st_throws_std (log_line line).
Proof. by intros a. Qed.

Lemma call_throws {A} (f : world -> A * world) : st_throws_std (call f).
Proof. intros w. unfold call. by destruct (f w). Qed.

#[export] Hint Resolve on_world_throws on_global_throws log_line_throws call_throws : throws.

(** A call of [load_configuration] that does not count. *)
Definition no_count {A} (m : st program A) : Prop :=
  forall p p' r, m p = (p', r) -> openssl_count p' = openssl_count p /\ throws_std r.

(** A part of it: it asks for a reload, and counts that, or it throws what the
    handler takes. *)
Definition counts {A} (m : st program A) : Prop :=
  forall p p' r, m p = (p', r) ->
    r = Throw ReloadException /\ openssl_count p' = openssl_count p + 1 /\ openssl_count p' < 3 \/
    openssl_count p <= openssl_count p' <= openssl_count p + 1 /\ throws_std r.

Lemma no_count_on_app {A} (m : st app A) : st_throws_std m -> no_count (on_app m).
Proof.
  intros Hm p p' r E. pose proof (on_app_throws m Hm p) as Ht. rewrite E in Ht.
  split; [|exact Ht]. unfold on_app in E. destruct (m (p_app p)). by injection E as <- _.
Qed.

Lemma no_count_lift {A} (m : out A) : throws_std m -> no_count (lift m).
Proof. by intros Hm p p' r [= <- <-]. Qed.

Lemma no_count_gets {A} (f : program -> A) : no_count (gets f).
Proof. by intros p p' r [= <- <-]. Qed.

Lemma no_count_ret {A} (a : A) : no_count (mret a).
Proof. by intros p p' r [= <- <-]. Qed.

Lemma no_count_bind {A B} (m : st program A) (f : A -> st program B) :
  no_count m -> (forall a, no_count (f a)) -> no_count (m ≫= f).
Proof.
  intros Hm Hf p p' r [(p1 & a & E1 & E2)|[(e & E1 & ->)|[E1 ->]]]%st_bind_cases.
  - apply Hm in E1 as [<- _]. by apply Hf in E2.
  - by apply Hm in E1 as [? Ht]; split; [|intros ? [= <-]; apply Ht].
  - by apply Hm in E1 as [? Ht].
Qed.

Lemma counts_no_count {A} (m : st program A) : no_count m -> counts m.
Proof. intros Hm p p' r E. right. apply Hm in E as [-> ?]. split; [lia|done]. Qed.

Lemma counts_bind_l {A B} (m : st program A) (f : A -> st program B) :
  no_count m -> (forall a, counts (f a)) -> counts (m ≫= f).
Proof.
  intros Hm Hf p p' r [(p1 & a & E1 & E2)|[(e & E1 & ->)|[E1 ->]]]%st_bind_cases.
  - apply Hm in E1 as [<- _]. by apply Hf in E2.
  - right. apply Hm in E1 as [-> Ht]. split; [lia|]. intros ? [= <-]. by apply Ht.
  - right. apply Hm in E1 as [-> _]. by split; [lia|].
Qed.

Lemma counts_bind_r {A B} (m : st program A) (f : A -> st program B) :
  counts m -> (forall a, no_count (f a)) -> counts (m ≫= f).
Proof.
  intros Hm Hf p p' r [(p1 & a & E1 & E2)|[(e & E1 & ->)|[E1 ->]]]%st_bind_cases.
  - apply Hf in E2 as [-> Ht]. apply Hm in E1 as [(? & _)|[? _]]; [done|by right].
  - apply Hm in E1 as [(? & ?)|[? Ht]]; [left; split; [congruence|done]|].
    right. split; [done|]. intros ? [= <-]. by apply Ht.
  - apply Hm in E1 as [(? & _)|[? _]]; [done|by right].
Qed.

(** Take a part that does not count apart. *)
Ltac no_count :=
  repeat lazymatch goal with
    | |- forall _, _ => intros ?
    | |- no_count (lift _) => apply no_count_lift
    | |- no_count (gets _) => apply no_count_gets
    | |- no_count (mret _) => apply no_count_ret
    | |- no_count (on_app _) => apply no_count_on_app
    | |- no_count (mbind _ _) => apply no_count_bind
    | |- no_count (match ?x with _ => _ end) => destruct x
    end.

Section load.
Context `{JsonErrors J} `{X509 cert} `{Environment J}.
Context (own_keys_throws : forall w, throws_std (own_keys w))
        (execute_openssl_throws : forall name, st_throws_std (execute_openssl name)).

Lemma check_private_throws : st_throws_std (check_private).
Proof. unfold check_private. throws. Qed.

Lemma check_public_throws : st_throws_std check_public.
Proof. unfold check_public. throws. Qed.

Lemma load_connections_throws common_name now :
  st_throws_std (load_connections common_name now).
Proof. unfold load_connections. throws. Qed.

Lemma generate_counts : counts (generate).
Proof.
  unfold generate. apply counts_bind_l; [no_count|intros name].
  apply counts_bind_l; [no_count; throws|intros _].
  apply counts_bind_l; [no_count; throws|intros ok].
  destruct ok; [|apply counts_no_count; no_count; throws].
  intros p p' r. rewrite st_bind_modify, st_bind_gets. cbn [set_openssl_count openssl_count].
  destruct (Z.ltb_spec (openssl_count p + 1) 3).
  - intros [= <- <-]. left. cbn. by split.
  - intros E. right. apply (no_count_on_app (log_line _) (log_line_throws _)) in E as [-> Ht].
    cbn. by split; [lia|].
Qed.

Lemma load_own_counts now : counts (load_own now).
Proof.
  pose proof load_connections_throws. pose proof check_private_throws. pose proof check_public_throws.
  unfold load_own, own_certificate.
  apply counts_bind_r; [|intros name; no_count; throws].
  apply counts_bind_l; [no_count; throws|intros load_private].
  apply counts_bind_l; [no_count; throws|intros [load_public common_name]].
  apply counts_bind_r; [|intros _; unfold create_certs; no_count; throws].
  destruct (load_private && load_public); [apply counts_no_count; no_count|apply generate_counts].
Qed.

End load.

(** ** Lemmas: what every command preserves *)

(** What the program does to its lists of hosts, clients and proxies goes
    through these operations; a relation that all of them preserve holds between
    the start and the end of any number of rounds. *)
Class GlobalSteps (R : proxy_global -> proxy_global -> Prop) `{Json J} `{Environment J} := {
  steps_preorder : PreOrder R;
  steps_populate (o : J) acl now : preserves R (populate_json parse_duration plugins o acl now);
  steps_unpopulate (o : J) : preserves R (unpopulate_json o);
  steps_lock : preserves R (lock ret_host ret_client bind);
  steps_client_activate name id now : preserves R (client_activate name id now);
  steps_client_set_active id active : preserves R (client_set_active ret_client id active);
  steps_host_set_active id active now : preserves R (host_set_active ret_host bind id active now);
  steps_stopall g : R g (stopall g) }.

(** The relation on the states around the global one. *)
Definition app_rel (R : proxy_global -> proxy_global -> Prop) (a a' : app) : Prop :=
  R (a_global a) (a_global a').
Definition program_rel (R : proxy_global -> proxy_global -> Prop) (p p' : program) : Prop :=
  app_rel R (p_app p) (p_app p').

Section steps.
Context `{Json J} `{X509 cert} `{Environment J}.
Context (R : proxy_global -> proxy_global -> Prop) `{!GlobalSteps R (J := J)}.

#[local] Instance steps_PreOrder : PreOrder R := steps_preorder.

#[local] Instance app_rel_preorder : PreOrder (app_rel R).
Proof. unfold app_rel. split; [by intros a|]. intros ? ? ? ? ?. by etransitivity. Qed.

#[local] Instance program_rel_preorder : PreOrder (program_rel R).
Proof. unfold program_rel. split; [by intros p|]. intros ? ? ? ? ?. by etransitivity. Qed.

Lemma app_rel_same a a' : a_global a' = a_global a -> app_rel R a a'.
Proof. unfold app_rel. by intros ->. Qed.

Lemma app_rel_on_global {A} (m : st proxy_global A) :
  preserves R m -> preserves (app_rel R) (on_global m).
Proof.
  intros Hm a a' r. unfold on_global. destruct (m (a_global a)) as [g r'] eqn:E.
  intros [= <- _]. exact (Hm _ _ _ E).
Qed.

Lemma app_rel_on_world {A} (m : st world A) : preserves (app_rel R) (on_world m).
Proof. intros a a' r. unfold on_world. destruct (m _). intros [= <- _]. by apply app_rel_same. Qed.

Lemma app_rel_on_sessions {A} (m : st (list session_data) A) :
  preserves (app_rel R) (on_sessions m).
Proof. intros a a' r. unfold on_sessions. destruct (m _). intros [= <- _]. by apply app_rel_same. Qed.

Lemma app_rel_modify (f : app -> app) :
  (forall a, a_global (f a) = a_global a) -> preserves (app_rel R) (modify f).
Proof. intros Hf a a' r [= <- _]. by apply app_rel_same. Qed.

Lemma program_rel_on_app {A} (m : st app A) :
  preserves (app_rel R) m -> preserves (program_rel R) (on_app m).
Proof.
  intros Hm p p' r. unfold on_app. destruct (m (p_app p)) as [a r'] eqn:E.
  intros [= <- _]. exact (Hm _ _ _ E).
Qed.

Lemma program_rel_modify (f : program -> program) :
  (forall p, p_app (f p) = p_app p) -> preserves (program_rel R) (modify f).
Proof. intros Hf p p' r [= <- _]. unfold program_rel. by rewrite Hf. Qed.

#[local] Hint Resolve app_rel_on_global app_rel_on_world app_rel_on_sessions program_rel_on_app
  : frames.
#[local] Hint Extern 1 (preserves R _) =>
  first [apply steps_populate | apply steps_unpopulate | apply steps_lock
        | apply steps_client_activate | apply steps_client_set_active
        | apply steps_host_set_active] : frames.
#[local] Hint Extern 1 (preserves (app_rel _) (modify _)) =>
  (apply app_rel_modify; reflexivity) : frames.
#[local] Hint Extern 1 (preserves (program_rel _) (modify _)) =>
  (apply program_rel_modify; reflexivity) : frames.

(** [frames], also into the calls on a part of the state. *)
Ltac lifting :=
  repeat first
    [ progress frames
    | lazymatch goal with
      | |- preserves (app_rel _) (on_global _) => apply app_rel_on_global
      | |- preserves (program_rel _) (on_app _) => apply program_rel_on_app
      end ].

Lemma log_line_steps line : preserves (app_rel R) (log_line line).
Proof. unfold log_line. lifting. Qed.

#[local] Hint Resolve log_line_steps : frames.

Lemma config_upload_steps post now : preserves (app_rel R) (config_upload post now).
Proof.
  unfold config_upload, upload, update_in_place, redirect. lifting.
  by intros g g' r [= <- _].
Qed.

Lemma handle_steps post cookie rand now c : preserves (app_rel R) (handle post cookie rand now c).
Proof.
  pose proof config_upload_steps.
  destruct c; cbn [handle]; unfold web_client_activate, client_active, web_host_activate,
    host_active, web_host_test, config_reload, script, status_get, get_certificates,
    get_public_certificate, set_status, respond, shutdown, log_file, logger_get, index, respond;
    lifting.
  - apply app_rel_modify. intros b. by destruct (string_eqb _ _).
  - intros b b' r. destruct (a_sessions b !! _); [|intros [= <- _]; by apply app_rel_same].
    destruct (ProxyLog.logger_get _ _). intros [= <- _]. by apply app_rel_same.
Qed.

Lemma web_main_steps post cookie rand now url :
  preserves (app_rel R) (WebApp.main post cookie rand now url).
Proof.
  pose proof handle_steps as Hh. intros a a' r. unfold WebApp.main.
  match goal with |- match ?m a with _ => _ end = _ -> _ =>
    assert (preserves (app_rel R) m) as Hm end.
  { lifting. unfold application_main. lifting. unfold set_status. lifting. }
  match goal with |- match ?m a with _ => _ end = _ -> _ => destruct (m a) as [a1 r1] eqn:E end.
  apply Hm in E. destruct r1 as [[]|e|]; [by intros [= <- _]| |by intros [= <- _]].
  destruct e; cbn [is_std_exception];
    solve [by intros [= <- _] | intros E'; etransitivity; [exact E|by eapply log_line_steps]].
Qed.

Lemma run_steps es : preserves (app_rel R) (run es).
Proof.
  pose proof web_main_steps.
  induction es as [|e es IH]; cbn [run]; unfold on_event, timeout_handle, signal_handler; lifting.
Qed.

Lemma load_configuration_steps now : preserves (program_rel R) (load_configuration now).
Proof.
  unfold load_configuration, load_settings, load_own, own_certificate, check_private, check_public,
    generate, create_certs, load_connections.
  lifting.
Qed.

Lemma serve_steps r : preserves (app_rel R) (serve r).
Proof. pose proof run_steps. unfold serve, start_service. lifting. Qed.

Lemma global_guard_steps {A} (m : st app A) :
  preserves (app_rel R) m -> preserves (app_rel R) (global_guard m).
Proof.
  intros Hm. unfold global_guard. lifting. intros b b' r2.
  destruct (m b) as [b1 r3] eqn:E. apply Hm in E.
  assert (app_rel R b (set_global (stopall (a_global b1)) b1)).
  { etransitivity; [exact E|]. exact (steps_stopall (a_global b1)). }
  destruct r3; by intros [= <- _].
Qed.

Lemma main_round_steps r : preserves (program_rel R) (main_round r).
Proof.
  pose proof load_configuration_steps. pose proof serve_steps.
  assert (preserves (program_rel R) (round_body r)) as Hb.
  { unfold round_body. lifting. by apply global_guard_steps. }
  intros p p' r'. unfold main_round. destruct (round_body r p) as [p1 r1] eqn:E. apply Hb in E.
  destruct r1 as [b|e|]; [by intros [= <- _]| |by intros [= <- _]].
  destruct e; cbn [is_std_exception]; try (by intros [= <- _]);
    intros E'; (etransitivity; [exact E|]); revert E';
    match goal with |- ?m p1 = _ -> _ => assert (preserves (program_rel R) m) as Hm by lifting end;
    apply Hm.
Qed.

Lemma main_steps rounds : preserves (program_rel R) (main rounds).
Proof.
  pose proof main_round_steps.
  assert (preserves (program_rel R) (on_app (on_global (modify stopall)))).
  { apply program_rel_on_app, app_rel_on_global, preserves_modify. exact steps_stopall. }
  induction rounds as [|r rounds IH]; cbn [main]; lifting.
Qed.

End steps.

(** ** Lemmas: the other proxies *)

(** The list of the other proxies only gets longer. *)
Definition grows (g g' : proxy_global) : Prop := uniproxies g `prefix_of` uniproxies g'.

#[export] Instance grows_preorder : PreOrder grows.
Proof. unfold grows. split; [by intros g|]. intros ? ? ? ? ?. by etransitivity. Qed.

Lemma grows_on_hosts {A} (m : st (list RemoteProxyHost) A) : preserves grows (on_hosts m).
Proof. intros g g' r. unfold on_hosts. destruct (m _). intros [= <- _]. by unfold grows. Qed.

Lemma grows_on_clients {A} (m : st (list BaseClient) A) : preserves grows (on_clients m).
Proof. intros g g' r. unfold on_clients. destruct (m _). intros [= <- _]. by unfold grows. Qed.

Lemma grows_modify (f : proxy_global -> proxy_global) :
  (forall g, uniproxies (f g) = uniproxies g) -> preserves grows (modify f).
Proof. intros Hf g g' r [= <- _]. unfold grows. by rewrite Hf. Qed.

#[export] Hint Resolve grows_on_hosts grows_on_clients : frames.
#[export] Hint Extern 1 (preserves grows (modify _)) => (apply grows_modify; reflexivity) : frames.

Section growing.
Context `{Json J}.
Context (parse_duration : list ascii -> Z -> Z).

Lemma uniproxies_loop_grows (items : list J) :
  preserves prefix (uniproxies_loop items).
Proof.
  induction items as [|item items IH]; cbn [uniproxies_loop]; frames.
  apply preserves_modify. intros s. destruct (_ && _); [by apply prefix_app_r|done].
Qed.

Lemma grows_on_uniproxies {A} (m : st (list LocalEndpoint) A) :
  preserves prefix m -> preserves grows (on_uniproxies m).
Proof.
  intros Hm g g' r. unfold on_uniproxies. destruct (m (uniproxies g)) as [l r'] eqn:E.
  intros [= <- _]. exact (Hm _ _ _ E).
Qed.

Lemma populate_clients_grows (items : list J) now :
  preserves grows (populate_clients parse_duration items now).
Proof. induction items as [|item items IH]; cbn [populate_clients]; frames. Qed.

Lemma populate_hosts_grows plugins (items : list J) : preserves grows (populate_hosts plugins items).
Proof. induction items as [|item items IH]; cbn [populate_hosts]; frames. Qed.

Lemma populate_json_grows plugins (o : J) acl now :
  preserves grows (populate_json parse_duration plugins o acl now).
Proof.
  pose proof populate_clients_grows. pose proof populate_hosts_grows.
  unfold populate_json, populate_config. frames.
  apply grows_on_uniproxies, uniproxies_loop_grows.
Qed.

End growing.

#[export] Instance grows_steps `{Json J} `{Environment J} : GlobalSteps grows (J := J).
Proof.
  split; [exact _|intros; apply populate_json_grows| | | | | |intros g; by unfold grows];
    unfold unpopulate_json, lock, client_activate, client_set_active, host_set_active; frames.
Qed.

(** ** Lemmas: the own certificate *)

(** The lists of hosts and clients are as before. *)
Definition keeps_lists (g g' : proxy_global) : Prop :=
  remotehosts g' = remotehosts g /\ localclients g' = localclients g.

#[export] Instance keeps_lists_preorder : PreOrder keeps_lists.
Proof. unfold keeps_lists. split; [done|]. intros ? ? ? [? ?] [? ?]. split; congruence. Qed.

(** Only the files, the log and the like have changed, and the own certificate
    is still the same. *)
Definition keeps_global (a a' : app) : Prop :=
  a_global a' = a_global a /\
  files (a_world a') !! my_public_cert_name = files (a_world a) !! my_public_cert_name.

#[export] Instance keeps_global_preorder : PreOrder keeps_global.
Proof. unfold keeps_global. split; [done|]. intros ? ? ? [? ?] [? ?]. split; congruence. Qed.

Definition same_global (p p' : program) : Prop := a_global (p_app p') = a_global (p_app p).

#[export] Instance same_global_preorder : PreOrder same_global.
Proof. unfold same_global. split; [done|]. intros ? ? ?. congruence. Qed.

Lemma keeps_lists_modify (f : proxy_global -> proxy_global) :
  (forall g, remotehosts (f g) = remotehosts g) -> (forall g, localclients (f g) = localclients g) ->
  preserves keeps_lists (modify f).
Proof. intros H1 H2 g g' r [= <- _]. split; [apply H1|apply H2]. Qed.

Lemma keeps_lists_on_uniproxies {A} (m : st (list LocalEndpoint) A) :
  preserves keeps_lists (on_uniproxies m).
Proof. intros g g' r. unfold on_uniproxies. destruct (m _). by intros [= <- _]. Qed.

#[export] Hint Resolve keeps_lists_on_uniproxies : frames.
#[export] Hint Extern 1 (preserves keeps_lists (modify _)) =>
  (apply keeps_lists_modify; reflexivity) : frames.

Lemma keeps_global_log_line line : preserves keeps_global (log_line line).
Proof. by intros a a' r [= <- _]. Qed.

#[export] Hint Resolve keeps_global_log_line : frames.

Lemma same_global_on_app {A} (m : st app A) :
  preserves keeps_global m -> preserves same_global (on_app m).
Proof.
  intros Hm p p' r. unfold on_app. destruct (m (p_app p)) as [a r'] eqn:E. intros [= <- _].
  apply (Hm _ _ _ E).
Qed.

Lemma same_global_on_world {A} (m : st world A) : preserves same_global (on_app (on_world m)).
Proof. intros p p' r. unfold on_app, on_world. destruct (m _). by intros [= <- _]. Qed.

Lemma same_global_modify (f : program -> program) :
  (forall p, p_app (f p) = p_app p) -> preserves same_global (modify f).
Proof. intros Hf p p' r [= <- _]. unfold same_global. by rewrite Hf. Qed.

#[export] Hint Resolve same_global_on_app same_global_on_world : frames.
#[export] Hint Extern 1 (preserves same_global (modify _)) =>
  (apply same_global_modify; reflexivity) : frames.

Section own_certificate.
Context `{Json J} `{X509 cert} `{Environment J}.

Lemma populate_settings_lists (o : J) now :
  preserves keeps_lists (populate_json parse_duration plugins o acl_config_web now).
Proof. unfold populate_json, populate_config. cbn [acl_config_web acl_hosts acl_clients]. frames. Qed.

Lemma check_private_keeps : preserves keeps_global check_private.
Proof. unfold check_private. frames. Qed.

Lemma check_public_spec a a' r :
  check_public a = (a', r) ->
  keeps_global a a' /\
  (forall public name, r = Ok (public, name) -> name <> [] ->
     exists c certs, load_certificates_file my_public_cert_name [] (a_world a) = (true, c :: certs) /\
       name = get_common_name c).
Proof.
  intros E. split.
  - revert a a' r E. change (preserves keeps_global check_public). unfold check_public. frames.
  - intros public name -> Hn. unfold check_public in E. rewrite !st_bind_gets in E.
    destruct (load_certificates_file my_public_cert_name [] (a_world a)) as [[] [|c certs]];
      try (injection E as _ _ <-; done).
    apply st_bind_inv in E as (a1 & [] & _ & E). injection E as _ _ <-. by exists c, certs.
Qed.

Lemma generate_keeps : preserves same_global generate.
Proof. unfold generate. frames. Qed.

(** The files [load_certificates_file] looks at. *)
Lemma load_certificates_same name certs (w w' : world) :
  files w' !! name = files w !! name ->
  load_certificates_file name certs w' = load_certificates_file name certs w.
Proof. unfold load_certificates_file. by intros ->. Qed.

(** Hosts and clients change only in [load_connections], for the name that the
    settings and the certificate share. *)
Lemma load_connections_spec common_name now a a' r :
  load_connections common_name now a = (a', r) ->
  keeps_lists (a_global a) (a_global a') \/
  m_name (a_global a) <> [] /\ m_name (a_global a) = common_name.
Proof.
  unfold load_connections. rewrite st_bind_gets. case_bool_decide as Hn; cbn [andb].
  - destruct (string_eqb _ _) eqn:E; [|by intros [= <- _]; left].
    apply string_eqb_eq in E. by right.
  - by intros [= <- _]; left.
Qed.

Lemma load_settings_spec now p p' r :
  load_settings now p = (p', r) ->
  keeps_lists (a_global (p_app p)) (a_global (p_app p')) /\
  (r = Ok tt -> exists (obj : J) g1,
     load_json config_filename (a_world (p_app p)) = Some obj /\
     populate_json parse_duration plugins obj acl_config_web now (a_global (p_app p)) = (g1, Ok tt) /\
     p' = set_app (set_global g1 (p_app p)) p /\ m_name g1 <> []).
Proof.
  unfold load_settings. rewrite st_bind_gets.
  destruct (load_json config_filename (a_world (p_app p))) as [obj|]; [|by intros [= <- <-]].
  rewrite st_bind_lift.
  destruct (populate_json parse_duration plugins obj acl_config_web now (a_global (p_app p)))
    as [g1 r1] eqn:Ep.
  pose proof (populate_settings_lists obj now _ _ _ Ep) as Hl.
  assert (on_app (on_global (populate_json parse_duration plugins obj acl_config_web now)) p
          = (set_app (set_global g1 (p_app p)) p, r1)) as Eo
    by (unfold on_app, on_global; by rewrite Ep).
  intros E. destruct r1 as [[]|e|].
  - rewrite (st_bind_Ok _ _ _ _ _ Eo), st_bind_gets in E. injection E as <- <-. split; [done|].
    cbn. case_bool_decide; [done|]. intros _. by exists obj, g1.
  - rewrite (st_bind_Throw _ _ _ _ _ Eo) in E. by injection E as <- <-.
  - unfold mbind, st_bind in E. rewrite Eo in E. by injection E as <- <-.
Qed.

Lemma own_certificate_spec p p' r :
  own_certificate p = (p', r) ->
  same_global p p' /\
  forall name, r = Ok name -> name <> [] ->
    exists c certs,
      load_certificates_file my_public_cert_name [] (a_world (p_app p)) = (true, c :: certs) /\
      name = get_common_name c.
Proof.
  intros E. split.
  - revert p p' r E. change (preserves same_global own_certificate).
    pose proof check_private_keeps. pose proof generate_keeps.
    assert (preserves keeps_global check_public) by (intros ? ? ? Ec; apply check_public_spec in Ec; apply Ec).
    unfold own_certificate. frames.
  - intros name -> Hn. unfold own_certificate in E.
    apply st_bind_inv in E as (p1 & load_private & E1 & E).
    apply st_bind_inv in E as (p2 & [load_public common_name] & E2 & E).
    apply st_bind_inv in E as (p3 & [] & _ & E). apply st_bind_inv in E as (p4 & [] & _ & E).
    injection E as _ <-. unfold on_app in E1, E2.
    destruct (check_private (p_app p)) as [a1 r1] eqn:Ep. injection E1 as <- ->.
    cbn [set_app p_app] in E2. destruct (check_public a1) as [a2 r2] eqn:Ec. injection E2 as _ ->.
    apply check_private_keeps in Ep as [_ Hf].
    apply check_public_spec in Ec as [_ Hc]. rewrite <- (load_certificates_same _ [] _ _ Hf).
    by apply (Hc load_public).
Qed.

Lemma load_own_spec now p p' r :
  load_own now p = (p', r) ->
  keeps_lists (a_global (p_app p)) (a_global (p_app p')) \/
  exists c certs,
    load_certificates_file my_public_cert_name [] (a_world (p_app p)) = (true, c :: certs) /\
    m_name (a_global (p_app p)) <> [] /\ get_common_name c = m_name (a_global (p_app p)).
Proof.
  intros E. unfold load_own in E.
  apply st_bind_split in E as [(p1 & common_name & E1 & E)|(r1 & E1 & _)].
  2:{ left. apply own_certificate_spec in E1 as [-> _]. reflexivity. }
  apply own_certificate_spec in E1 as [Hg Hc]. unfold same_global in Hg. rewrite <- Hg.
  assert (exists p2 r2, on_app (load_connections common_name now) p1 = (p2, r2) /\ same_global p2 p')
    as (p2 & r2 & E2 & Hg2).
  { apply st_bind_split in E as [(p2 & [] & E2 & E)|(r2 & E2 & _)].
    - exists p2, (Ok tt). split; [done|]. revert E.
      match goal with |- ?m p2 = _ -> _ => assert (preserves same_global m) as Hm by frames end. apply Hm.
    - exists p', r2. by split. }
  unfold same_global in Hg2. rewrite Hg2. unfold on_app in E2.
  destruct (load_connections common_name now (p_app p1)) as [a2 r3] eqn:El. injection E2 as <- _.
  apply load_connections_spec in El as [?|[Hn En]]; [by left|].
  right. destruct (Hc common_name eq_refl) as (c & certs & Hl & Ec); [congruence|].
  exists c, certs. split_and!; [done..|congruence].
Qed.

End own_certificate.

(** ** Lemmas: the loop *)

(** The exit code is as before. *)
Definition same_exit (p p' : program) : Prop := exit_code p' = exit_code p.

#[export] Instance same_exit_preorder : PreOrder same_exit.
Proof. unfold same_exit. split; [done|]. intros ? ? ?. congruence. Qed.

Lemma same_exit_on_app {A} (m : st app A) : preserves same_exit (on_app m).
Proof. intros p p' r. unfold on_app. destruct (m _). by intros [= <- _]. Qed.

Lemma same_exit_openssl f : preserves same_exit (modify (fun p => set_openssl_count (f p) p)).
Proof. by intros p p' r [= <- _]. Qed.

#[export] Hint Resolve same_exit_on_app same_exit_openssl : frames.

Section loop.
Context `{Json J} `{X509 cert} `{Environment J}.

Lemma round_body_exit r p p' res : round_body r p = (p', res) -> exit_code p' = 0.
Proof.
  unfold round_body. rewrite st_bind_modify.
  match goal with |- ?m _ = _ -> _ => assert (preserves same_exit m) as Hm end.
  { unfold load_configuration, load_settings, load_own, own_certificate, generate. frames. }
  intros E. apply Hm in E. exact E.
Qed.

Lemma main_round_exit r p p' res :
  main_round r p = (p', res) -> exit_code p' = 0 \/ exit_code p' = 1.
Proof.
  unfold main_round. destruct (round_body r p) as [p1 r1] eqn:E. apply round_body_exit in E.
  destruct r1 as [b|e|]; [intros [= <- _]; by left| |intros [= <- _]; by left].
  destruct e; cbn [is_std_exception]; intros [= <- _]; cbn; by auto.
Qed.

(** A service that was shut down does nothing more. *)
Lemma run_stopped es a : a_running a = false -> run es a = (a, Ok true).
Proof. intros Ha. destruct es; cbn [run]; by rewrite st_bind_gets, Ha. Qed.

End loop.

(** ** Properties *)



(** Whatever happens in whatever number of rounds, another proxy the program
    knows is never forgotten: the list of the other proxies at the end begins
    with the list at the start, reloads included. *)
Theorem proxies_never_forgotten `{Json J} `{X509 cert} `{Environment J} rounds p :
  uniproxies (a_global (p_app p)) `prefix_of` uniproxies (a_global (p_app (fst (main rounds p)))).
Proof.
  destruct (main rounds p) as [p' r] eqn:E. exact (main_steps grows rounds p p' r E).
Qed.


(** A reload that a browser asks for happens when the timer fires, a stop and
    a SIGHUP at once: the service ends, with only its own flags changed, and
    what comes later is not looked at. *)
Theorem service_ends `{Json J} `{X509 cert} `{Environment J} post cookie rand now url old es a :
  a_running a = true -> check_remove_substr url (lit "/json") [] = Ok (false, old) ->
  (find_route routes url = Some ConfigReload ->
   run (Request post cookie rand now url :: TimerFires :: es) a
   = (set_service false false true a, Ok true)) /\
  (find_route routes url = Some Shutdown ->
   run (Request post cookie rand now url :: es) a
   = (set_service (a_timer a) false (a_reload a) a, Ok true)) /\
  run (Signal true :: es) a = (set_service (a_timer a) false true a, Ok true).
Proof.
  intros Ha Hu. split_and!.
  - intros Hr. cbn [run on_event]. rewrite st_bind_gets, Ha.
    rewrite (st_bind_Ok _ _ a (set_service true (a_running a) (a_reload a) a) tt).
    + rewrite st_bind_gets. cbn [set_service a_running]. rewrite Ha.
      rewrite (st_bind_Ok _ _ _ (set_service false false true a) tt) by done. by apply run_stopped.
    + unfold WebApp.main. rewrite Hu, st_bind_lift. unfold application_main. by rewrite Hr.
  - intros Hr. cbn [run on_event]. rewrite st_bind_gets, Ha.
    rewrite (st_bind_Ok _ _ a (set_service (a_timer a) false (a_reload a) a) tt).
    + by apply run_stopped.
    + unfold WebApp.main. rewrite Hu, st_bind_lift. unfold application_main. by rewrite Hr.
  - cbn [run on_event]. rewrite st_bind_gets, Ha.
    rewrite (st_bind_Ok _ _ a (set_service (a_timer a) false true a) tt) by done.
    by apply run_stopped.
Qed.

(** ** Witnesses *)

Definition program0 : program := {| p_app := app0; openssl_count := 0; exit_code := 0 |}.



Definition stop_round : round :=
  {| log_directory := Ok tt; new_service := Ok tt; load_time := 5; events := [Signal false] |}.


Lemma service_ends_witness :
  run [Request None None 0 0 (lit "/command/config/reload/"); TimerFires] app0
  = (set_service false false true app0, Ok true).
Proof.
  apply (service_ends None None 0 0 (lit "/command/config/reload/") [] [] app0);
    vm_compute; reflexivity.
Defined.
