(* ===== verification/Types.v ===== *)
(** * The state is well typed

    What holds of the program's lists and settings in every state: ports fit
    their [unsigned short]s, ids and limits their [int]s, every endpoint was
    configured with a name or a port, the current proxy of a client is one of its
    proxies, and no two listeners have the same port.  [typed_global] is that
    invariant; every operation on the state keeps it, and so does the whole
    program ([Main]).

    [JsonRange] is what the library promises of numbers: [get_value<int>] gives
    an [int]. *)

From S2P Require Import Prelude CppString Json Endpoints Activation Certs Thread BaseClient RemoteHost Config Status WebApp Main.

(** ** The invariant *)

Definition typed_local (ep : LocalEndpoint) : Prop := 0 < l_port ep < 2 ^ 16.

Definition typed_remote (ep : RemoteEndpoint) : Prop :=
  in_uint 16 (r_port ep) /\ r_name ep <> [].

Definition typed_kind (c : BaseClient) : Prop :=
  match m_kind c with
  | Local _ _ => True
  | Provider local_endpoints buffer_size _ =>
      local_endpoints <> [] /\ Forall typed_local local_endpoints /\
      m_local_port c = 0 /\ in_uint 64 buffer_size
  end.

Record typed_client (c : BaseClient) : Prop := {
  client_id : in_sint 32 (m_id c);
  client_port : in_uint 16 (m_local_port c);
  client_activate_port : in_uint 16 (BaseClient.m_activate_port c);
  client_limit : in_sint 32 (m_max_connections c);
  client_remotes : Forall typed_remote (m_proxy_endpoints c);
  client_index : 0 <= m_proxy_index c < zlen (m_proxy_endpoints c);
  client_kind : typed_kind c }.

Record typed_host (h : RemoteProxyHost) : Prop := {
  host_id : in_sint 32 (h_id h);
  host_port : in_uint 16 (h_local_port h);
  host_remotes : Forall typed_remote (h_remote_ep h);
  host_locals : Forall typed_local (h_local_ep h) /\ h_local_ep h <> [] }.

(** The ports a client or a host listens on; port 0 is none. *)
Definition client_ports (c : BaseClient) : list Z :=
  match m_kind c with Local _ _ => [m_local_port c] | Provider _ _ _ => [] end.
Definition host_ports (h : RemoteProxyHost) : list Z :=
  if h_local_port h >? 0 then [h_local_port h] else [].

(** A list of typed elements whose keys are all different. *)
Definition typed_list {E} (P : E -> Prop) (keys : E -> list Z) (l : list E) : Prop :=
  Forall P l /\ NoDup (concat (map keys l)).

Definition typed_clients : list BaseClient -> Prop := typed_list typed_client client_ports.
Definition typed_hosts : list RemoteProxyHost -> Prop := typed_list typed_host host_ports.

Record typed_global (g : proxy_global) : Prop := {
  global_hosts : typed_hosts (remotehosts g);
  global_clients : typed_clients (localclients g);
  global_proxies : Forall typed_local (uniproxies g);
  global_web_port : in_uint 16 (m_web_port g);
  global_activate_port : in_uint 16 (Config.m_activate_port g);
  global_tls : in_sint 32 (min_tls_protocol g) }.

(** [get_value<int>()] gives an [int]. *)
Class JsonRange (J : Type) `{Json J} := {
  get_int_range (v : J) n : get_int v = Ok n -> in_sint 32 n }.

#[export] Instance tree_range : JsonRange tree.
Proof.
  split. intros v n. destruct v; try done. cbn. case_bool_decide as Hn; [|done]. by intros [= <-].
Qed.

(** ** Lemmas: keeping an invariant *)

(** The relation whose [preserves] is keeping [I]. *)
Definition keeping {S} (I : S -> Prop) (s s' : S) : Prop := I s -> I s'.

#[export] Instance keeping_preorder {S} (I : S -> Prop) : PreOrder (keeping I).
Proof. unfold keeping. split; [intros s; exact id|intros s1 s2 s3; auto]. Qed.

Section keeping.
Context {S : Type} (I : S -> Prop).

(** What is read from a state has the invariant. *)
Lemma keeping_gets {A B} (f : S -> A) (k : A -> st S B) :
  (forall s, I s -> preserves (keeping I) (k (f s))) -> preserves (keeping I) (gets f ≫= k).
Proof. intros Hk s s' r. rewrite st_bind_gets. intros E Hs. by apply (Hk s Hs _ _ _ E). Qed.

(** What is computed is only used when it is there. *)
Lemma keeping_lift {A B} (m : out A) (k : A -> st S B) :
  (forall a, m = Ok a -> preserves (keeping I) (k a)) -> preserves (keeping I) (lift m ≫= k).
Proof.
  intros Hk s s' r E. destruct m as [a|e|]; [|by injection E as <- _..].
  rewrite st_bind_lift in E. by apply (Hk a eq_refl _ _ _ E).
Qed.

Lemma keeping_modify (f : S -> S) : (forall s, I s -> I (f s)) -> preserves (keeping I) (modify f).
Proof. intros Hf s s' r [= <- _]. exact (Hf s). Qed.

Lemma keeping_bind {A B} (m : st S A) (k : A -> st S B) :
  preserves (keeping I) m -> (forall a, preserves (keeping I) (k a)) ->
  preserves (keeping I) (m ≫= k).
Proof. apply preserves_bind. exact _. Qed.

End keeping.

(** ** Lemmas: lists with keys *)

(** A list after a loop over it: elements are changed by [R] or left out. *)
Inductive evolves {E} (R : E -> E -> Prop) : list E -> list E -> Prop :=
  | evolves_nil : evolves R [] []
  | evolves_skip x l l' : evolves R l l' -> evolves R (x :: l) l'
  | evolves_keep x y l l' : R x y -> evolves R l l' -> evolves R (x :: l) (y :: l').

#[export] Hint Constructors evolves : typed.

Section lists.
Context {E : Type} (P : E -> Prop) (keys : E -> list Z).
Implicit Types l : list E.

(** An element stays typed and keeps its keys. *)
Definition same_keys (x y : E) : Prop := (P x -> P y) /\ keys y = keys x.

Lemma same_keys_refl x : same_keys x x.
Proof. done. Qed.

Lemma evolves_refl l : evolves same_keys l l.
Proof. induction l; constructor; [apply same_keys_refl|done]. Qed.

Lemma typed_list_evolves l l' : evolves same_keys l l' -> typed_list P keys l -> typed_list P keys l'.
Proof.
  intros He [Hp Hn]. split.
  - clear Hn. induction He as [|x l l' _ IH|x y l l' [Hxy _] _ IH]; [done|..];
      apply List.Forall_cons_iff in Hp as [Hx Hp]; [by apply IH|constructor; [by apply Hxy|by apply IH]].
  - apply (sublist_NoDup _ _ Hn). clear Hp Hn.
    induction He as [|x l l' _ IH|x y l l' [_ Hk] _ IH]; cbn [map concat]; [done|..].
    + by apply sublist_inserts_l.
    + rewrite Hk. by apply sublist_app.
Qed.

Lemma typed_list_nil : typed_list P keys [].
Proof. split; [done|constructor]. Qed.

Lemma typed_list_snoc l x :
  typed_list P keys l -> P x -> NoDup (keys x) ->
  (forall k y, k ∈ keys x -> y ∈ l -> k ∉ keys y) ->
  typed_list P keys (l ++ [x]).
Proof.
  intros [Hp Hn] Hx Hk Hd. split; [by apply List.Forall_app; split; [|constructor]|].
  rewrite map_app, concat_app. cbn [map concat]. rewrite app_nil_r.
  apply list.NoDup_app. split; [done|]. split; [|done].
  intros k Hin Hk'. apply list_elem_of_In, List.in_concat in Hin as (ks & (y & <- & Hy)%List.in_map_iff & Hin).
  apply (Hd k y); [done|by apply list_elem_of_In..].
Qed.

End lists.

(** ** Lemmas: what is read *)

Lemma clamp32_range z : in_sint 32 (clamp32 z).
Proof. unfold clamp32, in_sint. lia. Qed.

Lemma from_string_range s old n :
  (forall m, old = Some m -> in_sint 32 m) -> from_string s old = Some n -> in_sint 32 n.
Proof.
  unfold from_string. intros Ho. destruct (skip_space s) as [|c s']; [by apply Ho|].
  intros [= <-]. unfold parse_int.
  destruct (u8 c =? 45); [apply clamp32_range|]. destruct (u8 c =? 43); apply clamp32_range.
Qed.

Section reading.
Context `{JsonRange J}.
Implicit Types (o item : J) (items : list J).

Lemma check_int_range o k old b n :
  (forall m, old = Some m -> in_sint 32 m) -> check_int o k old = Ok (b, Some n) -> in_sint 32 n.
Proof.
  unfold check_int. intros Ho. destruct (zlen k >? 0); [|intros [= _ ->]; by apply Ho].
  destruct (type (find o k)); try (intros [= _ ->]; by apply Ho).
  - intros (m & Em & [= _ ->])%bind_Ok_inv. by eapply get_int_range.
  - intros (sz & _ & [= _ E])%bind_Ok_inv. by eapply from_string_range.
Qed.

Lemma check_int_default_range o k d required n :
  in_sint 32 d -> check_int_default o k d required = Ok n -> in_sint 32 n.
Proof.
  unfold check_int_default. intros Hd.
  destruct (zlen k >? 0); [|destruct required; by intros [= <-]].
  destruct (type (find o k)); try (by intros [= <-]).
  - apply get_int_range.
  - intros (sz & _ & E)%bind_Ok_inv. destruct (from_string sz (Some d)) as [m|] eqn:Ef; [|done].
    injection E as ->. eapply from_string_range; [|exact Ef]. by intros ? [= <-].
Qed.

(** The two ways to read a port agree. *)
Lemma check_port_default o k b p n :
  check_port o k 0 = Ok (b, p) -> check_int_default o k 0 true = Ok n -> wrap 16 n = p.
Proof.
  unfold check_port, check_int, check_int_default. destruct (zlen k >? 0); [|done].
  destruct (type (find o k)); try (intros [= _ <-] [= <-]; done).
  - destruct (get_int (find o k)); [|done..]. by intros [= _ <-] [= <-].
  - destruct (get_string (find o k)) as [sz| |]; [|done..]. rewrite !bind_Ok. cbv beta.
    unfold from_string. destruct (skip_space sz); [done|]. by intros [= _ <-] [= <-].
Qed.

Lemma typed_remote_load item ep : RemoteEndpoint_load item new_RemoteEndpoint = Ok (true, ep) -> typed_remote ep.
Proof.
  intros [Hp Hn]%RemoteEndpoint_load_range; [by split; [|apply Hn]|]. by unfold RemoteEndpoint_ok, in_uint; cbn; lia.
Qed.

Lemma typed_local_load item ep0 ep :
  LocalEndpoint_ok ep0 -> LocalEndpoint_load item ep0 = Ok (true, ep) -> typed_local ep.
Proof.
  intros Hd [Hp Hn]%LocalEndpoint_load_range; [|done]. unfold LocalEndpoint_ok, in_uint in Hp.
  split; [by apply Hn|lia].
Qed.

Lemma load_each_typed {E} (P : E -> Prop) (load : J -> E -> out (bool * E)) new items eps :
  (forall item ep, load item new = Ok (true, ep) -> P ep) ->
  load_each load new items = Ok eps -> Forall P eps.
Proof.
  intros HP. revert eps. induction items as [|item items IH]; intros eps; cbn [load_each].
  - by intros [= <-].
  - intros ([ok ep] & El & (rest & Er & [= <-])%bind_Ok_inv)%bind_Ok_inv.
    apply IH in Er. destruct ok; [|done]. constructor; [by eapply HP|done].
Qed.

Lemma load_member_typed {E} (P : E -> Prop) (load : J -> E -> out (bool * E)) new item k eps item' :
  (forall item ep, load item new = Ok (true, ep) -> P ep) ->
  load_member load new item k = Ok (eps, item') -> Forall P eps.
Proof.
  intros HP. unfold load_member. intros ([v o] & _ & E1)%bind_Ok_inv. revert E1.
  case_bool_decide; [|by intros [= <- _]].
  intros (items & _ & (l & El & [= <- _])%bind_Ok_inv)%bind_Ok_inv. by eapply load_each_typed.
Qed.

(** Everything [is_same] finds to be added was configured. *)
Lemma added_loop_typed old items acc added :
  Forall typed_remote acc -> added_loop old items acc = Ok added -> Forall typed_remote added.
Proof.
  revert acc. induction items as [|item items IH]; intros acc Ha; cbn [added_loop]; [by intros [= <-]|].
  intros ([ok ep] & El & ([] & Eo & E)%bind_Ok_inv)%bind_Ok_inv.
  apply IH in E; [done|]. destruct (existsb _ old); [done|].
  apply List.Forall_app. split; [done|]. constructor; [|done].
  destruct ok; [|done]. by eapply typed_remote_load.
Qed.

Lemma is_same_typed h item d : is_same h item = Ok (Some d) -> Forall typed_remote (rem_added d).
Proof.
  unfold is_same. intros ([b p] & _ & E)%bind_Ok_inv.
  destruct (negb _); [done|]. destruct (p >? 0); [|done].
  apply bind_Ok_inv in E as ([] & _ & E). apply bind_Ok_inv in E as (remotes & _ & E).
  apply bind_Ok_inv in E as (added & Ea & E). apply bind_Ok_inv in E as (removed & _ & E).
  apply bind_Ok_inv in E as (locals & _ & E). apply bind_Ok_inv in E as (ty & _ & [= <-]).
  by eapply added_loop_typed.
Qed.

(** A host [is_same] does not recognise has another port. *)
Lemma is_same_port h item b p :
  check_port item (lit "port") 0 = Ok (b, p) -> is_same h item = Ok None ->
  p > 0 -> h_local_port h <> p.
Proof.
  unfold is_same. intros -> E Hp Hh. rewrite bind_Ok, Hh, Z.eqb_refl in E. cbn [negb] in E.
  rewrite Z.gtb_ltb, (proj2 (Z.ltb_lt 0 p)) in E by lia.
  apply bind_Ok_inv in E as ([] & _ & E). apply bind_Ok_inv in E as (remotes & _ & E).
  apply bind_Ok_inv in E as (added & Ea & E). apply bind_Ok_inv in E as (removed & _ & E).
  apply bind_Ok_inv in E as (locals & _ & E). by apply bind_Ok_inv in E as (ty & _ & [=]).
Qed.

End reading.

(** ** Lemmas: the operations on hosts *)

Definition same_host : RemoteProxyHost -> RemoteProxyHost -> Prop := same_keys typed_host host_ports.
Definition same_client : BaseClient -> BaseClient -> Prop := same_keys typed_client client_ports.

(** Nothing that the invariant speaks of has changed. *)
Lemma same_host_intro h h' :
  h_id h' = h_id h -> h_local_port h' = h_local_port h -> h_remote_ep h' = h_remote_ep h ->
  h_local_ep h' = h_local_ep h -> same_host h h'.
Proof.
  intros Hi Hp Hr Hl. split; [|unfold host_ports; by rewrite Hp].
  intros []. by split; rewrite ?Hi, ?Hp, ?Hr, ?Hl.
Qed.

Lemma same_host_start ret bind h : same_host h (fst (host_start ret bind h)).
Proof.
  unfold host_start. destruct (is_running _ _); [apply same_keys_refl|].
  destruct bind; [|apply same_keys_refl..]. destruct (start _). by apply same_host_intro.
Qed.

Lemma same_host_update d h :
  Forall typed_remote (rem_added d) ->
  same_host h (remove_remotes (rem_removed d) (add_remotes (rem_added d) h)).
Proof.
  intros Ha. split; [|done]. intros []. split; try done. cbn.
  assert (forall removed eps, Forall typed_remote eps -> Forall typed_remote (erase_each removed eps)) as G.
  { induction removed as [|x removed IH]; intros eps He; [done|]. cbn [erase_each]. apply IH.
    rewrite List.Forall_forall in He |- *. intros y Hy%list_elem_of_In.
    by apply He, list_elem_of_In, (elem_of_sublist _ _ _ Hy), erase_first_sublist. }
  apply G. rewrite push_all_app. by apply List.Forall_app.
Qed.

#[export] Hint Resolve same_host_start same_host_update same_keys_refl evolves_refl : typed.

Section hosts.
Context `{JsonRange J}.
Implicit Types (hosts : list RemoteProxyHost) (items : list J).

Lemma unpopulate_hosts_evolves (obj : J) hosts :
  evolves same_host hosts (fst (unpopulate_hosts obj hosts)).
Proof.
  revert obj. induction hosts as [|h hosts IH]; intros obj; [constructor|]. cbn [unpopulate_hosts].
  destruct (keep_host obj h) as [[[keep removed] obj']|e|]; [|apply evolves_refl..].
  specialize (IH obj'). destruct (unpopulate_hosts obj' hosts) as [rest r]. destruct keep.
  - constructor; [by apply same_host_intro|exact IH].
  - by constructor.
Qed.

Lemma update_hosts_evolves (item : J) hosts :
  evolves same_host hosts (fst (update_hosts item hosts)).
Proof.
  induction hosts as [|h hosts IH]; [constructor|]. cbn [update_hosts].
  destruct (is_same h item) as [[d|]|e|] eqn:Es; [| |apply evolves_refl..].
  - destruct (ASSERTD _ _); [|apply evolves_refl..].
    destruct (update_hosts item hosts) as [rest r]. constructor; [|exact IH].
    by apply same_host_update, (is_same_typed h item).
  - destruct (update_hosts item hosts) as [rest r]. constructor; [apply same_keys_refl|exact IH].
Qed.

Lemma update_hosts_other (item : J) hosts hosts' :
  update_hosts item hosts = (hosts', Ok false) ->
  hosts' = hosts /\ Forall (fun h => is_same h item = Ok None) hosts.
Proof.
  revert hosts'. induction hosts as [|h hosts IH]; intros hosts'; cbn [update_hosts]; [by intros [= <-]|].
  destruct (is_same h item) as [[d|]|e|] eqn:Es; [|destruct (update_hosts item hosts) as [rest r]|done..].
  - destruct (ASSERTD _ _); [|done..]. destruct (update_hosts item hosts) as [rest [|e|]]; done.
  - intros [= <- ->]. destruct (IH rest eq_refl) as [-> Hf]. by split; [|constructor].
Qed.

Lemma make_host_typed plugins (item : J) counter h n :
  make_host plugins item counter = Ok (Some h, n) ->
  typed_host h /\ exists port, check_int_default item (lit "port") 0 true = Ok port /\
    h_local_port h = wrap 16 port.
Proof.
  unfold make_host. intros (port & Ep & E)%bind_Ok_inv.
  apply bind_Ok_inv in E as ([locals item1] & El & E).
  apply bind_Ok_inv in E as ([remotes item2] & Er & E).
  apply bind_Ok_inv in E as (ty & _ & E).
  apply (load_member_typed typed_local) in El;
    [|by intros ? ?; apply typed_local_load; unfold LocalEndpoint_ok, in_uint; cbn; lia].
  apply (load_member_typed typed_remote) in Er; [|apply typed_remote_load].
  revert E. case_bool_decide as Hr; [done|]. case_bool_decide as Hl; [done|].
  intros [= <- _]. split; [|by exists port]. split; cbn; [|by apply wrap_range|done..].
  by apply swrap_range.
Qed.

(** Adding the host of an item that no host is the same as. *)
Lemma typed_hosts_add plugins (item : J) counter h n hosts :
  typed_hosts hosts -> Forall (fun h => is_same h item = Ok None) hosts ->
  make_host plugins item counter = Ok (Some h, n) -> typed_hosts (hosts ++ [h]).
Proof.
  intros Ht Hs (Hh & port & Ep & El)%make_host_typed.
  apply typed_list_snoc; [done..| |]; unfold host_ports.
  - destruct (h_local_port h >? 0); [apply list.NoDup_singleton|constructor].
  - rewrite Z.gtb_ltb. intros k y. zcase; [|set_solver]. intros ->%list_elem_of_singleton Hy.
    rewrite Z.gtb_ltb. zcase; [|set_solver]. intros E%list_elem_of_singleton.
    rewrite List.Forall_forall in Hs. apply list_elem_of_In, Hs in Hy.
    destruct (check_port item (lit "port") 0) as [[b p]|e|] eqn:Ec.
    + apply (is_same_port y item b p Ec Hy);
        rewrite <- (check_port_default _ _ _ _ _ Ec Ep), <- El; [lia|congruence].
    + unfold is_same in Hy. by rewrite Ec in Hy.
    + unfold is_same in Hy. by rewrite Ec in Hy.
Qed.

End hosts.

Section commands.
Context (ret_host ret_client : Z -> Z) (bind : Z -> out unit).

Lemma start_hosts_evolves hosts : evolves same_host hosts (fst (start_hosts ret_host bind hosts)).
Proof.
  induction hosts as [|h hosts IH]; [constructor|]. cbn [start_hosts].
  pose proof (same_host_start (ret_host (h_id h)) (bind (h_local_port h)) h) as Hs.
  destruct (host_start _ _ h) as [h' [u|e|]]; [|by constructor; [|apply evolves_refl]..].
  destruct (start_hosts ret_host bind hosts) as [rest r]. by constructor.
Qed.

Lemma set_active_hosts_evolves id active now hosts :
  evolves same_host hosts (fst (set_active_hosts ret_host bind id active now hosts)).
Proof.
  induction hosts as [|h hosts IH]; [constructor|]. cbn [set_active_hosts].
  match goal with |- context [match ?m with pair _ _ => match _ with Ok _ => _ | _ => _ end end] =>
    assert (same_host h (fst m)) as Hs; [|destruct m as [h' [u|e|]]] end.
  - destruct (h_id h =? id); [|apply same_keys_refl]. destruct active; [|by apply same_host_intro].
    pose proof (same_host_start (ret_host id) (bind (h_local_port h)) (set_h_active true h)) as Hs.
    destruct Hs as [H1 H2]. split; [|exact H2]. intros Hh. apply H1. by destruct Hh.
  - destruct (set_active_hosts ret_host bind id active now hosts) as [rest r]. by constructor.
  - constructor; [done|apply evolves_refl].
  - constructor; [done|apply evolves_refl].
Qed.

End commands.

(** ** Lemmas: the operations on clients *)

Lemma same_client_intro c c' :
  m_kind c' = m_kind c -> m_id c' = m_id c -> m_local_port c' = m_local_port c ->
  BaseClient.m_activate_port c' = BaseClient.m_activate_port c ->
  m_max_connections c' = m_max_connections c -> m_proxy_endpoints c' = m_proxy_endpoints c ->
  m_proxy_index c' = m_proxy_index c -> same_client c c'.
Proof.
  intros Hk Hi Hp Ha Hm He Hx. split; [|unfold client_ports; by rewrite Hk, Hp].
  intros [? ? ? ? ? ? Hkind]. split; rewrite ?Hi, ?Hp, ?Ha, ?Hm, ?He, ?Hx; try done.
  unfold typed_kind in *. by rewrite Hk, Hp.
Qed.

Lemma same_client_start ret c : same_client c (fst (client_start ret c)).
Proof.
  unfold client_start. destruct (is_running _ _).
  - destruct (info c); apply same_keys_refl.
  - destruct (start _). by apply same_client_intro.
Qed.

Lemma same_client_stop c : same_client c (client_stop c).
Proof. unfold client_stop. destruct (is_provider _); by apply same_client_intro. Qed.

Lemma same_client_activate name now c : same_client c (fst (activate name now c)).
Proof.
  unfold activate. rewrite st_bind_gets.
  destruct (find_remote name (m_proxy_endpoints c) 0) as [k|]; [|apply same_keys_refl].
  rewrite !st_bind_modify. unfold mbind, st_bind, start_activate.
  destruct (start _) as [t [u|e|]]; by apply same_client_intro.
Qed.

Lemma same_keys_trans {E} (P : E -> Prop) keys x y z :
  same_keys P keys x y -> same_keys P keys y z -> same_keys P keys x z.
Proof. intros [H1 H2] [H3 H4]. split; [auto|congruence]. Qed.

Lemma same_client_set_active id active ret c : same_client c (fst (set_active id active ret c)).
Proof.
  unfold set_active. rewrite st_bind_gets. destruct (m_id c =? id); [|apply same_keys_refl].
  rewrite st_bind_modify.
  assert (same_client c (set_active_flag active c)) as Hf by by apply same_client_intro.
  destruct active; unfold mbind, st_bind, modify.
  - pose proof (same_client_start ret (set_active_flag true c)) as Hs.
    destruct (client_start ret (set_active_flag true c)) as [c' [u|e|]];
      by apply (same_keys_trans _ _ _ _ _ Hf).
  - apply (same_keys_trans _ _ _ _ _ Hf). apply same_client_stop.
Qed.

Lemma activate_clients_evolves param sid now clients :
  evolves same_client clients (fst (activate_clients param sid now clients)).
Proof.
  induction clients as [|c clients IH]; [constructor|]. cbn [activate_clients].
  destruct (use_int (from_string sid None)) as [id|e|]; [|apply evolves_refl..].
  destruct (activate_clients param sid now clients) as [rest r].
  destruct (m_id c =? id); [|by constructor; [apply same_keys_refl|]].
  pose proof (same_client_activate param now c) as Hs.
  destruct (activate param now c) as [c' [[k|]|e|]]; constructor; try done; apply evolves_refl.
Qed.

Section client_commands.
Context (ret_client : Z -> Z).

Lemma start_clients_evolves clients :
  evolves same_client clients (fst (start_clients ret_client clients)).
Proof.
  induction clients as [|c clients IH]; [constructor|]. cbn [start_clients].
  pose proof (same_client_start (ret_client (m_id c)) c) as Hs.
  destruct (start_clients ret_client clients) as [rest r].
  destruct (m_active c); [|by constructor; [apply same_keys_refl|]].
  destruct (client_start _ c) as [c' [u|e|]]; constructor; try done; apply evolves_refl.
Qed.

Lemma set_active_clients_evolves id active clients :
  evolves same_client clients (fst (set_active_clients ret_client id active clients)).
Proof.
  induction clients as [|c clients IH]; [constructor|]. cbn [set_active_clients].
  pose proof (same_client_set_active id active (ret_client (m_id c)) c) as Hs.
  destruct (set_active_clients ret_client id active clients) as [rest r].
  destruct (set_active id active _ c) as [c' [[]|e|]]; constructor; try done; apply evolves_refl.
Qed.

End client_commands.

Section clients.
Context `{JsonRange J}.
Context (parse_duration : list ascii -> Z -> Z).
Implicit Types clients : list BaseClient.

Lemma unpopulate_clients_evolves (obj : J) clients :
  evolves same_client clients (fst (unpopulate_clients obj clients)).
Proof.
  revert obj. induction clients as [|c clients IH]; intros obj; [constructor|].
  cbn [unpopulate_clients].
  destruct (keep_client obj c) as [[keep obj']|e|]; [|apply evolves_refl..].
  specialize (IH obj'). destruct (unpopulate_clients obj' clients) as [rest r].
  destruct keep; [constructor; [apply same_keys_refl|done]|by constructor].
Qed.

Lemma new_BaseClient_typed k active local_port activate_port eps max now counter c n :
  in_uint 16 local_port -> in_uint 16 activate_port -> in_sint 32 max -> Forall typed_remote eps ->
  (forall c, m_kind c = k -> m_local_port c = local_port -> typed_kind c) ->
  new_BaseClient k active local_port activate_port eps max now counter = Ok (c, n) ->
  typed_client c /\ m_kind c = k /\ m_local_port c = local_port.
Proof.
  intros Hp Ha Hm He Hk. unfold new_BaseClient.
  destruct eps as [|ep eps]; [done|]. intros (line & _ & [= <- _])%bind_Ok_inv.
  split; [|done]. split; try done.
  - by apply swrap_range.
  - by apply Hk.
Qed.

Lemma new_LocalHost_typed active local_port activate_port eps max read_timeout auto now counter c n :
  in_uint 16 local_port -> in_uint 16 activate_port -> in_sint 32 max -> Forall typed_remote eps ->
  new_LocalHost active local_port activate_port eps max read_timeout auto now counter = Ok (c, n) ->
  typed_client c /\ client_ports c = [local_port].
Proof.
  intros Hp Ha Hm He E. apply new_BaseClient_typed in E as (Ht & Hk & Hl); try done.
  - split; [done|]. unfold client_ports. by rewrite Hk, Hl.
  - intros c' Hk _. unfold typed_kind. by rewrite Hk.
Qed.

Lemma megabytes_range i z : megabytes i = Ok z -> in_uint 64 z.
Proof.
  unfold megabytes. case_bool_decide; [|done]. case_bool_decide; [|done]. intros [= <-].
  by apply wrap_range.
Qed.

Lemma new_ProviderClient_typed active activate_port locals eps (item : J) now counter c n :
  in_uint 16 activate_port -> Forall typed_local locals -> locals <> [] -> Forall typed_remote eps ->
  new_ProviderClient active activate_port locals eps item now counter = Ok (c, n) ->
  typed_client c /\ client_ports c = [].
Proof.
  intros Ha Hl Hne He. unfold new_ProviderClient.
  intros ([c1 id] & Ec & E)%bind_Ok_inv. apply bind_Ok_inv in E as ([found i] & _ & E).
  apply bind_Ok_inv in E as (size & Es & E). apply bind_Ok_inv in E as ([b use] & _ & [= <- _]).
  apply new_BaseClient_typed in Ec as ([] & Hk & Hp); try done.
  - split; [|done]. split; try done. cbn. split; [done|]. split; [done|]. split; [done|].
    destruct found; [|by injection Es as <-].
    apply bind_Ok_inv in Es as (? & _ & Es). by eapply megabytes_range.
  - intros c' Hk Hp. unfold typed_kind. by rewrite Hk.
Qed.

(** The client of an entry has a port of its own. *)
Lemma typed_clients_add (item : J) now counter clients c n :
  typed_clients clients ->
  make_client parse_duration item now counter clients = Ok (Some c, n) ->
  typed_clients (clients ++ [c]).
Proof.
  intros Ht. unfold make_client.
  intros (active & _ & E)%bind_Ok_inv. apply bind_Ok_inv in E as (provider & _ & E).
  apply bind_Ok_inv in E as (port & _ & E). apply bind_Ok_inv in E as (aport & _ & E).
  destruct (existsb _ clients) eqn:Ex; [done|].
  apply bind_Ok_inv in E as ([found shelp] & _ & E). apply bind_Ok_inv in E as ([b auto] & _ & E).
  apply bind_Ok_inv in E as (max & Em & E). apply bind_Ok_inv in E as ([eps item1] & Er & E).
  apply (load_member_typed typed_remote) in Er; [|apply typed_remote_load].
  apply check_int_default_range in Em; [|unfold in_sint; lia].
  assert (in_uint 16 (wrap 16 port)) as Hp by by apply wrap_range.
  assert (in_uint 16 (wrap 16 aport)) as Ha by by apply wrap_range.
  destruct provider.
  - apply bind_Ok_inv in E as ([locals item2] & El & E).
    apply (load_member_typed typed_local) in El;
      [|by intros ? ?; apply typed_local_load; unfold LocalEndpoint_ok, in_uint; cbn; lia].
    revert E. case_bool_decide as Hne; [done|].
    intros ([c' n'] & Ec & [= <- _])%bind_Ok_inv.
    apply new_ProviderClient_typed in Ec as [Hc Hk]; [|done..].
    apply typed_list_snoc; [done..| |]; rewrite Hk; [constructor|set_solver].
  - destruct (active && _); [|done].
    apply bind_Ok_inv in E as ([c' n'] & Ec & [= <- _]).
    apply new_LocalHost_typed in Ec as [Hc Hk]; [|done..].
    apply typed_list_snoc; [done..| |]; rewrite Hk; [apply list.NoDup_singleton|].
    intros k y ->%list_elem_of_singleton Hy. unfold client_ports.
    destruct (m_kind y); [|set_solver]. intros E%list_elem_of_singleton.
    apply list_elem_of_In in Hy.
    assert (existsb (fun c => wrap 16 port =? m_local_port c) clients = true) as Hex
      by (apply existsb_exists; exists y; split; [done|by apply Z.eqb_eq]).
    by rewrite Hex in Ex.
Qed.

End clients.

(** ** Lemmas: the operations on the program's state *)

(** The lists, the proxies and the numbers are replaced one at a time. *)
Lemma typed_set_lists g hosts clients :
  typed_global g -> typed_hosts hosts -> typed_clients clients ->
  typed_global (set_lists hosts clients g).
Proof. intros [] Hh Hc. by split. Qed.

Lemma typed_set_counters i n g : typed_global g -> typed_global (set_counters i n g).
Proof. intros []. by split. Qed.

Lemma typed_reset g : typed_global g -> typed_global (reset g).
Proof. intros []. split; try done; cbn; unfold in_uint, in_sint; lia. Qed.

Lemma typed_set_settings b t p s v n l g :
  in_uint 16 p -> in_sint 32 v -> typed_global g -> typed_global (set_settings b t p s v n l g).
Proof. intros Hp Hv []. by split. Qed.

Lemma typed_set_web_port p g : in_uint 16 p -> typed_global g -> typed_global (set_web_port p g).
Proof. intros Hp []. by split. Qed.

Lemma typed_on_hosts {A} (m : st (list RemoteProxyHost) A) :
  (forall hosts, evolves same_host hosts (fst (m hosts))) ->
  preserves (keeping typed_global) (on_hosts m).
Proof.
  intros Hm g g' r. unfold on_hosts. specialize (Hm (remotehosts g)).
  destruct (m (remotehosts g)) as [hosts r']. intros [= <- _] Hg.
  apply typed_set_lists; [done| |apply Hg]. apply (typed_list_evolves _ _ _ _ Hm), Hg.
Qed.

Lemma typed_on_clients {A} (m : st (list BaseClient) A) :
  (forall clients, evolves same_client clients (fst (m clients))) ->
  preserves (keeping typed_global) (on_clients m).
Proof.
  intros Hm g g' r. unfold on_clients. specialize (Hm (localclients g)).
  destruct (m (localclients g)) as [clients r']. intros [= <- _] Hg.
  apply typed_set_lists; [done|apply Hg|]. apply (typed_list_evolves _ _ _ _ Hm), Hg.
Qed.

Lemma typed_on_uniproxies {A} (m : st (list LocalEndpoint) A) :
  preserves (keeping (Forall typed_local)) m ->
  preserves (keeping typed_global) (on_uniproxies m).
Proof.
  intros Hm g g' r. unfold on_uniproxies. destruct (m (uniproxies g)) as [l r'] eqn:E.
  intros [= <- _] []. split; try done. by apply (Hm _ _ _ E).
Qed.

Section populate.
Context `{JsonRange J}.
Context (parse_duration : list ascii -> Z -> Z).

Lemma populate_clients_typed (items : list J) now :
  preserves (keeping typed_global) (populate_clients parse_duration items now).
Proof.
  induction items as [|item items IH]; cbn [populate_clients]; [apply preserves_ret; exact _|].
  intros g g' r. rewrite st_bind_gets.
  destruct (make_client _ _ _ _ _) as [[c counter]|e|] eqn:Ec; [|by intros [= <- _]..].
  rewrite st_bind_lift, st_bind_modify. intros E Hg. apply (IH _ _ _ E).
  apply typed_set_counters, typed_set_lists; [done|apply Hg|].
  destruct c as [c|]; [|rewrite app_nil_r; apply Hg].
  eapply typed_clients_add; [apply Hg|exact Ec].
Qed.

Lemma populate_hosts_typed plugins (items : list J) :
  preserves (keeping typed_global) (populate_hosts plugins items).
Proof.
  induction items as [|item items IH]; cbn [populate_hosts]; [apply preserves_ret; exact _|].
  intros g g' r E Hg.
  apply st_bind_split in E as [(g1 & found & E1 & E)|(r1 & E1 & _)].
  2:{ by apply (typed_on_hosts _ (update_hosts_evolves item) _ _ _ E1). }
  assert (typed_global g1) as Hg1 by by apply (typed_on_hosts _ (update_hosts_evolves item) _ _ _ E1).
  match type of E with (?m ≫= _) _ = _ =>
    assert (forall g2 r2, m g1 = (g2, r2) -> typed_global g2) as H2 end.
  { intros g2 r2 E2. destruct found; [by injection E2 as <- _|]. rewrite st_bind_gets in E2.
    destruct (make_host _ _ _) as [[h counter]|e|] eqn:Eh; [|by injection E2 as <- _..].
    rewrite st_bind_lift, st_bind_modify in E2. injection E2 as <- _.
    apply (typed_set_lists (set_counters _ _ g1)); [by apply typed_set_counters| |apply Hg1].
    destruct h as [h|]; [|rewrite app_nil_r; apply Hg1].
    unfold on_hosts in E1. destruct (update_hosts item (remotehosts g)) as [hosts r3] eqn:Eu.
    injection E1 as <- ->. destruct (update_hosts_other _ _ _ Eu) as [-> Hs].
    by apply (typed_hosts_add plugins item _ h _ (remotehosts g) (global_hosts _ Hg) Hs Eh). }
  apply st_bind_split in E as [(g2 & u & E2 & E)|(r2 & E2 & _)]; [|by apply (H2 _ _ E2)].
  by apply (IH _ _ _ E), (H2 _ _ E2).
Qed.

Lemma uniproxies_loop_typed (items : list J) :
  preserves (keeping (Forall typed_local)) (uniproxies_loop items).
Proof.
  induction items as [|item items IH]; cbn [uniproxies_loop]; [apply preserves_ret; exact _|].
  apply keeping_lift. intros [ok ep] El.
  apply keeping_bind; [|done]. apply keeping_modify. intros l Hl.
  destruct ok; [|done]. cbn [andb]. destruct (negb _); [|done].
  apply List.Forall_app. split; [done|]. constructor; [|done].
  eapply typed_local_load; [|exact El]. unfold LocalEndpoint_ok, in_uint. cbn. lia.
Qed.

(** Each setting is read with the old one as its default. *)
Lemma populate_config_typed (o : J) : preserves (keeping typed_global) (populate_config parse_duration o).
Proof.
  unfold populate_config. apply keeping_gets. intros g Hg.
  repeat match goal with
    | |- preserves _ (lift ?m ≫= _) => apply keeping_lift; intros ? ?
    | x : _ * _ |- _ => destruct x
    | |- preserves _ (modify _ ≫= _) =>
        apply keeping_bind; [apply keeping_modify; intros s Hs; destruct Hs;
                             apply typed_set_settings; try done|intros ?]
    end.
  - eapply check_port_range; [|eassumption]. apply Hg.
  - match goal with Hu : use_int ?x = Ok _, Hc : check_int _ _ _ = Ok (_, ?x) |- _ =>
      destruct x as [n|]; [injection Hu as <-|done]; eapply check_int_range; [|exact Hc] end.
    intros m [= <-]. apply Hg.
  - destruct (bool_decide _); [|apply preserves_ret; exact _].
    apply keeping_lift. intros items _. apply typed_on_uniproxies, uniproxies_loop_typed.
Qed.

Lemma populate_web_typed (v : J) :
  preserves (keeping typed_global)
    (g ← gets (fun g => g);
     '(_, port) ← lift (check_port v (lit "port") (m_web_port g));
     modify (set_web_port port)).
Proof.
  apply keeping_gets. intros g Hg. apply keeping_lift. intros [b p] Ep.
  apply keeping_modify. intros g' Hg'. apply typed_set_web_port; [|done].
  eapply check_port_range; [|exact Ep]. apply Hg.
Qed.

Lemma populate_json_typed plugins (o : J) acl now :
  preserves (keeping typed_global) (populate_json parse_duration plugins o acl now).
Proof.
  pose proof populate_clients_typed. pose proof populate_hosts_typed.
  pose proof populate_config_typed. pose proof populate_web_typed.
  unfold populate_json.
  apply keeping_bind; [apply keeping_modify, typed_reset|intros _]. frames.
Qed.

End populate.

(** Every operation of the program on its state keeps the invariant. *)
#[export] Instance typed_steps `{JsonRange J} `{!Environment J} :
  GlobalSteps (keeping typed_global) (J := J).
Proof.
  split; [exact _|intros; apply populate_json_typed|..].
  - intros o. unfold unpopulate_json. apply keeping_bind.
    + apply typed_on_clients, unpopulate_clients_evolves.
    + intros o'. apply typed_on_hosts, unpopulate_hosts_evolves.
  - unfold lock. apply keeping_bind; [apply typed_on_hosts, start_hosts_evolves|intros _].
    apply typed_on_clients, start_clients_evolves.
  - intros. apply typed_on_clients, activate_clients_evolves.
  - intros. apply typed_on_clients, set_active_clients_evolves.
  - intros. apply typed_on_hosts, set_active_hosts_evolves.
  - intros g Hg. apply typed_set_lists; [done|apply typed_list_nil..].
Qed.

Lemma typed_new : typed_global new_proxy_global.
Proof. by split; [apply typed_list_nil|apply typed_list_nil|constructor|..]. Qed.

(** ** Properties *)


(** ** Witnesses *)

